(** * nrl: a line editor for Unix terminals.

    Shallow embedding of the edit engine of [nrl.cc] (the variant built
    around [struct handle], with [prepare]/[process]/[read]) and the
    properties of its specification that were checked against it.

    Conventions of the embedding:
    - a byte is a [Z] in [0, 256); [unsigned] is a [Z] with the 32-bit
      wrap-around written out ([u32]); [size_t] values are lengths of lists;
    - [std::vector] is a list, indexed through [Z.to_nat];
    - a function of the program is a state transformer on [handle] that also
      returns the bytes it writes to the terminal; a failed [assert] and
      undefined behaviour (out-of-range vector access, a null pointer from
      libunistring that is then used) end the run: the result is [None];
    - libunistring (u8_ functions) and libtermkey (key events) are outside of
      the repository; they are modelled after their documentation. *)

From Stdlib Require Import ZArith List Bool Lia.
Import ListNotations.
Local Open Scope Z_scope.

(** ** Machine integers *)

Definition u8 (x : Z) : Z := x mod 256.
Definition u32 (x : Z) : Z := x mod 2 ^ 32.
Definition u64 (x : Z) : Z := x mod 2 ^ 64.

(** Conversion of an [unsigned] to [int] (two's complement). *)
Definition to_int (x : Z) : Z :=
  let y := u32 x in if y <? 2 ^ 31 then y else y - 2 ^ 32.

Definition is_byte (b : Z) : bool := (0 <=? b) && (b <? 256).

(** ** Vectors *)

Definition zlength {A} (l : list A) : Z := Z.of_nat (length l).

(** [v[i]]; out of range is undefined behaviour. *)
Definition zget {A} (l : list A) (i : Z) : option A :=
  if i <? 0 then None else nth_error l (Z.to_nat i).

Definition ztake {A} (i : Z) (l : list A) : list A := firstn (Z.to_nat i) l.
Definition zdrop {A} (i : Z) (l : list A) : list A := skipn (Z.to_nat i) l.

(** [v.insert(v.begin() + i, first, last)] *)
Definition vinsert {A} (l : list A) (i : Z) (ins : list A) : list A :=
  ztake i l ++ ins ++ zdrop i l.

(** [v.erase(v.begin() + a, v.begin() + b)] *)
Definition verase {A} (l : list A) (a b : Z) : list A :=
  ztake a l ++ zdrop b l.

(** [v.resize(n)] of a vector of [unsigned]: new elements are zero. *)
Definition vresize (l : list Z) (n : Z) : list Z :=
  ztake n l ++ repeat 0 (Z.to_nat n - length l).

(** The bytes [p .. p + n) of a vector, as handed to [write]. *)
Definition slice (l : list Z) (p n : Z) : list Z := ztake n (zdrop p l).

(** ** libunistring

    Modelled after the library's documentation: the functions work on
    arrays of UTF-8 code units. *)

Module Unistr.

(** [(b ^ 0x80) < 0x40]: [b] is a continuation byte. *)
Definition is_cont (b : Z) : bool := Z.lxor b 0x80 <? 0x40.

Inductive mbchar : Type :=
| MbChar (uc : Z) (n : Z)   (* a character of [n] units *)
| MbInvalid                 (* -1, character 0xfffd *)
| MbIncomplete.             (* -2, character 0xfffd *)

Definition uc2 (c s1 : Z) : Z :=
  Z.lor (Z.shiftl (Z.land c 0x1f) 6) (Z.lxor s1 0x80).
Definition uc3 (c s1 s2 : Z) : Z :=
  Z.lor (Z.lor (Z.shiftl (Z.land c 0x0f) 12) (Z.shiftl (Z.lxor s1 0x80) 6))
        (Z.lxor s2 0x80).
Definition uc4 (c s1 s2 s3 : Z) : Z :=
  Z.lor (Z.lor (Z.lor (Z.shiftl (Z.land c 0x07) 18)
                      (Z.shiftl (Z.lxor s1 0x80) 12))
               (Z.shiftl (Z.lxor s2 0x80) 6))
        (Z.lxor s3 0x80).

(** The first character of the units [s] (all the units that are
    available): the common core of [u8_mbtoucr] and [u8_strmbtouc].
    No unit available: the C code reads [s[0]] all the same, [None]. *)
Definition decode1 (s : list Z) : option mbchar :=
  match s with
  | [] => None
  | c :: t =>
    Some
      (if c <? 0x80 then MbChar c 1
       else if 0xc2 <=? c then
         if c <? 0xe0 then
           match t with
           | [] => MbIncomplete
           | s1 :: _ => if is_cont s1 then MbChar (uc2 c s1) 2 else MbInvalid
           end
         else if c <? 0xf0 then
           match t with
           | [] => MbIncomplete
           | s1 :: t1 =>
             if is_cont s1 && ((0xe1 <=? c) || (0xa0 <=? s1))
                && (negb (c =? 0xed) || (s1 <? 0xa0))
             then match t1 with
                  | [] => MbIncomplete
                  | s2 :: _ =>
                    if is_cont s2 then MbChar (uc3 c s1 s2) 3 else MbInvalid
                  end
             else MbInvalid
           end
         else if c <=? 0xf4 then
           match t with
           | [] => MbIncomplete
           | s1 :: t1 =>
             if is_cont s1 && ((0xf1 <=? c) || (0x90 <=? s1))
                && ((c <? 0xf4) || (s1 <? 0x90))
             then match t1 with
                  | [] => MbIncomplete
                  | s2 :: t2 =>
                    if is_cont s2 then
                      match t2 with
                      | [] => MbIncomplete
                      | s3 :: _ =>
                        if is_cont s3 then MbChar (uc4 c s1 s2 s3) 4
                        else MbInvalid
                      end
                    else MbInvalid
                  end
             else MbInvalid
           end
         else MbInvalid
       else MbInvalid)
  end.

(** [u8_mbtoucr (&uc, s, n)]: the character and the return value. *)
Definition u8_mbtoucr (s : list Z) : option (Z * Z) :=
  match decode1 s with
  | None => None
  | Some (MbChar uc n) => Some (uc, n)
  | Some MbInvalid => Some (0xfffd, -1)
  | Some MbIncomplete => Some (0xfffd, -2)
  end.

(** [u8_next (&uc, s)] on the units from [s] on: the character that is
    stored in [uc], and the number of units to the next character, where
    [None] is the null pointer (end of string, that is a NUL unit, or an
    invalid character).  The function expects a NUL-terminated string:
    a character that is cut off by the end of the units makes it read
    beyond them, the outer [None]. *)
Definition u8_next (s : list Z) : option (Z * option Z) :=
  match decode1 s with
  | Some (MbChar uc n) => Some (uc, if uc =? 0 then None else Some n)
  | Some MbInvalid => Some (0xfffd, None)
  | Some MbIncomplete | None => None
  end.

(** [u8_prev (&uc, buf + s, buf)]: the character before index [s] and the
    index where it starts; [None] is the null pointer. *)
Definition u8_prev (buf : list Z) (s : Z) : option (Z * Z) :=
  match rev (ztake s buf) with
  | [] => None
  | c_1 :: t1 =>
    if c_1 <? 0x80 then Some (c_1, s - 1)
    else if is_cont c_1 then
      match t1 with
      | [] => None
      | c_2 :: t2 =>
        if (0xc2 <=? c_2) && (c_2 <? 0xe0) then Some (uc2 c_2 c_1, s - 2)
        else if is_cont c_2 then
          match t2 with
          | [] => None
          | c_3 :: t3 =>
            if (0xe0 <=? c_3) && (c_3 <? 0xf0)
               && ((0xe1 <=? c_3) || (0xa0 <=? c_2))
               && (negb (c_3 =? 0xed) || (c_2 <? 0xa0))
            then Some (uc3 c_3 c_2 c_1, s - 3)
            else if is_cont c_3 then
              match t3 with
              | [] => None
              | c_4 :: _ =>
                if (0xf0 <=? c_4) && (c_4 <=? 0xf4)
                   && ((0xf1 <=? c_4) || (0x90 <=? c_3))
                   && ((c_4 <? 0xf4) || (c_3 <? 0x90))
                then Some (uc4 c_4 c_3 c_2 c_1, s - 4)
                else None
              end
            else None
          end
        else None
      end
    else None
  end.

(** [u8_strnlen (s, maxlen)]: the number of units before the first NUL
    unit, at most [maxlen] (the length of [s] here). *)
Fixpoint u8_strnlen (s : list Z) : Z :=
  match s with
  | [] => 0
  | c :: t => if c =? 0 then 0 else 1 + u8_strnlen t
  end.

(** [u8_mbsnlen (s, n)]: the number of characters in the [n] units of
    [s].  An ill-formed unit counts as one character (the library skips
    a maximal ill-formed prefix there, which can be longer). *)
Fixpoint mbsnlen_loop (fuel : nat) (s : list Z) : Z :=
  match fuel with
  | O => 0
  | S fuel' =>
    match decode1 s with
    | None => 0
    | Some (MbChar _ n) => 1 + mbsnlen_loop fuel' (zdrop n s)
    | Some MbIncomplete => 1
    | Some MbInvalid => 1 + mbsnlen_loop fuel' (zdrop 1 s)
    end
  end.

Definition u8_mbsnlen (s : list Z) : Z := mbsnlen_loop (length s) s.

(** [u8_uctomb (buf, uc, 8)]: the units of [uc]; [None] is the return
    value -1 (a surrogate, or beyond 0x10ffff). *)
Definition u8_uctomb (uc : Z) : option (list Z) :=
  if uc <? 0x80 then Some [uc]
  else if uc <? 0x800 then
    Some [Z.lor 0xc0 (Z.shiftr uc 6); Z.lor 0x80 (Z.land uc 0x3f)]
  else if uc <? 0x10000 then
    if (uc <? 0xd800) || (0xe000 <=? uc) then
      Some [Z.lor 0xe0 (Z.shiftr uc 12);
            Z.lor 0x80 (Z.land (Z.shiftr uc 6) 0x3f);
            Z.lor 0x80 (Z.land uc 0x3f)]
    else None
  else if uc <? 0x110000 then
    Some [Z.lor 0xf0 (Z.shiftr uc 18);
          Z.lor 0x80 (Z.land (Z.shiftr uc 12) 0x3f);
          Z.lor 0x80 (Z.land (Z.shiftr uc 6) 0x3f);
          Z.lor 0x80 (Z.land uc 0x3f)]
  else None.

End Unistr.
Import Unistr.

(** ** Well-formed UTF-8 *)

(** The characters of a byte string with their units, [None] when the
    string is not well-formed UTF-8. *)
Fixpoint utf8_chars (fuel : nat) (s : list Z) : option (list (Z * list Z)) :=
  match s with
  | [] => Some []
  | _ :: _ =>
    match fuel with
    | O => None
    | S fuel' =>
      match decode1 s with
      | Some (MbChar uc n) =>
        match utf8_chars fuel' (zdrop n s) with
        | Some cs => Some ((uc, ztake n s) :: cs)
        | None => None
        end
      | _ => None
      end
    end
  end.

Definition utf8_decode (s : list Z) : option (list (Z * list Z)) :=
  if forallb is_byte s then utf8_chars (length s) s else None.

Definition utf8_valid (s : list Z) : bool :=
  match utf8_decode s with Some _ => true | None => false end.

(** The number of codepoints of a well-formed string. *)
Definition codepoint_count (s : list Z) : option Z :=
  option_map (fun cs => zlength cs) (utf8_decode s).

(** ** libtermkey

    Key events as the decoder delivers them ([termkey.h]). *)

Inductive TermKeyType : Type :=
| TERMKEY_TYPE_UNICODE | TERMKEY_TYPE_FUNCTION | TERMKEY_TYPE_KEYSYM
| TERMKEY_TYPE_MOUSE | TERMKEY_TYPE_POSITION | TERMKEY_TYPE_MODEREPORT
| TERMKEY_TYPE_DCS | TERMKEY_TYPE_OSC | TERMKEY_TYPE_UNKNOWN_CSI.

Inductive TermKeyResult : Type :=
| TERMKEY_RES_NONE | TERMKEY_RES_KEY | TERMKEY_RES_EOF | TERMKEY_RES_AGAIN
| TERMKEY_RES_ERROR.

Definition TERMKEY_KEYMOD_SHIFT : Z := 1.
Definition TERMKEY_KEYMOD_ALT : Z := 2.
Definition TERMKEY_KEYMOD_CTRL : Z := 4.

Definition TERMKEY_SYM_BACKSPACE : Z := 1.
Definition TERMKEY_SYM_ENTER : Z := 3.
Definition TERMKEY_SYM_UP : Z := 7.
Definition TERMKEY_SYM_DOWN : Z := 8.
Definition TERMKEY_SYM_LEFT : Z := 9.
Definition TERMKEY_SYM_RIGHT : Z := 10.
Definition TERMKEY_SYM_INSERT : Z := 13.
Definition TERMKEY_SYM_DELETE : Z := 14.
Definition TERMKEY_SYM_HOME : Z := 18.
Definition TERMKEY_SYM_END : Z := 19.

(** [TermKeyKey]: [code] is the union member that [type] selects
    ([code.codepoint] or [code.sym]). *)
Record TermKeyKey : Type := mk_key {
  type : TermKeyType;
  code : Z;
  modifiers : Z
}.

(** ** Session state ([nrl.hh]) *)

Inductive state : Type := invalid | open | closed.

Definition state_eqb (a b : state) : bool :=
  match a, b with
  | invalid, invalid | open, open | closed, closed => true
  | _, _ => false
  end.

(** [terminal::info::color] *)
Module Color.
Record t : Type := mk { r : Z; g : Z; b : Z }.
End Color.
Abbreviation color := Color.t.

Definition color_eqb (x y : color) : bool :=
  (Color.r x =? Color.r y) && (Color.g x =? Color.g y)
  && (Color.b x =? Color.b y).

(** [terminal::info::color{}] *)
Definition color_none : color := Color.mk 0 0 0.

(** What the editor reads of [terminal::info]. *)
Record terminal_info : Type := mk_info {
  default_foreground : color;
  default_background : color;
  scroll_markers : bool
}.

(** [handle::flags] *)
Definition flags_none : Z := 0.
Definition flags_frame_line : Z := 1.
Definition flags_frame_background : Z := 2.
Definition flags_frame : Z := 3.

(** [std::variant<std::string, string_callback>]: the callback's result
    is an input of [prepare]. *)
Inductive prompt_source : Type :=
| prompt_string (p : list Z)
| prompt_callback.

Record handle : Type := mk_handle {
  buffer : list Z;
  line_offset : list Z;
  filled : Z;
  returned : Z;
  max_lines : Z;
  prompt : prompt_source;
  empty_message : list Z;
  empty_message_fg : color;
  fd : Z;
  fl : Z;
  term_state : state;
  info : terminal_info;
  term_rows : Z;
  term_cols : Z;
  cur_frame_lines : Z;
  frame_highlight_fg : color;
  text_default_fg : color;
  text_default_bg : color;
  tkfd : Z;
  old_mask : Z;
  sigfd : Z;
  epfd : Z;
  extern_epfd : bool;
  multiline : bool;
  insert : bool;
  osc133 : bool;
  initial_col : Z;
  initial_row : Z;
  offset : Z;
  nchars : Z;
  pos_x : Z;
  requested_pos_x : Z;
  pos_y : Z;
  first : Z;
  prompt_len : Z
}.

Definition set_buffer (v : list Z) (s : handle) : handle :=
  {| buffer := v; line_offset := line_offset s; filled := filled s; returned := returned s;
     max_lines := max_lines s; prompt := prompt s; empty_message := empty_message s;
     empty_message_fg := empty_message_fg s; fd := fd s; fl := fl s; term_state := term_state s;
     info := info s; term_rows := term_rows s; term_cols := term_cols s;
     cur_frame_lines := cur_frame_lines s; frame_highlight_fg := frame_highlight_fg s;
     text_default_fg := text_default_fg s; text_default_bg := text_default_bg s; tkfd := tkfd s;
     old_mask := old_mask s; sigfd := sigfd s; epfd := epfd s; extern_epfd := extern_epfd s;
     multiline := multiline s; insert := insert s; osc133 := osc133 s;
     initial_col := initial_col s; initial_row := initial_row s; offset := offset s;
     nchars := nchars s; pos_x := pos_x s; requested_pos_x := requested_pos_x s;
     pos_y := pos_y s; first := first s; prompt_len := prompt_len s |}.

Definition set_line_offset (v : list Z) (s : handle) : handle :=
  {| buffer := buffer s; line_offset := v; filled := filled s; returned := returned s;
     max_lines := max_lines s; prompt := prompt s; empty_message := empty_message s;
     empty_message_fg := empty_message_fg s; fd := fd s; fl := fl s; term_state := term_state s;
     info := info s; term_rows := term_rows s; term_cols := term_cols s;
     cur_frame_lines := cur_frame_lines s; frame_highlight_fg := frame_highlight_fg s;
     text_default_fg := text_default_fg s; text_default_bg := text_default_bg s; tkfd := tkfd s;
     old_mask := old_mask s; sigfd := sigfd s; epfd := epfd s; extern_epfd := extern_epfd s;
     multiline := multiline s; insert := insert s; osc133 := osc133 s;
     initial_col := initial_col s; initial_row := initial_row s; offset := offset s;
     nchars := nchars s; pos_x := pos_x s; requested_pos_x := requested_pos_x s;
     pos_y := pos_y s; first := first s; prompt_len := prompt_len s |}.

Definition set_max_lines (v : Z) (s : handle) : handle :=
  {| buffer := buffer s; line_offset := line_offset s; filled := filled s;
     returned := returned s; max_lines := v; prompt := prompt s;
     empty_message := empty_message s; empty_message_fg := empty_message_fg s; fd := fd s;
     fl := fl s; term_state := term_state s; info := info s; term_rows := term_rows s;
     term_cols := term_cols s; cur_frame_lines := cur_frame_lines s;
     frame_highlight_fg := frame_highlight_fg s; text_default_fg := text_default_fg s;
     text_default_bg := text_default_bg s; tkfd := tkfd s; old_mask := old_mask s;
     sigfd := sigfd s; epfd := epfd s; extern_epfd := extern_epfd s; multiline := multiline s;
     insert := insert s; osc133 := osc133 s; initial_col := initial_col s;
     initial_row := initial_row s; offset := offset s; nchars := nchars s; pos_x := pos_x s;
     requested_pos_x := requested_pos_x s; pos_y := pos_y s; first := first s;
     prompt_len := prompt_len s |}.

Definition set_empty_message_fg (v : color) (s : handle) : handle :=
  {| buffer := buffer s; line_offset := line_offset s; filled := filled s;
     returned := returned s; max_lines := max_lines s; prompt := prompt s;
     empty_message := empty_message s; empty_message_fg := v; fd := fd s; fl := fl s;
     term_state := term_state s; info := info s; term_rows := term_rows s;
     term_cols := term_cols s; cur_frame_lines := cur_frame_lines s;
     frame_highlight_fg := frame_highlight_fg s; text_default_fg := text_default_fg s;
     text_default_bg := text_default_bg s; tkfd := tkfd s; old_mask := old_mask s;
     sigfd := sigfd s; epfd := epfd s; extern_epfd := extern_epfd s; multiline := multiline s;
     insert := insert s; osc133 := osc133 s; initial_col := initial_col s;
     initial_row := initial_row s; offset := offset s; nchars := nchars s; pos_x := pos_x s;
     requested_pos_x := requested_pos_x s; pos_y := pos_y s; first := first s;
     prompt_len := prompt_len s |}.

Definition set_term_state (v : state) (s : handle) : handle :=
  {| buffer := buffer s; line_offset := line_offset s; filled := filled s;
     returned := returned s; max_lines := max_lines s; prompt := prompt s;
     empty_message := empty_message s; empty_message_fg := empty_message_fg s; fd := fd s;
     fl := fl s; term_state := v; info := info s; term_rows := term_rows s;
     term_cols := term_cols s; cur_frame_lines := cur_frame_lines s;
     frame_highlight_fg := frame_highlight_fg s; text_default_fg := text_default_fg s;
     text_default_bg := text_default_bg s; tkfd := tkfd s; old_mask := old_mask s;
     sigfd := sigfd s; epfd := epfd s; extern_epfd := extern_epfd s; multiline := multiline s;
     insert := insert s; osc133 := osc133 s; initial_col := initial_col s;
     initial_row := initial_row s; offset := offset s; nchars := nchars s; pos_x := pos_x s;
     requested_pos_x := requested_pos_x s; pos_y := pos_y s; first := first s;
     prompt_len := prompt_len s |}.

Definition set_term_rows (v : Z) (s : handle) : handle :=
  {| buffer := buffer s; line_offset := line_offset s; filled := filled s;
     returned := returned s; max_lines := max_lines s; prompt := prompt s;
     empty_message := empty_message s; empty_message_fg := empty_message_fg s; fd := fd s;
     fl := fl s; term_state := term_state s; info := info s; term_rows := v;
     term_cols := term_cols s; cur_frame_lines := cur_frame_lines s;
     frame_highlight_fg := frame_highlight_fg s; text_default_fg := text_default_fg s;
     text_default_bg := text_default_bg s; tkfd := tkfd s; old_mask := old_mask s;
     sigfd := sigfd s; epfd := epfd s; extern_epfd := extern_epfd s; multiline := multiline s;
     insert := insert s; osc133 := osc133 s; initial_col := initial_col s;
     initial_row := initial_row s; offset := offset s; nchars := nchars s; pos_x := pos_x s;
     requested_pos_x := requested_pos_x s; pos_y := pos_y s; first := first s;
     prompt_len := prompt_len s |}.

Definition set_term_cols (v : Z) (s : handle) : handle :=
  {| buffer := buffer s; line_offset := line_offset s; filled := filled s;
     returned := returned s; max_lines := max_lines s; prompt := prompt s;
     empty_message := empty_message s; empty_message_fg := empty_message_fg s; fd := fd s;
     fl := fl s; term_state := term_state s; info := info s; term_rows := term_rows s;
     term_cols := v; cur_frame_lines := cur_frame_lines s;
     frame_highlight_fg := frame_highlight_fg s; text_default_fg := text_default_fg s;
     text_default_bg := text_default_bg s; tkfd := tkfd s; old_mask := old_mask s;
     sigfd := sigfd s; epfd := epfd s; extern_epfd := extern_epfd s; multiline := multiline s;
     insert := insert s; osc133 := osc133 s; initial_col := initial_col s;
     initial_row := initial_row s; offset := offset s; nchars := nchars s; pos_x := pos_x s;
     requested_pos_x := requested_pos_x s; pos_y := pos_y s; first := first s;
     prompt_len := prompt_len s |}.

Definition set_cur_frame_lines (v : Z) (s : handle) : handle :=
  {| buffer := buffer s; line_offset := line_offset s; filled := filled s;
     returned := returned s; max_lines := max_lines s; prompt := prompt s;
     empty_message := empty_message s; empty_message_fg := empty_message_fg s; fd := fd s;
     fl := fl s; term_state := term_state s; info := info s; term_rows := term_rows s;
     term_cols := term_cols s; cur_frame_lines := v; frame_highlight_fg := frame_highlight_fg s;
     text_default_fg := text_default_fg s; text_default_bg := text_default_bg s; tkfd := tkfd s;
     old_mask := old_mask s; sigfd := sigfd s; epfd := epfd s; extern_epfd := extern_epfd s;
     multiline := multiline s; insert := insert s; osc133 := osc133 s;
     initial_col := initial_col s; initial_row := initial_row s; offset := offset s;
     nchars := nchars s; pos_x := pos_x s; requested_pos_x := requested_pos_x s;
     pos_y := pos_y s; first := first s; prompt_len := prompt_len s |}.

Definition set_old_mask (v : Z) (s : handle) : handle :=
  {| buffer := buffer s; line_offset := line_offset s; filled := filled s;
     returned := returned s; max_lines := max_lines s; prompt := prompt s;
     empty_message := empty_message s; empty_message_fg := empty_message_fg s; fd := fd s;
     fl := fl s; term_state := term_state s; info := info s; term_rows := term_rows s;
     term_cols := term_cols s; cur_frame_lines := cur_frame_lines s;
     frame_highlight_fg := frame_highlight_fg s; text_default_fg := text_default_fg s;
     text_default_bg := text_default_bg s; tkfd := tkfd s; old_mask := v; sigfd := sigfd s;
     epfd := epfd s; extern_epfd := extern_epfd s; multiline := multiline s; insert := insert s;
     osc133 := osc133 s; initial_col := initial_col s; initial_row := initial_row s;
     offset := offset s; nchars := nchars s; pos_x := pos_x s;
     requested_pos_x := requested_pos_x s; pos_y := pos_y s; first := first s;
     prompt_len := prompt_len s |}.

Definition set_sigfd (v : Z) (s : handle) : handle :=
  {| buffer := buffer s; line_offset := line_offset s; filled := filled s;
     returned := returned s; max_lines := max_lines s; prompt := prompt s;
     empty_message := empty_message s; empty_message_fg := empty_message_fg s; fd := fd s;
     fl := fl s; term_state := term_state s; info := info s; term_rows := term_rows s;
     term_cols := term_cols s; cur_frame_lines := cur_frame_lines s;
     frame_highlight_fg := frame_highlight_fg s; text_default_fg := text_default_fg s;
     text_default_bg := text_default_bg s; tkfd := tkfd s; old_mask := old_mask s; sigfd := v;
     epfd := epfd s; extern_epfd := extern_epfd s; multiline := multiline s; insert := insert s;
     osc133 := osc133 s; initial_col := initial_col s; initial_row := initial_row s;
     offset := offset s; nchars := nchars s; pos_x := pos_x s;
     requested_pos_x := requested_pos_x s; pos_y := pos_y s; first := first s;
     prompt_len := prompt_len s |}.

Definition set_insert (v : bool) (s : handle) : handle :=
  {| buffer := buffer s; line_offset := line_offset s; filled := filled s;
     returned := returned s; max_lines := max_lines s; prompt := prompt s;
     empty_message := empty_message s; empty_message_fg := empty_message_fg s; fd := fd s;
     fl := fl s; term_state := term_state s; info := info s; term_rows := term_rows s;
     term_cols := term_cols s; cur_frame_lines := cur_frame_lines s;
     frame_highlight_fg := frame_highlight_fg s; text_default_fg := text_default_fg s;
     text_default_bg := text_default_bg s; tkfd := tkfd s; old_mask := old_mask s;
     sigfd := sigfd s; epfd := epfd s; extern_epfd := extern_epfd s; multiline := multiline s;
     insert := v; osc133 := osc133 s; initial_col := initial_col s; initial_row := initial_row s;
     offset := offset s; nchars := nchars s; pos_x := pos_x s;
     requested_pos_x := requested_pos_x s; pos_y := pos_y s; first := first s;
     prompt_len := prompt_len s |}.

Definition set_initial_col (v : Z) (s : handle) : handle :=
  {| buffer := buffer s; line_offset := line_offset s; filled := filled s;
     returned := returned s; max_lines := max_lines s; prompt := prompt s;
     empty_message := empty_message s; empty_message_fg := empty_message_fg s; fd := fd s;
     fl := fl s; term_state := term_state s; info := info s; term_rows := term_rows s;
     term_cols := term_cols s; cur_frame_lines := cur_frame_lines s;
     frame_highlight_fg := frame_highlight_fg s; text_default_fg := text_default_fg s;
     text_default_bg := text_default_bg s; tkfd := tkfd s; old_mask := old_mask s;
     sigfd := sigfd s; epfd := epfd s; extern_epfd := extern_epfd s; multiline := multiline s;
     insert := insert s; osc133 := osc133 s; initial_col := v; initial_row := initial_row s;
     offset := offset s; nchars := nchars s; pos_x := pos_x s;
     requested_pos_x := requested_pos_x s; pos_y := pos_y s; first := first s;
     prompt_len := prompt_len s |}.

Definition set_initial_row (v : Z) (s : handle) : handle :=
  {| buffer := buffer s; line_offset := line_offset s; filled := filled s;
     returned := returned s; max_lines := max_lines s; prompt := prompt s;
     empty_message := empty_message s; empty_message_fg := empty_message_fg s; fd := fd s;
     fl := fl s; term_state := term_state s; info := info s; term_rows := term_rows s;
     term_cols := term_cols s; cur_frame_lines := cur_frame_lines s;
     frame_highlight_fg := frame_highlight_fg s; text_default_fg := text_default_fg s;
     text_default_bg := text_default_bg s; tkfd := tkfd s; old_mask := old_mask s;
     sigfd := sigfd s; epfd := epfd s; extern_epfd := extern_epfd s; multiline := multiline s;
     insert := insert s; osc133 := osc133 s; initial_col := initial_col s; initial_row := v;
     offset := offset s; nchars := nchars s; pos_x := pos_x s;
     requested_pos_x := requested_pos_x s; pos_y := pos_y s; first := first s;
     prompt_len := prompt_len s |}.

Definition set_offset (v : Z) (s : handle) : handle :=
  {| buffer := buffer s; line_offset := line_offset s; filled := filled s;
     returned := returned s; max_lines := max_lines s; prompt := prompt s;
     empty_message := empty_message s; empty_message_fg := empty_message_fg s; fd := fd s;
     fl := fl s; term_state := term_state s; info := info s; term_rows := term_rows s;
     term_cols := term_cols s; cur_frame_lines := cur_frame_lines s;
     frame_highlight_fg := frame_highlight_fg s; text_default_fg := text_default_fg s;
     text_default_bg := text_default_bg s; tkfd := tkfd s; old_mask := old_mask s;
     sigfd := sigfd s; epfd := epfd s; extern_epfd := extern_epfd s; multiline := multiline s;
     insert := insert s; osc133 := osc133 s; initial_col := initial_col s;
     initial_row := initial_row s; offset := v; nchars := nchars s; pos_x := pos_x s;
     requested_pos_x := requested_pos_x s; pos_y := pos_y s; first := first s;
     prompt_len := prompt_len s |}.

Definition set_nchars (v : Z) (s : handle) : handle :=
  {| buffer := buffer s; line_offset := line_offset s; filled := filled s;
     returned := returned s; max_lines := max_lines s; prompt := prompt s;
     empty_message := empty_message s; empty_message_fg := empty_message_fg s; fd := fd s;
     fl := fl s; term_state := term_state s; info := info s; term_rows := term_rows s;
     term_cols := term_cols s; cur_frame_lines := cur_frame_lines s;
     frame_highlight_fg := frame_highlight_fg s; text_default_fg := text_default_fg s;
     text_default_bg := text_default_bg s; tkfd := tkfd s; old_mask := old_mask s;
     sigfd := sigfd s; epfd := epfd s; extern_epfd := extern_epfd s; multiline := multiline s;
     insert := insert s; osc133 := osc133 s; initial_col := initial_col s;
     initial_row := initial_row s; offset := offset s; nchars := v; pos_x := pos_x s;
     requested_pos_x := requested_pos_x s; pos_y := pos_y s; first := first s;
     prompt_len := prompt_len s |}.

Definition set_pos_x (v : Z) (s : handle) : handle :=
  {| buffer := buffer s; line_offset := line_offset s; filled := filled s;
     returned := returned s; max_lines := max_lines s; prompt := prompt s;
     empty_message := empty_message s; empty_message_fg := empty_message_fg s; fd := fd s;
     fl := fl s; term_state := term_state s; info := info s; term_rows := term_rows s;
     term_cols := term_cols s; cur_frame_lines := cur_frame_lines s;
     frame_highlight_fg := frame_highlight_fg s; text_default_fg := text_default_fg s;
     text_default_bg := text_default_bg s; tkfd := tkfd s; old_mask := old_mask s;
     sigfd := sigfd s; epfd := epfd s; extern_epfd := extern_epfd s; multiline := multiline s;
     insert := insert s; osc133 := osc133 s; initial_col := initial_col s;
     initial_row := initial_row s; offset := offset s; nchars := nchars s; pos_x := v;
     requested_pos_x := requested_pos_x s; pos_y := pos_y s; first := first s;
     prompt_len := prompt_len s |}.

Definition set_requested_pos_x (v : Z) (s : handle) : handle :=
  {| buffer := buffer s; line_offset := line_offset s; filled := filled s;
     returned := returned s; max_lines := max_lines s; prompt := prompt s;
     empty_message := empty_message s; empty_message_fg := empty_message_fg s; fd := fd s;
     fl := fl s; term_state := term_state s; info := info s; term_rows := term_rows s;
     term_cols := term_cols s; cur_frame_lines := cur_frame_lines s;
     frame_highlight_fg := frame_highlight_fg s; text_default_fg := text_default_fg s;
     text_default_bg := text_default_bg s; tkfd := tkfd s; old_mask := old_mask s;
     sigfd := sigfd s; epfd := epfd s; extern_epfd := extern_epfd s; multiline := multiline s;
     insert := insert s; osc133 := osc133 s; initial_col := initial_col s;
     initial_row := initial_row s; offset := offset s; nchars := nchars s; pos_x := pos_x s;
     requested_pos_x := v; pos_y := pos_y s; first := first s; prompt_len := prompt_len s |}.

Definition set_pos_y (v : Z) (s : handle) : handle :=
  {| buffer := buffer s; line_offset := line_offset s; filled := filled s;
     returned := returned s; max_lines := max_lines s; prompt := prompt s;
     empty_message := empty_message s; empty_message_fg := empty_message_fg s; fd := fd s;
     fl := fl s; term_state := term_state s; info := info s; term_rows := term_rows s;
     term_cols := term_cols s; cur_frame_lines := cur_frame_lines s;
     frame_highlight_fg := frame_highlight_fg s; text_default_fg := text_default_fg s;
     text_default_bg := text_default_bg s; tkfd := tkfd s; old_mask := old_mask s;
     sigfd := sigfd s; epfd := epfd s; extern_epfd := extern_epfd s; multiline := multiline s;
     insert := insert s; osc133 := osc133 s; initial_col := initial_col s;
     initial_row := initial_row s; offset := offset s; nchars := nchars s; pos_x := pos_x s;
     requested_pos_x := requested_pos_x s; pos_y := v; first := first s;
     prompt_len := prompt_len s |}.

Definition set_prompt_len (v : Z) (s : handle) : handle :=
  {| buffer := buffer s; line_offset := line_offset s; filled := filled s;
     returned := returned s; max_lines := max_lines s; prompt := prompt s;
     empty_message := empty_message s; empty_message_fg := empty_message_fg s; fd := fd s;
     fl := fl s; term_state := term_state s; info := info s; term_rows := term_rows s;
     term_cols := term_cols s; cur_frame_lines := cur_frame_lines s;
     frame_highlight_fg := frame_highlight_fg s; text_default_fg := text_default_fg s;
     text_default_bg := text_default_bg s; tkfd := tkfd s; old_mask := old_mask s;
     sigfd := sigfd s; epfd := epfd s; extern_epfd := extern_epfd s; multiline := multiline s;
     insert := insert s; osc133 := osc133 s; initial_col := initial_col s;
     initial_row := initial_row s; offset := offset s; nchars := nchars s; pos_x := pos_x s;
     requested_pos_x := requested_pos_x s; pos_y := pos_y s; first := first s; prompt_len := v |}.


(** ** Programs: state, terminal output, failure *)

Definition M (A : Type) : Type := handle -> option (A * handle * list Z).

Definition ret {A} (a : A) : M A := fun s => Some (a, s, []).

Definition bind {A B} (m : M A) (f : A -> M B) : M B :=
  fun s =>
    match m s with
    | None => None
    | Some (a, s1, o1) =>
      match f a s1 with
      | None => None
      | Some (b, s2, o2) => Some (b, s2, o1 ++ o2)
      end
    end.

Declare Scope prog_scope.
Delimit Scope prog_scope with prog.
Notation "x <- m ;; k" := (bind m (fun x => k))
  (at level 61, m at next level, right associativity) : prog_scope.
Notation "' p <- m ;; k" := (bind m (fun p => k))
  (at level 61, p pattern, m at next level, right associativity) : prog_scope.
Notation "m ;; k" := (bind m (fun _ => k))
  (at level 61, right associativity) : prog_scope.
Local Open Scope prog_scope.

Definition get : M handle := fun s => Some (s, s, []).
Definition modify (f : handle -> handle) : M unit := fun s => Some (tt, f s, []).
Definition fault {A} : M A := fun _ => None.

(** [::write] / [::writev] on the terminal. *)
Definition write (bs : list Z) : M unit := fun s => Some (tt, s, bs).

Definition assert (c : bool) : M unit := if c then ret tt else fault.

(** A value whose computation is undefined when [None]. *)
Definition defined {A} (o : option A) : M A :=
  match o with Some a => ret a | None => fault end.

(** ** Text constants *)

Definition ESC : Z := 0x1b.

(** Decimal digits of a non-negative number ([%u], [{}]). *)
Fixpoint dec_loop (fuel : nat) (n : Z) (acc : list Z) : list Z :=
  match fuel with
  | O => acc
  | S fuel' =>
    let acc' := (48 + n mod 10) :: acc in
    if n <? 10 then acc' else dec_loop fuel' (n / 10) acc'
  end.

Definition dec (n : Z) : list Z := dec_loop 20 n [].

Definition clear_eol : list Z := [ESC; 0x5b; 0x4b].            (* "\e[K" *)
Definition nl_clear_eol : list Z := [0x0a; ESC; 0x5b; 0x4b].   (* "\n\e[K" *)
Definition sgr_reset : list Z := [ESC; 0x5b; 0x6d].            (* "\e[m" *)
Definition osc133_mark (c : Z) : list Z :=                     (* "\e]133;c\a" *)
  [ESC; 0x5d; 0x31; 0x33; 0x33; 0x3b; c; 0x07].
Definition osc133_L := osc133_mark 0x4c.
Definition osc133_A := osc133_mark 0x41.
Definition osc133_B := osc133_mark 0x42.
Definition osc133_C := osc133_mark 0x43.
Definition SUrDL : list Z :=                                   (* "\e[S\r\e[1L" *)
  [ESC; 0x5b; 0x53; 0x0d; ESC; 0x5b; 0x31; 0x4c].
Definition nDL : list Z := [0x0a; ESC; 0x5b; 0x31; 0x4c].      (* "\n\e[1L" *)
Definition before_mark : list Z := [0xc2; 0xab].               (* "«" *)
Definition frame_dash : list Z := [0xe2; 0x94; 0x80].          (* "─" *)
Definition lower_half_block : list Z := [0xe2; 0x96; 0x84].
Definition upper_half_block : list Z := [0xe2; 0x96; 0x80].

(** "\e[38;2;R;G;Bm" *)
Definition sgr_fg (c : color) : list Z :=
  [ESC; 0x5b; 0x33; 0x38; 0x3b; 0x32; 0x3b] ++ dec (Color.r c) ++ [0x3b]
  ++ dec (Color.g c) ++ [0x3b] ++ dec (Color.b c) ++ [0x6d].

(** "\e[38;2;R;G;B;48;2;R;G;Bm" *)
Definition sgr_fg_bg (f k : color) : list Z :=
  [ESC; 0x5b; 0x33; 0x38; 0x3b; 0x32; 0x3b] ++ dec (Color.r f) ++ [0x3b]
  ++ dec (Color.g f) ++ [0x3b] ++ dec (Color.b f)
  ++ [0x3b; 0x34; 0x38; 0x3b; 0x32; 0x3b] ++ dec (Color.r k) ++ [0x3b]
  ++ dec (Color.g k) ++ [0x3b] ++ dec (Color.b k) ++ [0x6d].

(** ** [nrl.cc]: helpers *)

(** Length of the visible characters of [sv]; CSI sequences are not
    counted. *)
Fixpoint nonescape_loop (sv : list Z) (in_csi : bool) (res : Z) : Z :=
  match sv with
  | [] => res
  | ch :: sv' =>
    if negb in_csi then
      if ch =? 0x1b then nonescape_loop sv' true res
      else if negb (Z.land ch 0xc0 =? 0x80) then nonescape_loop sv' false (res + 1)
      else nonescape_loop sv' false res
    else
      nonescape_loop sv'
        (in_csi && ((ch =? 0x5b) || (ch <? 0x40) || (0x7e <? ch))) res
  end.

Definition nonescape_len (sv : list Z) : Z := nonescape_loop sv false 0.

(** [update_winsize]: [ws] is what [ioctl (TIOCGWINSZ)] delivers, [None]
    when it fails. *)
Definition update_winsize (ws : option (Z * Z)) : Z * Z :=
  match ws with
  | Some (ws_col, ws_row) => (ws_col, ws_row)
  | None => (80, 25)
  end.

Record hsv_color : Type := mk_hsv { h : Z; sat : Z; v : Z }.

Definition hsv_to_rgb (hsv : hsv_color) : color :=
  if negb (sat hsv =? 0) then
    let region := u8 (h hsv / 43) in
    let remainder := u8 ((h hsv - region * 43) * 6) in
    let p := u8 (Z.shiftr (v hsv * (255 - sat hsv)) 8) in
    let q := u8 (Z.shiftr (v hsv * (255 - Z.shiftr (sat hsv * remainder) 8)) 8) in
    let t := u8 (Z.shiftr (v hsv * (255 - Z.shiftr (sat hsv * (255 - remainder)) 8)) 8) in
    if region =? 0 then Color.mk (v hsv) t p
    else if region =? 1 then Color.mk q (v hsv) p
    else if region =? 2 then Color.mk p (v hsv) t
    else if region =? 3 then Color.mk p q (v hsv)
    else if region =? 4 then Color.mk t p (v hsv)
    else Color.mk (v hsv) p q
  else Color.mk (v hsv) (v hsv) (v hsv).

Definition rgb_to_hsv (rgb : color) : hsv_color :=
  let rgb_min := Z.min (Color.r rgb) (Z.min (Color.g rgb) (Color.b rgb)) in
  let rgb_max := Z.max (Color.r rgb) (Z.max (Color.g rgb) (Color.b rgb)) in
  if negb (rgb_max =? 0) then
    let s := u8 (Z.quot (255 * (rgb_max - rgb_min)) rgb_max) in
    if s =? 0 then mk_hsv 0 s rgb_max
    else if rgb_max =? Color.r rgb then
      mk_hsv (u8 (0 + Z.quot (43 * (Color.g rgb - Color.b rgb)) (rgb_max - rgb_min))) s rgb_max
    else if rgb_max =? Color.g rgb then
      mk_hsv (u8 (85 + Z.quot (43 * (Color.b rgb - Color.r rgb)) (rgb_max - rgb_min))) s rgb_max
    else
      mk_hsv (u8 (171 + Z.quot (43 * (Color.r rgb - Color.g rgb)) (rgb_max - rgb_min))) s rgb_max
  else mk_hsv 0 0 rgb_max.

Definition adjust_rgb (fg bg : color) (adjust_val : Z) : color * color :=
  let hsv_fg := rgb_to_hsv fg in
  let hsv_bg := rgb_to_hsv bg in
  if (if 0 <=? adjust_val then 128 <=? v hsv_bg else v hsv_bg <? 128) then
    (hsv_to_rgb (mk_hsv (h hsv_fg) (sat hsv_fg)
                        (if adjust_val <? v hsv_fg then u8 (v hsv_fg - adjust_val) else 0)),
     hsv_to_rgb (mk_hsv (h hsv_bg) (sat hsv_bg) (u8 (v hsv_bg - adjust_val))))
  else
    (hsv_to_rgb (mk_hsv (h hsv_fg) (sat hsv_fg)
                        (if v hsv_fg <? 255 - adjust_val then u8 (v hsv_fg + adjust_val) else 255)),
     hsv_to_rgb (mk_hsv (h hsv_bg) (sat hsv_bg) (u8 (v hsv_bg + adjust_val)))).

(** [get_current_pos]: the query that is written; the reply is read from the
    terminal, its parse is an input of [prepare]. *)
Definition dsr : list Z := [ESC; 0x5b; 0x36; 0x6e].            (* "\e[6n" *)

(** [snprintf (buf, n, "\e[%u;%uH", s.initial_row + y, s.initial_col + x)] *)
Definition move_to_buf (s : handle) (x y : Z) : list Z :=
  [ESC; 0x5b] ++ dec (u32 (initial_row s + y)) ++ [0x3b]
  ++ dec (u32 (initial_col s + x)) ++ [0x48].

Definition move_to (x y : Z) : M unit :=
  s <- get ;; write (move_to_buf s x y).

(** The loop of [offset_after_n_chars]; every round advances [offset] by at
    least one, so the length of the buffer bounds the number of rounds. *)
Fixpoint oanc_loop (fuel : nat) (buf : list Z) (n offset cnt : Z) : option (Z * Z) :=
  if (offset <? zlength buf) && (cnt <? n) then
    match fuel with
    | O => None
    | S fuel' =>
      match zget buf offset with
      | None => None
      | Some c =>
        if (c <? 0x80) || (negb (Z.land c 0xc0 =? 0x80) && (c <? 0xf8)) then
          let offset' :=
            u32 (offset + (if c <? 0x80 then 1 else if c <? 0xe0 then 2
                           else if c <? 0xf0 then 3 else 4)) in
          if offset' <=? zlength buf
          then oanc_loop fuel' buf n offset' (u32 (cnt + 1))
          else None
        else None
      end
    end
  else Some (offset, cnt).

Definition offset_after_n_chars (s : handle) (n offset : Z) : option (Z * Z) :=
  oanc_loop (length (buffer s)) (buffer s) n offset 0.

(** The loop of [recompute_line_offset].  A round that does not advance
    [o] can only be followed by another one when [term_cols] is zero, and
    then the loop of the program does not end either: more rounds than the
    buffer has units (and two) are not needed. *)
Fixpoint recompute_loop (fuel : nat) (s : handle) (avail o : Z) (lo : list Z)
  : option (list Z) :=
  if o <? zlength (buffer s) then
    match fuel with
    | O => None
    | S fuel' =>
      match offset_after_n_chars s avail o with
      | None => None
      | Some (next, nchars) =>
        if nchars <? avail then Some lo
        else recompute_loop fuel' s (term_cols s) next (lo ++ [next])
      end
    end
  else Some lo.

(** [r] is an [int]; [resize (r + 1)] with a negative [r] and [r + 1] beyond
    [INT_MAX] are not defined. *)
Definition recompute_line_offset (r : Z) : M unit :=
  s <- get ;;
  let avail := u32 (term_cols s - (if r =? 0 then prompt_len s else 0)) in
  assert ((0 <=? r) && (r + 1 <? 2 ^ 31)) ;;
  let lo := vresize (line_offset s) (r + 1) in
  o <- defined (zget lo r) ;;
  lo' <- defined (recompute_loop (2 + length (buffer s)) s avail o lo) ;;
  modify (set_line_offset lo').

(** [u8_mbsnlen (s.buffer.data () + from, to - from)] *)
Definition mbsnlen_between (s : handle) (from to : Z) : M Z :=
  assert ((0 <=? from) && (from <=? to) && (to <=? zlength (buffer s))) ;;
  ret (u8_mbsnlen (slice (buffer s) from (to - from))).

(** ** [nrl.cc]: key table *)

Record key : Type := mk_tkey { sym : bool; mod_ : Z; kcode : Z }.

(** [operator<=>] orders by [mod], [sym], [code]: two keys are equivalent
    in the map when the three are equal. *)
Definition key_eqb (k1 k2 : key) : bool :=
  (mod_ k1 =? mod_ k2) && Bool.eqb (sym k1) (sym k2) && (kcode k1 =? kcode k2).

Definition key_function : Type := M bool.

Fixpoint key_map_find (m : list (key * key_function)) (k : key) : option key_function :=
  match m with
  | [] => None
  | (k', cb) :: m' => if key_eqb k' k then Some cb else key_map_find m' k
  end.

(** ** [nrl.cc]: edit actions *)

Section Editor.

(** [uc_is_general_category (uc, UC_LETTER | UC_NUMBER)] *)
Variable uc_is_word : Z -> bool.

Definition cb_beginning_of_line : M bool :=
  s <- get ;;
  (if negb (offset s =? 0) then
     modify (set_pos_x (prompt_len s)) ;;
     modify (set_pos_y 0) ;;
     modify (set_offset 0) ;;
     move_to (prompt_len s) 0
   else ret tt) ;;
  ret false.

Definition cb_end_of_line : M bool :=
  s <- get ;;
  (if negb (offset s =? zlength (buffer s)) then
     let y := u32 (zlength (line_offset s) - 1) in
     modify (set_pos_y y) ;;
     lo_y <- defined (zget (line_offset s) y) ;;
     assert (lo_y <=? zlength (buffer s)) ;;
     let x := u32 ((if y =? 0 then prompt_len s else 0)
                   + u8_strnlen (zdrop lo_y (buffer s))) in
     modify (set_pos_x x) ;;
     modify (set_requested_pos_x x) ;;
     modify (set_offset (u32 (zlength (buffer s)))) ;;
     move_to x y
   else ret tt) ;;
  ret false.

Definition cb_insert : M bool :=
  s <- get ;;
  modify (set_insert (negb (insert s))) ;;
  ret false.

Definition cb_enter : M bool := ret true.

Definition cb_backward_char : M bool :=
  s <- get ;;
  (if 0 <? offset s then
     assert (offset s <=? zlength (buffer s)) ;;
     '(_, prevp) <- defined (u8_prev (buffer s) (offset s)) ;;
     modify (set_offset prevp) ;;
     (if pos_x s =? 0 then
        if multiline s then
          assert (0 <? pos_y s) ;;
          modify (set_pos_x (u32 (term_cols s - 1))) ;;
          modify (set_pos_y (u32 (pos_y s - 1)))
        else ret tt
      else modify (set_pos_x (u32 (pos_x s - 1)))) ;;
     s <- get ;;
     modify (set_requested_pos_x (pos_x s)) ;;
     move_to (pos_x s) (pos_y s)
   else ret tt) ;;
  ret false.

Definition cb_forward_char : M bool :=
  s <- get ;;
  (if offset s <? zlength (buffer s) then
     assert (0 <=? offset s) ;;
     '(uc, n) <- defined (u8_mbtoucr (zdrop (offset s) (buffer s))) ;;
     modify (set_offset (u32 (offset s + n))) ;;
     assert (negb (uc =? 0xfffd)) ;;
     (if u32 (pos_x s + 1) =? term_cols s then
        if multiline s then
          assert (pos_y s <? zlength (line_offset s)) ;;
          modify (set_pos_x 0) ;;
          modify (set_pos_y (u32 (pos_y s + 1)))
        else ret tt
      else modify (set_pos_x (u32 (pos_x s + 1)))) ;;
     s <- get ;;
     modify (set_requested_pos_x (pos_x s)) ;;
     move_to (pos_x s) (pos_y s)
   else ret tt) ;;
  ret false.

Definition cb_previous_screen_line : M bool :=
  s <- get ;;
  (if 0 <? pos_y s then
     if (1 <? pos_y s) || (prompt_len s <=? requested_pos_x s) then
       let y := u32 (pos_y s - 1) in
       modify (set_pos_y y) ;;
       lo_y <- defined (zget (line_offset s) y) ;;
       '(o, c) <- defined (offset_after_n_chars s
                    (u32 (requested_pos_x s - (if y =? 0 then prompt_len s else 0)))
                    lo_y) ;;
       modify (set_offset o) ;;
       modify (set_pos_x c) ;;
       (if y =? 0 then modify (set_pos_x (u32 (c + prompt_len s))) else ret tt) ;;
       s <- get ;;
       move_to (pos_x s) (pos_y s)
     else ret tt
   else ret tt) ;;
  ret false.

Definition cb_next_screen_line : M bool :=
  s <- get ;;
  (if u32 (pos_y s + 1) <? zlength (line_offset s) then
     let y := u32 (pos_y s + 1) in
     modify (set_pos_y y) ;;
     modify (set_requested_pos_x (pos_x s)) ;;
     lo_y <- defined (zget (line_offset s) y) ;;
     '(o, c) <- defined (offset_after_n_chars s (pos_x s) lo_y) ;;
     modify (set_offset o) ;;
     modify (set_pos_x c) ;;
     move_to c y
   else ret tt) ;;
  ret false.

(** The suffix redraw of [cb_backspace] and [cb_delete]: one [writev]. *)
Definition redraw_tail : M unit :=
  s <- get ;;
  assert ((0 <=? offset s) && (offset s <=? zlength (buffer s))) ;;
  write (zdrop (offset s) (buffer s) ++ [0x20] ++ move_to_buf s (pos_x s) (pos_y s)).

Definition cb_backspace : M bool :=
  s <- get ;;
  (if 0 <? offset s then
     let old_offset := offset s in
     cb_backward_char ;;
     s <- get ;;
     assert (negb (offset s =? old_offset)) ;;
     assert ((0 <=? offset s) && (offset s <=? old_offset)
             && (old_offset <=? zlength (buffer s))) ;;
     modify (set_buffer (verase (buffer s) (offset s) old_offset)) ;;
     modify (set_nchars (u32 (nchars s - 1))) ;;
     recompute_line_offset (to_int (pos_y s)) ;;
     redraw_tail ;;
     modify (set_requested_pos_x (pos_x s))
   else ret tt) ;;
  ret false.

Definition cb_delete : M bool :=
  s <- get ;;
  (if offset s <? zlength (buffer s) then
     assert (0 <=? offset s) ;;
     '(_, n) <- defined (u8_mbtoucr (zdrop (offset s) (buffer s))) ;;
     assert (0 <? n) ;;
     modify (set_buffer (verase (buffer s) (offset s) (offset s + n))) ;;
     modify (set_nchars (u32 (nchars s - 1))) ;;
     recompute_line_offset (to_int (pos_y s)) ;;
     redraw_tail ;;
     modify (set_requested_pos_x (pos_x s))
   else ret tt) ;;
  ret false.

(** After a word motion: the row of [offset] is searched from [pos_y], the
    column is counted from the start of the row. *)
Definition column_of_offset : M unit :=
  s <- get ;;
  lo_y <- defined (zget (line_offset s) (pos_y s)) ;;
  n <- mbsnlen_between s lo_y (offset s) ;;
  let x := u32 n in
  let x := if pos_y s =? 0 then u32 (x + prompt_len s) else x in
  modify (set_pos_x x) ;;
  modify (set_requested_pos_x x) ;;
  move_to x (pos_y s).

(** [while (p > s.buffer.data ())] of [cb_backward_word] *)
Fixpoint backward_word_loop (fuel : nat) (buf : list Z) (p uc1 : Z) : option Z :=
  if 0 <? p then
    match fuel with
    | O => None
    | S fuel' =>
      match u8_prev buf p with
      | None => None
      | Some (uc2, q) =>
        if uc_is_word uc1 && negb (uc_is_word uc2) then Some p
        else backward_word_loop fuel' buf q uc2
      end
    end
  else Some p.

(** [while (s.line_offset[s.pos_y] > s.offset)] *)
Fixpoint row_down_to (fuel : nat) (lo : list Z) (offset y : Z) : option Z :=
  match zget lo y with
  | None => None
  | Some lo_y =>
    if offset <? lo_y then
      match fuel with
      | O => None
      | S fuel' => if 0 <? y then row_down_to fuel' lo offset (u32 (y - 1)) else None
      end
    else Some y
  end.

Definition cb_backward_word : M bool :=
  s <- get ;;
  (if 0 <? offset s then
     assert (offset s <=? zlength (buffer s)) ;;
     '(uc1, p) <- defined (u8_prev (buffer s) (offset s)) ;;
     p <- defined (backward_word_loop (length (buffer s)) (buffer s) p uc1) ;;
     modify (set_offset p) ;;
     y <- defined (row_down_to (length (line_offset s)) (line_offset s) p (pos_y s)) ;;
     modify (set_pos_y y) ;;
     column_of_offset
   else ret tt) ;;
  ret false.

(** [while (q <= s.buffer.data () + s.buffer.size ())] of
    [cb_forward_word]; the result is [p]. *)
Fixpoint forward_word_loop (fuel : nat) (buf : list Z) (p q uc1 : Z) : option Z :=
  if q <=? zlength buf then
    if q =? zlength buf then Some q
    else
      match fuel with
      | O => None
      | S fuel' =>
        match u8_next (zdrop q buf) with
        | None => None
        | Some (uc2, r) =>
          if uc_is_word uc1 && negb (uc_is_word uc2) then Some q
          else match r with
               | Some n => forward_word_loop fuel' buf q (q + n) uc2
               | None => None
               end
        end
      end
  else Some p.

(** [while (s.pos_y + 1 < s.line_offset.size ()
           && s.offset >= s.line_offset[s.pos_y + 1])] *)
Fixpoint row_up_to (fuel : nat) (lo : list Z) (offset y : Z) : option Z :=
  if u32 (y + 1) <? zlength lo then
    match zget lo (u32 (y + 1)) with
    | None => None
    | Some lo_y1 =>
      if lo_y1 <=? offset then
        match fuel with
        | O => None
        | S fuel' => row_up_to fuel' lo offset (u32 (y + 1))
        end
      else Some y
    end
  else Some y.

Definition cb_forward_word : M bool :=
  s <- get ;;
  (if u32 (offset s + 1) <? zlength (buffer s) then
     assert (0 <=? offset s) ;;
     '(_, r) <- defined (u8_next (zdrop (offset s) (buffer s))) ;;
     n <- defined r ;;
     let p := offset s + n in
     p <- (if p <? zlength (buffer s) then
             '(uc1, r1) <- defined (u8_next (zdrop p (buffer s))) ;;
             n1 <- defined r1 ;;
             defined (forward_word_loop (length (buffer s)) (buffer s) p (p + n1) uc1)
           else ret p) ;;
     modify (set_offset (u32 p)) ;;
     y <- defined (row_up_to (length (line_offset s)) (line_offset s) (u32 p) (pos_y s)) ;;
     modify (set_pos_y y) ;;
     column_of_offset
   else ret tt) ;;
  ret false.

Definition cb_unix_line_discard : M bool :=
  s <- get ;;
  (if 0 <? offset s then
     assert (offset s <=? zlength (buffer s)) ;;
     modify (set_buffer (verase (buffer s) 0 (offset s))) ;;
     let old_nlines := zlength (line_offset s) in
     modify (set_pos_x (prompt_len s)) ;;
     modify (set_pos_y 0) ;;
     recompute_line_offset 0 ;;
     s <- get ;;
     let movbuf := move_to_buf s (pos_x s) (pos_y s) in
     write (movbuf ++ buffer s ++ clear_eol
            ++ concat (repeat nl_clear_eol
                         (Z.to_nat (old_nlines - zlength (line_offset s))))
            ++ movbuf)
   else ret tt) ;;
  ret false.

Definition cb_kill_line : M bool :=
  s <- get ;;
  (if offset s <? zlength (buffer s) then
     assert (0 <=? offset s) ;;
     modify (set_buffer (ztake (offset s) (buffer s))) ;;
     let old_nlines := zlength (line_offset s) in
     recompute_line_offset (to_int (pos_y s)) ;;
     s <- get ;;
     write (clear_eol
            ++ (if zlength (line_offset s) <? old_nlines then
                  concat (repeat nl_clear_eol
                            (Z.to_nat (old_nlines - zlength (line_offset s))))
                  ++ move_to_buf s (pos_x s) (pos_y s)
                else []))
   else ret tt) ;;
  ret false.

Definition show_empty_message : M unit :=
  s <- get ;;
  let colon := sgr_fg (empty_message_fg s) in
  let coloff := if negb (color_eqb (text_default_fg s) color_none)
                then sgr_fg (text_default_fg s) else sgr_reset in
  write (colon ++ empty_message s ++ coloff ++ move_to_buf s (pos_x s) (pos_y s)).

Definition key_map : list (key * key_function) :=
  [ (mk_tkey false TERMKEY_KEYMOD_CTRL 0x61, cb_beginning_of_line);   (* 'a' *)
    (mk_tkey true 0 TERMKEY_SYM_HOME, cb_beginning_of_line);
    (mk_tkey false TERMKEY_KEYMOD_CTRL 0x65, cb_end_of_line);         (* 'e' *)
    (mk_tkey true 0 TERMKEY_SYM_END, cb_end_of_line);
    (mk_tkey true 0 TERMKEY_SYM_INSERT, cb_insert);
    (mk_tkey true 0 TERMKEY_SYM_ENTER, cb_enter);
    (mk_tkey true 0 TERMKEY_SYM_LEFT, cb_backward_char);
    (mk_tkey true 0 TERMKEY_SYM_RIGHT, cb_forward_char);
    (mk_tkey true 0 TERMKEY_SYM_UP, cb_previous_screen_line);
    (mk_tkey true 0 TERMKEY_SYM_DOWN, cb_next_screen_line);
    (mk_tkey true 0 TERMKEY_SYM_BACKSPACE, cb_backspace);
    (mk_tkey true 0 TERMKEY_SYM_DELETE, cb_delete);
    (mk_tkey false TERMKEY_KEYMOD_ALT 0x62, cb_backward_word);        (* 'b' *)
    (mk_tkey false TERMKEY_KEYMOD_ALT 0x66, cb_forward_word);         (* 'f' *)
    (mk_tkey false TERMKEY_KEYMOD_CTRL 0x75, cb_unix_line_discard);   (* 'u' *)
    (mk_tkey false TERMKEY_KEYMOD_CTRL 0x6b, cb_kill_line) ].         (* 'k' *)

(** What a call of [handle_one] finds outside of the session: the keys
    that [termkey_getkey] delivers, the result that ends them, and the
    window size that [ioctl] reports. *)
Record input : Type := mk_input {
  keys : list TermKeyKey;
  keys_end : TermKeyResult;
  winsize : option (Z * Z)
}.

Record epoll_event : Type := mk_event { data_fd : Z }.

(** [unsigned (0.9 * cols)] and [unsigned (0.1 * cols)]: the products in
    [double] are at least the exact ones and differ from them by less than
    1e-6 for 32-bit [cols], so the truncations are these quotients. *)
Definition nine_tenths (cols : Z) : Z := 9 * cols / 10.
Definition one_tenth (cols : Z) : Z := cols / 10.

(** The insertion of [on_key] in a multi-line session; the result is
    [to_print]. *)
Definition insert_multiline (l : Z) : M Z :=
  s <- get ;;
  let old_nlines := zlength (line_offset s) in
  recompute_line_offset (to_int (pos_y s)) ;;
  s <- get ;;
  let to_print := to_int (zlength (buffer s) - offset s) in
  (if (pos_x s =? 0) && (0 <? pos_y s) && (u32 (offset s + l) =? zlength (buffer s)) then
     move_to (term_cols s) (pos_y s - 1) ;;
     assert (offset s <=? zlength (buffer s)) ;;
     '(_, p) <- defined (u8_prev (buffer s) (offset s)) ;;
     write (slice (buffer s) p (l + (offset s - p)))
   else write (slice (buffer s) (offset s) to_print)) ;;
  (if max_lines s <? zlength (line_offset s) then
     assert (zlength (line_offset s) =? max_lines s + 1) ;;
     modify (set_max_lines (zlength (line_offset s))) ;;
     if term_rows s <? initial_row s + zlength (line_offset s) - 1 + cur_frame_lines s then
       assert (zlength (line_offset s) - old_nlines =? 1) ;;
       modify (set_initial_row (u32 (initial_row s - 1))) ;;
       write SUrDL
     else if 0 <? cur_frame_lines s then write nDL
     else ret tt
   else ret tt) ;;
  ret to_print.

(** The insertion of [on_key] in a single-line session, whose view
    scrolls; the result is [to_print]. *)
Definition insert_scrolling : M Z :=
  s <- get ;;
  if Z.max 1 (nine_tenths (term_cols s)) <? u32 (initial_col s + pos_x s) then
    let nchars := Z.max 1 (one_tenth (term_cols s)) in
    lo_0 <- defined (zget (line_offset s) 0) ;;
    '(new_offset, _) <- defined (offset_after_n_chars s nchars lo_0) ;;
    let new_offset := if offset s <? new_offset then offset s else new_offset in
    assert (0 <=? new_offset) ;;
    assert (0 <? u8_mbsnlen (ztake new_offset (buffer s))) ;;
    modify (set_line_offset (new_offset :: tl (line_offset s))) ;;
    move_to 1 (initial_row s) ;;
    write before_mark ;;
    n <- mbsnlen_between s new_offset (offset s) ;;
    modify (set_pos_x (u32 (1 + n))) ;;
    '(end_offset, _) <- defined (offset_after_n_chars s (u32 (term_cols s - 1)) new_offset) ;;
    let to_print := to_int (end_offset - new_offset) in
    write (slice (buffer s) new_offset to_print) ;;
    ret to_print
  else
    let nchars := Z.min (u32 (term_cols s - u32 (initial_col s + pos_x s)))
                        (u32 (zlength (buffer s))) in
    '(new_offset, _) <- defined (offset_after_n_chars s nchars (offset s)) ;;
    let to_print := to_int (new_offset - offset s) in
    write (slice (buffer s) (offset s) to_print) ;;
    ret to_print.

(** The overwrite of [on_key].  [insert (pos, 0, l - l_old)] is the
    overload that inserts a number of copies of a value: no copy at all.
    [erase (pos, pos + (l_old - l))] is reached with [l_old < l], a range
    that ends before it starts: not defined.  [std::copy_n] needs room
    for the [l] units. *)
Definition overwrite (buf : list Z) : M unit :=
  s <- get ;;
  let l := zlength buf in
  assert (0 <=? offset s) ;;
  '(ignore, l_old) <- defined (u8_mbtoucr (zdrop (offset s) (buffer s))) ;;
  assert (negb (ignore =? 0xfffd)) ;;
  (if negb (l_old =? l) then
     let delta := l - l_old in
     (if delta <? 0
      then modify (set_buffer (vinsert (buffer s) (offset s)
                                 (repeat (u8 (l - l_old)) (Z.to_nat 0))))
      else fault) ;;
     assert (pos_y s + 1 <=? zlength (line_offset s)) ;;
     modify (set_line_offset
               (ztake (pos_y s + 1) (line_offset s)
                ++ map (fun n => u32 (n + 1)) (zdrop (pos_y s + 1) (line_offset s))))
   else ret tt) ;;
  s <- get ;;
  assert (offset s + l <=? zlength (buffer s)) ;;
  modify (set_buffer (ztake (offset s) (buffer s) ++ buf
                      ++ zdrop (offset s + l) (buffer s))) ;;
  write buf.

Definition on_key (k : TermKeyKey) : M bool :=
  match type k with
  | TERMKEY_TYPE_UNICODE =>
    if Z.land (modifiers k) (Z.lor TERMKEY_KEYMOD_ALT TERMKEY_KEYMOD_CTRL) =? 0 then
      s <- get ;;
      assert ((0 <=? offset s) && (offset s <=? zlength (buffer s))) ;;
      (* a scalar value is expected, [l] is not checked *)
      buf <- defined (u8_uctomb (u32 (code k))) ;;
      let l := zlength buf in
      (if (zlength (buffer s) =? 0) && negb (zlength (empty_message s) =? 0)
       then write clear_eol else ret tt) ;;
      to_print <-
        (if insert s || (offset s =? zlength (buffer s)) then
           modify (set_buffer (vinsert (buffer s) (offset s) buf)) ;;
           modify (set_nchars (u32 (nchars s + 1))) ;;
           if multiline s then insert_multiline l else insert_scrolling
         else
           overwrite buf ;; ret l) ;;
      s <- get ;;
      modify (set_offset (u32 (offset s + l))) ;;
      let x := u32 (pos_x s + 1) in
      modify (set_pos_x x) ;;
      modify (set_requested_pos_x x) ;;
      to_print <-
        (if x =? term_cols s then
           modify (set_pos_x 0) ;;
           modify (set_pos_y (u32 (pos_y s + 1))) ;;
           ret 2
         else ret to_print) ;;
      (if 1 <? to_print then s <- get ;; move_to (pos_x s) (pos_y s) else ret tt) ;;
      ret false
    else
      match key_map_find key_map
              (mk_tkey false
                 (Z.land (modifiers k)
                    (Z.lor (Z.lor TERMKEY_KEYMOD_ALT TERMKEY_KEYMOD_SHIFT)
                           TERMKEY_KEYMOD_CTRL))
                 (code k)) with
      | Some cb => cb
      | None => ret false
      end
  | TERMKEY_TYPE_KEYSYM =>
    s <- get ;;
    let was_empty := zlength (buffer s) =? 0 in
    match key_map_find key_map
            (mk_tkey true
               (Z.land (modifiers k)
                  (Z.lor (Z.lor TERMKEY_KEYMOD_ALT TERMKEY_KEYMOD_SHIFT)
                         TERMKEY_KEYMOD_CTRL))
               (code k)) with
    | Some cb =>
      res <- cb ;;
      s <- get ;;
      (if negb was_empty && (zlength (buffer s) =? 0)
          && negb (zlength (empty_message s) =? 0)
       then show_empty_message else ret tt) ;;
      ret res
    | None => ret false
    end
  | _ => ret false
  end.

(** The test of [handle_one] that ends the edit before [on_key] sees
    the key: Ctrl-C, or Ctrl-D on an empty buffer. *)
Definition is_cancel (s : handle) (k : TermKeyKey) : bool :=
  match type k with
  | TERMKEY_TYPE_UNICODE =>
    (modifiers k =? TERMKEY_KEYMOD_CTRL)
    && ((code k =? 0x43) || (code k =? 0x63)
        || ((zlength (buffer s) =? 0) && ((code k =? 0x44) || (code k =? 0x64))))
  | _ => false
  end.

(** [while ((r = ::termkey_getkey (s.tk, &key)) == ::TERMKEY_RES_KEY)]:
    the result tells whether a key ended the edit. *)
Fixpoint getkey_loop (ks : list TermKeyKey) : M bool :=
  match ks with
  | [] => ret false
  | k :: ks' =>
    s <- get ;;
    if is_cancel s k then ret true
    else
      done <- on_key k ;;
      if done then ret true else getkey_loop ks'
  end.

(** The result is [(handled, done)]. *)
Definition handle_one (epev : epoll_event) (inp : input) : M (bool * bool) :=
  s <- get ;;
  if data_fd epev =? tkfd s then
    done <- getkey_loop (keys inp) ;;
    if done then ret (true, true)
    else
      match keys_end inp with
      | TERMKEY_RES_EOF => ret (true, true)
      | _ => ret (true, false)
      end
  else if data_fd epev =? sigfd s then
    let '(cols, rows) := update_winsize (winsize inp) in
    modify (set_term_cols cols) ;;
    modify (set_term_rows rows) ;;
    ret (true, false)
  else ret (false, false).

(** ** [nrl.cc]: session lifecycle *)

(** What [prepare] finds outside of the session.  The system calls that
    the program takes to be fatal when they fail ([sigprocmask],
    [signalfd], [epoll_ctl] but for [EPERM]) succeed. *)
Record setup : Type := mk_setup {
  su_old_mask : Z;                (* the signal mask before *)
  su_winsize : option (Z * Z);    (* ioctl (TIOCGWINSZ) *)
  su_sigfd : Z;                   (* the new signalfd *)
  su_key_eperm : bool;            (* epoll_ctl on the key descriptor: EPERM *)
  su_cursor : Z * Z;              (* get_current_pos: column and row *)
  su_prompt : list Z              (* the result of the prompt callback *)
}.

Definition setup_epoll (su : setup) : M unit :=
  s <- get ;;
  assert (state_eqb (term_state s) closed || state_eqb (term_state s) open) ;;
  if state_eqb (term_state s) closed then
    modify (set_old_mask (su_old_mask su)) ;;
    let '(cols, rows) := update_winsize (su_winsize su) in
    modify (set_term_cols cols) ;;
    modify (set_term_rows rows) ;;
    modify (set_sigfd (su_sigfd su)) ;;
    (* EPERM: [std::filesystem::filesystem_error] is thrown *)
    assert (negb (su_key_eperm su)) ;;
    modify (set_term_state open)
  else ret tt.

Definition cleanup_epoll : M unit :=
  s <- get ;;
  assert (state_eqb (term_state s) open) ;;
  modify (set_term_state closed).

Definition finalize : M unit :=
  s <- get ;;
  (if negb (color_eqb (text_default_fg s) color_none) then write sgr_reset else ret tt) ;;
  (if osc133 s then write osc133_C else ret tt) ;;
  cleanup_epoll.

Definition frame_is (s : handle) (f : Z) : bool := Z.land (fl s) flags_frame =? f.

Definition leave : M unit :=
  s <- get ;;
  let frame := concat (repeat frame_dash (Z.to_nat (term_cols s))) in
  write
    ((if frame_is s flags_frame_line
         && negb (color_eqb (frame_highlight_fg s) (default_foreground (info s)))
      then move_to_buf s 0 (-1) ++ frame ++ move_to_buf s 0 (max_lines s) ++ frame
      else [])
     ++ (if (zlength (buffer s) =? 0) && negb (zlength (empty_message s) =? 0)
         then move_to_buf s (pos_x s) (pos_y s) ++ clear_eol
         else [])
     ++ move_to_buf s (term_cols s - 1)
          ((if frame_is s flags_none then zlength (line_offset s) else max_lines s)
           - 1 + cur_frame_lines s)
     ++ [0x0a]).

Definition draw_frame : M unit :=
  s <- get ;;
  let highlight := negb (color_eqb (frame_highlight_fg s) (default_foreground (info s))) in
  let cols := Z.to_nat (term_cols s) in
  write
    ((if highlight then sgr_fg (frame_highlight_fg s) else [])
     ++ concat (repeat (if frame_is s flags_frame_line then frame_dash
                        else lower_half_block) cols)
     ++ [0x0a; 0x0a]
     ++ concat (repeat (if frame_is s flags_frame_line then frame_dash
                        else upper_half_block) cols)
     ++ (if highlight then [ESC; 0x5b; 0x30; 0x6d] else [])   (* "\e[0m" *)
     ++ [ESC; 0x5b; 0x31; 0x46]) ;;                           (* "\e[1F" *)
  modify (set_cur_frame_lines 1) ;;
  if negb (color_eqb (text_default_fg s) color_none)
  then write (sgr_fg_bg (text_default_fg s) (text_default_bg s))
  else ret tt.

Definition prepare (su : setup) : M unit :=
  s <- get ;;
  assert (state_eqb (term_state s) open || state_eqb (term_state s) closed) ;;
  if state_eqb (term_state s) closed then
    setup_epoll su ;;
    modify (set_buffer []) ;;
    (if osc133 s then write osc133_L else write [0x0d]) ;;
    (if negb (frame_is s flags_none) then draw_frame
     else modify (set_cur_frame_lines 0)) ;;
    write dsr ;;
    modify (set_initial_col (fst (su_cursor su))) ;;
    modify (set_initial_row (snd (su_cursor su))) ;;
    assert (fst (su_cursor su) =? 1) ;;
    modify (set_offset 0) ;;
    modify (set_nchars 0) ;;
    modify (set_pos_x 0) ;;
    modify (set_pos_y 0) ;;
    modify (set_line_offset [0]) ;;
    modify (set_prompt_len 0) ;;
    let prompt_str := match prompt s with
                      | prompt_string p => p
                      | prompt_callback => su_prompt su
                      end in
    modify (set_prompt_len (u32 (nonescape_len prompt_str))) ;;
    (if negb (zlength prompt_str =? 0) then
       (if osc133 s then write osc133_A else ret tt) ;;
       write prompt_str
     else ret tt) ;;
    (if osc133 s then write osc133_B else ret tt) ;;
    modify (set_pos_x (u32 (nonescape_len prompt_str))) ;;
    write clear_eol ;;
    if negb (zlength (empty_message s) =? 0) then
      let '(_, bg) :=
        if negb (frame_is s flags_frame_background)
        then adjust_rgb (default_foreground (info s)) (default_background (info s)) 48
        else adjust_rgb (text_default_fg s) (text_default_bg s) 48 in
      modify (set_empty_message_fg bg) ;;
      show_empty_message
    else ret tt
  else ret tt.

(** [std::expected<std::string_view, bool>] *)
Inductive expected : Type :=
| value (line : list Z)
| unexpected (handled : bool).

Definition process (epev : epoll_event) (inp : input) : M expected :=
  '(handled, done) <- handle_one epev inp ;;
  if negb done then ret (unexpected handled)
  else
    finalize ;;
    s <- get ;;
    ret (value (buffer s)).

(** [do ... while (! std::get<1> (handle_one (s, epev[0])))]: the events
    that [epoll_wait] delivers, in order; when they run out the call
    blocks for ever, which also is [None]. *)
Fixpoint wait_loop (evs : list (epoll_event * input)) : M unit :=
  match evs with
  | [] => fault
  | (epev, inp) :: evs' =>
    '(_, done) <- handle_one epev inp ;;
    if done then ret tt else wait_loop evs'
  end.

Definition the_loop (su : setup) (evs : list (epoll_event * input)) : M unit :=
  prepare su ;;
  wait_loop evs ;;
  leave ;;
  finalize.

(** [handle::read] *)
Definition read (su : setup) (evs : list (epoll_event * input)) : M (list Z) :=
  the_loop su evs ;;
  s <- get ;;
  ret (buffer s).

End Editor.

(** [handle::handle] with [init_state]: a new session on the terminal [fd_]
    whose decoder reads the descriptor [tkfd_]. *)
Definition new_handle (epfd_ : Z) (extern : bool) (fd_ fl_ tkfd_ : Z)
           (inf : terminal_info) : handle :=
  let background := Z.land fl_ flags_frame =? flags_frame_background in
  let '(fg, bg) := adjust_rgb (default_foreground inf) (default_background inf) 32 in
  {| buffer := []; line_offset := [0]; filled := 0; returned := 0; max_lines := 1;
     prompt := prompt_string []; empty_message := []; empty_message_fg := color_none;
     fd := fd_; fl := fl_; term_state := closed; info := inf;
     term_rows := 0; term_cols := 0; cur_frame_lines := 0;
     frame_highlight_fg := if background then bg else default_foreground inf;
     text_default_fg := if background then fg else color_none;
     text_default_bg := if background then bg else color_none;
     tkfd := tkfd_; old_mask := 0; sigfd := -1; epfd := epfd_; extern_epfd := extern;
     multiline := true; insert := true; osc133 := scroll_markers inf;
     initial_col := 0; initial_row := 0; offset := 0; nchars := 0; pos_x := 0;
     requested_pos_x := 0; pos_y := 0; first := 0; prompt_len := 0 |}.

(** ** Notions of the specification *)

(** A continuation byte, [10xxxxxx]. *)
Definition cont_byte (b : Z) : bool := (0x80 <=? b) && (b <? 0xc0).

(** The well-formed UTF-8 byte sequences of one codepoint. *)
Definition utf8_seq (c : list Z) : bool :=
  match c with
  | [b0] => (0 <=? b0) && (b0 <? 0x80)
  | [b0; b1] => (0xc2 <=? b0) && (b0 <? 0xe0) && cont_byte b1
  | [b0; b1; b2] =>
    (0xe0 <=? b0) && (b0 <? 0xf0) && cont_byte b1 && cont_byte b2
    && ((0xe1 <=? b0) || (0xa0 <=? b1)) && (negb (b0 =? 0xed) || (b1 <? 0xa0))
  | [b0; b1; b2; b3] =>
    (0xf0 <=? b0) && (b0 <=? 0xf4) && cont_byte b1 && cont_byte b2 && cont_byte b3
    && ((0xf1 <=? b0) || (0x90 <=? b1)) && ((b0 <? 0xf4) || (b1 <? 0x90))
  | _ => false
  end.

(** The bytes that [finalize] writes. *)
Definition finalize_bytes (s : handle) : list Z :=
  (if negb (color_eqb (text_default_fg s) color_none) then sgr_reset else [])
  ++ (if osc133 s then osc133_C else []).

(** [p] occurs in [l] as a contiguous run. *)
Definition infix {A} (p l : list A) : Prop := exists pre post, l = pre ++ p ++ post.

(** Key events. *)
Definition key_unicode (c : Z) : TermKeyKey := mk_key TERMKEY_TYPE_UNICODE c 0.
Definition key_sym (c : Z) : TermKeyKey := mk_key TERMKEY_TYPE_KEYSYM c 0.
Definition key_ctrl (c : Z) : TermKeyKey :=
  mk_key TERMKEY_TYPE_UNICODE c TERMKEY_KEYMOD_CTRL.
Definition key_alt (c : Z) : TermKeyKey :=
  mk_key TERMKEY_TYPE_UNICODE c TERMKEY_KEYMOD_ALT.

(** A Ctrl-C event, a Ctrl-D event: the codepoint in either case, the
    modifier Ctrl and no other. *)
Definition is_ctrl_c (k : TermKeyKey) : bool :=
  match type k with
  | TERMKEY_TYPE_UNICODE =>
    (modifiers k =? TERMKEY_KEYMOD_CTRL) && ((code k =? 0x43) || (code k =? 0x63))
  | _ => false
  end.

Definition is_ctrl_d (k : TermKeyKey) : bool :=
  match type k with
  | TERMKEY_TYPE_UNICODE =>
    (modifiers k =? TERMKEY_KEYMOD_CTRL) && ((code k =? 0x44) || (code k =? 0x64))
  | _ => false
  end.

(** The key events [ks] handled one after the other by [on_key]. *)
Fixpoint type_keys (w : Z -> bool) (ks : list TermKeyKey) (s : handle) : option handle :=
  match ks with
  | [] => Some s
  | k :: ks' =>
    match on_key w k s with
    | Some (_, s', _) => type_keys w ks' s'
    | None => None
    end
  end.

(** ** Sessions for the examples *)

(** The letters and digits of ASCII, and all that is not ASCII: a stand-in
    for the Unicode categories where an example needs one. *)
Definition ascii_word (c : Z) : bool :=
  ((0x30 <=? c) && (c <=? 0x39)) || ((0x41 <=? c) && (c <=? 0x5a))
  || ((0x61 <=? c) && (c <=? 0x7a)) || (0x80 <=? c).

Definition demo_info : terminal_info :=
  mk_info (Color.mk 200 200 200) (Color.mk 0 0 0) false.

(** A window of [cols] columns and 24 rows; the cursor is reported in
    column 1 of row 10. *)
Definition demo_setup (cols : Z) : setup :=
  mk_setup 0 (Some (cols, 24)) 5 false (1, 10) [].

(** A session with the prompt "> ", not yet prepared: the terminal is the
    descriptor 0, the epoll instance the descriptor 3. *)
Definition demo_closed (multi ins : bool) : handle :=
  {| buffer := []; line_offset := [0]; filled := 0; returned := 0; max_lines := 1;
     prompt := prompt_string [0x3e; 0x20]; empty_message := [];
     empty_message_fg := color_none; fd := 0; fl := flags_none; term_state := closed;
     info := demo_info; term_rows := 0; term_cols := 0; cur_frame_lines := 0;
     frame_highlight_fg := default_foreground demo_info;
     text_default_fg := color_none; text_default_bg := color_none;
     tkfd := 0; old_mask := 0; sigfd := -1; epfd := 3; extern_epfd := false;
     multiline := multi; insert := ins; osc133 := false;
     initial_col := 0; initial_row := 0; offset := 0; nchars := 0; pos_x := 0;
     requested_pos_x := 0; pos_y := 0; first := 0; prompt_len := 0 |}.

(** The same session after [prepare]. *)
Definition demo_session (cols : Z) (multi ins : bool) : handle :=
  match prepare (demo_setup cols) (demo_closed multi ins) with
  | Some (_, s, _) => s
  | None => demo_closed multi ins
  end.

(** The session after the keys [ks]. *)
Definition demo_after (cols : Z) (multi ins : bool) (ks : list TermKeyKey) : handle :=
  match type_keys ascii_word ks (demo_session cols multi ins) with
  | Some s => s
  | None => demo_session cols multi ins
  end.

(** The prompt that [prepare] renders. *)
Definition prompt_of (su : setup) (s : handle) : list Z :=
  match prompt s with
  | prompt_string p => p
  | prompt_callback => su_prompt su
  end.


Definition is_eof (r : TermKeyResult) : bool :=
  match r with TERMKEY_RES_EOF => true | _ => false end.

(** The session of the examples with 20 columns after "abc" was typed. *)
Definition abc_session : handle :=
  demo_after 20 true true [key_unicode 0x61; key_unicode 0x62; key_unicode 0x63].

(** A readiness event of the key descriptor that delivers Ctrl-C. *)
Definition ctrl_c_input : input := mk_input [key_ctrl 0x63] TERMKEY_RES_NONE None.

(** Six columns, of which the prompt takes two: "éabcde" wraps after "éabc".
    The cursor is moved to the start and the session is put in overwrite
    mode. *)
Definition overwrite_session : handle :=
  demo_after 6 true true
    [key_unicode 0xe9; key_unicode 0x61; key_unicode 0x62; key_unicode 0x63;
     key_unicode 0x64; key_unicode 0x65; key_sym TERMKEY_SYM_HOME;
     key_sym TERMKEY_SYM_INSERT].

(** The position that the specification gives for forward-word: the first
    codepoint boundary [p] after [offset] that is the end of the buffer or
    has a word codepoint before it and another codepoint after it.  [prev]
    is the codepoint that ends at [p], [cs] are the codepoints from [p]
    on. *)
Fixpoint forward_word_scan (w : Z -> bool) (cs : list (Z * list Z)) (p prev : Z) : Z :=
  match cs with
  | [] => p
  | (uc, units) :: cs' =>
    if w prev && negb (w uc) then p
    else forward_word_scan w cs' (p + zlength units) uc
  end.

Definition forward_word_target (w : Z -> bool) (buf : list Z) (offset : Z) : option Z :=
  match utf8_decode (zdrop offset buf) with
  | Some ((uc, units) :: cs) => Some (forward_word_scan w cs (offset + zlength units) uc)
  | _ => None
  end.

(** "a bc" with the cursor at the start. *)
Definition a_bc_session : handle :=
  demo_after 20 true true
    [key_unicode 0x61; key_unicode 0x20; key_unicode 0x62; key_unicode 0x63;
     key_sym TERMKEY_SYM_HOME].

(** A codepoint boundary of [buf]: an index at which a codepoint starts
    (the byte there is not a continuation byte), or the end. *)
Definition codepoint_boundary (buf : list Z) (i : Z) : bool :=
  (0 <=? i) && (i <=? zlength buf)
  && match zget buf i with
     | Some c => negb (Z.land c 0xc0 =? 0x80)
     | None => true
     end.

(** The values of a session fit their C types where the program converts
    them: the window size and the prompt width are [unsigned], the length of
    the buffer is converted to [unsigned], the number of rows to [int]. *)
Definition representable (s : handle) : Prop :=
  0 <= term_cols s < 2 ^ 32 /\ 0 <= prompt_len s < 2 ^ 32
  /\ zlength (buffer s) < 2 ^ 32 /\ zlength (line_offset s) < 2 ^ 31.

(** ** The line breaks as the specification words them

    "Starting at [o], repeatedly consume [avail] codepoints; if fewer than
    [avail] remain, stop; otherwise append the new break offset and set
    [avail = term_cols]."  [rest] are the codepoints (their units) from
    [o] on; the result are the offsets that are appended. *)
Fixpoint spec_breaks (fuel : nat) (cols avail o : Z) (rest : list (list Z))
  : option (list Z) :=
  if zlength rest <? avail then Some []
  else
    match fuel with
    | O => None
    | S fuel' =>
      let next := o + zlength (concat (ztake avail rest)) in
      option_map (cons next) (spec_breaks fuel' cols cols next (zdrop avail rest))
    end.

(** "Truncates [line_offset] to length [r + 1] before extending", with
    [avail = term_cols - (r == 0 ? prompt_len : 0)] at the start. *)
Definition spec_recompute (s : handle) (r : Z) : option (list Z) :=
  match zget (line_offset s) r with
  | None => None
  | Some o =>
    match utf8_decode (zdrop o (buffer s)) with
    | None => None
    | Some cs =>
      option_map (app (ztake (r + 1) (line_offset s)))
        (spec_breaks (S (length cs)) (term_cols s)
           (term_cols s - (if r =? 0 then prompt_len s else 0)) o (map snd cs))
    end
  end.

(** A prompt as wide as the window: two columns, the prompt "> ". *)
Definition narrow_session : handle := demo_session 2 true true.

(** The codepoint of a well-formed sequence. *)
Definition chunk_char (c : list Z) : Z :=
  match decode1 c with
  | Some (MbChar uc _) => uc
  | _ => 0xfffd
  end.

(** ** The invariant of a multi-line session *)

(** [cs] are the codepoints of the buffer (their units).  The byte offset
    of the codepoint with index [k]. *)
Definition cp_offset (cs : list (list Z)) (k : Z) : Z :=
  zlength (concat (ztake k cs)).

(** The index of the first codepoint of row [j], where row 0 has room for
    [a] codepoints after the prompt and every other row for [cols]. *)
Definition row_start (a cols j : Z) : Z :=
  if j <=? 0 then 0 else a + (j - 1) * cols.

(** The offsets of the first [R] rows. *)
Definition rows_list (a cols : Z) (cs : list (list Z)) (R : nat) : list Z :=
  map (fun j => cp_offset cs (row_start a cols (Z.of_nat j))) (seq 0 R).

(** The units of a codepoint that a key can insert so that every edit
    action works on it: well-formed, not NUL (where [u8_next] ends) and not
    U+FFFD (which the program takes for a decoding error). *)
Definition key_seq (c : list Z) : bool :=
  utf8_seq c
  && (if list_eq_dec Z.eq_dec c [0] then false else true)
  && (if list_eq_dec Z.eq_dec c [0xef; 0xbf; 0xbd] then false else true).

Definition typed_codepoint (uc : Z) : bool :=
  (0 <? uc) && (uc <? 0x110000) && ((uc <? 0xd800) || (0xe000 <=? uc))
  && negb (uc =? 0xfffd).

(** What the entries of [line_offset] must satisfy. *)
Fixpoint strictly_increasing (l : list Z) : bool :=
  match l with
  | a :: t =>
    match t with
    | b :: _ => (a <? b) && strictly_increasing t
    | [] => true
    end
  | [] => true
  end.

Definition line_offset_ok (s : handle) : bool :=
  (1 <=? zlength (line_offset s))
  && match line_offset s with o0 :: _ => o0 =? 0 | [] => false end
  && strictly_increasing (line_offset s)
  && forallb (codepoint_boundary (buffer s)) (line_offset s).

(** A session as [prepare] leaves it when it starts an edit. *)
Definition freshly_prepared (s : handle) : Prop :=
  exists su s0 out, term_state s0 = closed /\ prepare su s0 = Some (tt, s, out).

(** The key events of the invariant: every key but End and Ctrl-E
    (end-of-line), Ctrl-U (line-discard) and Insert (the switch to
    overwrite); a key that inserts carries a codepoint of [typed_codepoint]. *)
Definition key_mods (k : TermKeyKey) : Z :=
  Z.land (modifiers k)
    (Z.lor (Z.lor TERMKEY_KEYMOD_ALT TERMKEY_KEYMOD_SHIFT) TERMKEY_KEYMOD_CTRL).

Definition allowed_key (k : TermKeyKey) : bool :=
  match type k with
  | TERMKEY_TYPE_UNICODE =>
    if Z.land (modifiers k) (Z.lor TERMKEY_KEYMOD_ALT TERMKEY_KEYMOD_CTRL) =? 0
    then typed_codepoint (u32 (code k))
    else negb ((key_mods k =? TERMKEY_KEYMOD_CTRL)
               && ((code k =? 0x65) || (code k =? 0x75)))
  | TERMKEY_TYPE_KEYSYM =>
    negb ((key_mods k =? 0)
          && ((code k =? TERMKEY_SYM_END) || (code k =? TERMKEY_SYM_INSERT)))
  | _ => true
  end.

(** The number of rows that [n] codepoints fill; a row that is exactly
    full is followed by an empty one. *)
Definition row_count (a cols n : Z) : nat :=
  Z.to_nat (if n <? a then 1 else 2 + (n - a) / cols).

(** The text of a session: the buffer is the codepoints [cs] and
    [line_offset] holds the starts of the rows that they fill.  [B] bounds
    the width of the window and the length of the buffer together. *)
Record text_inv (B : Z) (s : handle) (cs : list (list Z)) : Prop := {
  inv_multiline : multiline s = true;
  inv_insert : insert s = true;
  inv_prompt : 0 <= prompt_len s < term_cols s;
  inv_chunks : Forall (fun c => key_seq c = true) cs;
  inv_buffer : buffer s = concat cs;
  inv_length : zlength (buffer s) + term_cols s <= B;
  inv_rows :
    line_offset s
    = rows_list (term_cols s - prompt_len s) (term_cols s) cs
        (row_count (term_cols s - prompt_len s) (term_cols s) (zlength cs));
  inv_max_lines :
    Z.of_nat (row_count (term_cols s - prompt_len s) (term_cols s) (zlength cs))
    <= max_lines s
}.

(** The cursor of a session: it is before the codepoint [k], on the row
    [pos_y] or, when the column was taken from a longer row, beyond the end
    of that row. *)
Record cursor_inv (s : handle) (cs : list (list Z)) (k : Z) : Prop := {
  inv_cursor : 0 <= k <= zlength cs;
  inv_offset : offset s = cp_offset cs k;
  inv_pos_y : 0 <= pos_y s;
  inv_row : row_start (term_cols s - prompt_len s) (term_cols s) (pos_y s) <= k;
  inv_pos_x :
    pos_x s = (if pos_y s =? 0 then prompt_len s else 0)
              + (k - row_start (term_cols s - prompt_len s) (term_cols s) (pos_y s));
  inv_requested : 0 <= requested_pos_x s < 2 ^ 32
}.

Definition edit_inv (B : Z) (s : handle) (cs : list (list Z)) (k : Z) : Prop :=
  text_inv B s cs /\ cursor_inv s cs k.

(** The invariant for some text and cursor. *)
Definition editing (B : Z) (s : handle) : Prop :=
  exists cs k, edit_inv B s cs k.

(** Twenty columns, a single-line session (a scrolling view), seventeen
    times the key "a". *)
Definition scrolled_keys : list TermKeyKey := repeat (key_unicode 0x61) 17.

(** A multi-line session of twenty columns: eight times the key "é", Home,
    End, and the keys "a", "b", "c". *)
Definition end_keys : list TermKeyKey :=
  repeat (key_unicode 0xe9) 8
  ++ [key_sym TERMKEY_SYM_HOME; key_sym TERMKEY_SYM_END;
      key_unicode 0x61; key_unicode 0x62; key_unicode 0x63].

(** Keys of every edit action that keeps the invariant, on a text that
    wraps. *)
Definition wrapping_keys : list TermKeyKey :=
  repeat (key_unicode 0xe9) 19
  ++ [key_sym TERMKEY_SYM_LEFT; key_sym TERMKEY_SYM_UP; key_unicode 0x20;
      key_unicode 0x1f600; key_alt 0x62; key_sym TERMKEY_SYM_BACKSPACE;
      key_sym TERMKEY_SYM_DOWN; key_alt 0x66; key_sym TERMKEY_SYM_HOME;
      key_sym TERMKEY_SYM_DELETE; key_sym TERMKEY_SYM_RIGHT; key_ctrl 0x6b;
      key_sym TERMKEY_SYM_ENTER].

(** ** Properties of runs

    A program leaves the field [f] alone. *)
Definition preserves {A X} (f : handle -> X) (m : M A) : Prop :=
  forall s a s' o, m s = Some (a, s', o) -> f s' = f s.

(** The program runs to its end from [s], and [Q] holds of its result, the
    session that it leaves and what it wrote. *)
Definition wp {A} (m : M A) (s : handle) (Q : A -> handle -> list Z -> Prop) : Prop :=
  exists a s' o, m s = Some (a, s', o) /\ Q a s' o.

(** If the program runs to its end from [s], [Q] holds of its result and
    the session that it leaves. *)
Definition after {A} (m : M A) (s : handle) (Q : A -> handle -> Prop) : Prop :=
  forall a s' o, m s = Some (a, s', o) -> Q a s'.

(** The units of well-formed codepoints, one list each. *)
Definition chunks_ok (cs : list (list Z)) : Prop :=
  Forall (fun c => utf8_seq c = true) cs.

(** ** [nrl.cc]: the order of the key table

    [key::operator<=>], with [this] first: the fields of the argument are
    compared with those of [this], [mod] before [sym] before [code]. *)
Definition bool_compare (a b : bool) : comparison :=
  match a, b with
  | false, true => Lt
  | true, false => Gt
  | _, _ => Eq
  end.

Definition key_compare (this k : key) : comparison :=
  if mod_ k =? mod_ this then
    if Bool.eqb (sym k) (sym this) then kcode k ?= kcode this
    else bool_compare (sym k) (sym this)
  else mod_ k ?= mod_ this.

(** [std::less<key>]: the order of [std::map<key, key_function>]. *)
Definition key_less (a b : key) : bool :=
  match key_compare a b with Lt => true | _ => false end.

(** ** [nrl.cc]: [get_current_pos]

    The array [buf] of 256 [char]: an element is [None] until a [read] has
    written it.  Reading such an element, or one beyond the array, is not
    defined. *)
Definition isdigit (c : Z) : bool := (0x30 <=? c) && (c <=? 0x39).

Definition buf_get (buf : list (option Z)) (i : Z) : option Z :=
  match zget buf i with
  | Some (Some c) => Some c
  | _ => None
  end.

(** The loop over the digits at [cp], which ends at the first byte that is
    no digit and at [buf + n]; [acc * 10 + digit] is computed in [unsigned].
    The result is [acc] and [cp]. *)
Fixpoint digits_loop (fuel : nat) (buf : list (option Z)) (n cp acc : Z)
  : option (Z * Z) :=
  if cp <? n then
    match buf_get buf cp with
    | None => None
    | Some c =>
      if isdigit c then
        match fuel with
        | O => None
        | S fuel' => digits_loop fuel' buf n (cp + 1) (u32 (acc * 10 + (c - 0x30)))
        end
      else Some (acc, cp)
    end
  else Some (acc, cp).

(** What is done at an index [i] with ESC, an opening bracket and a digit:
    the row, a semicolon, the column and the letter R are expected.  The
    result is [done], [col] and [row]; both are reset when the report is
    not complete. *)
Definition parse_report (buf : list (option Z)) (n i : Z) : option (bool * Z * Z) :=
  match digits_loop 256 buf n (i + 2) 0 with
  | None => None
  | Some (row, cp) =>
    match buf_get buf cp with
    | None => None
    | Some c =>
      if c =? 0x3b then                                  (* ';' *)
        match buf_get buf (cp + 1) with
        | None => None
        | Some d =>
          if isdigit d then
            match digits_loop 256 buf n (cp + 1) 0 with
            | None => None
            | Some (col, cp') =>
              match buf_get buf cp' with
              | None => None
              | Some e =>
                if e =? 0x52 then Some (true, col, row)  (* 'R' *)
                else Some (false, 0, 0)
              end
            end
          else Some (false, 0, 0)
        end
      else Some (false, 0, 0)
    end
  end.

(** [while (i + 6 <= n)] *)
Fixpoint scan_reports (fuel : nat) (buf : list (option Z)) (n i col row : Z)
  : option (bool * Z * Z) :=
  if i + 6 <=? n then
    match fuel with
    | O => None
    | S fuel' =>
      match buf_get buf i with
      | None => None
      | Some c0 =>
        if c0 =? ESC then
          match buf_get buf (i + 1) with
          | None => None
          | Some c1 =>
            if c1 =? 0x5b then
              match buf_get buf (i + 2) with
              | None => None
              | Some c2 =>
                if isdigit c2 then
                  match parse_report buf n i with
                  | None => None
                  | Some (true, col', row') => Some (true, col', row')
                  | Some (false, col', row') =>
                    scan_reports fuel' buf n (i + 1) col' row'
                  end
                else scan_reports fuel' buf n (i + 1) col row
              end
            else scan_reports fuel' buf n (i + 1) col row
          end
        else scan_reports fuel' buf n (i + 1) col row
      end
    end
  else Some (false, col, row).

(** [while (! done)]: [reads] are the results of the calls of [read], [None]
    for -1 and the bytes otherwise, at most the 256 that were asked for.
    When they run out the call blocks for ever. *)
Fixpoint read_reports (reads : list (option (list Z))) (buf : list (option Z))
         (col row : Z) : option (Z * Z) :=
  match reads with
  | [] => None
  | None :: _ => Some (col, row)
  | Some data :: reads' =>
    if 256 <? zlength data then None
    else
      let buf' := map Some data ++ zdrop (zlength data) buf in
      match scan_reports 256 buf' (zlength data) 0 col row with
      | None => None
      | Some (true, col', row') => Some (col', row')
      | Some (false, col', row') => read_reports reads' buf' col' row'
      end
  end.

(** The result is [(col, row)]. *)
Definition get_current_pos (reads : list (option (list Z))) : option (Z * Z) :=
  read_reports reads (repeat None 256) 0 0.

(** A cursor position report, "\e[row;colR". *)
Definition position_report (row col : Z) : list Z :=
  [ESC; 0x5b] ++ dec row ++ [0x3b] ++ dec col ++ [0x52].

(** The channels of a colour are [uint8_t]. *)
Definition byte_color (c : color) : bool :=
  is_byte (Color.r c) && is_byte (Color.g c) && is_byte (Color.b c).

Definition byte_hsv (x : hsv_color) : bool :=
  is_byte (h x) && is_byte (sat x) && is_byte (v x).

(** The bytes that keep [nonescape_len] inside an escape sequence, and
    those that end it. *)
Definition csi_inner (c : Z) : bool := (c =? 0x5b) || (c <? 0x40) || (0x7e <? c).
Definition csi_final (c : Z) : bool := negb (csi_inner c).

(** The units of a codepoint as [u8_uctomb] writes them, none for what is
    no scalar value. *)
Definition utf8_encode (uc : Z) : list Z :=
  match u8_uctomb uc with
  | Some c => c
  | None => []
  end.

(** A readiness event of the key descriptor [fd] at which the decoder
    delivers the keys of the codepoints [ucs] and then wants more input. *)
Definition typing_event (fd : Z) (ucs : list Z) : epoll_event * input :=
  (mk_event fd, mk_input (map key_unicode ucs) TERMKEY_RES_AGAIN None).

(** The session of the examples with 20 columns after "a", "é", "€" and
    "b" were typed and the cursor was moved back between "é" and "€". *)
Definition mixed_keys : list TermKeyKey :=
  [key_unicode 0x61; key_unicode 0xe9; key_unicode 0x20ac; key_unicode 0x62;
   key_sym TERMKEY_SYM_LEFT; key_sym TERMKEY_SYM_LEFT].

Definition mixed_session : handle := demo_after 20 true true mixed_keys.

(** A single-line session with the prompt "password: ", and the same
    session prepared in a window of ten columns. *)
Definition wide_prompt_closed : handle :=
  {| buffer := []; line_offset := [0]; filled := 0; returned := 0; max_lines := 1;
     prompt := prompt_string [0x70; 0x61; 0x73; 0x73; 0x77; 0x6f; 0x72; 0x64; 0x3a; 0x20];
     empty_message := [];
     empty_message_fg := color_none; fd := 0; fl := flags_none; term_state := closed;
     info := demo_info; term_rows := 0; term_cols := 0; cur_frame_lines := 0;
     frame_highlight_fg := default_foreground demo_info;
     text_default_fg := color_none; text_default_bg := color_none;
     tkfd := 0; old_mask := 0; sigfd := -1; epfd := 3; extern_epfd := false;
     multiline := false; insert := true; osc133 := false;
     initial_col := 0; initial_row := 0; offset := 0; nchars := 0; pos_x := 0;
     requested_pos_x := 0; pos_y := 0; first := 0; prompt_len := 0 |}.

Definition wide_prompt_session : handle :=
  match prepare (demo_setup 10) wide_prompt_closed with
  | Some (_, s, _) => s
  | None => wide_prompt_closed
  end.

(** The codepoint [j] of [cs] starts a word: it is of a word and the
    codepoint before it is not, which is what the loop of
    [cb_backward_word] looks for. *)
Definition word_start (w : Z -> bool) (cs : list (list Z)) (j : Z) : bool :=
  match zget cs j, zget cs (j - 1) with
  | Some c, Some c0 => w (chunk_char c) && negb (w (chunk_char c0))
  | _, _ => false
  end.

(** The session of the examples with 20 columns after "ab cd" was
    typed. *)
Definition words_keys : list TermKeyKey :=
  [key_unicode 0x61; key_unicode 0x62; key_unicode 0x20; key_unicode 0x63;
   key_unicode 0x64].

Definition words_session : handle := demo_after 20 true true words_keys.

(** ** The invariant of a single-line session while text is typed at its end

    The window has twenty columns or more, the codepoints of the buffer are
    [cs], the cursor is behind them, and the view starts at the codepoint
    [j0]: the one row begins there, behind the prompt as long as nothing
    was scrolled out and behind the mark of one column afterwards.  The
    cursor stays in the first nine tenths of the window. *)
Record scroll_inv (B : Z) (s : handle) (cs : list (list Z)) (j0 : Z) : Prop := {
  sinv_single : multiline s = false;
  sinv_col : initial_col s = 1;
  sinv_cols : 20 <= term_cols s;
  sinv_chunks : Forall (fun c => key_seq c = true) cs;
  sinv_buffer : buffer s = concat cs;
  sinv_length : zlength (buffer s) + term_cols s <= B;
  sinv_offset : offset s = zlength (buffer s);
  sinv_view : 0 <= j0 <= zlength cs;
  sinv_rows : line_offset s = [cp_offset cs j0];
  sinv_pos_y : pos_y s = 0;
  sinv_prompt : 0 <= prompt_len s < nine_tenths (term_cols s);
  sinv_pos_x : pos_x s = (if j0 =? 0 then prompt_len s else 1) + (zlength cs - j0);
  sinv_room : pos_x s <= nine_tenths (term_cols s)
}.

(** * Properties *)

(** ** Booleans, lists, machine integers *)

Ltac boolZ :=
  repeat (rewrite ?andb_true_iff, ?orb_true_iff, ?negb_true_iff, ?negb_false_iff,
            ?andb_false_iff, ?orb_false_iff,
            ?Z.ltb_lt, ?Z.leb_le, ?Z.eqb_eq, ?Z.ltb_ge, ?Z.leb_gt, ?Z.eqb_neq in * ).

Lemma forall_bytes (f : Z -> bool) :
  forallb f (map Z.of_nat (seq 0 256)) = true ->
  forall b, is_byte b = true -> f b = true.
Proof.
  intros H b Hb. unfold is_byte in Hb. boolZ.
  rewrite forallb_forall in H. apply H.
  apply in_map_iff. exists (Z.to_nat b). split; [lia|].
  apply in_seq. lia.
Qed.

Lemma is_cont_cont_byte b : is_byte b = true -> is_cont b = cont_byte b.
Proof.
  intros Hb. apply Bool.eqb_prop.
  revert b Hb. apply forall_bytes. vm_compute. reflexivity.
Qed.

Lemma land_c0_cont_byte b : is_byte b = true -> (Z.land b 0xc0 =? 0x80) = cont_byte b.
Proof.
  intros Hb. apply Bool.eqb_prop.
  revert b Hb. apply forall_bytes. vm_compute. reflexivity.
Qed.

Lemma zlength_nil {A} : zlength (@nil A) = 0.
Proof. reflexivity. Qed.

Lemma zlength_cons {A} (a : A) l : zlength (a :: l) = 1 + zlength l.
Proof. unfold zlength. simpl length. lia. Qed.

Lemma zlength_app {A} (l1 l2 : list A) : zlength (l1 ++ l2) = zlength l1 + zlength l2.
Proof. unfold zlength. rewrite length_app. lia. Qed.

Lemma zlength_nonneg {A} (l : list A) : 0 <= zlength l.
Proof. unfold zlength. lia. Qed.

Lemma ztake_zdrop {A} n (l : list A) : ztake n l ++ zdrop n l = l.
Proof. apply firstn_skipn. Qed.

(** ** Well-formed UTF-8: from the decoder to sequences of codepoints *)

Lemma utf8_seq_bytes c : utf8_seq c = true -> forallb is_byte c = true.
Proof.
  destruct c as [|b0 [|b1 [|b2 [|b3 [|b4 t]]]]]; simpl; try discriminate;
    unfold cont_byte, is_byte; intros H; boolZ; lia.
Qed.

Lemma utf8_seq_length c : utf8_seq c = true -> 1 <= zlength c <= 4.
Proof.
  destruct c as [|b0 [|b1 [|b2 [|b3 [|b4 t]]]]]; simpl; try discriminate;
    intros _; unfold zlength; simpl; lia.
Qed.

(** What [decode1] accepts is a well-formed sequence, and it is the
    first [n] units. *)
Lemma decode1_char s uc n :
  forallb is_byte s = true ->
  decode1 s = Some (MbChar uc n) ->
  utf8_seq (ztake n s) = true /\ zlength (ztake n s) = n.
Proof.
  intros Hb H.
  destruct s as [|c [|s1 [|s2 [|s3 t]]]]; simpl in H; try discriminate;
    simpl in Hb;
    repeat match type of Hb with
           | (_ && _) = true => apply andb_true_iff in Hb; destruct Hb as [? Hb]
           end;
    repeat match goal with
           | H : is_byte ?b = true |- _ =>
             rewrite ?(is_cont_cont_byte b H) in *; unfold is_byte in H
           end;
    repeat match type of H with
           | context [if ?b then _ else _] => destruct b eqn:?
           end;
    inversion H; subst; clear H; unfold ztake, zlength; simpl;
    unfold cont_byte in *; boolZ; repeat split; try lia.
Qed.

Lemma utf8_chars_sound fuel : forall s cs,
  forallb is_byte s = true ->
  utf8_chars fuel s = Some cs ->
  concat (map snd cs) = s /\ Forall (fun c => utf8_seq c = true) (map snd cs).
Proof.
  induction fuel as [|fuel IH]; intros s cs Hb H.
  - destruct s; simpl in H; [|discriminate]. inversion H. simpl. auto.
  - destruct s as [|c0 t0]; [inversion H; simpl; auto|].
    cbn [utf8_chars] in H.
    destruct (decode1 (c0 :: t0)) as [[uc n| |]|] eqn:Hd; try discriminate.
    destruct (utf8_chars fuel (zdrop n (c0 :: t0))) as [cs'|] eqn:Hr; [|discriminate].
    inversion H; subst; clear H.
    destruct (decode1_char _ _ _ Hb Hd) as [Hseq Hlen].
    assert (Hb' : forallb is_byte (zdrop n (c0 :: t0)) = true).
    { rewrite forallb_forall in *. intros x Hx. apply Hb.
      rewrite <- (ztake_zdrop n (c0 :: t0)). apply in_or_app. auto. }
    destruct (IH _ _ Hb' Hr) as [Hc Hf].
    simpl. rewrite Hc. split; [apply ztake_zdrop|]. constructor; auto.
Qed.

Lemma utf8_decode_sound s cs :
  utf8_decode s = Some cs ->
  concat (map snd cs) = s /\ Forall (fun c => utf8_seq c = true) (map snd cs).
Proof.
  unfold utf8_decode. destruct (forallb is_byte s) eqn:Hb; [|discriminate].
  apply utf8_chars_sound; assumption.
Qed.

(** ** C8: [nonescape_len] without escape sequences *)

Lemma nonescape_loop_seq c : forall rest res,
  utf8_seq c = true -> ~ In 0x1b c ->
  nonescape_loop (c ++ rest) false res = nonescape_loop rest false (res + 1).
Proof.
  intros rest res Hs Hesc.
  pose proof (utf8_seq_bytes _ Hs) as Hb.
  destruct c as [|b0 [|b1 [|b2 [|b3 [|b4 t]]]]]; simpl in Hs; try discriminate;
    simpl in Hb;
    repeat match type of Hb with
           | (_ && _) = true => apply andb_true_iff in Hb; destruct Hb as [? Hb]
           end;
    simpl;
    repeat match goal with
           | H : is_byte ?b = true |- _ =>
             rewrite (land_c0_cont_byte b H) in *; clear H
           end;
    repeat match goal with
           | |- context [?b =? 27] =>
             let E := fresh in
             destruct (Z.eqb_spec b 27) as [E|E];
             [exfalso; apply Hesc; simpl; rewrite E; tauto|]
           end;
    unfold cont_byte in *; boolZ;
    repeat match goal with
           | |- context [(?a <=? ?b) && (?c <? ?d)] =>
             let E := fresh in
             destruct ((a <=? b) && (c <? d)) eqn:E; boolZ; try lia
           end;
    simpl; reflexivity.
Qed.

Lemma nonescape_loop_chunks cs : forall res,
  Forall (fun c => utf8_seq c = true) cs -> ~ In 0x1b (concat cs) ->
  nonescape_loop (concat cs) false res = res + zlength cs.
Proof.
  induction cs as [|c cs IH]; intros res Hf Hesc; simpl.
  - unfold zlength. simpl. lia.
  - inversion Hf; subst.
    rewrite nonescape_loop_seq; auto.
    + rewrite IH; auto.
      * rewrite zlength_cons. lia.
      * intros Hin. apply Hesc. simpl. apply in_or_app. auto.
    + intros Hin. apply Hesc. simpl. apply in_or_app. auto.
Qed.

(** C8. A byte string that is well-formed UTF-8 and holds no ESC byte has as
    many visible characters, by [nonescape_len], as it has codepoints. *)
Theorem nonescape_len_codepoint_count (x : list Z) (n : Z) :
  codepoint_count x = Some n ->
  ~ In 0x1b x ->
  nonescape_len x = n.
Proof.
  unfold codepoint_count. intros Hc Hesc.
  destruct (utf8_decode x) as [cs|] eqn:Hd; [|discriminate].
  inversion Hc; subst; clear Hc.
  destruct (utf8_decode_sound _ _ Hd) as [Hx Hf].
  unfold nonescape_len. rewrite <- Hx at 1.
  rewrite nonescape_loop_chunks; auto.
  - unfold zlength. rewrite length_map. lia.
  - rewrite Hx. assumption.
Qed.

(** "café": five bytes, four codepoints. *)
Lemma nonescape_len_codepoint_count_witness :
  codepoint_count [0x63; 0x61; 0x66; 0xc3; 0xa9] = Some 4
  /\ ~ In 0x1b [0x63; 0x61; 0x66; 0xc3; 0xa9]
  /\ nonescape_len [0x63; 0x61; 0x66; 0xc3; 0xa9] = 4.
Proof.
  assert (H1 : codepoint_count [0x63; 0x61; 0x66; 0xc3; 0xa9] = Some 4) by reflexivity.
  assert (H2 : ~ In 0x1b [0x63; 0x61; 0x66; 0xc3; 0xa9]).
  { simpl. intros H. repeat (destruct H as [H|H]; [discriminate H|]). exact H. }
  split; [exact H1 | split; [exact H2 |]].
  exact (nonescape_len_codepoint_count _ _ H1 H2).
Defined.

(** ** Frames: fields that a program leaves alone *)

Lemma preserves_ret {A X} (f : handle -> X) (a : A) : preserves f (ret a).
Proof. intros s a' s' o H. inversion H. reflexivity. Qed.

Lemma preserves_fault {A X} (f : handle -> X) : preserves f (@fault A).
Proof. intros s a' s' o H. discriminate H. Qed.

Lemma preserves_get {X} (f : handle -> X) : preserves f get.
Proof. intros s a' s' o H. inversion H. reflexivity. Qed.

Lemma preserves_write {X} (f : handle -> X) bs : preserves f (write bs).
Proof. intros s a' s' o H. inversion H. reflexivity. Qed.

Lemma preserves_assert {X} (f : handle -> X) c : preserves f (assert c).
Proof. destruct c; [apply preserves_ret | apply preserves_fault]. Qed.

Lemma preserves_defined {A X} (f : handle -> X) (o : option A) : preserves f (defined o).
Proof. destruct o; [apply preserves_ret | apply preserves_fault]. Qed.

Lemma preserves_modify {X} (f : handle -> X) (g : handle -> handle) :
  (forall s, f (g s) = f s) -> preserves f (modify g).
Proof. intros Hg s a' s' o H. inversion H. apply Hg. Qed.

Lemma preserves_bind {A B X} (f : handle -> X) (m : M A) (k : A -> M B) :
  preserves f m -> (forall a, preserves f (k a)) -> preserves f (bind m k).
Proof.
  intros Hm Hk s b s' o H. unfold bind in H.
  destruct (m s) as [[[a s1] o1]|] eqn:E1; [|discriminate].
  destruct (k a s1) as [[[b' s2] o2]|] eqn:E2; [|discriminate].
  inversion H; subst. rewrite (Hk _ _ _ _ _ E2). eapply Hm; eauto.
Qed.

Ltac pres_step :=
  first
    [ apply preserves_ret | apply preserves_fault | apply preserves_get
    | apply preserves_write | apply preserves_assert | apply preserves_defined
    | (apply preserves_modify; intros; reflexivity)
    | (apply preserves_bind; [|intros])
    | match goal with
      | |- preserves _ (if ?c then _ else _) => destruct c
      | |- preserves _ (match ?x with _ => _ end) => destruct x
      | |- preserves _ (let _ := _ in _) => cbv zeta
      end ].

Ltac pres := repeat pres_step.

Section Frames.

Variable uc_is_word : Z -> bool.
Context {X : Type} (f : handle -> X).

(** The fields that no edit action writes. *)
Hypothesis f_buffer : forall v s, f (set_buffer v s) = f s.
Hypothesis f_line_offset : forall v s, f (set_line_offset v s) = f s.
Hypothesis f_max_lines : forall v s, f (set_max_lines v s) = f s.
Hypothesis f_insert : forall v s, f (set_insert v s) = f s.
Hypothesis f_initial_row : forall v s, f (set_initial_row v s) = f s.
Hypothesis f_offset : forall v s, f (set_offset v s) = f s.
Hypothesis f_nchars : forall v s, f (set_nchars v s) = f s.
Hypothesis f_pos_x : forall v s, f (set_pos_x v s) = f s.
Hypothesis f_requested_pos_x : forall v s, f (set_requested_pos_x v s) = f s.
Hypothesis f_pos_y : forall v s, f (set_pos_y v s) = f s.

Ltac fpres_step :=
  first
    [ apply preserves_ret | apply preserves_fault | apply preserves_get
    | apply preserves_write | apply preserves_assert | apply preserves_defined
    | (apply preserves_modify; intros;
       first [ apply f_buffer | apply f_line_offset | apply f_max_lines
             | apply f_insert | apply f_initial_row | apply f_offset
             | apply f_nchars | apply f_pos_x | apply f_requested_pos_x
             | apply f_pos_y ])
    | (apply preserves_bind; [|intros])
    | match goal with
      | |- preserves _ (if ?c then _ else _) => destruct c
      | |- preserves _ (match ?x with _ => _ end) => destruct x
      | |- preserves _ (let _ := _ in _) => cbv zeta
      end ].

Ltac fpres := repeat fpres_step.

Lemma preserves_move_to x y : preserves f (move_to x y).
Proof. unfold move_to. fpres. Qed.

Lemma preserves_recompute_line_offset r : preserves f (recompute_line_offset r).
Proof. unfold recompute_line_offset. fpres. Qed.

Lemma preserves_mbsnlen_between s a b : preserves f (mbsnlen_between s a b).
Proof. unfold mbsnlen_between. fpres. Qed.

Lemma preserves_column_of_offset : preserves f column_of_offset.
Proof.
  unfold column_of_offset. fpres;
    try apply preserves_mbsnlen_between; try apply preserves_move_to.
Qed.

Lemma preserves_redraw_tail : preserves f redraw_tail.
Proof. unfold redraw_tail. fpres. Qed.

Lemma preserves_show_empty_message : preserves f show_empty_message.
Proof. unfold show_empty_message. fpres. Qed.

Lemma preserves_cb_backward_char : preserves f cb_backward_char.
Proof. unfold cb_backward_char. fpres; apply preserves_move_to. Qed.

Lemma preserves_key_map k cb :
  key_map_find (key_map uc_is_word) k = Some cb -> preserves f cb.
Proof.
  unfold key_map. simpl.
  repeat match goal with
         | |- (if ?c then _ else _) = _ -> _ => destruct c; [intros H; inversion H; subst; clear H|]
         end; try discriminate.
  - unfold cb_beginning_of_line. fpres; apply preserves_move_to.
  - unfold cb_beginning_of_line. fpres; apply preserves_move_to.
  - unfold cb_end_of_line. fpres; apply preserves_move_to.
  - unfold cb_end_of_line. fpres; apply preserves_move_to.
  - unfold cb_insert. fpres.
  - unfold cb_enter. fpres.
  - apply preserves_cb_backward_char.
  - unfold cb_forward_char. fpres; apply preserves_move_to.
  - unfold cb_previous_screen_line. fpres; apply preserves_move_to.
  - unfold cb_next_screen_line. fpres; apply preserves_move_to.
  - unfold cb_backspace. fpres;
      first [ apply preserves_cb_backward_char | apply preserves_recompute_line_offset
            | apply preserves_redraw_tail ].
  - unfold cb_delete. fpres;
      first [ apply preserves_recompute_line_offset | apply preserves_redraw_tail ].
  - unfold cb_backward_word. fpres; apply preserves_column_of_offset.
  - unfold cb_forward_word. fpres; apply preserves_column_of_offset.
  - unfold cb_unix_line_discard. fpres; apply preserves_recompute_line_offset.
  - unfold cb_kill_line. fpres; apply preserves_recompute_line_offset.
Qed.

Lemma preserves_on_key k : preserves f (on_key uc_is_word k).
Proof.
  unfold on_key.
  destruct (type k); try apply preserves_ret.
  - destruct (Z.land _ _ =? 0).
    + unfold insert_multiline, insert_scrolling, overwrite.
      fpres;
        first [ apply preserves_move_to | apply preserves_recompute_line_offset
              | apply preserves_mbsnlen_between ].
    + destruct (key_map_find _ _) eqn:E; [|apply preserves_ret].
      eapply preserves_key_map; eauto.
  - apply preserves_bind; [apply preserves_get|intros s].
    destruct (key_map_find _ _) eqn:E; [|apply preserves_ret].
    fpres; try apply preserves_show_empty_message.
    eapply preserves_key_map; eauto.
Qed.

Lemma preserves_getkey_loop ks : preserves f (getkey_loop uc_is_word ks).
Proof.
  induction ks as [|k ks IH]; simpl; [apply preserves_ret|].
  fpres; auto. apply preserves_on_key.
Qed.

End Frames.

(** ** C9: edit actions at a boundary *)

(** C9. An edit action whose boundary condition fails does nothing:
    backward-char, backspace, backward-word and line-discard at offset 0;
    forward-char, delete and kill-to-end at the end of the buffer;
    previous-screen-line on row 0 and next-screen-line on the last row (the
    number of rows being one that [unsigned] holds).  The session is
    unchanged and no byte is written. *)
Theorem boundary_actions_are_noops (w : Z -> bool) (s : handle) :
  (offset s = 0 ->
     cb_backward_char s = Some (false, s, [])
     /\ cb_backspace s = Some (false, s, [])
     /\ cb_backward_word w s = Some (false, s, [])
     /\ cb_unix_line_discard s = Some (false, s, []))
  /\ (offset s = zlength (buffer s) ->
     cb_forward_char s = Some (false, s, [])
     /\ cb_delete s = Some (false, s, [])
     /\ cb_kill_line s = Some (false, s, []))
  /\ (pos_y s = 0 -> cb_previous_screen_line s = Some (false, s, []))
  /\ (pos_y s + 1 = zlength (line_offset s) -> zlength (line_offset s) < 2 ^ 32 ->
     cb_next_screen_line s = Some (false, s, [])).
Proof.
  split; [intros H; repeat split
         | split; [intros H; repeat split | split; [intros H | intros H Hlen]]].
  - unfold cb_backward_char, bind, get. rewrite H. reflexivity.
  - unfold cb_backspace, bind, get. rewrite H. reflexivity.
  - unfold cb_backward_word, bind, get. rewrite H. reflexivity.
  - unfold cb_unix_line_discard, bind, get. rewrite H. reflexivity.
  - unfold cb_forward_char, bind, get. rewrite H, Z.ltb_irrefl. reflexivity.
  - unfold cb_delete, bind, get. rewrite H, Z.ltb_irrefl. reflexivity.
  - unfold cb_kill_line, bind, get. rewrite H, Z.ltb_irrefl. reflexivity.
  - unfold cb_previous_screen_line, bind, get. rewrite H. reflexivity.
  - unfold cb_next_screen_line, bind, get. rewrite H. unfold u32.
    pose proof (zlength_nonneg (line_offset s)).
    rewrite Z.mod_small by lia. rewrite Z.ltb_irrefl. reflexivity.
Qed.

(** In a session that was just prepared every boundary condition fails. *)
Lemma boundary_actions_are_noops_witness :
  let s := demo_session 20 true true in
  cb_backward_char s = Some (false, s, [])
  /\ cb_backspace s = Some (false, s, [])
  /\ cb_backward_word ascii_word s = Some (false, s, [])
  /\ cb_unix_line_discard s = Some (false, s, [])
  /\ cb_forward_char s = Some (false, s, [])
  /\ cb_delete s = Some (false, s, [])
  /\ cb_kill_line s = Some (false, s, [])
  /\ cb_previous_screen_line s = Some (false, s, [])
  /\ cb_next_screen_line s = Some (false, s, []).
Proof.
  intros s.
  destruct (boundary_actions_are_noops ascii_word s) as [H0 [H1 [H2 H3]]].
  destruct (H0 eq_refl) as [A1 [A2 [A3 A4]]].
  destruct (H1 eq_refl) as [A5 [A6 A7]].
  pose proof (H2 eq_refl) as A8.
  assert (A9 : cb_next_screen_line s = Some (false, s, [])).
  { apply H3; [reflexivity | vm_compute; reflexivity]. }
  repeat split; assumption.
Defined.

(** ** C10: Ctrl-D on a buffer that is not empty *)

Lemma land_ctrl_alt_ctrl m :
  Z.land m TERMKEY_KEYMOD_CTRL <> 0 ->
  Z.land m (Z.lor TERMKEY_KEYMOD_ALT TERMKEY_KEYMOD_CTRL) <> 0.
Proof.
  intros H E. apply H.
  change TERMKEY_KEYMOD_CTRL with (Z.land (Z.lor TERMKEY_KEYMOD_ALT TERMKEY_KEYMOD_CTRL) 4).
  rewrite Z.land_assoc, E. reflexivity.
Qed.

(** No key of the table has the codepoint 'd' or 'D'. *)
Lemma key_map_no_d w sy m c :
  c = 0x44 \/ c = 0x64 -> key_map_find (key_map w) (mk_tkey sy m c) = None.
Proof.
  intros [-> | ->]; unfold key_map, key_map_find, key_eqb; simpl;
    destruct sy; simpl; rewrite ?andb_false_r; reflexivity.
Qed.

(** C10. A Ctrl-D key event (the codepoint 'd' or 'D' with the Ctrl
    modifier, alone or with others) on a buffer that is not empty is
    ignored: the cancellation test does not fire, the key table has no entry
    for it, [on_key] leaves the session as it is, writes nothing and does not
    commit, and [handle_one] goes on to the next key.  The cancellation test
    fires on such a key exactly when the buffer is empty and Ctrl is the
    only modifier. *)
Theorem ctrl_d_on_text_is_ignored (w : Z -> bool) (s : handle) (k : TermKeyKey)
        (rest : list TermKeyKey) :
  type k = TERMKEY_TYPE_UNICODE ->
  code k = 0x44 \/ code k = 0x64 ->
  Z.land (modifiers k) TERMKEY_KEYMOD_CTRL <> 0 ->
  (is_cancel s k = true <-> buffer s = [] /\ modifiers k = TERMKEY_KEYMOD_CTRL)
  /\ (forall sy m, key_map_find (key_map w) (mk_tkey sy m (code k)) = None)
  /\ on_key w k s = Some (false, s, [])
  /\ (buffer s <> [] ->
      is_cancel s k = false
      /\ getkey_loop w (k :: rest) s = getkey_loop w rest s
      /\ handle_one w (mk_event (tkfd s)) (mk_input [k] TERMKEY_RES_NONE None) s
         = Some ((true, false), s, [])).
Proof.
  intros Ht Hc Hm.
  assert (Hcancel : is_cancel s k = true <-> buffer s = [] /\ modifiers k = TERMKEY_KEYMOD_CTRL).
  { unfold is_cancel. rewrite Ht.
    assert (Hz : (zlength (buffer s) =? 0) = true <-> buffer s = []).
    { unfold zlength. destruct (buffer s); simpl; split; intros; try reflexivity;
        try discriminate; boolZ; lia. }
    destruct Hc as [E|E]; rewrite E; simpl; rewrite ?orb_true_r, ?andb_true_r;
      rewrite andb_true_iff, Hz, Z.eqb_eq; tauto. }
  assert (Hkey : on_key w k s = Some (false, s, [])).
  { unfold on_key. rewrite Ht.
    pose proof (land_ctrl_alt_ctrl _ Hm) as Hm'.
    apply Z.eqb_neq in Hm'. rewrite Hm'.
    rewrite key_map_no_d by assumption. reflexivity. }
  split; [exact Hcancel|].
  split; [intros; apply key_map_no_d; assumption|].
  split; [exact Hkey|].
  intros Hne.
  assert (Hnc : is_cancel s k = false).
  { apply not_true_is_false. intros E.
    apply Hcancel in E. destruct E as [E _]. contradiction. }
  split; [exact Hnc|]. split.
  - simpl. unfold bind at 1. unfold get. rewrite Hnc.
    unfold bind. rewrite Hkey.
    destruct (getkey_loop w rest s) as [[[d s2] o2]|]; reflexivity.
  - unfold handle_one, bind, get. rewrite Z.eqb_refl. simpl.
    unfold bind, get. rewrite Hnc, Hkey. reflexivity.
Qed.

(** Ctrl-D after "hi" was typed. *)
Lemma ctrl_d_on_text_is_ignored_witness :
  let s := demo_after 20 true true [key_unicode 0x68; key_unicode 0x69] in
  buffer s = [0x68; 0x69]
  /\ on_key ascii_word (key_ctrl 0x64) s = Some (false, s, [])
  /\ is_cancel s (key_ctrl 0x64) = false.
Proof.
  intros s.
  assert (Hm : Z.land (modifiers (key_ctrl 0x64)) TERMKEY_KEYMOD_CTRL <> 0)
    by (vm_compute; discriminate).
  destruct (ctrl_d_on_text_is_ignored ascii_word s (key_ctrl 0x64) [] eq_refl
              (or_intror eq_refl) Hm) as [_ [_ [H1 H2]]].
  assert (Hb : buffer s = [0x68; 0x69]) by (vm_compute; reflexivity).
  assert (Hne : buffer s <> []) by (rewrite Hb; discriminate).
  destruct (H2 Hne) as [H3 _].
  split; [exact Hb | split; [exact H1 | exact H3]].
Defined.

(** ** Running a program: a result with a property *)

Lemma wp_ret {A} (a : A) s Q : Q a s [] -> wp (ret a) s Q.
Proof. intros H. exists a, s, []. auto. Qed.

Lemma wp_get s Q : Q s s [] -> wp get s Q.
Proof. intros H. exists s, s, []. auto. Qed.

Lemma wp_modify f s Q : Q tt (f s) [] -> wp (modify f) s Q.
Proof. intros H. exists tt, (f s), []. auto. Qed.

Lemma wp_write bs s Q : Q tt s bs -> wp (write bs) s Q.
Proof. intros H. exists tt, s, bs. auto. Qed.

Lemma wp_assert c s Q : c = true -> Q tt s [] -> wp (assert c) s Q.
Proof. intros -> H. exists tt, s, []. auto. Qed.

Lemma wp_defined {A} (o : option A) a s Q : o = Some a -> Q a s [] -> wp (defined o) s Q.
Proof. intros -> H. exists a, s, []. auto. Qed.

Lemma wp_bind {A B} (m : M A) (k : A -> M B) s Q :
  wp m s (fun a s1 o1 => wp (k a) s1 (fun b s2 o2 => Q b s2 (o1 ++ o2))) ->
  wp (bind m k) s Q.
Proof.
  intros [a [s1 [o1 [E1 [b [s2 [o2 [E2 H]]]]]]]].
  exists b, s2, (o1 ++ o2). unfold bind. rewrite E1, E2. auto.
Qed.

Lemma wp_mono {A} (m : M A) s (Q Q' : A -> handle -> list Z -> Prop) :
  wp m s Q -> (forall a s' o, Q a s' o -> Q' a s' o) -> wp m s Q'.
Proof. intros [a [s' [o [E H]]]] HQ. exists a, s', o. auto. Qed.

Lemma wp_eq {A} (m : M A) s a s' o Q : m s = Some (a, s', o) -> Q a s' o -> wp m s Q.
Proof. intros E H. exists a, s', o. auto. Qed.

(** Projections of updated sessions. *)
Ltac fields :=
  cbn [
    buffer line_offset filled returned max_lines prompt empty_message empty_message_fg
    fd fl term_state info term_rows term_cols cur_frame_lines frame_highlight_fg
    text_default_fg text_default_bg tkfd old_mask sigfd epfd extern_epfd multiline
    insert osc133 initial_col initial_row offset nchars pos_x requested_pos_x pos_y
    first prompt_len set_buffer set_line_offset set_max_lines set_empty_message_fg
    set_term_state set_term_rows set_term_cols set_cur_frame_lines set_old_mask
    set_sigfd set_insert set_initial_col set_initial_row set_offset set_nchars
    set_pos_x set_requested_pos_x set_pos_y set_prompt_len ] in *.

(** One step of a run: the head of the program decides. *)
Ltac wp_step :=
  lazymatch goal with
  | |- wp (bind _ _) _ _ => apply wp_bind
  | |- wp (ret _) _ _ => apply wp_ret
  | |- wp get _ _ => apply wp_get
  | |- wp (modify _) _ _ => apply wp_modify
  | |- wp (write _) _ _ => apply wp_write
  | |- wp (let _ := _ in _) _ _ => cbv zeta
  end.

Ltac wp_steps := repeat (wp_step; fields).

(** ** C7: [prepare] *)

Lemma infix_refl {A} (p : list A) : infix p p.
Proof. exists [], []. rewrite app_nil_r. reflexivity. Qed.

Lemma infix_app_l {A} (p l1 l2 : list A) : infix p l1 -> infix p (l1 ++ l2).
Proof.
  intros [pre [post ->]]. exists pre, (post ++ l2).
  rewrite <- !app_assoc. reflexivity.
Qed.

Lemma infix_app_r {A} (p l1 l2 : list A) : infix p l2 -> infix p (l1 ++ l2).
Proof.
  intros [pre [post ->]]. exists (l1 ++ pre), post.
  rewrite <- !app_assoc. reflexivity.
Qed.

Lemma infix_nil {A} (l : list A) : infix [] l.
Proof. exists [], l. reflexivity. Qed.

Ltac infix_search :=
  lazymatch goal with
  | |- infix ?p ?p => apply infix_refl
  | |- infix ?p (?p ++ _) => apply infix_app_l, infix_refl
  | |- infix ?p (_ ++ _) =>
    first [ apply infix_app_r; infix_search | apply infix_app_l; infix_search ]
  end.

Lemma zlength_zero_nil {A} (l : list A) : (zlength l =? 0) = true -> l = [].
Proof. unfold zlength. destruct l; simpl; intros H; [reflexivity|]. boolZ. lia. Qed.

(** C7. [prepare] on a session that is open changes no field and writes
    nothing.  On a closed session (the terminal accepts the descriptor and
    reports the cursor in column 1) it opens the session, empties the buffer,
    resets the editing state to the position after the prompt and writes the
    prompt and a clear-to-end-of-line. *)
Theorem prepare_only_from_closed (su : setup) (s : handle) :
  (term_state s = open -> prepare su s = Some (tt, s, []))
  /\ (term_state s = closed -> su_key_eperm su = false -> fst (su_cursor su) = 1 ->
      exists s' out,
        prepare su s = Some (tt, s', out)
        /\ term_state s' = open
        /\ buffer s' = [] /\ offset s' = 0 /\ nchars s' = 0
        /\ pos_y s' = 0 /\ line_offset s' = [0]
        /\ prompt_len s' = u32 (nonescape_len (prompt_of su s))
        /\ pos_x s' = prompt_len s'
        /\ (term_cols s', term_rows s') = update_winsize (su_winsize su)
        /\ infix (prompt_of su s) out /\ infix clear_eol out).
Proof.
  split.
  - intros H. unfold prepare, bind, get. rewrite H. reflexivity.
  - intros H He Hc.
    cut (wp (prepare su) s (fun _ s' out =>
           term_state s' = open
           /\ buffer s' = [] /\ offset s' = 0 /\ nchars s' = 0
           /\ pos_y s' = 0 /\ line_offset s' = [0]
           /\ prompt_len s' = u32 (nonescape_len (prompt_of su s))
           /\ pos_x s' = prompt_len s'
           /\ (term_cols s', term_rows s') = update_winsize (su_winsize su)
           /\ infix (prompt_of su s) out /\ infix clear_eol out)).
    { intros [[] [s' [o [E HQ]]]]. exists s', o. auto. }
    unfold prepare, setup_epoll, draw_frame, show_empty_message, frame_is, prompt_of.
    rewrite <- Z.eqb_eq in Hc.
    repeat (first
              [ wp_step
              | match goal with
                | |- wp (if ?c then _ else _) _ _ => destruct c eqn:?
                | |- wp (assert _) _ _ =>
                  apply wp_assert;
                  [first [reflexivity | rewrite H; reflexivity | rewrite He; reflexivity
                         | exact Hc]|]
                | |- wp (match ?x with (_, _) => _ end) _ _ => destruct x eqn:?
                end ];
            fields).
    all: try (rewrite H in *; discriminate).
    all: cbv beta; repeat (split; [first [reflexivity | congruence]|]).
    all: split;
      [ first [ solve [infix_search]
              | match goal with
                | E : negb (zlength ?p =? 0) = false |- infix ?p _ =>
                  apply negb_false_iff in E; rewrite (zlength_zero_nil _ E);
                  apply infix_nil
                end ]
      | solve [infix_search] ].
Qed.

(** A second [prepare] on the session of the examples is the identity;
    the first one had set it up. *)
Lemma prepare_only_from_closed_witness :
  prepare (demo_setup 20) (demo_session 20 true true)
  = Some (tt, demo_session 20 true true, [])
  /\ exists out, prepare (demo_setup 20) (demo_closed true true)
                 = Some (tt, demo_session 20 true true, out)
                 /\ infix [0x3e; 0x20] out.
Proof.
  destruct (prepare_only_from_closed (demo_setup 20) (demo_session 20 true true))
    as [H1 _].
  destruct (prepare_only_from_closed (demo_setup 20) (demo_closed true true))
    as [_ H2].
  split; [exact (H1 eq_refl)|].
  destruct (H2 eq_refl eq_refl eq_refl) as [s' [out [E [_ [_ [_ [_ [_ [_ [_ [_ [_ [Hp _]]]]]]]]]]]]].
  exists out. split; [|exact Hp].
  rewrite E. unfold demo_session. rewrite E. reflexivity.
Defined.

(** ** C6: the three outcomes of [process] *)

Lemma finalize_open s :
  term_state s = open ->
  finalize s = Some (tt, set_term_state closed s, finalize_bytes s).
Proof.
  intros H. unfold finalize, cleanup_epoll, finalize_bytes, bind, get.
  destruct (negb (color_eqb (text_default_fg s) color_none)); simpl;
    destruct (osc133 s); simpl; rewrite H; reflexivity.
Qed.

Lemma getkey_loop_term_state w ks s d s' o :
  getkey_loop w ks s = Some (d, s', o) -> term_state s' = term_state s.
Proof.
  apply (preserves_getkey_loop w term_state); intros; reflexivity.
Qed.

Lemma getkey_loop_frame w ks s d s' o :
  getkey_loop w ks s = Some (d, s', o) ->
  tkfd s' = tkfd s /\ sigfd s' = sigfd s /\ osc133 s' = osc133 s
  /\ text_default_fg s' = text_default_fg s /\ term_cols s' = term_cols s
  /\ prompt_len s' = prompt_len s /\ multiline s' = multiline s.
Proof.
  intros H. repeat split.
  - revert H. apply (preserves_getkey_loop w tkfd); intros; reflexivity.
  - revert H. apply (preserves_getkey_loop w sigfd); intros; reflexivity.
  - revert H. apply (preserves_getkey_loop w osc133); intros; reflexivity.
  - revert H. apply (preserves_getkey_loop w text_default_fg); intros; reflexivity.
  - revert H. apply (preserves_getkey_loop w term_cols); intros; reflexivity.
  - revert H. apply (preserves_getkey_loop w prompt_len); intros; reflexivity.
  - revert H. apply (preserves_getkey_loop w multiline); intros; reflexivity.
Qed.

Lemma handle_one_key w epev inp s :
  data_fd epev = tkfd s ->
  handle_one w epev inp s
  = match getkey_loop w (keys inp) s with
    | None => None
    | Some (done, s', out) => Some ((true, done || is_eof (keys_end inp)), s', out)
    end.
Proof.
  intros Hk. apply Z.eqb_eq in Hk.
  unfold handle_one, bind, get. rewrite Hk.
  destruct (getkey_loop w (keys inp) s) as [[[done s'] out]|]; [|reflexivity].
  destruct done; simpl; [rewrite app_nil_r; reflexivity|].
  destruct (keys_end inp); simpl; rewrite app_nil_r; reflexivity.
Qed.

Lemma process_eq w epev inp s :
  process w epev inp s
  = match handle_one w epev inp s with
    | None => None
    | Some ((handled, done), s', out) =>
      if done then
        match finalize s' with
        | Some (_, s2, o2) => Some (value (buffer s2), s2, out ++ o2)
        | None => None
        end
      else Some (unexpected handled, s', out)
    end.
Proof.
  unfold process, bind.
  destruct (handle_one w epev inp s) as [[[[handled done] s'] out]|]; [|reflexivity].
  destruct done; simpl.
  - destruct (finalize s') as [[[u s2] o2]|]; [|reflexivity].
    simpl. rewrite !app_nil_r. reflexivity.
  - rewrite app_nil_r. reflexivity.
Qed.

(** C6. The outcome of [process] for an event [epev].  A descriptor that is
    neither the key descriptor nor the signalfd: [unexpected (false)], the
    session is unchanged, nothing is written.  The signalfd: the window size
    is refreshed, [unexpected (true)].  The key descriptor: when a key
    commits the edit or the decoder reports EOF after the keys, the value is
    the buffer (the session was open and is closed now); when no line is
    completed, [unexpected (true)]. *)
Theorem process_outcomes (w : Z -> bool) (epev : epoll_event) (inp : input) (s : handle) :
  (data_fd epev <> tkfd s ->
     (data_fd epev <> sigfd s ->
        process w epev inp s = Some (unexpected false, s, []))
     /\ (data_fd epev = sigfd s ->
        process w epev inp s
        = Some (unexpected true,
                set_term_rows (snd (update_winsize (winsize inp)))
                  (set_term_cols (fst (update_winsize (winsize inp))) s), [])))
  /\ (data_fd epev = tkfd s ->
      match getkey_loop w (keys inp) s with
      | None => process w epev inp s = None
      | Some (done, s', out) =>
        if done || is_eof (keys_end inp)
        then term_state s = open ->
             process w epev inp s
             = Some (value (buffer s'), set_term_state closed s', out ++ finalize_bytes s')
        else process w epev inp s = Some (unexpected true, s', out)
      end).
Proof.
  split.
  - intros Hk. apply Z.eqb_neq in Hk. split; intros Hs.
    + apply Z.eqb_neq in Hs.
      unfold process, handle_one, bind, get. rewrite Hk, Hs. reflexivity.
    + apply Z.eqb_eq in Hs.
      unfold process, handle_one, bind, get. rewrite Hk, Hs.
      destruct (update_winsize (winsize inp)) as [cols rows]. reflexivity.
  - intros Hk. rewrite process_eq, (handle_one_key w epev inp s Hk).
    destruct (getkey_loop w (keys inp) s) as [[[done s'] out]|] eqn:E; [|reflexivity].
    pose proof (getkey_loop_term_state _ _ _ _ _ _ E) as Hts.
    destruct (done || is_eof (keys_end inp)); [|reflexivity].
    intros Ho. rewrite finalize_open by congruence. reflexivity.
Qed.

(** "hi" and Enter in one event: the line is "hi". *)
Lemma process_outcomes_witness :
  exists s' out,
    process ascii_word (mk_event 0)
      (mk_input [key_unicode 0x68; key_unicode 0x69; key_sym TERMKEY_SYM_ENTER]
         TERMKEY_RES_NONE None)
      (demo_session 20 true true)
    = Some (value [0x68; 0x69], s', out).
Proof.
  destruct (process_outcomes ascii_word (mk_event 0)
              (mk_input [key_unicode 0x68; key_unicode 0x69; key_sym TERMKEY_SYM_ENTER]
                 TERMKEY_RES_NONE None)
              (demo_session 20 true true)) as [_ H].
  specialize (H eq_refl).
  destruct (getkey_loop ascii_word _ _) as [[[done s'] out]|] eqn:E;
    [|vm_compute in E; discriminate E].
  assert (Hd : done = true /\ buffer s' = [0x68; 0x69]).
  { vm_compute in E. inversion E. split; reflexivity. }
  destruct Hd as [-> Hb]. simpl in H.
  specialize (H eq_refl). rewrite Hb in H.
  eexists. eexists. exact H.
Defined.

(** ** C1: Ctrl-C, and Ctrl-D on an empty buffer *)

Lemma getkey_loop_cancel w pre : forall s s1 o1 k rest,
  getkey_loop w pre s = Some (false, s1, o1) ->
  is_cancel s1 k = true ->
  getkey_loop w (pre ++ k :: rest) s = Some (true, s1, o1).
Proof.
  induction pre as [|p pre IH]; intros s s1 o1 k rest H Hc.
  - simpl in H. inversion H; subst. simpl. unfold bind, get. rewrite Hc. reflexivity.
  - simpl in *. unfold bind at 1 in H. unfold bind at 1. unfold get in *.
    destruct (is_cancel s p); [discriminate H|].
    unfold bind in H. unfold bind.
    destruct (on_key w p s) as [[[d s2] o2]|]; [|discriminate H].
    destruct d; [discriminate H|].
    destruct (getkey_loop w pre s2) as [[[d3 s3] o3]|] eqn:E; [|discriminate H].
    inversion H; subst.
    rewrite (IH _ _ _ k rest E Hc). reflexivity.
Qed.

Lemma is_cancel_of_ctrl s k :
  is_ctrl_c k = true \/ (is_ctrl_d k = true /\ buffer s = []) ->
  is_cancel s k = true.
Proof.
  unfold is_ctrl_c, is_ctrl_d, is_cancel.
  destruct (type k); try (intros [H|[H _]]; discriminate H).
  intros [H|[H Hb]]; boolZ.
  - destruct H as [Hm Hc]. split; [exact Hm|]. left. exact Hc.
  - destruct H as [Hm Hc]. split; [exact Hm|]. right.
    split; [rewrite Hb; reflexivity | exact Hc].
Qed.

Lemma leave_runs s : exists o, leave s = Some (tt, s, o).
Proof. unfold leave, bind, get, write. eexists. reflexivity. Qed.

(** C1 as the program has it.  A Ctrl-C key event, and a Ctrl-D key event
    when the buffer is empty, commit the edit: [process] and [read] deliver
    the buffer as it is when the key arrives (after the keys [pre] that were
    decoded before it), and the key itself changes nothing.  The line is the
    empty string exactly when that buffer is empty, which is always so for
    Ctrl-D. *)
Theorem cancel_delivers_buffer (w : Z -> bool) (s s1 : handle) (pre rest : list TermKeyKey)
        (k : TermKeyKey) (o1 : list Z) (tail : TermKeyResult) (ws : option (Z * Z))
        (su : setup) (evs : list (epoll_event * input)) :
  term_state s = open ->
  getkey_loop w pre s = Some (false, s1, o1) ->
  is_ctrl_c k = true \/ (is_ctrl_d k = true /\ buffer s1 = []) ->
  process w (mk_event (tkfd s)) (mk_input (pre ++ k :: rest) tail ws) s
  = Some (value (buffer s1), set_term_state closed s1, o1 ++ finalize_bytes s1)
  /\ (exists out,
        read w su ((mk_event (tkfd s), mk_input (pre ++ k :: rest) tail ws) :: evs) s
        = Some (buffer s1, set_term_state closed s1, out))
  /\ (is_ctrl_d k = true /\ buffer s1 = [] -> buffer s1 = []).
Proof.
  intros Ho Hpre Hk.
  pose proof (is_cancel_of_ctrl _ _ Hk) as Hc.
  pose proof (getkey_loop_cancel w pre s s1 o1 k rest Hpre Hc) as Hloop.
  pose proof (getkey_loop_term_state _ _ _ _ _ _ Hpre) as Hts.
  assert (Hone : handle_one w (mk_event (tkfd s)) (mk_input (pre ++ k :: rest) tail ws) s
                 = Some ((true, true), s1, o1)).
  { rewrite handle_one_key by reflexivity. simpl keys. rewrite Hloop. reflexivity. }
  split; [|split].
  - rewrite process_eq, Hone, finalize_open by congruence. reflexivity.
  - destruct (leave_runs s1) as [ol Hl].
    assert (Hp : prepare su s = Some (tt, s, [])).
    { unfold prepare, bind, get. rewrite Ho. reflexivity. }
    assert (Hw : wait_loop w ((mk_event (tkfd s), mk_input (pre ++ k :: rest) tail ws) :: evs) s
                 = Some (tt, s1, o1)).
    { simpl. unfold bind. rewrite Hone. simpl. rewrite app_nil_r. reflexivity. }
    unfold read, the_loop, bind. rewrite Hp, Hw, Hl.
    rewrite finalize_open by congruence. simpl.
    eexists. reflexivity.
  - intros [_ H]. exact H.
Qed.

(** Ctrl-D as the first key of a session that was just prepared. *)
Lemma cancel_delivers_buffer_witness :
  process ascii_word (mk_event 0) (mk_input [key_ctrl 0x64] TERMKEY_RES_NONE None)
    (demo_session 20 true true)
  = Some (value [], set_term_state closed (demo_session 20 true true), []).
Proof.
  destruct (cancel_delivers_buffer ascii_word (demo_session 20 true true)
              (demo_session 20 true true) [] [] (key_ctrl 0x64) []
              TERMKEY_RES_NONE None (demo_setup 20) [] eq_refl eq_refl
              (or_intror (conj eq_refl eq_refl))) as [H _].
  exact H.
Defined.

(** C1 as stated fails: Ctrl-C after "abc" delivers "abc", from [process]
    and from [read]. *)
Lemma cancel_delivers_empty_line_counterexample :
  buffer abc_session = [0x61; 0x62; 0x63]
  /\ is_ctrl_c (key_ctrl 0x63) = true
  /\ (exists s' out,
        process ascii_word (mk_event (tkfd abc_session)) ctrl_c_input abc_session
        = Some (value [0x61; 0x62; 0x63], s', out))
  /\ (exists s' out,
        read ascii_word (demo_setup 20) [(mk_event (tkfd abc_session), ctrl_c_input)]
          abc_session
        = Some ([0x61; 0x62; 0x63], s', out))
  /\ [0x61; 0x62; 0x63] <> @nil Z.
Proof.
  split; [vm_compute; reflexivity|].
  split; [reflexivity|].
  split; [eexists; eexists; vm_compute; reflexivity|].
  split; [eexists; eexists; vm_compute; reflexivity|].
  discriminate.
Qed.

(** ** C2: overwriting a codepoint by one of another length *)

(** C2 at a failing input.  In overwrite mode, with the cursor on the "é"
    (two bytes) that starts "éabcde", the key "e" (one byte) is handled as
    follows: the first byte of "é" is replaced and its second byte is left
    behind, the buffer keeps its seven bytes and is not well-formed any more,
    and the start of the second row moves from 5 to 6.  A replacement of the
    codepoint gives the six bytes of "eabcde" and the row start 4. *)
Theorem overwrite_shorter_codepoint :
  insert overwrite_session = false
  /\ offset overwrite_session = 0
  /\ buffer overwrite_session = [0xc3; 0xa9; 0x61; 0x62; 0x63; 0x64; 0x65]
  /\ line_offset overwrite_session = [0; 5]
  /\ pos_y overwrite_session = 0
  /\ exists s' out,
       on_key ascii_word (key_unicode 0x65) overwrite_session = Some (false, s', out)
       /\ buffer s' = [0x65; 0xa9; 0x61; 0x62; 0x63; 0x64; 0x65]
       /\ buffer s' <> [0x65; 0x61; 0x62; 0x63; 0x64; 0x65]
       /\ zlength (buffer s') - zlength (buffer overwrite_session) <> 1 - 2
       /\ utf8_valid (buffer s') = false
       /\ line_offset s' = [0; 6]
       /\ line_offset s' <> [0; 5 + (1 - 2)].
Proof.
  repeat (split; [vm_compute; reflexivity|]).
  eexists. eexists.
  split; [vm_compute; reflexivity|].
  split; [reflexivity|].
  split; [discriminate|].
  split; [vm_compute; discriminate|].
  split; [vm_compute; reflexivity|].
  split; [reflexivity|].
  vm_compute. discriminate.
Qed.

(** ** C5: forward-word *)

(** C5 at a failing input.  On "a bc" with the cursor at the start, the
    position of the specification is 1, the end of the word "a"; the
    program moves the cursor to 4, the end of the buffer: the codepoint that
    the cursor is on is replaced by its successor before the first
    comparison. *)
Theorem forward_word_misses_first_boundary :
  buffer a_bc_session = [0x61; 0x20; 0x62; 0x63]
  /\ offset a_bc_session = 0
  /\ utf8_valid (buffer a_bc_session) = true
  /\ forward_word_target ascii_word (buffer a_bc_session) (offset a_bc_session) = Some 1
  /\ exists s' out,
       cb_forward_word ascii_word a_bc_session = Some (false, s', out)
       /\ offset s' = 4.
Proof.
  repeat (split; [vm_compute; reflexivity|]).
  eexists. eexists. split; vm_compute; reflexivity.
Qed.

(** ** Vectors, indexed by [Z] *)

Lemma zlength_ztake {A} k (l : list A) :
  0 <= k <= zlength l -> zlength (ztake k l) = k.
Proof. unfold zlength, ztake. intros H. rewrite length_firstn. lia. Qed.

Lemma zlength_zdrop {A} k (l : list A) :
  0 <= k <= zlength l -> zlength (zdrop k l) = zlength l - k.
Proof. unfold zlength, zdrop. intros H. rewrite length_skipn. lia. Qed.

Lemma ztake_all {A} k (l : list A) : zlength l <= k -> ztake k l = l.
Proof. unfold zlength, ztake. intros H. apply firstn_all2. lia. Qed.

Lemma zdrop_all {A} k (l : list A) : zlength l <= k -> zdrop k l = [].
Proof. unfold zlength, zdrop. intros H. apply skipn_all2. lia. Qed.

Lemma ztake_0 {A} (l : list A) : ztake 0 l = [].
Proof. reflexivity. Qed.

Lemma zdrop_0 {A} (l : list A) : zdrop 0 l = l.
Proof. reflexivity. Qed.

Lemma ztake_app_exact {A} (l1 l2 : list A) : ztake (zlength l1) (l1 ++ l2) = l1.
Proof.
  unfold ztake, zlength. rewrite Nat2Z.id, firstn_app, Nat.sub_diag, firstn_all.
  simpl. apply app_nil_r.
Qed.

Lemma zdrop_app_exact {A} (l1 l2 : list A) : zdrop (zlength l1) (l1 ++ l2) = l2.
Proof.
  unfold zdrop, zlength. rewrite Nat2Z.id, skipn_app, Nat.sub_diag, skipn_all.
  reflexivity.
Qed.

Lemma ztake_app_le {A} k (l1 l2 : list A) :
  k <= zlength l1 -> ztake k (l1 ++ l2) = ztake k l1.
Proof.
  unfold ztake, zlength. intros H. rewrite firstn_app.
  replace (Z.to_nat k - length l1)%nat with 0%nat by lia.
  simpl. apply app_nil_r.
Qed.

Lemma ztake_app_ge {A} k (l1 l2 : list A) :
  zlength l1 <= k -> ztake k (l1 ++ l2) = l1 ++ ztake (k - zlength l1) l2.
Proof.
  unfold ztake, zlength. intros H. rewrite firstn_app.
  rewrite firstn_all2 by lia. f_equal. f_equal. lia.
Qed.

Lemma zdrop_app_le {A} k (l1 l2 : list A) :
  k <= zlength l1 -> zdrop k (l1 ++ l2) = zdrop k l1 ++ l2.
Proof.
  unfold zdrop, zlength. intros H. rewrite skipn_app.
  replace (Z.to_nat k - length l1)%nat with 0%nat by lia. reflexivity.
Qed.

Lemma zdrop_app_ge {A} k (l1 l2 : list A) :
  zlength l1 <= k -> zdrop k (l1 ++ l2) = zdrop (k - zlength l1) l2.
Proof.
  unfold zdrop, zlength. intros H. rewrite skipn_app.
  rewrite skipn_all2 by lia. simpl. f_equal. lia.
Qed.

Lemma zget_app_l {A} (l1 l2 : list A) i :
  i < zlength l1 -> zget (l1 ++ l2) i = zget l1 i.
Proof.
  unfold zget, zlength. intros H. destruct (Z.ltb_spec i 0); [reflexivity|].
  apply nth_error_app1. lia.
Qed.

Lemma zget_app_r {A} (l1 l2 : list A) i :
  zlength l1 <= i -> zget (l1 ++ l2) i = zget l2 (i - zlength l1).
Proof.
  unfold zget, zlength. intros H.
  destruct (Z.ltb_spec i 0); [lia|].
  destruct (Z.ltb_spec (i - Z.of_nat (length l1)) 0); [lia|].
  rewrite nth_error_app2 by lia. f_equal. lia.
Qed.

Lemma zget_ztake {A} (l : list A) k i :
  0 <= i < k -> zget (ztake k l) i = zget l i.
Proof.
  unfold zget, ztake. intros H.
  destruct (Z.ltb_spec i 0); [lia|].
  rewrite nth_error_firstn.
  destruct (Nat.ltb_spec (Z.to_nat i) (Z.to_nat k)); [reflexivity|lia].
Qed.

Lemma zget_range {A} (l : list A) i :
  0 <= i < zlength l -> exists x, zget l i = Some x.
Proof.
  unfold zget, zlength. intros H. destruct (Z.ltb_spec i 0); [lia|].
  destruct (nth_error l (Z.to_nat i)) eqn:E; [eauto|].
  apply nth_error_None in E. lia.
Qed.

Lemma zget_Some_range {A} (l : list A) i x :
  zget l i = Some x -> 0 <= i < zlength l.
Proof.
  unfold zget, zlength. destruct (Z.ltb_spec i 0); [discriminate|].
  intros E. assert (Hn : nth_error l (Z.to_nat i) <> None) by congruence.
  apply nth_error_Some in Hn. lia.
Qed.

Lemma u32_small x : 0 <= x < 2 ^ 32 -> u32 x = x.
Proof. intros H. unfold u32. apply Z.mod_small. exact H. Qed.

(** ** Codepoints as the program steps over them *)

Lemma chunks_ok_app cs1 cs2 : chunks_ok (cs1 ++ cs2) <-> chunks_ok cs1 /\ chunks_ok cs2.
Proof. apply Forall_app. Qed.

Lemma chunks_ok_ztake k cs : chunks_ok cs -> chunks_ok (ztake k cs).
Proof.
  intros H. rewrite <- (ztake_zdrop k cs) in H. apply chunks_ok_app in H. tauto.
Qed.

Lemma chunks_ok_zdrop k cs : chunks_ok cs -> chunks_ok (zdrop k cs).
Proof.
  intros H. rewrite <- (ztake_zdrop k cs) in H. apply chunks_ok_app in H. tauto.
Qed.

Lemma chunks_length cs : chunks_ok cs -> zlength cs <= zlength (concat cs).
Proof.
  induction 1 as [|c cs Hc _ IH]; simpl.
  - unfold zlength. simpl. lia.
  - rewrite zlength_cons, zlength_app. pose proof (utf8_seq_length _ Hc). lia.
Qed.

Lemma chunks_bytes cs : chunks_ok cs -> forallb is_byte (concat cs) = true.
Proof.
  induction 1 as [|c cs Hc _ IH]; simpl; [reflexivity|].
  rewrite forallb_app, IH, (utf8_seq_bytes _ Hc). reflexivity.
Qed.

(** The leading byte passes the assertion of [offset_after_n_chars], and
    the step that it selects is the length of the sequence. *)
Lemma utf8_seq_head c :
  utf8_seq c = true ->
  exists b t, c = b :: t
    /\ ((b <? 0x80) || (negb (Z.land b 0xc0 =? 0x80) && (b <? 0xf8))) = true
    /\ (if b <? 0x80 then 1 else if b <? 0xe0 then 2 else if b <? 0xf0 then 3 else 4)
       = zlength c
    /\ negb (Z.land b 0xc0 =? 0x80) = true.
Proof.
  intros Hs. pose proof (utf8_seq_bytes _ Hs) as Hb.
  destruct c as [|b0 [|b1 [|b2 [|b3 [|b4 t]]]]]; simpl in Hs; try discriminate;
    exists b0; eexists; (split; [reflexivity|]);
    simpl in Hb; apply andb_true_iff in Hb; destruct Hb as [Hb0 _];
    rewrite (land_c0_cont_byte _ Hb0); unfold cont_byte, zlength; simpl length;
    boolZ;
    repeat match goal with
           | |- context [?a <? ?b] => destruct (Z.ltb_spec a b)
           | |- context [?a <=? ?b] => destruct (Z.leb_spec a b)
           end; simpl; repeat split; try reflexivity; try lia.
Qed.

(** The bytes after the first one are continuation bytes. *)
Lemma utf8_seq_inner c i :
  utf8_seq c = true -> 0 < i < zlength c ->
  exists b, zget c i = Some b /\ (Z.land b 0xc0 =? 0x80) = true.
Proof.
  intros Hs Hi. pose proof (utf8_seq_bytes _ Hs) as Hb.
  destruct c as [|b0 [|b1 [|b2 [|b3 [|b4 t]]]]]; simpl in Hs; try discriminate;
    unfold zlength in Hi; simpl in Hi; try lia;
    simpl in Hb;
    repeat match type of Hb with
           | (_ && _) = true => apply andb_true_iff in Hb; destruct Hb as [? Hb]
           end;
    assert (Hc : i = 1 \/ i = 2 \/ i = 3) by lia;
    destruct Hc as [-> | [-> | ->]]; try lia;
    eexists; (split; [reflexivity|]);
    match goal with
    | |- (Z.land ?b _ =? _) = true =>
      match goal with
      | H : is_byte b = true |- _ => rewrite (land_c0_cont_byte _ H)
      end
    end;
    boolZ; tauto.
Qed.

(** [offset_after_n_chars] from the start of a codepoint: [m] codepoints
    are consumed, as many as asked for or all that remain. *)
Lemma oanc_loop_chunks : forall (m fuel : nat) pre cs n cnt,
  chunks_ok cs ->
  (m <= length cs)%nat -> (m <= fuel)%nat ->
  0 <= cnt -> cnt + Z.of_nat m <= n ->
  m = length cs \/ cnt + Z.of_nat m = n ->
  zlength (pre ++ concat cs) < 2 ^ 32 -> cnt + Z.of_nat m < 2 ^ 32 ->
  oanc_loop fuel (pre ++ concat cs) n (zlength pre) cnt
  = Some (zlength pre + zlength (concat (firstn m cs)), cnt + Z.of_nat m).
Proof.
  induction m as [|m IH]; intros fuel pre cs n cnt Hcs Hm Hf Hcnt Hn Hstop Hlen Hw.
  - assert (Hc : (zlength pre <? zlength (pre ++ concat cs)) && (cnt <? n) = false).
    { destruct Hstop as [E|E].
      - destruct cs; [|discriminate E]. simpl. rewrite app_nil_r, Z.ltb_irrefl. reflexivity.
      - replace n with cnt by lia. rewrite Z.ltb_irrefl, andb_false_r. reflexivity. }
    simpl firstn. simpl concat. rewrite zlength_nil, !Z.add_0_r.
    destruct fuel; simpl; rewrite Hc; reflexivity.
  - destruct cs as [|c cs]; [simpl in Hm; lia|].
    destruct fuel as [|fuel]; [lia|].
    inversion Hcs as [|? ? Hc Hcs']; subst.
    destruct (utf8_seq_head _ Hc) as [b [t [Ec [Hassert [Hstep _]]]]].
    pose proof (utf8_seq_length _ Hc) as Hcl.
    pose proof (zlength_nonneg pre) as Hpre.
    simpl concat in *. rewrite zlength_app in Hlen.
    rewrite zlength_app in Hlen.
    pose proof (zlength_nonneg (concat cs)).
    cbn [oanc_loop].
    assert (Hc1 : (zlength pre <? zlength (pre ++ c ++ concat cs)) && (cnt <? n) = true).
    { rewrite !zlength_app. boolZ. lia. }
    rewrite Hc1.
    assert (Hg : zget (pre ++ c ++ concat cs) (zlength pre) = Some b).
    { rewrite zget_app_r by lia. rewrite Z.sub_diag. rewrite Ec. reflexivity. }
    rewrite Hg, Hassert, Hstep.
    rewrite u32_small by lia.
    assert (Hle : (zlength pre + zlength c <=? zlength (pre ++ c ++ concat cs)) = true).
    { rewrite !zlength_app. boolZ. lia. }
    rewrite Hle. rewrite u32_small by lia.
    replace (zlength pre + zlength c) with (zlength (pre ++ c)) by apply zlength_app.
    rewrite app_assoc.
    rewrite (IH fuel (pre ++ c) cs n (cnt + 1)); auto; try lia.
    + simpl firstn. simpl concat. rewrite !zlength_app. f_equal. f_equal; lia.
    + simpl in Hm. lia.
    + simpl in Hstop. destruct Hstop; [left|right]; lia.
    + rewrite <- app_assoc, !zlength_app. lia.
Qed.

Lemma offset_after_n_chars_chunks s pre cs n :
  buffer s = pre ++ concat cs -> chunks_ok cs ->
  zlength (buffer s) < 2 ^ 32 -> 0 <= n ->
  offset_after_n_chars s n (zlength pre)
  = Some (zlength pre + zlength (concat (ztake n cs)), Z.min n (zlength cs)).
Proof.
  intros Hb Hcs Hlen Hn. unfold offset_after_n_chars. rewrite Hb in *.
  pose proof (chunks_length _ Hcs) as Hcl.
  rewrite (oanc_loop_chunks (Nat.min (Z.to_nat n) (length cs))); auto.
  - f_equal. f_equal.
    + f_equal. unfold ztake. f_equal. destruct (Nat.le_ge_cases (Z.to_nat n) (length cs)).
      * rewrite Nat.min_l by assumption. reflexivity.
      * rewrite Nat.min_r by assumption. rewrite !firstn_all2; auto.
    + unfold zlength. lia.
  - lia.
  - rewrite length_app. unfold zlength in Hcl. lia.
  - lia.
  - lia.
  - unfold zlength in *. lia.
  - rewrite zlength_app in Hlen. pose proof (zlength_nonneg pre).
    unfold zlength in *. lia.
Qed.

Lemma decode1_seq c rest :
  utf8_seq c = true ->
  decode1 (c ++ rest) = Some (MbChar (chunk_char c) (zlength c)).
Proof.
  intros Hs. pose proof (utf8_seq_bytes _ Hs) as Hb. unfold chunk_char.
  destruct c as [|b0 [|b1 [|b2 [|b3 [|b4 t]]]]]; simpl in Hs; try discriminate;
    simpl in Hb;
    repeat match type of Hb with
           | (_ && _) = true => apply andb_true_iff in Hb; destruct Hb as [? Hb]
           end;
    unfold zlength; simpl;
    repeat match goal with
           | H : is_byte ?b = true |- _ => rewrite ?(is_cont_cont_byte b H); clear H
           end;
    unfold cont_byte in *; boolZ;
    repeat match goal with
           | |- context [?a <? ?b] => destruct (Z.ltb_spec a b); try lia
           | |- context [?a <=? ?b] => destruct (Z.leb_spec a b); try lia
           | |- context [?a =? ?b] => destruct (Z.eqb_spec a b); try lia
           end; simpl; try reflexivity; try lia.
Qed.

Lemma utf8_chars_chunks cs : forall fuel,
  chunks_ok cs -> (length (concat cs) <= fuel)%nat ->
  utf8_chars fuel (concat cs) = Some (map (fun c => (chunk_char c, c)) cs).
Proof.
  induction cs as [|c cs IH]; intros fuel Hcs Hf.
  - destruct fuel; reflexivity.
  - inversion Hcs as [|? ? Hc Hcs']; subst.
    pose proof (utf8_seq_length _ Hc) as Hl.
    simpl concat in *. rewrite length_app in Hf.
    destruct fuel as [|fuel]; [unfold zlength in Hl; lia|].
    pose proof (decode1_seq c (concat cs) Hc) as Hd.
    destruct c as [|b t]; [discriminate Hc|].
    simpl app in *. cbn [utf8_chars]. rewrite Hd.
    change (b :: t ++ concat cs) with ((b :: t) ++ concat cs).
    rewrite zdrop_app_exact, ztake_app_exact.
    rewrite IH; auto. simpl in Hf. lia.
Qed.

Lemma utf8_decode_chunks cs :
  chunks_ok cs ->
  utf8_decode (concat cs) = Some (map (fun c => (chunk_char c, c)) cs).
Proof.
  intros Hcs. unfold utf8_decode. rewrite (chunks_bytes _ Hcs).
  apply utf8_chars_chunks; auto.
Qed.

Lemma utf8_valid_chunks buf :
  utf8_valid buf = true -> exists cs, chunks_ok cs /\ buf = concat cs.
Proof.
  unfold utf8_valid. destruct (utf8_decode buf) as [cs|] eqn:E; [|discriminate].
  intros _. destruct (utf8_decode_sound _ _ E) as [H1 H2].
  exists (map snd cs). split; [exact H2 | symmetry; exact H1].
Qed.

(** A codepoint boundary of a well-formed buffer splits its codepoints. *)
Lemma boundary_chunks cs : forall i,
  chunks_ok cs -> codepoint_boundary (concat cs) i = true ->
  exists cs1 cs2, cs = cs1 ++ cs2 /\ zlength (concat cs1) = i.
Proof.
  induction cs as [|c cs IH]; intros i Hcs Hb.
  - unfold codepoint_boundary in Hb.
    apply andb_true_iff in Hb. destruct Hb as [Hb _].
    unfold zlength in *. simpl in *.
    exists [], []. split; [reflexivity|]. simpl. boolZ. lia.
  - inversion Hcs as [|? ? Hc Hcs']; subst.
    pose proof (utf8_seq_length _ Hc) as Hl.
    unfold codepoint_boundary in Hb. simpl concat in Hb.
    apply andb_true_iff in Hb. destruct Hb as [Hr Hbyte].
    rewrite zlength_app in Hr. boolZ.
    destruct (Z.eq_dec i 0) as [->|Hi0].
    { exists [], (c :: cs). split; reflexivity. }
    destruct (Z.lt_ge_cases i (zlength c)) as [Hlt|Hge].
    + exfalso. rewrite zget_app_l in Hbyte by lia.
      destruct (utf8_seq_inner c i Hc) as [b [Eb Hcont]]; [lia|].
      rewrite Eb, Hcont in Hbyte. discriminate.
    + rewrite zget_app_r in Hbyte by lia.
      destruct (IH (i - zlength c) Hcs') as [cs1 [cs2 [E1 E2]]].
      { unfold codepoint_boundary. rewrite Hbyte. boolZ. lia. }
      exists (c :: cs1), cs2. split; [simpl; congruence|].
      simpl. rewrite zlength_app. lia.
Qed.

(** ** C4: [recompute_line_offset] and the line breaks of the specification *)

Lemma concat_ztake_zdrop (cs : list (list Z)) k :
  concat cs = concat (ztake k cs) ++ concat (zdrop k cs).
Proof. rewrite <- concat_app, ztake_zdrop. reflexivity. Qed.

Lemma chunks_nonempty c cs :
  chunks_ok (c :: cs) -> 0 < zlength (concat (c :: cs)).
Proof.
  intros H. inversion H as [|? ? Hc Hcs]; subst. simpl. rewrite zlength_app.
  pose proof (utf8_seq_length c Hc). pose proof (zlength_nonneg (concat cs)). lia.
Qed.

(** The loop of the program appends what the specification describes,
    when every round has a positive number of columns. *)
Lemma recompute_loop_breaks s : forall fuel fuel2 pre cs avail lo,
  buffer s = pre ++ concat cs -> chunks_ok cs ->
  1 <= avail -> 1 <= term_cols s ->
  zlength (buffer s) < 2 ^ 32 ->
  (length cs < fuel)%nat -> (length cs < fuel2)%nat ->
  exists breaks,
    spec_breaks fuel2 (term_cols s) avail (zlength pre) cs = Some breaks
    /\ recompute_loop fuel s avail (zlength pre) lo = Some (lo ++ breaks).
Proof.
  induction fuel as [|fuel IH]; intros fuel2 pre cs avail lo Hb Hcs Ha Ht Hlen Hf Hf2;
    [lia|].
  destruct fuel2 as [|fuel2]; [lia|].
  cbn [recompute_loop spec_breaks].
  destruct cs as [|c cs'].
  - rewrite Hb. simpl concat. rewrite app_nil_r, Z.ltb_irrefl.
    rewrite zlength_nil.
    assert (E : (0 <? avail) = true) by (boolZ; lia). rewrite E.
    exists []. rewrite app_nil_r. auto.
  - set (cs := c :: cs') in *.
    pose proof (chunks_nonempty _ _ Hcs) as Hne. fold cs in Hne.
    assert (E : (zlength pre <? zlength (buffer s)) = true).
    { rewrite Hb, zlength_app. boolZ. lia. }
    rewrite E.
    rewrite (offset_after_n_chars_chunks s pre cs avail Hb Hcs Hlen) by lia.
    destruct (Z.ltb_spec (zlength cs) avail) as [Hshort|Hfull].
    + assert (E2 : (Z.min avail (zlength cs) <? avail) = true) by (boolZ; lia).
      rewrite E2. exists []. rewrite app_nil_r. auto.
    + assert (E2 : (Z.min avail (zlength cs) <? avail) = false) by (boolZ; lia).
      rewrite E2.
      set (next := zlength pre + zlength (concat (ztake avail cs))).
      assert (Hb' : buffer s = (pre ++ concat (ztake avail cs)) ++ concat (zdrop avail cs)).
      { rewrite <- app_assoc, <- concat_ztake_zdrop. exact Hb. }
      assert (Hn : next = zlength (pre ++ concat (ztake avail cs))).
      { unfold next. rewrite zlength_app. reflexivity. }
      assert (Hshrink : (length (zdrop avail cs) < length cs)%nat).
      { pose proof (zlength_zdrop avail cs). unfold zlength in *. lia. }
      destruct (IH fuel2 (pre ++ concat (ztake avail cs)) (zdrop avail cs)
                  (term_cols s) (lo ++ [next]) Hb')
        as [breaks [Hs Hr]]; auto; try lia.
      { apply chunks_ok_zdrop. exact Hcs. }
      rewrite <- Hn in Hs, Hr. rewrite Hs, Hr.
      exists (next :: breaks). split; [reflexivity|].
      rewrite <- app_assoc. reflexivity.
Qed.

Lemma vresize_truncate lo n :
  0 <= n <= zlength lo -> vresize lo n = ztake n lo.
Proof.
  intros H. unfold vresize, zlength in *.
  replace (Z.to_nat n - length lo)%nat with 0%nat by lia.
  simpl. apply app_nil_r.
Qed.

(** The shared statement: the program computes the breaks of
    [spec_recompute]. *)
Lemma recompute_line_offset_spec s r :
  utf8_valid (buffer s) = true ->
  representable s ->
  0 <= r < zlength (line_offset s) ->
  (exists o, zget (line_offset s) r = Some o /\ codepoint_boundary (buffer s) o = true) ->
  0 < term_cols s ->
  (r = 0 -> prompt_len s < term_cols s) ->
  exists lo,
    spec_recompute s r = Some lo
    /\ recompute_line_offset r s = Some (tt, set_line_offset lo s, []).
Proof.
  intros Hv [Htc [Hpl [Hbl Hll]]] Hr [o [Ho Hbd]] Hcols Hprompt.
  destruct (utf8_valid_chunks _ Hv) as [cs0 [Hcs0 Hbuf]].
  rewrite Hbuf in Hbd.
  destruct (boundary_chunks cs0 o Hcs0 Hbd) as [cs1 [cs [Hsplit Hpre]]].
  subst cs0. apply chunks_ok_app in Hcs0. destruct Hcs0 as [Hcs1 Hcs].
  rewrite concat_app in Hbuf.
  set (avail := term_cols s - (if r =? 0 then prompt_len s else 0)).
  assert (Hav : 1 <= avail).
  { unfold avail. destruct (Z.eqb_spec r 0); [specialize (Hprompt e)|]; lia. }
  destruct (recompute_loop_breaks s (2 + length (buffer s)) (S (length cs))
              (concat cs1) cs avail (ztake (r + 1) (line_offset s)) Hbuf Hcs)
    as [breaks [Hs Hl]]; auto; try lia.
  { pose proof (chunks_length _ Hcs) as Hcl. rewrite Hbuf, length_app.
    unfold zlength in Hcl. lia. }
  rewrite Hpre in Hs, Hl.
  exists (ztake (r + 1) (line_offset s) ++ breaks). split.
  - unfold spec_recompute. rewrite Ho, Hbuf.
    rewrite <- Hpre, zdrop_app_exact, (utf8_decode_chunks _ Hcs), Hpre.
    rewrite length_map, map_map. cbn [snd]. rewrite map_id.
    fold avail. rewrite Hs. reflexivity.
  - assert (E : (0 <=? r) && (r + 1 <? 2 ^ 31) = true) by (boolZ; lia).
    assert (Eu : u32 (term_cols s - (if r =? 0 then prompt_len s else 0)) = avail).
    { apply u32_small. unfold avail in *.
      destruct (r =? 0); lia. }
    unfold recompute_line_offset, bind, get, assert, defined, modify, ret.
    cbv beta iota zeta. rewrite E. cbv beta iota zeta.
    rewrite vresize_truncate by lia.
    rewrite zget_ztake by lia. rewrite Ho. cbv beta iota zeta.
    rewrite Eu, Hl. reflexivity.
Qed.

(** C4 as the program has it.  For a session whose buffer is well-formed
    UTF-8 and whose values fit their types, with a window that has columns
    and, for row 0, a prompt narrower than the window, and for a row [r] of
    [line_offset] whose entry is a codepoint boundary:
    [recompute_line_offset (s, r)] truncates [line_offset] to [r + 1] entries
    and appends the breaks of the specification, which consumes [avail]
    codepoints per round from [line_offset[r]] on, stops when fewer than
    [avail] remain, and goes on with [avail = term_cols]. *)
Theorem recompute_line_offset_refines (s : handle) (r : Z) :
  utf8_valid (buffer s) = true ->
  representable s ->
  0 <= r < zlength (line_offset s) ->
  (exists o, zget (line_offset s) r = Some o /\ codepoint_boundary (buffer s) o = true) ->
  0 < term_cols s ->
  (r = 0 -> prompt_len s < term_cols s) ->
  exists lo,
    spec_recompute s r = Some lo
    /\ recompute_line_offset r s = Some (tt, set_line_offset lo s, [])
    /\ ztake (r + 1) lo = ztake (r + 1) (line_offset s).
Proof.
  intros Hv Hrep Hr Hb Hc Hp.
  destruct (recompute_line_offset_spec s r Hv Hrep Hr Hb Hc Hp) as [lo [H1 H2]].
  exists lo. split; [exact H1|]. split; [exact H2|].
  unfold spec_recompute in H1.
  destruct (zget (line_offset s) r); [|discriminate].
  destruct (utf8_decode _); [|discriminate].
  destruct (spec_breaks _ _ _ _ _) as [breaks|]; [|discriminate].
  simpl in H1. inversion H1; subst.
  rewrite ztake_app_le.
  - unfold ztake. rewrite firstn_firstn. f_equal. lia.
  - rewrite zlength_ztake; lia.
Qed.

(** "abcdefg" in a window of six columns with the prompt "> ": recomputed
    from row 0, the only break is after four codepoints. *)
Lemma recompute_line_offset_refines_witness :
  let s := demo_after 6 true true
             [key_unicode 0x61; key_unicode 0x62; key_unicode 0x63; key_unicode 0x64;
              key_unicode 0x65; key_unicode 0x66; key_unicode 0x67] in
  spec_recompute s 0 = Some [0; 4]
  /\ recompute_line_offset 0 s = Some (tt, set_line_offset [0; 4] s, []).
Proof.
  intros s.
  assert (Hv : utf8_valid (buffer s) = true) by (vm_compute; reflexivity).
  assert (Hrep : representable s).
  { unfold representable. vm_compute. repeat split; congruence. }
  assert (Hr : 0 <= 0 < zlength (line_offset s)) by (vm_compute; split; congruence).
  assert (Hb : exists o, zget (line_offset s) 0 = Some o
                         /\ codepoint_boundary (buffer s) o = true).
  { exists 0. split; vm_compute; reflexivity. }
  assert (Hc : 0 < term_cols s) by (vm_compute; reflexivity).
  assert (Hp : 0 = 0 -> prompt_len s < term_cols s) by (intros _; vm_compute; reflexivity).
  destruct (recompute_line_offset_refines s 0 Hv Hrep Hr Hb Hc Hp) as [lo [H1 [H2 _]]].
  assert (E : spec_recompute s 0 = Some [0; 4]) by (vm_compute; reflexivity).
  rewrite E in H1. inversion H1; subst lo.
  split; [exact E | exact H2].
Defined.

(** C4 as stated fails when a round has no column: with a prompt as wide as
    the window and an empty buffer, the procedure of the specification
    appends the break 0 (zero codepoints are asked for, zero remain), the
    program does not enter its loop. *)
Lemma recompute_line_offset_counterexample :
  utf8_valid (buffer narrow_session) = true
  /\ 0 <= 0 < zlength (line_offset narrow_session)
  /\ term_cols narrow_session - prompt_len narrow_session = 0
  /\ spec_recompute narrow_session 0 = Some [0; 0]
  /\ recompute_line_offset 0 narrow_session
     = Some (tt, set_line_offset [0] narrow_session, [])
  /\ [0; 0] <> [0].
Proof.
  split; [vm_compute; reflexivity|].
  split; [vm_compute; split; congruence|].
  split; [vm_compute; reflexivity|].
  split; [vm_compute; reflexivity|].
  split; [vm_compute; reflexivity|].
  discriminate.
Qed.

(** ** Offsets of codepoints *)

Lemma ztake_neg {A} k (l : list A) : k <= 0 -> ztake k l = [].
Proof. intros H. unfold ztake. replace (Z.to_nat k) with 0%nat by lia. reflexivity. Qed.

Lemma zdrop_neg {A} k (l : list A) : k <= 0 -> zdrop k l = l.
Proof. intros H. unfold zdrop. replace (Z.to_nat k) with 0%nat by lia. reflexivity. Qed.

Lemma ztake_add {A} a m (l : list A) :
  0 <= a -> 0 <= m -> ztake (a + m) l = ztake a l ++ ztake m (zdrop a l).
Proof.
  intros Ha Hm. unfold ztake, zdrop.
  rewrite Z2Nat.inj_add by lia.
  rewrite <- (firstn_skipn (Z.to_nat a) l) at 1.
  rewrite firstn_app, length_firstn.
  destruct (Nat.le_ge_cases (Z.to_nat a) (length l)) as [Hle|Hge].
  - rewrite Nat.min_l by lia.
    rewrite firstn_all2 by (rewrite length_firstn; lia).
    f_equal. f_equal. lia.
  - rewrite !skipn_all2 by lia. rewrite !firstn_nil, !app_nil_r.
    rewrite !firstn_all2; auto; rewrite ?length_firstn; lia.
Qed.

Lemma zdrop_add {A} a m (l : list A) :
  0 <= a -> 0 <= m -> zdrop (a + m) l = zdrop m (zdrop a l).
Proof.
  intros Ha Hm. unfold zdrop. rewrite skipn_skipn. f_equal. lia.
Qed.

Lemma ztake_ztake {A} a b (l : list A) : a <= b -> ztake a (ztake b l) = ztake a l.
Proof.
  intros H. unfold ztake. rewrite firstn_firstn. f_equal. lia.
Qed.

Lemma cp_offset_0 cs k : k <= 0 -> cp_offset cs k = 0.
Proof. intros H. unfold cp_offset. rewrite ztake_neg by lia. reflexivity. Qed.

Lemma cp_offset_all cs k : zlength cs <= k -> cp_offset cs k = zlength (concat cs).
Proof. intros H. unfold cp_offset. rewrite ztake_all by lia. reflexivity. Qed.

Lemma cp_offset_nonneg cs k : 0 <= cp_offset cs k.
Proof. apply zlength_nonneg. Qed.

Lemma cp_offset_add cs a m :
  0 <= a -> 0 <= m ->
  cp_offset cs (a + m) = cp_offset cs a + zlength (concat (ztake m (zdrop a cs))).
Proof.
  intros Ha Hm. unfold cp_offset. rewrite ztake_add by lia.
  rewrite concat_app, zlength_app. reflexivity.
Qed.

Lemma cp_offset_le_len cs k : cp_offset cs k <= zlength (concat cs).
Proof.
  unfold cp_offset. rewrite (concat_ztake_zdrop cs k) at 1. rewrite zlength_app.
  pose proof (zlength_nonneg (concat (zdrop k cs))). lia.
Qed.

Lemma zget_split {A} (l : list A) k x :
  zget l k = Some x -> l = ztake k l ++ x :: zdrop (k + 1) l.
Proof.
  intros H. pose proof (zget_Some_range _ _ _ H) as Hr.
  unfold zget in H. destruct (Z.ltb_spec k 0); [lia|].
  unfold ztake, zdrop.
  replace (Z.to_nat (k + 1)) with (S (Z.to_nat k)) by lia.
  revert H. generalize (Z.to_nat k). clear. intros n. revert l.
  induction n as [|n IH]; intros [|y l] H; simpl in *; try discriminate.
  - inversion H. reflexivity.
  - f_equal. apply IH. exact H.
Qed.

Lemma zdrop_cons_zget {A} (l : list A) k x :
  zget l k = Some x -> zdrop k l = x :: zdrop (k + 1) l.
Proof.
  intros H. pose proof (zget_Some_range _ _ _ H) as Hr.
  rewrite (zget_split l k x H) at 1.
  rewrite zdrop_app_ge by (rewrite zlength_ztake; lia).
  rewrite zlength_ztake by lia. rewrite Z.sub_diag. reflexivity.
Qed.

Lemma ztake_snoc_zget {A} (l : list A) k x :
  zget l k = Some x -> ztake (k + 1) l = ztake k l ++ [x].
Proof.
  intros H. pose proof (zget_Some_range _ _ _ H) as Hr.
  rewrite ztake_add by lia. f_equal.
  rewrite (zdrop_cons_zget l k x H). reflexivity.
Qed.

Lemma chunks_ok_zget cs k c : chunks_ok cs -> zget cs k = Some c -> utf8_seq c = true.
Proof.
  intros Hcs H. unfold chunks_ok in Hcs. rewrite Forall_forall in Hcs.
  apply Hcs. unfold zget in H. destruct (k <? 0); [discriminate|].
  eapply nth_error_In; eauto.
Qed.

Lemma cp_offset_succ cs k c :
  zget cs k = Some c -> cp_offset cs (k + 1) = cp_offset cs k + zlength c.
Proof.
  intros H. unfold cp_offset. rewrite (ztake_snoc_zget cs k c H).
  rewrite concat_app, zlength_app. simpl. rewrite app_nil_r. reflexivity.
Qed.

Lemma cp_offset_mono cs a b : a <= b -> cp_offset cs a <= cp_offset cs b.
Proof.
  intros H. destruct (Z.le_gt_cases a 0) as [Ha|Ha].
  - rewrite (cp_offset_0 cs a) by lia. apply cp_offset_nonneg.
  - replace b with (a + (b - a)) by lia. rewrite cp_offset_add by lia.
    pose proof (zlength_nonneg (concat (ztake (b - a) (zdrop a cs)))). lia.
Qed.

Lemma cp_offset_strict cs a b :
  chunks_ok cs -> 0 <= a -> a < b -> b <= zlength cs ->
  cp_offset cs a < cp_offset cs b.
Proof.
  intros Hcs Ha Hab Hb.
  destruct (zget_range cs a) as [c Hc]; [lia|].
  pose proof (chunks_ok_zget _ _ _ Hcs Hc) as Hs.
  pose proof (utf8_seq_length _ Hs).
  pose proof (cp_offset_succ cs a c Hc).
  pose proof (cp_offset_mono cs (a + 1) b). lia.
Qed.

Lemma cp_offset_inj cs a b :
  chunks_ok cs -> 0 <= a <= zlength cs -> 0 <= b <= zlength cs ->
  cp_offset cs a = cp_offset cs b -> a = b.
Proof.
  intros Hcs Ha Hb E.
  destruct (Z.lt_trichotomy a b) as [H|[H|H]]; [|exact H|].
  - pose proof (cp_offset_strict cs a b Hcs). lia.
  - pose proof (cp_offset_strict cs b a Hcs). lia.
Qed.

Lemma cp_offset_le_inv cs a b :
  chunks_ok cs -> 0 <= a <= zlength cs -> 0 <= b <= zlength cs ->
  cp_offset cs a <= cp_offset cs b -> a <= b.
Proof.
  intros Hcs Ha Hb E.
  destruct (Z.le_gt_cases a b) as [H|H]; [exact H|].
  pose proof (cp_offset_strict cs b a Hcs). lia.
Qed.

Lemma ztake_cp_offset cs k :
  ztake (cp_offset cs k) (concat cs) = concat (ztake k cs).
Proof.
  unfold cp_offset. rewrite (concat_ztake_zdrop cs k) at 1.
  apply ztake_app_exact.
Qed.

Lemma zdrop_cp_offset cs k :
  zdrop (cp_offset cs k) (concat cs) = concat (zdrop k cs).
Proof.
  unfold cp_offset. rewrite (concat_ztake_zdrop cs k) at 1.
  apply zdrop_app_exact.
Qed.

Lemma cp_offset_prefix cs cs' m j :
  ztake m cs = ztake m cs' -> j <= m -> cp_offset cs j = cp_offset cs' j.
Proof.
  intros E Hj. unfold cp_offset.
  rewrite <- (ztake_ztake j m cs), <- (ztake_ztake j m cs') by lia.
  rewrite E. reflexivity.
Qed.

Lemma cp_offset_boundary cs k :
  chunks_ok cs -> codepoint_boundary (concat cs) (cp_offset cs k) = true.
Proof.
  intros Hcs. unfold codepoint_boundary.
  pose proof (cp_offset_nonneg cs k). pose proof (cp_offset_le_len cs k).
  assert (E : (0 <=? cp_offset cs k) && (cp_offset cs k <=? zlength (concat cs)) = true)
    by (boolZ; lia).
  rewrite E. simpl.
  rewrite (concat_ztake_zdrop cs k) at 1.
  rewrite zget_app_r by (unfold cp_offset; lia).
  unfold cp_offset. rewrite Z.sub_diag.
  pose proof (chunks_ok_zdrop k cs Hcs) as Hd.
  destruct (zdrop k cs) as [|c rest]; [reflexivity|].
  inversion Hd as [|? ? Hc _]; subst.
  destruct (utf8_seq_head _ Hc) as [b [t [Ec [_ [_ Hlead]]]]].
  rewrite Ec. simpl. exact Hlead.
Qed.

(** ** libunistring on well-formed sequences *)

Lemma land_shift_low hi lo k :
  0 <= k -> 0 <= lo < 2 ^ k -> Z.land (hi * 2 ^ k) lo = 0.
Proof.
  intros Hk Hlo. apply Z.bits_inj'. intros n Hn.
  rewrite Z.land_spec, Z.bits_0.
  destruct (Z.lt_ge_cases n k).
  - rewrite Z.mul_pow2_bits_low by lia. reflexivity.
  - replace lo with (lo mod 2 ^ k) by (apply Z.mod_small; lia).
    rewrite Z.mod_pow2_bits_high by lia. apply andb_false_r.
Qed.

Lemma lor_add hi lo k :
  0 <= k -> 0 <= lo < 2 ^ k -> Z.lor (hi * 2 ^ k) lo = hi * 2 ^ k + lo.
Proof.
  intros Hk Hlo. rewrite <- Z.add_lor_land, land_shift_low by assumption. lia.
Qed.

Lemma forall_bytes_in (lo hi : Z) (f : Z -> bool) :
  forallb (fun b => if (lo <=? b) && (b <? hi) then f b else true)
          (map Z.of_nat (seq 0 256)) = true ->
  forall b, 0 <= lo -> hi <= 256 -> lo <= b < hi -> f b = true.
Proof.
  intros H b Hlo Hhi Hb.
  assert (Hbyte : is_byte b = true) by (unfold is_byte; boolZ; lia).
  pose proof (forall_bytes _ H b Hbyte) as Hc. cbv beta in Hc.
  assert (E : (lo <=? b) && (b <? hi) = true) by (boolZ; lia).
  rewrite E in Hc. exact Hc.
Qed.

Lemma byte_land_1f b : 0xc0 <= b < 0xe0 -> Z.land b 0x1f = b - 0xc0.
Proof.
  intros H. apply Z.eqb_eq.
  apply (forall_bytes_in 0xc0 0xe0 (fun b => Z.land b 0x1f =? b - 0xc0)); try lia.
  vm_compute. reflexivity.
Qed.

Lemma byte_land_0f b : 0xe0 <= b < 0xf0 -> Z.land b 0x0f = b - 0xe0.
Proof.
  intros H. apply Z.eqb_eq.
  apply (forall_bytes_in 0xe0 0xf0 (fun b => Z.land b 0x0f =? b - 0xe0)); try lia.
  vm_compute. reflexivity.
Qed.

Lemma byte_land_07 b : 0xf0 <= b < 0xf8 -> Z.land b 0x07 = b - 0xf0.
Proof.
  intros H. apply Z.eqb_eq.
  apply (forall_bytes_in 0xf0 0xf8 (fun b => Z.land b 0x07 =? b - 0xf0)); try lia.
  vm_compute. reflexivity.
Qed.

Lemma byte_lxor_80 b : 0x80 <= b < 0x100 -> Z.lxor b 0x80 = b - 0x80.
Proof.
  intros H. apply Z.eqb_eq.
  apply (forall_bytes_in 0x80 0x100 (fun b => Z.lxor b 0x80 =? b - 0x80)); try lia.
  vm_compute. reflexivity.
Qed.

Lemma uc2_value c s1 :
  0xc0 <= c < 0xe0 -> 0x80 <= s1 < 0xc0 ->
  uc2 c s1 = (c - 0xc0) * 64 + (s1 - 0x80).
Proof.
  intros Hc Hs. unfold uc2.
  rewrite byte_land_1f, byte_lxor_80 by lia.
  rewrite Z.shiftl_mul_pow2 by lia.
  apply lor_add; lia.
Qed.

Lemma uc3_value c s1 s2 :
  0xe0 <= c < 0xf0 -> 0x80 <= s1 < 0xc0 -> 0x80 <= s2 < 0xc0 ->
  uc3 c s1 s2 = (c - 0xe0) * 4096 + (s1 - 0x80) * 64 + (s2 - 0x80).
Proof.
  intros Hc Hs1 Hs2. unfold uc3.
  rewrite byte_land_0f, !byte_lxor_80 by lia.
  rewrite !Z.shiftl_mul_pow2 by lia.
  rewrite (lor_add (c - 224) ((s1 - 128) * 2 ^ 6) 12) by lia.
  replace ((c - 224) * 2 ^ 12 + (s1 - 128) * 2 ^ 6)
    with (((c - 224) * 64 + (s1 - 128)) * 2 ^ 6) by lia.
  rewrite lor_add by lia. lia.
Qed.

Lemma uc4_value c s1 s2 s3 :
  0xf0 <= c < 0xf8 -> 0x80 <= s1 < 0xc0 -> 0x80 <= s2 < 0xc0 -> 0x80 <= s3 < 0xc0 ->
  uc4 c s1 s2 s3
  = (c - 0xf0) * 262144 + (s1 - 0x80) * 4096 + (s2 - 0x80) * 64 + (s3 - 0x80).
Proof.
  intros Hc Hs1 Hs2 Hs3. unfold uc4.
  rewrite byte_land_07, !byte_lxor_80 by lia.
  rewrite !Z.shiftl_mul_pow2 by lia.
  rewrite (lor_add (c - 240) ((s1 - 128) * 2 ^ 12) 18) by lia.
  replace ((c - 240) * 2 ^ 18 + (s1 - 128) * 2 ^ 12)
    with (((c - 240) * 64 + (s1 - 128)) * 2 ^ 12) by lia.
  rewrite (lor_add _ ((s2 - 128) * 2 ^ 6) 12) by lia.
  replace (((c - 240) * 64 + (s1 - 128)) * 2 ^ 12 + (s2 - 128) * 2 ^ 6)
    with ((((c - 240) * 64 + (s1 - 128)) * 64 + (s2 - 128)) * 2 ^ 6) by lia.
  rewrite lor_add by lia. lia.
Qed.

(** The codepoint of a sequence, by its length. *)
Lemma chunk_char_cases c :
  utf8_seq c = true ->
  match c with
  | [b0] => chunk_char c = b0
  | [b0; b1] => chunk_char c = uc2 b0 b1
  | [b0; b1; b2] => chunk_char c = uc3 b0 b1 b2
  | [b0; b1; b2; b3] => chunk_char c = uc4 b0 b1 b2 b3
  | _ => False
  end.
Proof.
  intros Hs. pose proof (decode1_seq c [] Hs) as Hd. rewrite app_nil_r in Hd.
  pose proof (utf8_seq_bytes _ Hs) as Hb.
  destruct c as [|b0 [|b1 [|b2 [|b3 [|b4 t]]]]]; simpl in Hs; try discriminate;
    simpl in Hb;
    repeat match type of Hb with
           | (_ && _) = true => apply andb_true_iff in Hb; destruct Hb as [? Hb]
           end;
    unfold chunk_char; simpl;
    repeat match goal with
           | H : is_byte ?b = true |- _ => rewrite ?(is_cont_cont_byte b H); clear H
           end;
    unfold cont_byte in *; boolZ;
    repeat match goal with
           | |- context [?a <? ?b] => destruct (Z.ltb_spec a b); try lia
           | |- context [?a <=? ?b] => destruct (Z.leb_spec a b); try lia
           | |- context [?a =? ?b] => destruct (Z.eqb_spec a b); try lia
           end; simpl; try reflexivity; try lia.
Qed.

Lemma key_seq_utf8 c : key_seq c = true -> utf8_seq c = true.
Proof. unfold key_seq. intros H. boolZ. tauto. Qed.

Lemma key_seqs_chunks cs : Forall (fun c => key_seq c = true) cs -> chunks_ok cs.
Proof. apply Forall_impl. intros c. apply key_seq_utf8. Qed.

Lemma key_seq_char c :
  key_seq c = true -> chunk_char c <> 0 /\ chunk_char c <> 0xfffd.
Proof.
  unfold key_seq. intros H.
  apply andb_true_iff in H. destruct H as [H Hf].
  apply andb_true_iff in H. destruct H as [Hs H0].
  destruct (list_eq_dec Z.eq_dec c [0]) as [|Hn0]; [discriminate|].
  destruct (list_eq_dec Z.eq_dec c [0xef; 0xbf; 0xbd]) as [|Hnf]; [discriminate|].
  pose proof (chunk_char_cases c Hs) as Hc.
  destruct c as [|b0 [|b1 [|b2 [|b3 [|b4 t]]]]]; try contradiction;
    simpl in Hs; unfold cont_byte in Hs; boolZ; rewrite Hc.
  - split; [intros ->; apply Hn0; reflexivity | lia].
  - rewrite uc2_value by lia. lia.
  - rewrite uc3_value by lia. split; [lia|].
    intros E. apply Hnf.
    assert (b0 = 0xef /\ b1 = 0xbf /\ b2 = 0xbd) as [-> [-> ->]] by lia.
    reflexivity.
  - rewrite uc4_value by lia. lia.
Qed.

Lemma list1_inj (a x : Z) : [a] = [x] -> a = x.
Proof. intros H. inversion H. reflexivity. Qed.

Lemma list3_inj (a b c x y z : Z) : [a; b; c] = [x; y; z] -> a = x /\ b = y /\ c = z.
Proof. intros H. inversion H. auto. Qed.

(** The units that [u8_uctomb] writes for a codepoint that a key inserts. *)
Lemma u8_uctomb_typed uc :
  typed_codepoint uc = true ->
  exists c, u8_uctomb uc = Some c /\ key_seq c = true.
Proof.
  unfold typed_codepoint. intros H. boolZ.
  destruct H as [[[H0 H1] Hsur] Hfffd].
  unfold u8_uctomb.
  rewrite !Z.shiftr_div_pow2 by lia.
  change 63 with (Z.ones 6). rewrite !Z.land_ones by lia.
  change 192 with (3 * 2 ^ 6). change 128 with (2 * 2 ^ 6).
  change 224 with (7 * 2 ^ 5). change 240 with (15 * 2 ^ 4).
  destruct (Z.ltb_spec uc (2 * 2 ^ 6)) as [L1|L1].
  { eexists. split; [reflexivity|]. unfold key_seq, utf8_seq.
    destruct (list_eq_dec Z.eq_dec [uc] [0]) as [E|_]; [first [discriminate E | apply list3_inj in E; exfalso; lia | apply list1_inj in E; exfalso; lia]|].
    destruct (list_eq_dec Z.eq_dec [uc] [239; 191; 189]) as [E|_]; [first [discriminate E | apply list3_inj in E; exfalso; lia | apply list1_inj in E; exfalso; lia]|].
    rewrite !andb_true_r. boolZ. lia. }
  destruct (Z.ltb_spec uc 2048) as [L2|L2].
  { eexists. split; [reflexivity|].
    assert (D1 : 0 <= uc / 2 ^ 6 < 2 ^ 5) by (split; [apply Z.div_pos|apply Z.div_lt_upper_bound]; lia).
    assert (D2 : 2 <= uc / 2 ^ 6) by (apply Z.div_le_lower_bound; lia).
    pose proof (Z.mod_pos_bound uc (2 ^ 6) ltac:(lia)) as M1.
    rewrite !lor_add by lia.
    unfold key_seq, utf8_seq, cont_byte.
    match goal with |- context [list_eq_dec Z.eq_dec ?l [0]] =>
      destruct (list_eq_dec Z.eq_dec l [0]) as [E|_]; [first [discriminate E | apply list3_inj in E; exfalso; lia | apply list1_inj in E; exfalso; lia]|] end.
    match goal with |- context [list_eq_dec Z.eq_dec ?l [239; 191; 189]] =>
      destruct (list_eq_dec Z.eq_dec l [239; 191; 189]) as [E|_]; [first [discriminate E | apply list3_inj in E; exfalso; lia | apply list1_inj in E; exfalso; lia]|] end.
    rewrite !andb_true_r. boolZ. lia. }
  destruct (Z.ltb_spec uc 65536) as [L3|L3].
  { assert (Es : (uc <? 55296) || (57344 <=? uc) = true) by (boolZ; lia).
    rewrite Es.
    eexists. split; [reflexivity|].
    assert (D1 : 0 <= uc / 2 ^ 12 < 2 ^ 4) by (split; [apply Z.div_pos|apply Z.div_lt_upper_bound]; lia).
    pose proof (Z.mod_pos_bound (uc / 2 ^ 6) (2 ^ 6) ltac:(lia)) as M2.
    pose proof (Z.mod_pos_bound uc (2 ^ 6) ltac:(lia)) as M1.
    rewrite !lor_add by lia.
    pose proof (Z.div_mod uc (2 ^ 6) ltac:(lia)) as E1.
    pose proof (Z.div_mod (uc / 2 ^ 6) (2 ^ 6) ltac:(lia)) as E2.
    assert (E3 : uc / 2 ^ 6 / 2 ^ 6 = uc / 2 ^ 12)
      by (rewrite Z.div_div by lia; reflexivity).
    rewrite E3 in E2.
    unfold key_seq, utf8_seq, cont_byte.
    match goal with |- context [list_eq_dec Z.eq_dec ?l [0]] =>
      destruct (list_eq_dec Z.eq_dec l [0]) as [E|_]; [first [discriminate E | apply list3_inj in E; exfalso; lia | apply list1_inj in E; exfalso; lia]|] end.
    match goal with |- context [list_eq_dec Z.eq_dec ?l [239; 191; 189]] =>
      destruct (list_eq_dec Z.eq_dec l [239; 191; 189]) as [E|_];
        [first [discriminate E | apply list3_inj in E; exfalso; lia | apply list1_inj in E; exfalso; lia]|] end.
    rewrite !andb_true_r. boolZ. lia. }
  assert (L4 : (uc <? 1114112) = true) by (boolZ; lia). rewrite L4.
  eexists. split; [reflexivity|].
  assert (D1 : 0 <= uc / 2 ^ 18 < 2 ^ 3) by (split; [apply Z.div_pos|apply Z.div_lt_upper_bound]; lia).
  assert (D1' : uc / 2 ^ 18 <= 4) by (apply Z.lt_succ_r; apply Z.div_lt_upper_bound; lia).
  pose proof (Z.mod_pos_bound (uc / 2 ^ 12) (2 ^ 6) ltac:(lia)) as M3.
  pose proof (Z.mod_pos_bound (uc / 2 ^ 6) (2 ^ 6) ltac:(lia)) as M2.
  pose proof (Z.mod_pos_bound uc (2 ^ 6) ltac:(lia)) as M1.
  rewrite !lor_add by lia.
  pose proof (Z.div_mod (uc / 2 ^ 12) (2 ^ 6) ltac:(lia)) as E2.
  assert (E3 : uc / 2 ^ 12 / 2 ^ 6 = uc / 2 ^ 18)
    by (rewrite Z.div_div by lia; reflexivity).
  rewrite E3 in E2.
  assert (D2 : 16 <= uc / 2 ^ 12) by (apply Z.div_le_lower_bound; lia).
  assert (D3 : uc / 2 ^ 12 < 272) by (apply Z.div_lt_upper_bound; lia).
  unfold key_seq, utf8_seq, cont_byte.
  match goal with |- context [list_eq_dec Z.eq_dec ?l [0]] =>
    destruct (list_eq_dec Z.eq_dec l [0]) as [E|_]; [first [discriminate E | apply list3_inj in E; exfalso; lia | apply list1_inj in E; exfalso; lia]|] end.
  match goal with |- context [list_eq_dec Z.eq_dec ?l [239; 191; 189]] =>
    destruct (list_eq_dec Z.eq_dec l [239; 191; 189]) as [E|_]; [first [discriminate E | apply list3_inj in E; exfalso; lia | apply list1_inj in E; exfalso; lia]|] end.
  rewrite !andb_true_r. boolZ. lia.
Qed.

Lemma u8_prev_seq pre c post :
  utf8_seq c = true ->
  u8_prev (pre ++ c ++ post) (zlength (pre ++ c)) = Some (chunk_char c, zlength pre).
Proof.
  intros Hs. unfold u8_prev.
  rewrite app_assoc, ztake_app_exact, rev_app_distr.
  pose proof (chunk_char_cases c Hs) as Hc.
  pose proof (utf8_seq_bytes _ Hs) as Hb.
  rewrite zlength_app.
  destruct c as [|b0 [|b1 [|b2 [|b3 [|b4 t]]]]]; try contradiction;
    simpl in Hs; rewrite Hc;
    simpl in Hb;
    repeat match type of Hb with
           | (_ && _) = true => apply andb_true_iff in Hb; destruct Hb as [? Hb]
           end;
    unfold zlength; simpl;
    repeat match goal with
           | H : is_byte ?b = true |- _ => rewrite ?(is_cont_cont_byte b H); clear H
           end;
    unfold cont_byte in *; boolZ;
    repeat match goal with
           | |- context [?a <? ?b] => destruct (Z.ltb_spec a b); try lia
           | |- context [?a <=? ?b] => destruct (Z.leb_spec a b); try lia
           | |- context [?a =? ?b] => destruct (Z.eqb_spec a b); try lia
           end; simpl; try (f_equal; f_equal; lia); try lia.
Qed.

Lemma u8_prev_chunks cs k :
  chunks_ok cs -> 1 <= k <= zlength cs ->
  exists c, zget cs (k - 1) = Some c
    /\ u8_prev (concat cs) (cp_offset cs k) = Some (chunk_char c, cp_offset cs (k - 1)).
Proof.
  intros Hcs Hk.
  destruct (zget_range cs (k - 1)) as [c Hc]; [lia|].
  exists c. split; [exact Hc|].
  pose proof (chunks_ok_zget _ _ _ Hcs Hc) as Hs.
  pose proof (zget_split cs (k - 1) c Hc) as Esplit.
  replace (k - 1 + 1) with k in Esplit by lia.
  assert (Ek : cp_offset cs k = zlength (concat (ztake (k - 1) cs) ++ c)).
  { replace k with (k - 1 + 1) at 1 by lia.
    rewrite (cp_offset_succ cs (k - 1) c Hc). rewrite zlength_app. reflexivity. }
  rewrite Ek. rewrite Esplit at 1.
  rewrite concat_app. simpl concat.
  rewrite (u8_prev_seq _ c _ Hs). reflexivity.
Qed.

Lemma u8_mbtoucr_chunks cs k :
  chunks_ok cs -> 0 <= k < zlength cs ->
  exists c, zget cs k = Some c
    /\ u8_mbtoucr (zdrop (cp_offset cs k) (concat cs)) = Some (chunk_char c, zlength c).
Proof.
  intros Hcs Hk.
  destruct (zget_range cs k) as [c Hc]; [lia|].
  exists c. split; [exact Hc|].
  pose proof (chunks_ok_zget _ _ _ Hcs Hc) as Hs.
  rewrite zdrop_cp_offset, (zdrop_cons_zget cs k c Hc). simpl concat.
  unfold u8_mbtoucr. rewrite (decode1_seq c _ Hs). reflexivity.
Qed.

Lemma u8_next_chunks cs k :
  Forall (fun c => key_seq c = true) cs -> 0 <= k < zlength cs ->
  exists c, zget cs k = Some c
    /\ u8_next (zdrop (cp_offset cs k) (concat cs)) = Some (chunk_char c, Some (zlength c)).
Proof.
  intros Hks Hk. pose proof (key_seqs_chunks _ Hks) as Hcs.
  destruct (zget_range cs k) as [c Hc]; [lia|].
  exists c. split; [exact Hc|].
  pose proof (chunks_ok_zget _ _ _ Hcs Hc) as Hs.
  assert (Hkey : key_seq c = true).
  { rewrite Forall_forall in Hks. apply Hks. unfold zget in Hc.
    destruct (k <? 0); [discriminate|]. eapply nth_error_In; eauto. }
  destruct (key_seq_char c Hkey) as [Hn0 _].
  rewrite zdrop_cp_offset, (zdrop_cons_zget cs k c Hc). simpl concat.
  unfold u8_next. rewrite (decode1_seq c _ Hs).
  apply Z.eqb_neq in Hn0. rewrite Hn0. reflexivity.
Qed.

Lemma mbsnlen_loop_chunks cs : forall fuel,
  chunks_ok cs -> (length (concat cs) <= fuel)%nat ->
  mbsnlen_loop fuel (concat cs) = zlength cs.
Proof.
  induction cs as [|c cs IH]; intros fuel Hcs Hf.
  - destruct fuel; reflexivity.
  - inversion Hcs as [|? ? Hc Hcs']; subst.
    pose proof (utf8_seq_length _ Hc) as Hl.
    simpl concat in *. rewrite length_app in Hf.
    destruct fuel as [|fuel]; [unfold zlength in Hl; lia|].
    cbn [mbsnlen_loop]. rewrite (decode1_seq c _ Hc).
    rewrite zdrop_app_exact, IH; auto.
    + rewrite zlength_cons. reflexivity.
    + unfold zlength in Hl. lia.
Qed.

Lemma u8_mbsnlen_between cs a b :
  chunks_ok cs -> 0 <= a <= b -> b <= zlength cs ->
  u8_mbsnlen (slice (concat cs) (cp_offset cs a) (cp_offset cs b - cp_offset cs a))
  = b - a.
Proof.
  intros Hcs Ha Hb. unfold slice.
  rewrite zdrop_cp_offset.
  replace b with (a + (b - a)) at 1 by lia.
  rewrite cp_offset_add by lia.
  replace (cp_offset cs a + zlength (concat (ztake (b - a) (zdrop a cs))) - cp_offset cs a)
    with (zlength (concat (ztake (b - a) (zdrop a cs)))) by lia.
  rewrite (concat_ztake_zdrop (zdrop a cs) (b - a)) at 1.
  rewrite ztake_app_exact.
  unfold u8_mbsnlen. rewrite mbsnlen_loop_chunks; auto.
  - apply zlength_ztake. rewrite zlength_zdrop by lia. lia.
  - apply chunks_ok_ztake, chunks_ok_zdrop. exact Hcs.
Qed.

(** ** Rows *)

Lemma row_start_0 a cols : row_start a cols 0 = 0.
Proof. reflexivity. Qed.

Lemma row_start_succ a cols j :
  0 <= j -> row_start a cols (j + 1) = row_start a cols j + (if j =? 0 then a else cols).
Proof.
  intros Hj. unfold row_start.
  destruct (Z.leb_spec (j + 1) 0); [lia|].
  destruct (Z.eqb_spec j 0) as [->|Hn]; [simpl; lia|].
  destruct (Z.leb_spec j 0); [lia|]. lia.
Qed.

Lemma row_start_pred a cols j :
  1 <= j -> row_start a cols j
            = row_start a cols (j - 1) + (if j - 1 =? 0 then a else cols).
Proof.
  intros Hj. replace j with (j - 1 + 1) at 1 by lia. apply row_start_succ. lia.
Qed.

Lemma row_start_ge a cols j : 1 <= a -> 1 <= cols -> 0 <= j -> j <= row_start a cols j.
Proof.
  intros Ha Hc Hj. unfold row_start.
  destruct (Z.leb_spec j 0); [lia|]. nia.
Qed.

Lemma row_start_mono a cols i j :
  1 <= a -> 1 <= cols -> i <= j -> row_start a cols i <= row_start a cols j.
Proof.
  intros Ha Hc Hij. unfold row_start.
  destruct (Z.leb_spec i 0), (Z.leb_spec j 0); try lia; nia.
Qed.

Lemma row_start_strict a cols i j :
  1 <= a -> 1 <= cols -> 0 <= i -> i < j -> row_start a cols i < row_start a cols j.
Proof.
  intros Ha Hc Hi Hij. unfold row_start.
  destruct (Z.leb_spec i 0), (Z.leb_spec j 0); try lia; nia.
Qed.

Lemma row_index_lt a cols i j n :
  1 <= a -> 1 <= cols ->
  row_start a cols i <= n -> n < row_start a cols j -> i < j.
Proof.
  intros Ha Hc H1 H2. destruct (Z.lt_ge_cases i j) as [|Hge]; [assumption|].
  pose proof (row_start_mono a cols j i Ha Hc Hge). lia.
Qed.

Lemma row_count_bounds a cols n :
  1 <= a -> 1 <= cols -> 0 <= n ->
  (1 <= row_count a cols n)%nat
  /\ row_start a cols (Z.of_nat (row_count a cols n) - 1) <= n
  /\ n < row_start a cols (Z.of_nat (row_count a cols n)).
Proof.
  intros Ha Hc Hn. unfold row_count.
  destruct (Z.ltb_spec n a) as [Hlt|Hge].
  - change (Z.to_nat 1) with 1%nat. cbn. lia.
  - pose proof (Z.div_pos (n - a) cols ltac:(lia) ltac:(lia)) as Hq.
    pose proof (Z.mul_div_le (n - a) cols ltac:(lia)) as H1.
    pose proof (Z.mul_succ_div_gt (n - a) cols ltac:(lia)) as H2.
    rewrite Z2Nat.id by lia.
    split; [lia|].
    unfold row_start.
    destruct (Z.leb_spec (2 + (n - a) / cols - 1) 0); [lia|].
    destruct (Z.leb_spec (2 + (n - a) / cols) 0); [lia|].
    nia.
Qed.

Lemma row_count_unique a cols n (R : nat) :
  1 <= a -> 1 <= cols -> 0 <= n ->
  row_start a cols (Z.of_nat R - 1) <= n -> n < row_start a cols (Z.of_nat R) ->
  row_count a cols n = R.
Proof.
  intros Ha Hc Hn H1 H2.
  destruct (row_count_bounds a cols n Ha Hc Hn) as [_ [H3 H4]].
  pose proof (row_index_lt a cols _ _ n Ha Hc H1 H4).
  pose proof (row_index_lt a cols _ _ n Ha Hc H3 H2).
  lia.
Qed.

Lemma row_count_mono a cols n m :
  1 <= a -> 1 <= cols -> 0 <= n -> n <= m ->
  (row_count a cols n <= row_count a cols m)%nat.
Proof.
  intros Ha Hc Hn Hm.
  destruct (row_count_bounds a cols n Ha Hc Hn) as [_ [H1 _]].
  destruct (row_count_bounds a cols m Ha Hc ltac:(lia)) as [_ [_ H2]].
  assert (row_start a cols (Z.of_nat (row_count a cols n) - 1) <= m) as H3 by lia.
  pose proof (row_index_lt a cols _ _ m Ha Hc H3 H2). lia.
Qed.

Lemma row_count_succ a cols n :
  1 <= a -> 1 <= cols -> 0 <= n ->
  (row_count a cols (n + 1) <= S (row_count a cols n))%nat.
Proof.
  intros Ha Hc Hn.
  destruct (row_count_bounds a cols n Ha Hc Hn) as [Hp [_ H1]].
  destruct (row_count_bounds a cols (n + 1) Ha Hc ltac:(lia)) as [_ [H2 _]].
  assert (n + 1 < row_start a cols (Z.of_nat (row_count a cols n) + 1)) as H3.
  { rewrite row_start_succ by lia.
    destruct (Z.of_nat (row_count a cols n) =? 0); lia. }
  pose proof (row_index_lt a cols _ _ (n + 1) Ha Hc H2 H3). lia.
Qed.

Lemma row_in_count a cols n y :
  1 <= a -> 1 <= cols -> 0 <= n ->
  row_start a cols y <= n -> y < Z.of_nat (row_count a cols n).
Proof.
  intros Ha Hc Hn Hy.
  destruct (row_count_bounds a cols n Ha Hc Hn) as [_ [_ H]].
  apply (row_index_lt a cols _ _ n); assumption.
Qed.

Lemma row_start_in_count a cols n y :
  1 <= a -> 1 <= cols -> 0 <= n ->
  y < Z.of_nat (row_count a cols n) -> row_start a cols y <= n.
Proof.
  intros Ha Hc Hn Hy.
  destruct (row_count_bounds a cols n Ha Hc Hn) as [_ [H _]].
  pose proof (row_start_mono a cols y (Z.of_nat (row_count a cols n) - 1) Ha Hc ltac:(lia)).
  lia.
Qed.

Lemma length_rows_list a cols cs R : length (rows_list a cols cs R) = R.
Proof. unfold rows_list. rewrite length_map, length_seq. reflexivity. Qed.

Lemma zlength_rows_list a cols cs R : zlength (rows_list a cols cs R) = Z.of_nat R.
Proof. unfold zlength. rewrite length_rows_list. reflexivity. Qed.

Lemma zget_rows_list a cols cs R y :
  0 <= y < Z.of_nat R ->
  zget (rows_list a cols cs R) y = Some (cp_offset cs (row_start a cols y)).
Proof.
  intros Hy. unfold zget, rows_list.
  destruct (Z.ltb_spec y 0); [lia|].
  rewrite nth_error_map, nth_error_seq.
  destruct (Nat.ltb_spec (Z.to_nat y) R); [|lia].
  cbn. rewrite Z2Nat.id by lia. reflexivity.
Qed.

Lemma rows_list_app a cols cs (n m : nat) :
  rows_list a cols cs (n + m)
  = rows_list a cols cs n
    ++ map (fun j => cp_offset cs (row_start a cols (Z.of_nat j))) (seq n m).
Proof. unfold rows_list. rewrite seq_app, map_app. reflexivity. Qed.

Lemma ztake_rows_list a cols cs (R : nat) r :
  0 <= r <= Z.of_nat R ->
  ztake r (rows_list a cols cs R) = rows_list a cols cs (Z.to_nat r).
Proof.
  intros Hr. unfold ztake.
  replace R with (Z.to_nat r + (R - Z.to_nat r))%nat at 1 by lia.
  rewrite rows_list_app, firstn_app, length_rows_list, Nat.sub_diag.
  rewrite firstn_all2 by (rewrite length_rows_list; lia).
  simpl. apply app_nil_r.
Qed.

Lemma rows_list_prefix a cols cs cs' m (R : nat) :
  1 <= a -> 1 <= cols ->
  ztake m cs = ztake m cs' ->
  row_start a cols (Z.of_nat R - 1) <= m ->
  rows_list a cols cs R = rows_list a cols cs' R.
Proof.
  intros Ha Hc Hm HR. unfold rows_list.
  apply map_ext_in. intros j Hj. apply in_seq in Hj.
  apply (cp_offset_prefix cs cs' m); [assumption|].
  pose proof (row_start_mono a cols (Z.of_nat j) (Z.of_nat R - 1) Ha Hc ltac:(lia)).
  lia.
Qed.

(** ** The rows that [recompute_line_offset] computes *)

Lemma cp_offset_min cs j : cp_offset cs (Z.min j (zlength cs)) = cp_offset cs j.
Proof.
  destruct (Z.le_ge_cases j (zlength cs)).
  - rewrite Z.min_l by lia. reflexivity.
  - rewrite Z.min_r by lia. rewrite !cp_offset_all by lia. reflexivity.
Qed.

Lemma offset_after_n_chars_cp s cs j n :
  buffer s = concat cs -> chunks_ok cs -> zlength (buffer s) < 2 ^ 32 ->
  0 <= n -> 0 <= j <= zlength cs ->
  offset_after_n_chars s n (cp_offset cs j)
  = Some (cp_offset cs (j + n), Z.min n (zlength cs - j)).
Proof.
  intros Hb Hcs Hlen Hn Hj.
  pose proof (offset_after_n_chars_chunks s (concat (ztake j cs)) (zdrop j cs) n) as H.
  rewrite <- concat_ztake_zdrop in H.
  specialize (H Hb (chunks_ok_zdrop _ _ Hcs) Hlen Hn).
  rewrite zlength_zdrop in H by lia.
  rewrite cp_offset_add by lia. exact H.
Qed.

Lemma recompute_loop_rows s cs (R : nat) :
  let a := term_cols s - prompt_len s in
  let cols := term_cols s in
  buffer s = concat cs -> chunks_ok cs -> 1 <= a -> 1 <= cols ->
  zlength (buffer s) < 2 ^ 32 ->
  row_start a cols (Z.of_nat R - 1) <= zlength cs ->
  zlength cs < row_start a cols (Z.of_nat R) ->
  forall (fuel j : nat) lo,
    (j < R)%nat -> (R - j <= fuel)%nat ->
    recompute_loop fuel s (if Z.of_nat j =? 0 then a else cols)
      (cp_offset cs (row_start a cols (Z.of_nat j))) lo
    = Some (lo ++ map (fun i => cp_offset cs (row_start a cols (Z.of_nat i)))
                      (seq (S j) (R - S j))).
Proof.
  intros a cols Hb Hcs Ha Hc Hlen HR1 HR2.
  induction fuel as [|fuel IH]; intros j lo Hj Hf; [lia|].
  assert (row_start a cols (Z.of_nat j) <= zlength cs) as Hjs.
  { pose proof (row_start_mono a cols (Z.of_nat j) (Z.of_nat R - 1) Ha Hc ltac:(lia)).
    lia. }
  assert (0 <= row_start a cols (Z.of_nat j)) as Hj0.
  { pose proof (row_start_ge a cols (Z.of_nat j) Ha Hc ltac:(lia)). lia. }
  cbn [recompute_loop]. rewrite Hb.
  destruct (Z.ltb_spec (cp_offset cs (row_start a cols (Z.of_nat j)))
                       (zlength (concat cs))) as [Hlt|Hge].
  - rewrite (offset_after_n_chars_cp s cs _ _ Hb Hcs Hlen)
      by (destruct (Z.of_nat j =? 0); lia).
    rewrite <- row_start_succ by lia.
    destruct (Z.ltb_spec (Z.min (if Z.of_nat j =? 0 then a else cols)
                                (zlength cs - row_start a cols (Z.of_nat j)))
                         (if Z.of_nat j =? 0 then a else cols)) as [Hs|Hs].
    + assert (zlength cs < row_start a cols (Z.of_nat j + 1)) as Hn.
      { rewrite row_start_succ by lia. lia. }
      pose proof (row_index_lt a cols _ _ _ Ha Hc HR1 Hn).
      replace (R - S j)%nat with 0%nat by lia. simpl. rewrite app_nil_r. reflexivity.
    + assert (row_start a cols (Z.of_nat j + 1) <= zlength cs) as Hn.
      { rewrite row_start_succ by lia. lia. }
      pose proof (row_index_lt a cols _ _ _ Ha Hc Hn HR2).
      replace (Z.of_nat j + 1) with (Z.of_nat (S j)) by lia.
      fold cols.
      replace cols with (if Z.of_nat (S j) =? 0 then a else cols) at 1
        by (destruct (Z.eqb_spec (Z.of_nat (S j)) 0); [lia|reflexivity]).
      rewrite IH by lia.
      replace (R - S j)%nat with (S (R - S (S j)))%nat by lia.
      cbn [seq map]. rewrite <- app_assoc. reflexivity.
  - assert (zlength cs <= row_start a cols (Z.of_nat j)) as Hn.
    { rewrite <- (cp_offset_all cs (zlength cs)) in Hge by lia.
      pose proof (zlength_nonneg cs).
      apply (cp_offset_le_inv cs); try assumption; lia. }
    assert (zlength cs < row_start a cols (Z.of_nat j + 1)) as Hn'.
    { rewrite row_start_succ by lia. destruct (Z.of_nat j =? 0); lia. }
    pose proof (row_index_lt a cols _ _ _ Ha Hc HR1 Hn').
    replace (R - S j)%nat with 0%nat by lia. simpl. rewrite app_nil_r. reflexivity.
Qed.

(** [recompute_line_offset] on a session whose rows up to [r] are right. *)
Lemma recompute_line_offset_rows s cs0 cs (R0 : nat) r :
  let a := term_cols s - prompt_len s in
  let cols := term_cols s in
  0 <= prompt_len s < term_cols s -> term_cols s < 2 ^ 32 ->
  buffer s = concat cs -> chunks_ok cs -> zlength (buffer s) < 2 ^ 31 - 2 ->
  line_offset s = rows_list a cols cs0 R0 ->
  0 <= r < Z.of_nat R0 ->
  ztake (row_start a cols r) cs0 = ztake (row_start a cols r) cs ->
  row_start a cols r <= zlength cs ->
  recompute_line_offset r s
  = Some (tt, set_line_offset (rows_list a cols cs (row_count a cols (zlength cs))) s, []).
Proof.
  intros a cols Hp Hc Hb Hcs Hlen Hlo Hr Hpre Hrs.
  assert (1 <= a) as Ha by (unfold a; lia).
  assert (1 <= cols) as Hc1 by (unfold cols; lia).
  pose proof (zlength_nonneg cs) as Hn0.
  pose proof (chunks_length cs Hcs) as Hcl. rewrite <- Hb in Hcl.
  destruct (row_count_bounds a cols (zlength cs) Ha Hc1 Hn0) as [HR0 [HR1 HR2]].
  set (R := row_count a cols (zlength cs)) in *.
  pose proof (row_index_lt a cols _ _ _ Ha Hc1 Hrs HR2) as HrR.
  pose proof (row_start_ge a cols r Ha Hc1 ltac:(lia)) as Hrge.
  assert (E : (0 <=? r) && (r + 1 <? 2 ^ 31) = true) by (boolZ; lia).
  assert (Eu : u32 (term_cols s - (if r =? 0 then prompt_len s else 0))
               = if r =? 0 then a else cols).
  { destruct (r =? 0); rewrite u32_small by lia; unfold a, cols; lia. }
  assert (Epre : rows_list a cols cs0 (Z.to_nat (r + 1))
                 = rows_list a cols cs (Z.to_nat (r + 1))).
  { apply (rows_list_prefix a cols cs0 cs (row_start a cols r)); auto.
    rewrite Z2Nat.id by lia. replace (r + 1 - 1) with r by lia. lia. }
  unfold recompute_line_offset, bind, get, assert, defined, modify, ret.
  cbv beta iota zeta. rewrite E. cbv beta iota zeta.
  rewrite Hlo.
  rewrite vresize_truncate by (rewrite zlength_rows_list; lia).
  rewrite ztake_rows_list by lia.
  rewrite Epre.
  rewrite zget_rows_list by lia. cbv beta iota zeta.
  rewrite Eu.
  pose proof (recompute_loop_rows s cs R Hb Hcs Ha Hc1 ltac:(lia) HR1 HR2
                (2 + length (buffer s))%nat (Z.to_nat r)
                (rows_list a cols cs (Z.to_nat (r + 1)))) as Hloop.
  rewrite Z2Nat.id in Hloop by lia.
  fold a cols in Hloop. rewrite Hloop.
  - cbv beta iota zeta.
    replace (Z.to_nat (r + 1)) with (S (Z.to_nat r)) by lia.
    rewrite <- rows_list_app.
    replace (S (Z.to_nat r) + (R - S (Z.to_nat r)))%nat with R by lia.
    reflexivity.
  - lia.
  - pose proof (row_start_ge a cols (Z.of_nat R - 1) Ha Hc1 ltac:(lia)).
    unfold zlength in *. lia.
Qed.

(** ** The invariant of a multi-line session *)

Lemma wp_bind_frame {A B} (m : M A) (k : A -> M B) s Q :
  wp m s (fun _ s1 _ => s1 = s) ->
  (forall a o1, wp (k a) s (fun b s2 o2 => Q b s2 (o1 ++ o2))) ->
  wp (bind m k) s Q.
Proof.
  intros [a [s1 [o1 [E ->]]]] H.
  apply wp_bind. exists a, s, o1. split; [exact E|]. apply H.
Qed.

Lemma wp_move_to x y s Q : (forall o, Q tt s o) -> wp (move_to x y) s Q.
Proof. intros H. unfold move_to. wp_steps. apply H. Qed.

Lemma cp_offset_pos cs k :
  chunks_ok cs -> 0 < k <= zlength cs -> 0 < cp_offset cs k.
Proof.
  intros Hcs Hk. rewrite <- (cp_offset_0 cs 0) by lia.
  apply cp_offset_strict; auto; lia.
Qed.

Lemma cp_offset_lt_end cs k :
  chunks_ok cs -> 0 <= k < zlength cs -> cp_offset cs k < zlength (concat cs).
Proof.
  intros Hcs Hk. rewrite <- (cp_offset_all cs (zlength cs)) by lia.
  apply cp_offset_strict; auto; lia.
Qed.

(** What the invariant says in terms that arithmetic can use. *)
Lemma text_inv_facts B s cs :
  text_inv B s cs ->
  chunks_ok cs
  /\ 0 <= zlength cs <= zlength (buffer s)
  /\ 1 <= term_cols s - prompt_len s
  /\ 1 <= term_cols s
  /\ zlength (line_offset s)
     = Z.of_nat (row_count (term_cols s - prompt_len s) (term_cols s) (zlength cs)).
Proof.
  intros [Hm Hi Hp Hk Hb Hl Hr Hx].
  pose proof (key_seqs_chunks _ Hk) as Hcs.
  pose proof (chunks_length _ Hcs) as Hcl.
  pose proof (zlength_nonneg cs).
  rewrite Hb. repeat split; try assumption; try lia.
  rewrite Hr, zlength_rows_list. reflexivity.
Qed.

Lemma edit_inv_row B s cs k :
  edit_inv B s cs k ->
  pos_y s < zlength (line_offset s)
  /\ pos_y s <= row_start (term_cols s - prompt_len s) (term_cols s) (pos_y s)
  /\ 0 <= row_start (term_cols s - prompt_len s) (term_cols s) (pos_y s)
  /\ (pos_y s = 0
      -> row_start (term_cols s - prompt_len s) (term_cols s) (pos_y s) = 0).
Proof.
  intros [Ht Hc].
  destruct (text_inv_facts _ _ _ Ht) as [Hcs [Hn [Ha [Hco Hz]]]].
  destruct Hc as [Hk Ho Hy Hr Hx Hq].
  pose proof (row_start_ge _ _ _ Ha Hco Hy).
  rewrite Hz. split; [|split; [lia|split; [lia|]]].
  - apply row_in_count; try assumption; lia.
  - intros ->. apply row_start_0.
Qed.

(** A change of the cursor alone keeps the text. *)
Ltac text_frame H :=
  let H' := fresh in
  pose proof H as H'; destruct H'; constructor; fields; assumption.

(** Linear arithmetic after the case distinctions of the conditionals. *)
Ltac case_ifs :=
  repeat match goal with
  | H : context [if ?c then _ else _] |- _ =>
    let E := fresh "Eif" in destruct c eqn:E
  | |- context [if ?c then _ else _] =>
    let E := fresh "Eif" in destruct c eqn:E
  end.

Ltac zl := case_ifs; lia.

Ltac inv_facts He :=
  pose proof He as [Ht Hc];
  destruct (text_inv_facts _ _ _ Ht) as [Hcs [Hn [Ha [Hco Hz]]]];
  destruct (edit_inv_row _ _ _ _ He) as [Hy1 [Hy2 [Hy3 Hy4]]];
  pose proof Hc as [Hk Ho Hy Hr Hx Hq];
  pose proof Ht as [Hm Hi Hp Hks Hb Hl Hrows Hmax];
  pose proof Hl as Hlb;
  rewrite Hb in Hl, Hn.

Lemma cb_beginning_of_line_inv B s cs k :
  edit_inv B s cs k ->
  wp cb_beginning_of_line s (fun _ s' _ => edit_inv B s' cs 0).
Proof.
  intros [Ht Hc].
  destruct (text_inv_facts _ _ _ Ht) as [Hcs [Hn [Ha [Hco Hz]]]].
  pose proof Hc as [Hk Ho Hy Hr Hx Hq].
  pose proof (inv_prompt _ _ _ Ht) as Hp.
  unfold cb_beginning_of_line. wp_steps.
  destruct (Z.eqb_spec (offset s) 0) as [E|E]; cbn [negb].
  - wp_steps. split; [assumption|].
    assert (k = 0) as ->.
    { rewrite Ho in E.
      apply (cp_offset_inj cs); auto; lia. }
    assumption.
  - wp_steps. apply wp_move_to. intros _. wp_steps.
    split; [text_frame Ht|].
    constructor; fields; try lia.
    + rewrite cp_offset_0 by lia. reflexivity.
    + rewrite row_start_0. lia.
    + rewrite row_start_0. simpl. lia.
Qed.

Lemma cb_backward_char_inv B s cs k :
  edit_inv B s cs k -> B < 2 ^ 31 -> 0 < k ->
  wp cb_backward_char s (fun _ s' _ => edit_inv B s' cs (k - 1)).
Proof.
  intros He HB Hk0. pose proof He as [Ht Hc].
  destruct (text_inv_facts _ _ _ Ht) as [Hcs [Hn [Ha [Hco Hz]]]].
  destruct (edit_inv_row _ _ _ _ He) as [Hy1 [Hy2 [Hy3 Hy4]]].
  pose proof Hc as [Hk Ho Hy Hr Hx Hq].
  pose proof Ht as [Hm _ Hp _ Hb Hl _ _].
  pose proof (cp_offset_pos cs k Hcs ltac:(lia)) as Hpos.
  pose proof (cp_offset_le_len cs k) as Hle.
  destruct (u8_prev_chunks cs k Hcs ltac:(lia)) as [c [Hc1 Hprev]].
  unfold cb_backward_char. wp_steps.
  rewrite Ho. destruct (Z.ltb_spec 0 (cp_offset cs k)) as [_|]; [|lia].
  wp_steps. apply wp_assert; [rewrite Hb; boolZ; lia|].
  wp_steps. eapply wp_defined; [rewrite Hb; exact Hprev|].
  cbv beta iota. wp_steps.
  destruct (Z.eqb_spec (pos_x s) 0) as [E|E].
  - rewrite Hm. wp_steps.
    assert (0 < pos_y s) as Hy0.
    { zl. }
    apply wp_assert; [boolZ; lia|].
    wp_steps. apply wp_move_to. intros _. wp_steps.
    pose proof (row_start_pred (term_cols s - prompt_len s) (term_cols s) (pos_y s)
                  ltac:(lia)) as Hrs.
    rewrite !u32_small by zl.
    split; [text_frame Ht|].
    constructor; fields; zl.
  - wp_steps. apply wp_move_to. intros _. wp_steps.
    rewrite !u32_small by zl.
    split; [text_frame Ht|].
    constructor; fields; zl.
Qed.

Lemma cb_forward_char_inv B s cs k :
  edit_inv B s cs k -> B < 2 ^ 31 -> k < zlength cs ->
  wp cb_forward_char s (fun _ s' _ => edit_inv B s' cs (k + 1)).
Proof.
  intros He HB Hk0. pose proof He as [Ht Hc].
  destruct (text_inv_facts _ _ _ Ht) as [Hcs [Hn [Ha [Hco Hz]]]].
  destruct (edit_inv_row _ _ _ _ He) as [Hy1 [Hy2 [Hy3 Hy4]]].
  pose proof Hc as [Hk Ho Hy Hr Hx Hq].
  pose proof Ht as [Hm _ Hp Hks Hb Hl _ _].
  rewrite Hb in Hl, Hn.
  pose proof (cp_offset_lt_end cs k Hcs ltac:(lia)) as Hlt.
  pose proof (cp_offset_nonneg cs k) as Hge.
  destruct (u8_mbtoucr_chunks cs k Hcs ltac:(lia)) as [c [Hc1 Hnext]].
  pose proof (cp_offset_succ cs k c Hc1) as Hsucc.
  pose proof (cp_offset_le_len cs (k + 1)) as Hle.
  pose proof (cp_offset_nonneg cs (k + 1)) as Hge1.
  assert (key_seq c = true) as Hkc.
  { rewrite Forall_forall in Hks. apply Hks.
    unfold zget in Hc1. destruct (k <? 0); [discriminate|].
    eapply nth_error_In; eassumption. }
  destruct (key_seq_char c Hkc) as [_ Hfffd].
  pose proof (row_start_succ (term_cols s - prompt_len s) (term_cols s) (pos_y s) Hy)
    as Hrs.
  unfold cb_forward_char. wp_steps.
  rewrite Ho, Hb. destruct (Z.ltb_spec (cp_offset cs k) (zlength (concat cs))) as [_|]; [|lia].
  wp_steps. apply wp_assert; [boolZ; lia|].
  wp_steps. eapply wp_defined; [exact Hnext|].
  cbv beta iota. wp_steps.
  apply wp_assert; [boolZ; assumption|].
  rewrite <- Hsucc. rewrite (u32_small (cp_offset cs (k + 1))) by lia.
  wp_steps.
  rewrite (u32_small (pos_x s + 1)) by zl.
  destruct (Z.eqb_spec (pos_x s + 1) (term_cols s)) as [E|E].
  - rewrite Hm. wp_steps.
    apply wp_assert; [boolZ; lia|].
    wp_steps. apply wp_move_to. intros _. wp_steps.
    rewrite !u32_small by zl.
    split; [text_frame Ht|].
    constructor; fields; zl.
  - wp_steps. apply wp_move_to. intros _. wp_steps.
    split; [text_frame Ht|].
    constructor; fields; zl.
Qed.

Lemma cb_previous_screen_line_inv B s cs k :
  edit_inv B s cs k -> B < 2 ^ 31 ->
  wp cb_previous_screen_line s (fun _ s' _ => exists k', edit_inv B s' cs k').
Proof.
  intros He HB. inv_facts He.
  unfold cb_previous_screen_line. wp_steps.
  destruct (Z.ltb_spec 0 (pos_y s)) as [Hy0|Hy0];
    [|wp_steps; exists k; assumption].
  destruct ((1 <? pos_y s) || (prompt_len s <=? requested_pos_x s)) eqn:Hcond;
    [|wp_steps; exists k; assumption].
  boolZ.
  rewrite (u32_small (pos_y s - 1)) by lia.
  pose proof (row_start_pred (term_cols s - prompt_len s) (term_cols s) (pos_y s)
                ltac:(lia)) as Hrs.
  assert (0 <= row_start (term_cols s - prompt_len s) (term_cols s) (pos_y s - 1)) as Hr0.
  { pose proof (row_start_ge (term_cols s - prompt_len s) (term_cols s) (pos_y s - 1)
                  Ha Hco ltac:(lia)). lia. }
  wp_steps. eapply wp_defined.
  { rewrite Hrows. apply zget_rows_list. rewrite <- Hz. lia. }
  wp_steps.
  set (n := requested_pos_x s - (if pos_y s - 1 =? 0 then prompt_len s else 0)).
  assert (0 <= n < 2 ^ 32) as Hn32 by (unfold n; zl).
  rewrite (u32_small n) by lia.
  eapply wp_defined.
  { apply (offset_after_n_chars_cp s cs); auto; zl. }
  cbv beta iota. wp_steps.
  set (j := row_start (term_cols s - prompt_len s) (term_cols s) (pos_y s - 1)) in *.
  destruct (Z.eqb_spec (pos_y s - 1) 0) as [E|E].
  - wp_steps. apply wp_move_to. intros _. wp_steps.
    exists (Z.min (j + n) (zlength cs)).
    rewrite !u32_small by lia.
    split; [text_frame Ht|].
    constructor; fields; fold j; rewrite ?cp_offset_min; try reflexivity; try zl.
  - wp_steps. apply wp_move_to. intros _. wp_steps.
    exists (Z.min (j + n) (zlength cs)).
    split; [text_frame Ht|].
    constructor; fields; fold j; rewrite ?cp_offset_min; try reflexivity; try zl.
Qed.

Lemma cb_next_screen_line_inv B s cs k :
  edit_inv B s cs k -> B < 2 ^ 31 ->
  wp cb_next_screen_line s (fun _ s' _ => exists k', edit_inv B s' cs k').
Proof.
  intros He HB. inv_facts He.
  unfold cb_next_screen_line. wp_steps.
  assert (0 <= pos_x s < 2 ^ 31) as Hx32 by zl.
  rewrite !(u32_small (pos_y s + 1)) by lia.
  destruct (Z.ltb_spec (pos_y s + 1) (zlength (line_offset s))) as [Hy0|Hy0];
    [|wp_steps; exists k; assumption].
  pose proof (row_start_succ (term_cols s - prompt_len s) (term_cols s) (pos_y s) Hy)
    as Hrs.
  assert (row_start (term_cols s - prompt_len s) (term_cols s) (pos_y s + 1)
          <= zlength cs) as Hr1.
  { apply row_start_in_count; auto; lia. }
  wp_steps. eapply wp_defined.
  { rewrite Hrows. apply zget_rows_list. rewrite <- Hz. lia. }
  wp_steps.
  eapply wp_defined.
  { apply (offset_after_n_chars_cp s cs); auto; zl. }
  cbv beta iota. wp_steps. apply wp_move_to. intros _. wp_steps.
  set (j := row_start (term_cols s - prompt_len s) (term_cols s) (pos_y s + 1)) in *.
  exists (Z.min (j + pos_x s) (zlength cs)).
  split; [text_frame Ht|].
  constructor; fields; fold j; rewrite ?cp_offset_min; try reflexivity; try zl.
Qed.


(** ** Edits of the codepoints *)

Lemma to_int_small x : 0 <= x < 2 ^ 31 -> to_int x = x.
Proof.
  intros H. unfold to_int. rewrite u32_small by lia.
  destruct (Z.ltb_spec x (2 ^ 31)); lia.
Qed.

Lemma Forall_ztake {A} (P : A -> Prop) k l : Forall P l -> Forall P (ztake k l).
Proof.
  intros H. rewrite <- (ztake_zdrop k l) in H. apply Forall_app in H. tauto.
Qed.

Lemma Forall_zdrop {A} (P : A -> Prop) k l : Forall P l -> Forall P (zdrop k l).
Proof.
  intros H. rewrite <- (ztake_zdrop k l) in H. apply Forall_app in H. tauto.
Qed.

Lemma zget_In {A} (l : list A) k x : zget l k = Some x -> In x l.
Proof.
  unfold zget. destruct (k <? 0); [discriminate|]. apply nth_error_In.
Qed.

Lemma ztake_prefix {A} m i (l rest : list A) :
  m <= i -> i <= zlength l -> 0 <= i -> ztake m (ztake i l ++ rest) = ztake m l.
Proof.
  intros Hm Hi H0.
  rewrite ztake_app_le by (rewrite zlength_ztake; lia).
  apply ztake_ztake. assumption.
Qed.

Lemma verase_chunks (cs : list (list Z)) i j c :
  zget cs i = Some c -> j = i + 1 ->
  verase (concat cs) (cp_offset cs i) (cp_offset cs j)
  = concat (ztake i cs ++ zdrop j cs).
Proof.
  intros _ ->. unfold verase.
  rewrite ztake_cp_offset, zdrop_cp_offset, concat_app. reflexivity.
Qed.

Lemma vinsert_chunks (cs : list (list Z)) k c :
  vinsert (concat cs) (cp_offset cs k) c = concat (ztake k cs ++ [c] ++ zdrop k cs).
Proof.
  unfold vinsert.
  rewrite ztake_cp_offset, zdrop_cp_offset, !concat_app.
  simpl. rewrite app_nil_r. reflexivity.
Qed.

Lemma zlength_remove {A} (l : list A) i x :
  zget l i = Some x -> zlength (ztake i l ++ zdrop (i + 1) l) = zlength l - 1.
Proof.
  intros H. pose proof (zget_Some_range _ _ _ H).
  rewrite zlength_app, zlength_ztake, zlength_zdrop by lia. lia.
Qed.

Lemma zlength_concat_remove (cs : list (list Z)) i c :
  zget cs i = Some c ->
  zlength (concat (ztake i cs ++ zdrop (i + 1) cs)) = zlength (concat cs) - zlength c.
Proof.
  intros H. rewrite (zget_split cs i c H) at 3.
  rewrite !concat_app. simpl. rewrite !zlength_app. lia.
Qed.

Lemma zlength_insert {A} (l : list A) k x :
  0 <= k <= zlength l -> zlength (ztake k l ++ [x] ++ zdrop k l) = zlength l + 1.
Proof.
  intros H. rewrite !zlength_app, zlength_ztake, zlength_zdrop by lia.
  change (zlength [x]) with 1. lia.
Qed.

Lemma zlength_concat_insert (cs : list (list Z)) k c :
  zlength (concat (ztake k cs ++ [c] ++ zdrop k cs)) = zlength (concat cs) + zlength c.
Proof.
  rewrite (concat_ztake_zdrop cs k) at 1.
  rewrite !concat_app. simpl. rewrite ?app_nil_r, !zlength_app. lia.
Qed.

Lemma wp_recompute_line_offset s cs cs' (R0 : nat) r Q :
  0 <= prompt_len s < term_cols s -> term_cols s < 2 ^ 32 ->
  buffer s = concat cs' -> chunks_ok cs' -> zlength (buffer s) < 2 ^ 31 - 2 ->
  line_offset s = rows_list (term_cols s - prompt_len s) (term_cols s) cs R0 ->
  0 <= r < Z.of_nat R0 ->
  ztake (row_start (term_cols s - prompt_len s) (term_cols s) r) cs
  = ztake (row_start (term_cols s - prompt_len s) (term_cols s) r) cs' ->
  row_start (term_cols s - prompt_len s) (term_cols s) r <= zlength cs' ->
  Q tt (set_line_offset
          (rows_list (term_cols s - prompt_len s) (term_cols s) cs'
             (row_count (term_cols s - prompt_len s) (term_cols s) (zlength cs'))) s) [] ->
  wp (recompute_line_offset r) s Q.
Proof.
  intros Hp Hc Hb Hcs Hl Hlo Hr Hpre Hrs HQ.
  eapply wp_eq; [|exact HQ].
  apply (recompute_line_offset_rows s cs cs' R0 r); assumption.
Qed.

Lemma wp_redraw_tail s Q :
  0 <= offset s <= zlength (buffer s) -> (forall o, Q tt s o) -> wp redraw_tail s Q.
Proof.
  intros H HQ. unfold redraw_tail. wp_steps.
  apply wp_assert; [boolZ; lia|]. wp_steps. apply HQ.
Qed.

(** The common end of [cb_backspace] and [cb_delete]: the codepoint [i],
    at the cursor, is erased. *)
Lemma erase_at_cursor_inv B s cs i c :
  edit_inv B s cs i -> B < 2 ^ 31 - 2 -> zget cs i = Some c ->
  wp (modify (set_buffer (concat (ztake i cs ++ zdrop (i + 1) cs))) ;;
      modify (set_nchars (u32 (nchars s - 1))) ;;
      recompute_line_offset (to_int (pos_y s)) ;;
      redraw_tail ;;
      modify (set_requested_pos_x (pos_x s))) s
     (fun _ s' _ => edit_inv B s' (ztake i cs ++ zdrop (i + 1) cs) i).
Proof.
  intros He HB Hc1. inv_facts He.
  pose proof (zget_Some_range _ _ _ Hc1) as Hi0.
  pose proof (utf8_seq_length c (chunks_ok_zget _ _ _ Hcs Hc1)) as Hlc.
  set (cs' := ztake i cs ++ zdrop (i + 1) cs).
  assert (Forall (fun c => key_seq c = true) cs') as Hks'.
  { apply Forall_app. split; [apply Forall_ztake|apply Forall_zdrop]; assumption. }
  pose proof (key_seqs_chunks _ Hks') as Hcs'.
  pose proof (zlength_remove cs i c Hc1) as Hlen'. fold cs' in Hlen'.
  pose proof (zlength_concat_remove cs i c Hc1) as Hcl'. fold cs' in Hcl'.
  assert (forall m, m <= i -> ztake m cs = ztake m cs') as Hpre.
  { intros m Hmk. symmetry. apply ztake_prefix; lia. }
  wp_steps. rewrite to_int_small by lia.
  eapply (wp_recompute_line_offset _ cs cs' _ (pos_y s)); fields;
    [exact Hp|lia|reflexivity|exact Hcs'|lia|exact Hrows|lia|apply Hpre; lia|lia|].
  wp_steps.
  assert (cp_offset cs i = cp_offset cs' i) as Hok.
  { apply (cp_offset_prefix cs cs' i); [apply Hpre; lia|lia]. }
  apply wp_redraw_tail; fields.
  { rewrite Ho, Hok. pose proof (cp_offset_le_len cs' i).
    pose proof (cp_offset_nonneg cs' i). lia. }
  intros _. wp_steps.
  pose proof (row_count_mono (term_cols s - prompt_len s) (term_cols s)
                (zlength cs') (zlength cs) Ha Hco ltac:(lia) ltac:(lia)) as Hmono.
  split.
  - constructor; fields; auto; lia.
  - constructor; fields; auto; zl.
Qed.

Lemma cb_delete_inv B s cs k :
  edit_inv B s cs k -> B < 2 ^ 31 - 2 -> k < zlength cs ->
  wp cb_delete s
     (fun _ s' _ => edit_inv B s' (ztake k cs ++ zdrop (k + 1) cs) k).
Proof.
  intros He HB Hk0. inv_facts He.
  pose proof (cp_offset_lt_end cs k Hcs ltac:(lia)) as Hlt.
  pose proof (cp_offset_nonneg cs k) as Hge.
  destruct (u8_mbtoucr_chunks cs k Hcs ltac:(lia)) as [c [Hc1 Hnext]].
  pose proof (cp_offset_succ cs k c Hc1) as Hsucc.
  pose proof (utf8_seq_length c (chunks_ok_zget _ _ _ Hcs Hc1)) as Hlc.
  unfold cb_delete. wp_steps.
  rewrite Ho, Hb.
  destruct (Z.ltb_spec (cp_offset cs k) (zlength (concat cs))) as [_|]; [|lia].
  apply wp_bind.
  apply wp_assert; [boolZ; lia|].
  apply wp_bind. eapply wp_defined; [exact Hnext|].
  cbv beta iota. apply wp_bind.
  apply wp_assert; [boolZ; lia|].
  rewrite <- Hsucc, (verase_chunks cs k (k + 1) c Hc1 eq_refl).
  eapply wp_mono; [apply (erase_at_cursor_inv B s cs k c He HB Hc1)|].
  cbv beta. intros _ s' _ He'. wp_steps. exact He'.
Qed.

Lemma cb_backspace_inv B s cs k :
  edit_inv B s cs k -> B < 2 ^ 31 - 2 -> 0 < k ->
  wp cb_backspace s
     (fun _ s' _ => edit_inv B s' (ztake (k - 1) cs ++ zdrop k cs) (k - 1)).
Proof.
  intros He HB Hk0.
  assert (offset s = cp_offset cs k /\ chunks_ok cs /\ k <= zlength cs
          /\ buffer s = concat cs) as [Ho0 [Hcs0 [Hk1 Hb0]]].
  { inv_facts He. repeat split; auto; lia. }
  pose proof (cp_offset_pos cs k Hcs0 ltac:(lia)) as Hpos.
  unfold cb_backspace. wp_steps.
  rewrite Ho0.
  destruct (Z.ltb_spec 0 (cp_offset cs k)) as [_|]; [|lia].
  apply wp_bind.
  eapply wp_mono; [apply (cb_backward_char_inv B s cs k He ltac:(lia) Hk0)|].
  cbv beta. intros _ s1 _ He1. clear He.
  apply wp_bind, wp_get. cbv beta.
  inv_facts He1.
  destruct (zget_range cs (k - 1) ltac:(lia)) as [c Hc1].
  pose proof (cp_offset_succ cs (k - 1) c Hc1) as Hsucc.
  replace (k - 1 + 1) with k in Hsucc by lia.
  pose proof (utf8_seq_length c (chunks_ok_zget _ _ _ Hcs Hc1)) as Hlc.
  pose proof (cp_offset_nonneg cs (k - 1)).
  pose proof (cp_offset_le_len cs k).
  apply wp_bind. apply wp_assert; [rewrite Ho; boolZ; lia|].
  apply wp_bind. apply wp_assert; [rewrite Ho, Hb; boolZ; lia|].
  rewrite Ho, Hb, (verase_chunks cs (k - 1) k c Hc1 ltac:(lia)).
  pose proof (erase_at_cursor_inv B s1 cs (k - 1) c He1 HB Hc1) as Htail.
  replace (k - 1 + 1) with k in Htail by lia.
  eapply wp_mono; [exact Htail|].
  cbv beta. intros _ s' _ He'. wp_steps. exact He'.
Qed.

Lemma cb_kill_line_inv B s cs k :
  edit_inv B s cs k -> B < 2 ^ 31 - 2 ->
  wp cb_kill_line s (fun _ s' _ => edit_inv B s' (ztake k cs) k).
Proof.
  intros He HB. inv_facts He.
  pose proof (cp_offset_nonneg cs k) as Hge.
  pose proof (cp_offset_le_len cs k) as Hle.
  unfold cb_kill_line. wp_steps.
  rewrite Ho, Hb.
  destruct (Z.ltb_spec (cp_offset cs k) (zlength (concat cs))) as [Hlt|Hge'].
  - set (cs' := ztake k cs).
    assert (Forall (fun c => key_seq c = true) cs') as Hks'
      by (apply Forall_ztake; assumption).
    pose proof (key_seqs_chunks _ Hks') as Hcs'.
    assert (zlength cs' = k) as Hlen' by (apply zlength_ztake; lia).
    assert (zlength (concat cs') <= zlength (concat cs)) as Hcl'.
    { apply (cp_offset_le_len cs k). }
    assert (forall m, m <= k -> ztake m cs = ztake m cs') as Hpre.
    { intros m Hmk. symmetry. apply ztake_ztake. assumption. }
    wp_steps. apply wp_assert; [boolZ; lia|].
    rewrite ztake_cp_offset. fold cs'.
    wp_steps. rewrite to_int_small by lia.
    eapply (wp_recompute_line_offset _ cs cs' _ (pos_y s)); fields;
      [exact Hp|lia|reflexivity|exact Hcs'|lia|exact Hrows|lia|apply Hpre; lia|lia|].
    wp_steps.
    pose proof (row_count_mono (term_cols s - prompt_len s) (term_cols s)
                  (zlength cs') (zlength cs) Ha Hco ltac:(lia) ltac:(lia)) as Hmono.
    split.
    + constructor; fields; auto; lia.
    + constructor; fields; auto; try zl.
      rewrite Ho. apply (cp_offset_prefix cs cs' k); [apply Hpre; lia|lia].
  - wp_steps.
    assert (k = zlength cs) as Hke.
    { rewrite <- (cp_offset_all cs (zlength cs)) in Hge' by lia.
      apply Z.le_antisymm; [lia|].
      apply (cp_offset_le_inv cs); auto; lia. }
    rewrite ztake_all by lia. exact He.
Qed.


(** ** Word motions *)

Lemma cp_offset_lt_inv cs a b :
  cp_offset cs a < cp_offset cs b -> a < b.
Proof.
  intros H. destruct (Z.lt_ge_cases a b) as [|Hge]; [assumption|].
  pose proof (cp_offset_mono cs b a Hge). lia.
Qed.

Lemma row_down_to_rows a cols cs (R : nat) k' :
  chunks_ok cs -> 1 <= a -> 1 <= cols ->
  row_start a cols (Z.of_nat R - 1) <= zlength cs ->
  0 <= k' <= zlength cs ->
  forall (fuel : nat) y,
    0 <= y < Z.of_nat R -> y < 2 ^ 32 -> (Z.to_nat y <= fuel)%nat ->
    exists y', 0 <= y' <= y /\ row_start a cols y' <= k'
      /\ row_down_to fuel (rows_list a cols cs R) (cp_offset cs k') y = Some y'.
Proof.
  intros Hcs Ha Hc HR Hk.
  induction fuel as [|fuel IH]; intros y Hy Hy32 Hf.
  - assert (y = 0) as -> by lia.
    cbn [row_down_to]. rewrite zget_rows_list by lia.
    rewrite row_start_0, (cp_offset_0 cs 0) by lia.
    pose proof (cp_offset_nonneg cs k').
    destruct (Z.ltb_spec (cp_offset cs k') 0); [lia|].
    exists 0. rewrite row_start_0. repeat split; lia.
  - cbn [row_down_to]. rewrite zget_rows_list by lia.
    assert (0 <= row_start a cols y <= zlength cs) as Hrs.
    { pose proof (row_start_ge a cols y Ha Hc ltac:(lia)).
      pose proof (row_start_mono a cols y (Z.of_nat R - 1) Ha Hc ltac:(lia)). lia. }
    destruct (Z.ltb_spec (cp_offset cs k') (cp_offset cs (row_start a cols y)))
      as [Hlt|Hge].
    + apply cp_offset_lt_inv in Hlt.
      assert (0 < y) as Hy0.
      { destruct (Z.eq_dec y 0) as [->|]; [rewrite row_start_0 in Hlt|]; lia. }
      destruct (Z.ltb_spec 0 y); [|lia].
      rewrite u32_small by lia.
      destruct (IH (y - 1)) as [y' [Hy' [Hr' E]]]; try lia.
      exists y'. repeat split; try lia. exact E.
    + exists y. repeat split; try lia.
      apply (cp_offset_le_inv cs); auto; lia.
Qed.

Lemma row_up_to_rows a cols cs (R : nat) k' :
  chunks_ok cs -> 1 <= a -> 1 <= cols ->
  row_start a cols (Z.of_nat R - 1) <= zlength cs ->
  0 <= k' <= zlength cs -> Z.of_nat R < 2 ^ 32 ->
  forall (fuel : nat) y,
    0 <= y < Z.of_nat R -> row_start a cols y <= k' ->
    (Z.to_nat (Z.of_nat R - 1 - y) <= fuel)%nat ->
    exists y', y <= y' < Z.of_nat R /\ row_start a cols y' <= k'
      /\ row_up_to fuel (rows_list a cols cs R) (cp_offset cs k') y = Some y'.
Proof.
  intros Hcs Ha Hc HR Hk HR32.
  induction fuel as [|fuel IH]; intros y Hy Hr Hf.
  - assert (y = Z.of_nat R - 1) as -> by lia.
    cbn [row_up_to]. rewrite zlength_rows_list.
    rewrite u32_small by lia.
    destruct (Z.ltb_spec (Z.of_nat R - 1 + 1) (Z.of_nat R)); [lia|].
    exists (Z.of_nat R - 1). repeat split; try lia. 
  - cbn [row_up_to]. rewrite zlength_rows_list.
    rewrite !u32_small by lia.
    destruct (Z.ltb_spec (y + 1) (Z.of_nat R)) as [Hlt|Hge].
    + rewrite zget_rows_list by lia.
      assert (0 <= row_start a cols (y + 1) <= zlength cs) as Hrs.
      { pose proof (row_start_ge a cols (y + 1) Ha Hc ltac:(lia)).
        pose proof (row_start_mono a cols (y + 1) (Z.of_nat R - 1) Ha Hc ltac:(lia)).
        lia. }
      destruct (Z.leb_spec (cp_offset cs (row_start a cols (y + 1))) (cp_offset cs k'))
        as [Hle|Hgt].
      * apply (cp_offset_le_inv cs) in Hle; auto; try lia.
        destruct (IH (y + 1)) as [y' [Hy' [Hr' E]]]; try lia.
        exists y'. repeat split; try lia. exact E.
      * exists y. repeat split; try lia.
    + exists y. repeat split; try lia.
Qed.

Section WordActions.

Variable uc_is_word : Z -> bool.

Lemma backward_word_loop_chunks cs :
  chunks_ok cs ->
  forall (fuel : nat) k uc1,
    0 <= k <= zlength cs -> (Z.to_nat k <= fuel)%nat ->
    exists k', 0 <= k' <= k
      /\ backward_word_loop uc_is_word fuel (concat cs) (cp_offset cs k) uc1
         = Some (cp_offset cs k').
Proof.
  intros Hcs. induction fuel as [|fuel IH]; intros k uc1 Hk Hf.
  - assert (k = 0) as -> by lia.
    cbn [backward_word_loop]. rewrite (cp_offset_0 cs 0) by lia.
    cbn. exists 0. split; [lia|]. rewrite cp_offset_0 by lia. reflexivity.
  - cbn [backward_word_loop].
    destruct (Z.ltb_spec 0 (cp_offset cs k)) as [Hlt|Hge].
    + assert (0 < k) as Hk0.
      { destruct (Z.eq_dec k 0) as [->|]; [rewrite cp_offset_0 in Hlt|]; lia. }
      destruct (u8_prev_chunks cs k Hcs ltac:(lia)) as [c [Hc Hprev]].
      rewrite Hprev.
      destruct (uc_is_word uc1 && negb (uc_is_word (chunk_char c))).
      * exists k. split; [lia|reflexivity].
      * destruct (IH (k - 1) (chunk_char c)) as [k' [Hk' E]]; try lia.
        exists k'. split; [lia|exact E].
    + exists k. split; [lia|reflexivity].
Qed.

Lemma forward_word_loop_chunks cs :
  Forall (fun c => key_seq c = true) cs ->
  forall (fuel : nat) p kq uc1,
    0 <= kq <= zlength cs -> (Z.to_nat (zlength cs - kq) <= fuel)%nat ->
    exists k', kq <= k' <= zlength cs
      /\ forward_word_loop uc_is_word fuel (concat cs) p (cp_offset cs kq) uc1
         = Some (cp_offset cs k').
Proof.
  intros Hks. pose proof (key_seqs_chunks _ Hks) as Hcs.
  induction fuel as [|fuel IH]; intros p kq uc1 Hk Hf.
  - assert (kq = zlength cs) as -> by lia.
    cbn [forward_word_loop]. rewrite (cp_offset_all cs (zlength cs)) by lia.
    rewrite Z.leb_refl, Z.eqb_refl.
    exists (zlength cs). split; [lia|].
    rewrite (cp_offset_all cs (zlength cs)) by lia. reflexivity.
  - cbn [forward_word_loop].
    pose proof (cp_offset_le_len cs kq) as Hle.
    destruct (Z.leb_spec (cp_offset cs kq) (zlength (concat cs))); [|lia].
    destruct (Z.eqb_spec (cp_offset cs kq) (zlength (concat cs))) as [E|E].
    + exists kq. split; [lia|reflexivity].
    + assert (kq < zlength cs) as Hlt.
      { destruct (Z.eq_dec kq (zlength cs)) as [->|]; [|lia].
        rewrite cp_offset_all in E by lia. contradiction. }
      destruct (u8_next_chunks cs kq Hks ltac:(lia)) as [c [Hc Hnext]].
      rewrite Hnext.
      destruct (uc_is_word uc1 && negb (uc_is_word (chunk_char c))).
      * exists kq. split; [lia|reflexivity].
      * rewrite <- (cp_offset_succ cs kq c Hc).
        destruct (IH (cp_offset cs kq) (kq + 1) (chunk_char c)) as [k' [Hk' E']];
          try lia.
        exists k'. split; [lia|exact E'].
Qed.

Lemma column_of_offset_inv B s cs k :
  text_inv B s cs -> B < 2 ^ 31 ->
  0 <= k <= zlength cs -> offset s = cp_offset cs k ->
  0 <= pos_y s ->
  row_start (term_cols s - prompt_len s) (term_cols s) (pos_y s) <= k ->
  wp column_of_offset s (fun _ s' _ => edit_inv B s' cs k).
Proof.
  intros Ht HB Hk Ho Hy Hr.
  destruct (text_inv_facts _ _ _ Ht) as [Hcs [Hn [Ha [Hco Hz]]]].
  pose proof Ht as [Hm Hi Hp Hks Hb Hl Hrows Hmax].
  pose proof (row_start_ge _ _ _ Ha Hco Hy) as Hge.
  pose proof (row_in_count _ _ (zlength cs) (pos_y s) Ha Hco ltac:(lia) ltac:(lia))
    as Hin.
  pose proof (cp_offset_mono cs _ _ Hr) as Hmono.
  pose proof (cp_offset_nonneg cs
                (row_start (term_cols s - prompt_len s) (term_cols s) (pos_y s))).
  pose proof (cp_offset_le_len cs k).
  unfold column_of_offset. wp_steps.
  eapply wp_defined; [rewrite Hrows; apply zget_rows_list; lia|].
  wp_steps. unfold mbsnlen_between. wp_steps.
  apply wp_assert; [rewrite Ho, Hb; boolZ; lia|].
  wp_steps. rewrite Ho, Hb, u8_mbsnlen_between by (auto; lia).
  apply wp_move_to. intros _.
  rewrite (u32_small (k - _)) by lia.
  split; [text_frame Ht|].
  constructor; fields; auto; try zl.
  - destruct (pos_y s =? 0); [rewrite u32_small|]; lia.
  - destruct (pos_y s =? 0); [rewrite u32_small|]; lia.
Qed.

(** Alt-B when the loop ends at the codepoint [k1]. *)
Lemma cb_backward_word_at B s cs k c k1 :
  edit_inv B s cs k -> B < 2 ^ 31 -> 0 < k ->
  zget cs (k - 1) = Some c ->
  backward_word_loop uc_is_word (length (buffer s)) (concat cs)
    (cp_offset cs (k - 1)) (chunk_char c) = Some (cp_offset cs k1) ->
  0 <= k1 <= k - 1 ->
  wp (cb_backward_word uc_is_word) s (fun _ s' _ => edit_inv B s' cs k1).
Proof.
  intros He HB Hk0 Hc1 Hloop Hk1. inv_facts He.
  pose proof (cp_offset_le_len cs k) as Hle.
  pose proof (cp_offset_pos cs k Hcs ltac:(lia)) as Hlt.
  unfold cb_backward_word. wp_steps.
  rewrite Ho.
  destruct (Z.ltb_spec 0 (cp_offset cs k)) as [_|]; [|lia].
  destruct (u8_prev_chunks cs k Hcs ltac:(lia)) as [c' [Hc1' Hprev]].
  rewrite Hc1 in Hc1'. inversion Hc1'; subst c'. clear Hc1'.
  assert (row_start (term_cols s - prompt_len s) (term_cols s)
            (Z.of_nat (row_count (term_cols s - prompt_len s) (term_cols s)
                         (zlength cs)) - 1) <= zlength cs) as HR.
  { apply row_count_bounds; lia. }
  destruct (row_down_to_rows (term_cols s - prompt_len s) (term_cols s) cs
              (row_count (term_cols s - prompt_len s) (term_cols s) (zlength cs))
              k1 Hcs Ha Hco HR ltac:(lia) (length (line_offset s)) (pos_y s))
    as [y1 [Hy1' [Hr1 Hdown]]]; try lia.
  { unfold zlength in Hz, Hy1. lia. }
  wp_steps. apply wp_assert; [rewrite Hb; boolZ; lia|].
  wp_steps. eapply wp_defined; [rewrite Hb; exact Hprev|].
  cbv beta iota. wp_steps.
  eapply wp_defined; [rewrite Hb in *; exact Hloop|].
  wp_steps.
  eapply wp_defined; [rewrite Hrows in *; exact Hdown|].
  wp_steps.
  eapply wp_mono.
  { apply (column_of_offset_inv B _ cs k1); fields; auto; try lia.
    text_frame Ht. }
  cbv beta. intros _ s' _ He'. wp_steps. exact He'.
Qed.

Lemma cb_backward_word_inv B s cs k :
  edit_inv B s cs k -> B < 2 ^ 31 ->
  wp (cb_backward_word uc_is_word) s (fun _ s' _ => exists k', edit_inv B s' cs k').
Proof.
  intros He HB. pose proof He as He0. inv_facts He0.
  destruct (Z.ltb_spec 0 (cp_offset cs k)) as [Hlt|Hge].
  - assert (0 < k) as Hk0.
    { destruct (Z.eq_dec k 0) as [->|]; [rewrite cp_offset_0 in Hlt|]; lia. }
    destruct (zget_range cs (k - 1) ltac:(lia)) as [c Hc1].
    destruct (backward_word_loop_chunks cs Hcs (length (buffer s)) (k - 1) (chunk_char c))
      as [k1 [Hk1 Hloop]]; [lia| |].
    { rewrite Hb. unfold zlength in *. lia. }
    eapply wp_mono; [apply (cb_backward_word_at B s cs k c k1); assumption|].
    cbv beta. intros _ s' _ He'. exists k1. exact He'.
  - unfold cb_backward_word. wp_steps. rewrite Ho.
    destruct (Z.ltb_spec 0 (cp_offset cs k)) as [|_]; [lia|].
    wp_steps. exists k. exact He.
Qed.

Lemma cb_forward_word_inv B s cs k :
  edit_inv B s cs k -> B < 2 ^ 31 ->
  wp (cb_forward_word uc_is_word) s (fun _ s' _ => exists k', edit_inv B s' cs k').
Proof.
  intros He HB. inv_facts He.
  pose proof (cp_offset_le_len cs k) as Hle.
  pose proof (cp_offset_nonneg cs k) as Hge.
  unfold cb_forward_word. wp_steps.
  rewrite Ho, Hb. rewrite u32_small by lia.
  destruct (Z.ltb_spec (cp_offset cs k + 1) (zlength (concat cs))) as [Hlt|Hnlt];
    [|wp_steps; exists k; exact He].
  assert (k < zlength cs) as Hk0.
  { destruct (Z.eq_dec k (zlength cs)) as [->|]; [|lia].
    rewrite cp_offset_all in Hlt by lia. lia. }
  destruct (u8_next_chunks cs k Hks ltac:(lia)) as [c [Hc1 Hnext]].
  pose proof (cp_offset_succ cs k c Hc1) as Hsucc.
  pose proof (cp_offset_le_len cs (k + 1)) as Hle1.
  pose proof (cp_offset_nonneg cs (k + 1)) as Hge1.
  assert (row_start (term_cols s - prompt_len s) (term_cols s)
            (Z.of_nat (row_count (term_cols s - prompt_len s) (term_cols s)
                         (zlength cs)) - 1) <= zlength cs) as HR.
  { apply row_count_bounds; lia. }
  assert (Z.of_nat (row_count (term_cols s - prompt_len s) (term_cols s) (zlength cs))
          < 2 ^ 32) as HR32.
  { pose proof (row_start_ge (term_cols s - prompt_len s) (term_cols s)
                  (Z.of_nat (row_count (term_cols s - prompt_len s) (term_cols s)
                               (zlength cs)) - 1) Ha Hco ltac:(lia)).
    lia. }
  wp_steps. apply wp_assert; [boolZ; lia|].
  wp_steps. eapply wp_defined; [exact Hnext|].
  cbv beta iota. wp_steps.
  eapply wp_defined; [reflexivity|].
  wp_steps. rewrite <- Hsucc.
  apply wp_mono with
    (Q := fun p s' (_ : list Z) =>
            s' = s /\ exists k', k + 1 <= k' <= zlength cs /\ p = cp_offset cs k').
  { destruct (Z.ltb_spec (cp_offset cs (k + 1)) (zlength (concat cs))) as [Hlt1|Hge1'].
    - assert (k + 1 < zlength cs) as Hk1.
      { destruct (Z.eq_dec (k + 1) (zlength cs)) as [E|]; [|lia].
        rewrite cp_offset_all in Hlt1 by lia. lia. }
      destruct (u8_next_chunks cs (k + 1) Hks ltac:(lia)) as [c1 [Hc2 Hnext1]].
      destruct (forward_word_loop_chunks cs Hks (length (buffer s))
                  (cp_offset cs (k + 1)) (k + 1 + 1) (chunk_char c1))
        as [k' [Hk' Hloop]]; [lia| |].
      { rewrite Hb. unfold zlength in *. lia. }
      wp_steps. eapply wp_defined; [exact Hnext1|].
      cbv beta iota. wp_steps.
      eapply wp_defined; [reflexivity|].
      wp_steps. rewrite <- (cp_offset_succ cs (k + 1) c1 Hc2).
      eapply wp_defined; [rewrite Hb in *; exact Hloop|].
      split; [reflexivity|]. exists k'. split; [lia|reflexivity].
    - wp_steps. split; [reflexivity|]. exists (k + 1). split; [lia|reflexivity]. }
  cbv beta. intros p s' _ [-> [k' [Hk' ->]]].
  pose proof (cp_offset_le_len cs k').
  pose proof (cp_offset_nonneg cs k').
  rewrite !u32_small by lia.
  destruct (row_up_to_rows (term_cols s - prompt_len s) (term_cols s) cs
              (row_count (term_cols s - prompt_len s) (term_cols s) (zlength cs))
              k' Hcs Ha Hco HR ltac:(lia) HR32 (length (line_offset s)) (pos_y s))
    as [y1 [Hy1' [Hr1 Hup]]]; try lia.
  { change (zlength (line_offset s)) with (Z.of_nat (length (line_offset s))) in Hz.
    lia. }
  wp_steps.
  eapply wp_defined; [rewrite Hrows in *; exact Hup|].
  wp_steps.
  eapply wp_mono.
  { apply (column_of_offset_inv B _ cs k'); fields; auto; try lia.
    text_frame Ht. }
  cbv beta. intros _ s'' _ He'. wp_steps. exists k'. exact He'.
Qed.

End WordActions.

(** ** Insertion *)

Lemma zget_insert {A} (l : list A) k x :
  0 <= k <= zlength l -> zget (ztake k l ++ [x] ++ zdrop k l) k = Some x.
Proof.
  intros H. rewrite zget_app_r by (rewrite zlength_ztake; lia).
  rewrite zlength_ztake, Z.sub_diag by lia. reflexivity.
Qed.

(** A step that leaves the session as it is. *)
Ltac wp_frame :=
  match goal with
  | |- wp _ ?st _ =>
    apply wp_mono with (Q := fun _ s1 (_ : list Z) => s1 = st);
    [|cbv beta; intros ? ? ? ->]
  end.

Section Insertion.

Variable uc_is_word : Z -> bool.

Lemma insert_multiline_inv B s cs k c v l :
  edit_inv B s cs k -> B + 6 < 2 ^ 31 -> key_seq c = true ->
  wp (insert_multiline l)
     (set_nchars v (set_buffer (concat (ztake k cs ++ [c] ++ zdrop k cs)) s))
     (fun _ s' _ =>
        text_inv (B + 4) s' (ztake k cs ++ [c] ++ zdrop k cs)
        /\ offset s' = offset s /\ pos_x s' = pos_x s /\ pos_y s' = pos_y s
        /\ term_cols s' = term_cols s /\ prompt_len s' = prompt_len s).
Proof.
  intros He HB Hkc. inv_facts He.
  pose proof (utf8_seq_length c (key_seq_utf8 c Hkc)) as Hlc.
  set (cs' := ztake k cs ++ [c] ++ zdrop k cs).
  assert (Forall (fun c => key_seq c = true) cs') as Hks'.
  { apply Forall_app. split; [apply Forall_ztake; assumption|].
    apply Forall_app. split; [repeat constructor; assumption|].
    apply Forall_zdrop; assumption. }
  pose proof (key_seqs_chunks _ Hks') as Hcs'.
  pose proof (zlength_insert cs k c Hk) as Hlen'. fold cs' in Hlen'.
  pose proof (zlength_concat_insert cs k c) as Hcl'. fold cs' in Hcl'.
  assert (forall m, m <= k -> ztake m cs = ztake m cs') as Hpre.
  { intros m Hmk. symmetry. apply ztake_prefix; lia. }
  assert (cp_offset cs k = cp_offset cs' k) as Hok.
  { apply (cp_offset_prefix cs cs' k); [apply Hpre; lia|lia]. }
  pose proof (cp_offset_le_len cs' k) as Hle.
  pose proof (cp_offset_nonneg cs' k) as Hge.
  pose proof (row_count_mono (term_cols s - prompt_len s) (term_cols s)
                (zlength cs) (zlength cs') Ha Hco ltac:(lia) ltac:(lia)) as Hmono.
  pose proof (row_count_succ (term_cols s - prompt_len s) (term_cols s)
                (zlength cs) Ha Hco ltac:(lia)) as Hsucc.
  rewrite <- Hlen' in Hsucc.
  unfold insert_multiline. wp_steps. rewrite to_int_small by lia.
  eapply (wp_recompute_line_offset _ cs cs' _ (pos_y s)); fields;
    [exact Hp|lia|reflexivity|exact Hcs'|lia|exact Hrows|lia|apply Hpre; lia|lia|].
  wp_steps. rewrite !zlength_rows_list.
  set (R' := row_count (term_cols s - prompt_len s) (term_cols s) (zlength cs')) in *.
  set (R := row_count (term_cols s - prompt_len s) (term_cols s) (zlength cs)) in *.
  wp_frame.
  { destruct ((pos_x s =? 0) && (0 <? pos_y s)
              && (u32 (offset s + l) =? zlength (concat cs'))) eqn:Hcond.
    - boolZ. destruct Hcond as [[Hx0 Hy0] _].
      assert (1 <= k) as Hk1.
      { pose proof (row_start_ge (term_cols s - prompt_len s) (term_cols s)
                      (pos_y s) Ha Hco Hy). lia. }
      destruct (u8_prev_chunks cs' k Hcs' ltac:(lia)) as [c0 [_ Hprev]].
      wp_steps. apply wp_move_to. intros _. wp_steps.
      apply wp_assert; [rewrite Ho, Hok; boolZ; lia|].
      wp_steps. eapply wp_defined; [rewrite Ho, Hok; exact Hprev|].
      cbv beta iota. wp_steps. reflexivity.
    - wp_steps. reflexivity. }
  destruct (Z.ltb_spec (max_lines s) (Z.of_nat R')) as [Hgrow|Hfit].
  - wp_steps. apply wp_assert; [boolZ; lia|].
    wp_steps.
    destruct (term_rows s <? initial_row s + Z.of_nat R' - 1 + cur_frame_lines s).
    + wp_steps. apply wp_assert; [rewrite Hz; boolZ; lia|].
      wp_steps.
      split; [constructor; fields; auto; lia|fields; repeat split; reflexivity].
    + destruct (0 <? cur_frame_lines s); wp_steps;
        (split; [constructor; fields; auto; lia|fields; repeat split; reflexivity]).
  - wp_steps.
    split; [constructor; fields; auto; lia|fields; repeat split; reflexivity].
Qed.

(** A key that inserts puts the units [c] of its codepoint before the
    cursor and the cursor after them. *)
Lemma on_key_insert_exact B s cs k key c :
  edit_inv B s cs k -> B + 6 < 2 ^ 31 ->
  type key = TERMKEY_TYPE_UNICODE ->
  Z.land (modifiers key) (Z.lor TERMKEY_KEYMOD_ALT TERMKEY_KEYMOD_CTRL) = 0 ->
  u8_uctomb (u32 (code key)) = Some c -> key_seq c = true ->
  wp (on_key uc_is_word key) s
     (fun done s' _ =>
        done = false
        /\ edit_inv (B + 4) s' (ztake k cs ++ [c] ++ zdrop k cs) (k + 1)).
Proof.
  intros He HB Hty Hmod Hbuf Hkc.
  pose proof (utf8_seq_length c (key_seq_utf8 c Hkc)) as Hlc.
  pose proof He as He0. inv_facts He0.
  pose proof (cp_offset_le_len cs k) as Hle.
  pose proof (cp_offset_nonneg cs k) as Hge.
  set (cs' := ztake k cs ++ [c] ++ zdrop k cs).
  pose proof (zlength_insert cs k c Hk) as Hlen'. fold cs' in Hlen'.
  pose proof (zlength_concat_insert cs k c) as Hcl'. fold cs' in Hcl'.
  assert (cp_offset cs' (k + 1) = cp_offset cs k + zlength c) as Hnew.
  { rewrite (cp_offset_succ cs' k c) by (apply zget_insert; lia).
    f_equal. symmetry. apply (cp_offset_prefix cs cs' k); [|lia].
    symmetry. apply ztake_prefix; lia. }
  pose proof (row_start_succ (term_cols s - prompt_len s) (term_cols s) (pos_y s) Hy)
    as Hrs.
  unfold on_key. rewrite Hty, Hmod. cbn [Z.eqb].
  wp_steps. apply wp_assert; [rewrite Ho, Hb; boolZ; lia|].
  wp_steps. eapply wp_defined; [exact Hbuf|].
  wp_steps.
  wp_frame.
  { destruct ((zlength (buffer s) =? 0) && negb (zlength (empty_message s) =? 0));
      wp_steps; reflexivity. }
  wp_steps. rewrite Hi, Hm. cbn [orb].
  wp_steps. rewrite Ho, Hb, vinsert_chunks. fold cs'.
  eapply wp_mono;
    [apply (insert_multiline_inv B s cs k c _ _ He HB Hkc)|].
  cbv beta. fold cs'. intros to_print s2 _ [Ht2 [Ho2 [Hx2 [Hy2' [Hc2 Hp2]]]]].
  wp_steps. rewrite Ho2, Hx2, Hy2', Hc2, Ho, <- Hnew.
  pose proof (cp_offset_le_len cs' (k + 1)).
  pose proof (cp_offset_nonneg cs' (k + 1)).
  rewrite !(u32_small (cp_offset cs' (k + 1))) by lia.
  rewrite !(u32_small (pos_x s + 1)) by zl.
  destruct (Z.eqb_spec (pos_x s + 1) (term_cols s)) as [E|E].
  - wp_steps. rewrite !(u32_small (pos_y s + 1)) by lia.
    wp_frame.
    { destruct (1 <? 2); wp_steps; [apply wp_move_to; intros _|]; reflexivity. }
    wp_steps. split; [reflexivity|].
    split; [text_frame Ht2|].
    constructor; fields; rewrite ?Hc2, ?Hp2; try zl.
  - wp_steps.
    wp_frame.
    { destruct (1 <? to_print); wp_steps; [apply wp_move_to; intros _|]; reflexivity. }
    wp_steps. split; [reflexivity|].
    split; [text_frame Ht2|].
    constructor; fields; rewrite ?Hc2, ?Hp2, ?Hy2'; try zl.
Qed.

Lemma on_key_insert_inv B s cs k key :
  edit_inv B s cs k -> B + 6 < 2 ^ 31 ->
  type key = TERMKEY_TYPE_UNICODE ->
  Z.land (modifiers key) (Z.lor TERMKEY_KEYMOD_ALT TERMKEY_KEYMOD_CTRL) = 0 ->
  typed_codepoint (u32 (code key)) = true ->
  wp (on_key uc_is_word key) s (fun _ s' _ => editing (B + 4) s').
Proof.
  intros He HB Hty Hmod Htc.
  destruct (u8_uctomb_typed _ Htc) as [c [Hbuf Hkc]].
  eapply wp_mono; [apply (on_key_insert_exact B s cs k key c); assumption|].
  cbv beta. intros _ s' _ [_ He']. eexists _, _. exact He'.
Qed.

End Insertion.

(** ** Every edit action keeps the invariant *)

Lemma editing_weaken B B' s : editing B s -> B <= B' -> editing B' s.
Proof.
  intros [cs [k [Ht Hc]]] HB. exists cs, k. split; [|exact Hc].
  destruct Ht. constructor; auto. lia.
Qed.

Lemma key_map_find_In m k cb :
  key_map_find m k = Some cb -> exists k', In (k', cb) m /\ key_eqb k' k = true.
Proof.
  induction m as [|[k' cb'] m IH]; intros H; [discriminate|].
  cbn [key_map_find] in H. destruct (key_eqb k' k) eqn:E.
  - inversion H; subst. exists k'. split; [left; reflexivity|exact E].
  - destruct (IH H) as [k'' [Hin E']]. exists k''. split; [right; exact Hin|exact E'].
Qed.

Section Dispatch.

Variable uc_is_word : Z -> bool.

Lemma cb_beginning_of_line_editing B s :
  editing B s -> wp cb_beginning_of_line s (fun _ s' _ => editing B s').
Proof.
  intros [cs [k He]].
  eapply wp_mono; [apply (cb_beginning_of_line_inv B s cs k He)|].
  cbv beta. intros _ s' _ He'. exists cs, 0. exact He'.
Qed.

Lemma cb_enter_editing B s :
  editing B s -> wp cb_enter s (fun _ s' _ => editing B s').
Proof. intros He. unfold cb_enter. wp_steps. exact He. Qed.

Lemma cb_backward_char_editing B s :
  editing B s -> B < 2 ^ 31 -> wp cb_backward_char s (fun _ s' _ => editing B s').
Proof.
  intros [cs [k He]] HB. pose proof He as [_ [Hk Ho _ _ _ _]].
  destruct (Z.eq_dec k 0) as [->|Hk0].
  - unfold cb_backward_char. wp_steps.
    rewrite Ho, (cp_offset_0 cs 0) by lia. cbn [Z.ltb Z.compare].
    wp_steps. exists cs, 0. exact He.
  - eapply wp_mono; [apply (cb_backward_char_inv B s cs k He HB); lia|].
    cbv beta. intros _ s' _ He'. exists cs, (k - 1). exact He'.
Qed.

Lemma cb_forward_char_editing B s :
  editing B s -> B < 2 ^ 31 -> wp cb_forward_char s (fun _ s' _ => editing B s').
Proof.
  intros [cs [k He]] HB. pose proof He as [[_ _ _ _ Hb _ _ _] [Hk Ho _ _ _ _]].
  destruct (Z.eq_dec k (zlength cs)) as [->|Hk0].
  - unfold cb_forward_char. wp_steps.
    rewrite Ho, Hb, (cp_offset_all cs (zlength cs)), Z.ltb_irrefl by lia.
    wp_steps. exists cs, (zlength cs). exact He.
  - eapply wp_mono; [apply (cb_forward_char_inv B s cs k He HB); lia|].
    cbv beta. intros _ s' _ He'. exists cs, (k + 1). exact He'.
Qed.

Lemma cb_previous_screen_line_editing B s :
  editing B s -> B < 2 ^ 31 ->
  wp cb_previous_screen_line s (fun _ s' _ => editing B s').
Proof.
  intros [cs [k He]] HB.
  eapply wp_mono; [apply (cb_previous_screen_line_inv B s cs k He HB)|].
  cbv beta. intros _ s' _ [k' He']. exists cs, k'. exact He'.
Qed.

Lemma cb_next_screen_line_editing B s :
  editing B s -> B < 2 ^ 31 ->
  wp cb_next_screen_line s (fun _ s' _ => editing B s').
Proof.
  intros [cs [k He]] HB.
  eapply wp_mono; [apply (cb_next_screen_line_inv B s cs k He HB)|].
  cbv beta. intros _ s' _ [k' He']. exists cs, k'. exact He'.
Qed.

Lemma cb_backspace_editing B s :
  editing B s -> B < 2 ^ 31 - 2 -> wp cb_backspace s (fun _ s' _ => editing B s').
Proof.
  intros [cs [k He]] HB. pose proof He as [_ [Hk Ho _ _ _ _]].
  destruct (Z.eq_dec k 0) as [->|Hk0].
  - unfold cb_backspace. wp_steps.
    rewrite Ho, (cp_offset_0 cs 0) by lia. cbn [Z.ltb Z.compare].
    wp_steps. exists cs, 0. exact He.
  - eapply wp_mono; [apply (cb_backspace_inv B s cs k He HB); lia|].
    cbv beta. intros _ s' _ He'. eexists _, _. exact He'.
Qed.

Lemma cb_delete_editing B s :
  editing B s -> B < 2 ^ 31 - 2 -> wp cb_delete s (fun _ s' _ => editing B s').
Proof.
  intros [cs [k He]] HB. pose proof He as [[_ _ _ _ Hb _ _ _] [Hk Ho _ _ _ _]].
  destruct (Z.eq_dec k (zlength cs)) as [->|Hk0].
  - unfold cb_delete. wp_steps.
    rewrite Ho, Hb, (cp_offset_all cs (zlength cs)), Z.ltb_irrefl by lia.
    wp_steps. exists cs, (zlength cs). exact He.
  - eapply wp_mono; [apply (cb_delete_inv B s cs k He HB); lia|].
    cbv beta. intros _ s' _ He'. eexists _, _. exact He'.
Qed.

Lemma cb_backward_word_editing B s :
  editing B s -> B < 2 ^ 31 ->
  wp (cb_backward_word uc_is_word) s (fun _ s' _ => editing B s').
Proof.
  intros [cs [k He]] HB.
  eapply wp_mono; [apply (cb_backward_word_inv uc_is_word B s cs k He HB)|].
  cbv beta. intros _ s' _ [k' He']. exists cs, k'. exact He'.
Qed.

Lemma cb_forward_word_editing B s :
  editing B s -> B < 2 ^ 31 ->
  wp (cb_forward_word uc_is_word) s (fun _ s' _ => editing B s').
Proof.
  intros [cs [k He]] HB.
  eapply wp_mono; [apply (cb_forward_word_inv uc_is_word B s cs k He HB)|].
  cbv beta. intros _ s' _ [k' He']. exists cs, k'. exact He'.
Qed.

Lemma cb_kill_line_editing B s :
  editing B s -> B < 2 ^ 31 - 2 -> wp cb_kill_line s (fun _ s' _ => editing B s').
Proof.
  intros [cs [k He]] HB.
  eapply wp_mono; [apply (cb_kill_line_inv B s cs k He HB)|].
  cbv beta. intros _ s' _ He'. eexists _, _. exact He'.
Qed.

(** The actions of the key map, but for those of the keys that
    [allowed_key] leaves out. *)
Lemma key_map_editing B s kk cb :
  editing B s -> B < 2 ^ 31 - 2 ->
  key_map_find (key_map uc_is_word) kk = Some cb ->
  negb ((mod_ kk =? TERMKEY_KEYMOD_CTRL) && negb (sym kk)
        && ((kcode kk =? 0x65) || (kcode kk =? 0x75))) = true ->
  negb ((mod_ kk =? 0) && sym kk
        && ((kcode kk =? TERMKEY_SYM_END) || (kcode kk =? TERMKEY_SYM_INSERT))) = true ->
  wp cb s (fun _ s' _ => editing B s').
Proof.
  intros He HB Hfind Hu Hs.
  destruct (key_map_find_In _ _ _ Hfind) as [k' [Hin Heq]].
  unfold key_eqb in Heq. destruct kk as [sy md co]. cbn [mod_ sym kcode] in *.
  unfold key_map in Hin. cbn [In] in Hin.
  repeat (destruct Hin as [Hin|Hin];
          [inversion Hin; subst k' cb; clear Hin; cbn [mod_ sym kcode] in Heq|]);
    try contradiction;
    try (apply cb_beginning_of_line_editing; assumption);
    try (apply cb_enter_editing; assumption);
    try (apply cb_backward_char_editing; [assumption|lia]);
    try (apply cb_forward_char_editing; [assumption|lia]);
    try (apply cb_previous_screen_line_editing; [assumption|lia]);
    try (apply cb_next_screen_line_editing; [assumption|lia]);
    try (apply cb_backspace_editing; [assumption|lia]);
    try (apply cb_delete_editing; [assumption|lia]);
    try (apply cb_backward_word_editing; [assumption|lia]);
    try (apply cb_forward_word_editing; [assumption|lia]);
    try (apply cb_kill_line_editing; [assumption|lia]);
    exfalso; destruct sy; cbn [Bool.eqb negb andb] in *;
    unfold TERMKEY_KEYMOD_CTRL, TERMKEY_SYM_END, TERMKEY_SYM_INSERT in *;
    boolZ; lia.
Qed.

End Dispatch.

(** ** C3: the invariant of [line_offset] *)

Section Keys.

Variable uc_is_word : Z -> bool.

Lemma wp_show_empty_message s Q :
  (forall o, Q tt s o) -> wp show_empty_message s Q.
Proof. intros H. unfold show_empty_message. wp_steps. apply H. Qed.

Lemma on_key_editing B s key :
  editing B s -> B + 6 < 2 ^ 31 -> allowed_key key = true ->
  wp (on_key uc_is_word key) s (fun _ s' _ => editing (B + 4) s').
Proof.
  intros He HB Hal. unfold allowed_key in Hal.
  destruct (type key) eqn:Hty;
    try (unfold on_key; rewrite Hty; wp_steps;
         apply (editing_weaken B); [exact He|lia]).
  - destruct (Z.eqb_spec (Z.land (modifiers key)
                            (Z.lor TERMKEY_KEYMOD_ALT TERMKEY_KEYMOD_CTRL)) 0)
      as [Hmod|Hmod].
    + destruct He as [cs [k He]].
      apply (on_key_insert_inv uc_is_word B s cs k key He HB Hty Hmod Hal).
    + unfold on_key. rewrite Hty.
      destruct (Z.eqb_spec (Z.land (modifiers key)
                              (Z.lor TERMKEY_KEYMOD_ALT TERMKEY_KEYMOD_CTRL)) 0);
        [contradiction|].
      match goal with |- context [key_map_find ?m ?kk] =>
        destruct (key_map_find m kk) as [cb|] eqn:Hfind end.
      * eapply wp_mono.
        { apply (key_map_editing uc_is_word B s _ cb He ltac:(lia) Hfind).
          - cbn [mod_ sym kcode negb andb]. rewrite andb_true_r. exact Hal.
          - cbn [mod_ sym kcode negb andb]. rewrite andb_false_r. reflexivity. }
        cbv beta. intros _ s' _ He'. apply (editing_weaken B); [exact He'|lia].
      * wp_steps. apply (editing_weaken B); [exact He|lia].
  - unfold on_key. rewrite Hty. wp_steps.
    match goal with |- context [key_map_find ?m ?kk] =>
      destruct (key_map_find m kk) as [cb|] eqn:Hfind end.
    + wp_steps.
      eapply wp_mono.
      { apply (key_map_editing uc_is_word B s _ cb He ltac:(lia) Hfind).
        - cbn [mod_ sym kcode negb andb]. rewrite andb_false_r. reflexivity.
        - cbn [mod_ sym kcode negb andb]. rewrite andb_true_r. exact Hal. }
      cbv beta. intros res s' _ He'. wp_steps.
      wp_frame.
      { destruct (negb (zlength (buffer s) =? 0) && (zlength (buffer s') =? 0)
                  && negb (zlength (empty_message s') =? 0));
          [apply wp_show_empty_message; intros _|wp_steps]; reflexivity. }
      wp_steps. apply (editing_weaken B); [exact He'|lia].
    + wp_steps. apply (editing_weaken B); [exact He|lia].
Qed.

Lemma type_keys_editing ks : forall B s,
  editing B s -> B + 4 * zlength ks + 2 < 2 ^ 31 ->
  Forall (fun k => allowed_key k = true) ks ->
  exists s', type_keys uc_is_word ks s = Some s'
             /\ editing (B + 4 * zlength ks) s'.
Proof.
  induction ks as [|key ks IH]; intros B s He HB Hal.
  - exists s. split; [reflexivity|].
    apply (editing_weaken B); [exact He|]. unfold zlength. simpl. lia.
  - inversion Hal as [|? ? Hk Hks]; subst.
    rewrite zlength_cons in *.
    pose proof (zlength_nonneg ks).
    destruct (on_key_editing B s key He ltac:(lia) Hk) as [res [s1 [o [E He1]]]].
    destruct (IH (B + 4) s1 He1 ltac:(lia) Hks) as [s' [E' He']].
    exists s'. cbn [type_keys]. rewrite E. split; [exact E'|].
    apply (editing_weaken (B + 4 + 4 * zlength ks)); [exact He'|lia].
Qed.

(** The key loop of [handle_one]: it hands the keys to [on_key] until one
    ends the edit. *)
Lemma getkey_loop_editing ks : forall B s,
  editing B s -> B + 4 * zlength ks + 2 < 2 ^ 31 ->
  Forall (fun k => allowed_key k = true) ks ->
  wp (getkey_loop uc_is_word ks) s (fun _ s' _ => editing (B + 4 * zlength ks) s').
Proof.
  induction ks as [|key ks IH]; intros B s He HB Hal.
  - cbn [getkey_loop]. wp_steps.
    apply (editing_weaken B); [exact He|]. unfold zlength. simpl. lia.
  - inversion Hal as [|? ? Hk Hks]; subst.
    rewrite zlength_cons in *.
    pose proof (zlength_nonneg ks).
    cbn [getkey_loop]. wp_steps.
    destruct (is_cancel s key).
    + wp_steps. apply (editing_weaken B); [exact He|lia].
    + wp_steps.
      eapply wp_mono; [apply (on_key_editing B s key He ltac:(lia) Hk)|].
      cbv beta. intros done s1 _ He1.
      destruct done.
      * wp_steps. apply (editing_weaken (B + 4)); [exact He1|lia].
      * eapply wp_mono; [apply (IH (B + 4) s1 He1 ltac:(lia) Hks)|].
        cbv beta. intros _ s' _ He'.
        apply (editing_weaken (B + 4 + 4 * zlength ks)); [exact He'|lia].
Qed.

End Keys.

(** ** What holds after a program, if it ends *)

Lemma after_ret {A} (a : A) s Q : Q a s -> after (ret a) s Q.
Proof. intros H a' s' o E. inversion E; subst. exact H. Qed.

Lemma after_get s Q : Q s s -> after get s Q.
Proof. intros H a' s' o E. inversion E; subst. exact H. Qed.

Lemma after_modify f s Q : Q tt (f s) -> after (modify f) s Q.
Proof. intros H a' s' o E. inversion E; subst. exact H. Qed.

Lemma after_write bs s Q : Q tt s -> after (write bs) s Q.
Proof. intros H a' s' o E. inversion E; subst. exact H. Qed.

Lemma after_assert c s Q : (c = true -> Q tt s) -> after (assert c) s Q.
Proof.
  intros H a' s' o E. destruct c; [|discriminate].
  inversion E; subst. apply H. reflexivity.
Qed.

Lemma after_bind {A B} (m : M A) (k : A -> M B) s Q :
  after m s (fun a s1 => after (k a) s1 Q) -> after (bind m k) s Q.
Proof.
  intros H b s2 o E. unfold bind in E.
  destruct (m s) as [[[a s1] o1]|] eqn:E1; [|discriminate].
  destruct (k a s1) as [[[b' s2'] o2]|] eqn:E2; [|discriminate].
  inversion E; subst. exact (H a s1 o1 E1 b s2 o2 E2).
Qed.

Ltac after_step :=
  lazymatch goal with
  | |- after (bind _ _) _ _ => apply after_bind
  | |- after (ret _) _ _ => apply after_ret
  | |- after get _ _ => apply after_get
  | |- after (modify _) _ _ => apply after_modify
  | |- after (write _) _ _ => apply after_write
  | |- after (assert _) _ _ => apply after_assert; intros ?
  | |- after (if ?c then _ else _) _ _ => destruct c eqn:?
  | |- after (let _ := _ in _) _ _ => cbv zeta
  | |- after (match ?x with (_, _) => _ end) _ _ => destruct x eqn:?
  | |- after (setup_epoll _) _ _ => unfold setup_epoll
  | |- after draw_frame _ _ => unfold draw_frame
  | |- after show_empty_message _ _ => unfold show_empty_message
  end.

Section Prepared.

Variable uc_is_word : Z -> bool.

(** The editing state that [prepare] sets up. *)
Lemma prepare_resets su s0 :
  term_state s0 = closed ->
  after (prepare su) s0
    (fun _ s => buffer s = [] /\ line_offset s = [0] /\ offset s = 0
                /\ pos_y s = 0 /\ pos_x s = prompt_len s).
Proof.
  intros Hcl. unfold prepare.
  repeat (after_step; fields);
    try (rewrite Hcl in *; discriminate);
    repeat split; reflexivity.
Qed.

Lemma freshly_prepared_editing s :
  freshly_prepared s ->
  multiline s = true -> insert s = true ->
  0 <= prompt_len s < term_cols s -> 1 <= max_lines s ->
  0 <= requested_pos_x s < 2 ^ 32 ->
  editing (term_cols s) s.
Proof.
  intros [su [s0 [out [Hcl Hprep]]]] Hm Hi Hp Hmax Hq.
  destruct (prepare_resets su s0 Hcl _ _ _ Hprep) as [Hb [Hlo [Ho [Hy Hx]]]].
  exists [], 0. split.
  - constructor; auto.
    + rewrite Hb. unfold zlength. simpl. lia.
    + rewrite Hlo. unfold row_count.
      change (zlength (@nil (list Z))) with 0.
      destruct (Z.ltb_spec 0 (term_cols s - prompt_len s)); [|lia].
      reflexivity.
    + unfold row_count. change (zlength (@nil (list Z))) with 0.
      destruct (Z.ltb_spec 0 (term_cols s - prompt_len s)); [|lia].
      change (Z.of_nat (Z.to_nat 1)) with 1. lia.
  - constructor; auto.
    + unfold zlength. simpl. lia.
    + lia.
    + rewrite Hy, row_start_0. lia.
    + rewrite Hy, row_start_0, Hx. simpl. lia.
Qed.

Lemma strictly_increasing_map (f : nat -> Z) : forall n j,
  (forall i, (j <= i)%nat -> (S i < j + n)%nat -> f i < f (S i)) ->
  strictly_increasing (map f (seq j n)) = true.
Proof.
  induction n as [|n IH]; intros j H; [reflexivity|].
  cbn [seq map strictly_increasing].
  destruct n as [|n]; [reflexivity|].
  cbn [seq map]. apply andb_true_iff. split.
  - apply Z.ltb_lt. apply H; lia.
  - apply (IH (S j)). intros i Hi1 Hi2. apply H; lia.
Qed.

Lemma editing_line_offset_ok B s : editing B s -> line_offset_ok s = true.
Proof.
  intros [cs [k [Ht Hc]]].
  destruct (text_inv_facts _ _ _ Ht) as [Hcs [Hn [Ha [Hco Hz]]]].
  pose proof Ht as [_ _ _ _ Hb _ Hrows _].
  destruct (row_count_bounds (term_cols s - prompt_len s) (term_cols s) (zlength cs)
              Ha Hco ltac:(lia)) as [HR0 [HR1 _]].
  unfold line_offset_ok. rewrite Hz, Hrows.
  set (R := row_count (term_cols s - prompt_len s) (term_cols s) (zlength cs)) in *.
  repeat (apply andb_true_iff; split).
  - apply Z.leb_le. lia.
  - destruct R as [|R]; [lia|]. reflexivity.
  - unfold rows_list. apply strictly_increasing_map.
    intros i _ Hi.
    pose proof (row_start_mono (term_cols s - prompt_len s) (term_cols s)
                  (Z.of_nat (S i)) (Z.of_nat R - 1) Ha Hco ltac:(lia)).
    pose proof (row_start_ge (term_cols s - prompt_len s) (term_cols s)
                  (Z.of_nat i) Ha Hco ltac:(lia)).
    apply cp_offset_strict; auto; try lia.
    apply row_start_strict; lia.
  - apply forallb_forall. intros x Hx.
    unfold rows_list in Hx. apply in_map_iff in Hx. destruct Hx as [j [<- _]].
    rewrite Hb. apply cp_offset_boundary. exact Hcs.
Qed.

(** C3, amended.  In a multi-line session in insert mode whose prompt is
    narrower than the window, from the state that [prepare] sets up, every
    sequence of key events other than End and Ctrl-E, Ctrl-U and Insert,
    whose inserting keys carry a scalar value other than NUL and U+FFFD, is
    handled without a failed assertion or an undefined step, by [on_key]
    key after key and by the key loop of [handle_one], and afterwards
    [line_offset] has at least one entry, its first entry is 0, its entries
    are strictly increasing and every entry is a codepoint boundary of the
    buffer.  The window width and the number of keys are taken to fit
    [int]. *)
Theorem line_offset_invariant (s : handle) (ks : list TermKeyKey) :
  freshly_prepared s ->
  multiline s = true -> insert s = true ->
  0 <= prompt_len s < term_cols s -> 1 <= max_lines s ->
  0 <= requested_pos_x s < 2 ^ 32 ->
  term_cols s + 4 * zlength ks + 2 < 2 ^ 31 ->
  Forall (fun k => allowed_key k = true) ks ->
  (exists s', type_keys uc_is_word ks s = Some s' /\ line_offset_ok s' = true)
  /\ (exists done s' out,
        getkey_loop uc_is_word ks s = Some (done, s', out)
        /\ line_offset_ok s' = true).
Proof.
  intros Hprep Hm Hi Hp Hmax Hq HB Hal.
  pose proof (freshly_prepared_editing s Hprep Hm Hi Hp Hmax Hq) as He.
  split.
  - destruct (type_keys_editing uc_is_word ks (term_cols s) s He HB Hal)
      as [s' [E He']].
    exists s'. split; [exact E|].
    apply (editing_line_offset_ok _ _ He').
  - destruct (getkey_loop_editing uc_is_word ks (term_cols s) s He HB Hal)
      as [done [s' [out [E He']]]].
    exists done, s', out. split; [exact E|].
    apply (editing_line_offset_ok _ _ He').
Qed.

End Prepared.

Lemma demo_session_prepared cols multi ins :
  prepare (demo_setup cols) (demo_closed multi ins) <> None ->
  freshly_prepared (demo_session cols multi ins).
Proof.
  intros H. unfold freshly_prepared, demo_session.
  destruct (prepare (demo_setup cols) (demo_closed multi ins))
    as [[[[] s] out]|] eqn:E; [|contradiction].
  exists (demo_setup cols), (demo_closed multi ins), out. split; [reflexivity|].
  exact E.
Qed.

(** The theorem on a text that wraps, with a key of every kind. *)
Lemma line_offset_invariant_witness :
  (exists s', type_keys ascii_word wrapping_keys (demo_session 20 true true) = Some s'
              /\ line_offset_ok s' = true)
  /\ (exists done s' out,
        getkey_loop ascii_word wrapping_keys (demo_session 20 true true)
        = Some (done, s', out)
        /\ line_offset_ok s' = true).
Proof.
  apply (line_offset_invariant ascii_word (demo_session 20 true true) wrapping_keys).
  - apply demo_session_prepared. vm_compute. discriminate.
  - reflexivity.
  - reflexivity.
  - vm_compute. split; congruence.
  - vm_compute. congruence.
  - vm_compute. split; congruence.
  - vm_compute. reflexivity.
  - unfold wrapping_keys. repeat constructor.
Defined.

(** C3 as stated fails.  In a single-line session the view scrolls:
    after seventeen keys in a window of twenty columns [line_offset] is
    [2].  In a multi-line session End counts code units for the column:
    after eight "é", Home and End, three more keys leave [0; 0]. *)
Lemma line_offset_invariant_counterexample :
  freshly_prepared (demo_session 20 false true)
  /\ (exists s',
        type_keys ascii_word scrolled_keys (demo_session 20 false true) = Some s'
        /\ line_offset s' = [2] /\ line_offset_ok s' = false)
  /\ freshly_prepared (demo_session 20 true true)
  /\ (exists s',
        type_keys ascii_word end_keys (demo_session 20 true true) = Some s'
        /\ line_offset s' = [0; 0] /\ line_offset_ok s' = false).
Proof.
  split; [apply demo_session_prepared; vm_compute; discriminate|].
  split.
  { eexists. split; [vm_compute; reflexivity|].
    split; vm_compute; reflexivity. }
  split; [apply demo_session_prepared; vm_compute; discriminate|].
  eexists. split; [vm_compute; reflexivity|].
  split; vm_compute; reflexivity.
Qed.

(** * More of the program

    ** Colours: [hsv_to_rgb], [rgb_to_hsv], [adjust_rgb] *)

Lemma u8_small x : 0 <= x < 256 -> u8 x = x.
Proof. intros H. unfold u8. apply Z.mod_small. exact H. Qed.

Lemma u8_range x : 0 <= u8 x < 256.
Proof. unfold u8. apply Z.mod_pos_bound. lia. Qed.

Lemma is_byte_range b : is_byte b = true <-> 0 <= b < 256.
Proof. unfold is_byte. boolZ. reflexivity. Qed.

(** [(v * m) >> 8] for a channel [v] and a factor [m] of at most 255. *)
Lemma scale_channel vv m :
  0 <= vv < 256 -> 0 <= m <= 255 ->
  0 <= u8 (Z.shiftr (vv * m) 8) <= vv.
Proof.
  intros Hv Hm. rewrite Z.shiftr_div_pow2 by lia.
  change (2 ^ 8) with 256.
  assert (0 <= vv * m / 256 <= vv) as H.
  { split; [apply Z.div_pos; nia|].
    apply Z.div_le_upper_bound; nia. }
  rewrite u8_small by lia. exact H.
Qed.

Lemma shift_product x y :
  0 <= x <= 255 -> 0 <= y <= 255 -> 0 <= Z.shiftr (x * y) 8 <= 254.
Proof.
  intros Hx Hy. rewrite Z.shiftr_div_pow2 by lia. change (2 ^ 8) with 256.
  split; [apply Z.div_pos; nia|].
  apply Z.lt_succ_r. apply Z.div_lt_upper_bound; nia.
Qed.

Lemma rgb_to_hsv_value c :
  v (rgb_to_hsv c) = Z.max (Color.r c) (Z.max (Color.g c) (Color.b c)).
Proof.
  unfold rgb_to_hsv. cbv zeta.
  repeat match goal with |- context [if ?b then _ else _] => destruct b end;
    reflexivity.
Qed.

Lemma rgb_to_hsv_bytes c : byte_color c = true -> byte_hsv (rgb_to_hsv c) = true.
Proof.
  unfold byte_color, byte_hsv. intros H.
  apply andb_true_iff in H. destruct H as [H Hb].
  apply andb_true_iff in H. destruct H as [Hr Hg].
  apply is_byte_range in Hr, Hg, Hb.
  assert (forall x, is_byte (u8 x) = true) as Hu
    by (intros x; apply is_byte_range, u8_range).
  assert (is_byte (Z.max (Color.r c) (Z.max (Color.g c) (Color.b c))) = true) as Hm
    by (apply is_byte_range; lia).
  unfold rgb_to_hsv. cbv zeta.
  repeat match goal with |- context [if ?b then _ else _] => destruct b end;
    cbn [h sat v]; rewrite ?Hu, ?Hm; reflexivity.
Qed.

Lemma hsv_to_rgb_channels x :
  byte_hsv x = true ->
  byte_color (hsv_to_rgb x) = true
  /\ Z.max (Color.r (hsv_to_rgb x))
           (Z.max (Color.g (hsv_to_rgb x)) (Color.b (hsv_to_rgb x))) = v x.
Proof.
  unfold byte_hsv, byte_color. intros H.
  apply andb_true_iff in H. destruct H as [H Hv].
  apply andb_true_iff in H. destruct H as [Hh Hs].
  apply is_byte_range in Hh, Hs, Hv.
  unfold hsv_to_rgb. cbv zeta.
  set (region := u8 (h x / 43)).
  set (remainder := u8 ((h x - region * 43) * 6)).
  pose proof (u8_range ((h x - region * 43) * 6)) as Hrem. fold remainder in Hrem.
  pose proof (scale_channel (v x) (255 - sat x) Hv ltac:(lia)) as Hp.
  pose proof (shift_product (sat x) remainder ltac:(lia) ltac:(lia)) as Hq0.
  pose proof (scale_channel (v x) (255 - Z.shiftr (sat x * remainder) 8) Hv ltac:(lia))
    as Hq.
  pose proof (shift_product (sat x) (255 - remainder) ltac:(lia) ltac:(lia)) as Ht0.
  pose proof (scale_channel (v x) (255 - Z.shiftr (sat x * (255 - remainder)) 8) Hv
                ltac:(lia)) as Ht.
  repeat match goal with |- context [if ?b then _ else _] => destruct b end;
    cbn [Color.r Color.g Color.b];
    (split; [rewrite !(proj2 (is_byte_range _)) by lia; reflexivity|lia]).
Qed.

(** X1. Converting a colour to RGB keeps its value: every channel is a byte and
    the brightest one is [v], so the way back through [rgb_to_hsv] gives [v]
    again. *)
Theorem hsv_to_rgb_keeps_value (x : hsv_color) :
  byte_hsv x = true ->
  byte_color (hsv_to_rgb x) = true /\ v (rgb_to_hsv (hsv_to_rgb x)) = v x.
Proof.
  intros H. destruct (hsv_to_rgb_channels x H) as [Hb Hm].
  split; [exact Hb|]. rewrite rgb_to_hsv_value. exact Hm.
Qed.

Lemma hsv_to_rgb_keeps_value_witness :
  byte_color (hsv_to_rgb (mk_hsv 200 120 90)) = true
  /\ v (rgb_to_hsv (hsv_to_rgb (mk_hsv 200 120 90))) = v (mk_hsv 200 120 90).
Proof. apply (hsv_to_rgb_keeps_value (mk_hsv 200 120 90)). reflexivity. Defined.

(** X2. [adjust_rgb] moves the value of the background by [adjust_val], away
    from the side it is on (darker when it is 128 or more, lighter
    otherwise), without wrapping around, and the value of the foreground
    the same way as far as 0 and 255 allow. *)
Theorem adjust_rgb_shifts_value (fg bg : color) (adjust_val : Z) :
  byte_color fg = true -> byte_color bg = true -> 0 <= adjust_val <= 128 ->
  v (rgb_to_hsv (snd (adjust_rgb fg bg adjust_val)))
  = (if 128 <=? v (rgb_to_hsv bg) then v (rgb_to_hsv bg) - adjust_val
     else v (rgb_to_hsv bg) + adjust_val)
  /\ v (rgb_to_hsv (fst (adjust_rgb fg bg adjust_val)))
     = (if 128 <=? v (rgb_to_hsv bg) then Z.max 0 (v (rgb_to_hsv fg) - adjust_val)
        else Z.min 255 (v (rgb_to_hsv fg) + adjust_val))
  /\ byte_color (fst (adjust_rgb fg bg adjust_val)) = true
  /\ byte_color (snd (adjust_rgb fg bg adjust_val)) = true.
Proof.
  intros Hfg Hbg Ha.
  pose proof (rgb_to_hsv_bytes fg Hfg) as Hf. pose proof (rgb_to_hsv_bytes bg Hbg) as Hb.
  unfold byte_hsv in Hf, Hb.
  apply andb_true_iff in Hf. destruct Hf as [Hf Hfv].
  apply andb_true_iff in Hf. destruct Hf as [Hfh Hfs].
  apply andb_true_iff in Hb. destruct Hb as [Hb Hbv].
  apply andb_true_iff in Hb. destruct Hb as [Hbh Hbs].
  pose proof Hfv as Hfv'. pose proof Hbv as Hbv'.
  apply is_byte_range in Hfv', Hbv'.
  unfold adjust_rgb. cbv zeta.
  destruct (Z.leb_spec 0 adjust_val) as [_|]; [|lia].
  assert (forall hh ss vv, is_byte hh = true -> is_byte ss = true -> 0 <= vv < 256 ->
            byte_color (hsv_to_rgb (mk_hsv hh ss vv)) = true
            /\ v (rgb_to_hsv (hsv_to_rgb (mk_hsv hh ss vv))) = vv) as Hkeep.
  { intros hh ss vv Hh Hs Hv.
    apply (hsv_to_rgb_keeps_value (mk_hsv hh ss vv)).
    unfold byte_hsv. cbn [h sat v]. rewrite Hh, Hs.
    apply is_byte_range in Hv. rewrite Hv. reflexivity. }
  destruct (Z.leb_spec 128 (v (rgb_to_hsv bg))) as [Hhi|Hlo]; cbn [fst snd].
  - destruct (Hkeep (h (rgb_to_hsv bg)) (sat (rgb_to_hsv bg))
                (u8 (v (rgb_to_hsv bg) - adjust_val)) Hbh Hbs (u8_range _)) as [B1 B2].
    destruct (Z.ltb_spec adjust_val (v (rgb_to_hsv fg))) as [Hgt|Hle].
    + destruct (Hkeep (h (rgb_to_hsv fg)) (sat (rgb_to_hsv fg))
                  (u8 (v (rgb_to_hsv fg) - adjust_val)) Hfh Hfs (u8_range _)) as [F1 F2].
      rewrite ?u8_small in * by lia. rewrite B2, F2.
      repeat split; try assumption; lia.
    + destruct (Hkeep (h (rgb_to_hsv fg)) (sat (rgb_to_hsv fg)) 0 Hfh Hfs ltac:(lia))
        as [F1 F2].
      rewrite ?u8_small in * by lia. rewrite B2, F2.
      repeat split; try assumption; lia.
  - destruct (Hkeep (h (rgb_to_hsv bg)) (sat (rgb_to_hsv bg))
                (u8 (v (rgb_to_hsv bg) + adjust_val)) Hbh Hbs (u8_range _)) as [B1 B2].
    destruct (Z.ltb_spec (v (rgb_to_hsv fg)) (255 - adjust_val)) as [Hlt|Hge].
    + destruct (Hkeep (h (rgb_to_hsv fg)) (sat (rgb_to_hsv fg))
                  (u8 (v (rgb_to_hsv fg) + adjust_val)) Hfh Hfs (u8_range _)) as [F1 F2].
      rewrite ?u8_small in * by lia. rewrite B2, F2.
      repeat split; try assumption; lia.
    + destruct (Hkeep (h (rgb_to_hsv fg)) (sat (rgb_to_hsv fg)) 255 Hfh Hfs ltac:(lia))
        as [F1 F2].
      rewrite ?u8_small in * by lia. rewrite B2, F2.
      repeat split; try assumption; lia.
Qed.

Lemma adjust_rgb_shifts_value_witness :
  v (rgb_to_hsv (snd (adjust_rgb (Color.mk 200 180 20) (Color.mk 10 40 30) 48)))
  = (if 128 <=? v (rgb_to_hsv (Color.mk 10 40 30))
     then v (rgb_to_hsv (Color.mk 10 40 30)) - 48
     else v (rgb_to_hsv (Color.mk 10 40 30)) + 48)
  /\ v (rgb_to_hsv (fst (adjust_rgb (Color.mk 200 180 20) (Color.mk 10 40 30) 48)))
     = (if 128 <=? v (rgb_to_hsv (Color.mk 10 40 30))
        then Z.max 0 (v (rgb_to_hsv (Color.mk 200 180 20)) - 48)
        else Z.min 255 (v (rgb_to_hsv (Color.mk 200 180 20)) + 48))
  /\ byte_color (fst (adjust_rgb (Color.mk 200 180 20) (Color.mk 10 40 30) 48)) = true
  /\ byte_color (snd (adjust_rgb (Color.mk 200 180 20) (Color.mk 10 40 30) 48)) = true.
Proof.
  apply (adjust_rgb_shifts_value (Color.mk 200 180 20) (Color.mk 10 40 30) 48).
  - reflexivity.
  - reflexivity.
  - lia.
Defined.

(** ** [nonescape_len] and escape sequences *)

Lemma nonescape_loop_acc sv : forall st r,
  nonescape_loop sv st r = r + nonescape_loop sv st 0.
Proof.
  induction sv as [|ch sv IH]; intros st r; cbn [nonescape_loop]; [lia|].
  destruct (negb st).
  - destruct (ch =? 27); [apply IH|].
    destruct (negb (Z.land ch 192 =? 128)); [|apply IH].
    rewrite (IH false (r + 1)), (IH false (0 + 1)). lia.
  - apply IH.
Qed.

Lemma nonescape_loop_plain pre rest : forall r,
  ~ In 0x1b pre ->
  nonescape_loop (pre ++ rest) false r
  = nonescape_loop rest false (nonescape_loop pre false r).
Proof.
  induction pre as [|ch pre IH]; intros r Hn; [reflexivity|].
  cbn [app nonescape_loop negb].
  destruct (Z.eqb_spec ch 27) as [->|_]; [exfalso; apply Hn; left; reflexivity|].
  assert (~ In 27 pre) as Hn' by (intros H; apply Hn; right; exact H).
  destruct (negb (Z.land ch 192 =? 128)); apply IH; exact Hn'.
Qed.

Lemma nonescape_loop_inner params rest : forall r,
  Forall (fun c => csi_inner c = true) params ->
  nonescape_loop (params ++ rest) true r = nonescape_loop rest true r.
Proof.
  induction params as [|c params IH]; intros r H; [reflexivity|].
  inversion H as [|? ? Hc Hp]; subst.
  cbn [app nonescape_loop negb andb]. unfold csi_inner in Hc. rewrite Hc.
  apply IH. exact Hp.
Qed.

(** X3. An escape sequence is not counted: ESC, the bytes that continue it (an
    opening bracket, and all below 0x40 or above 0x7e) and the byte that
    ends it add nothing to the width of the text around them. *)
Theorem nonescape_len_skips_escape (pre params : list Z) (fin : Z) (post : list Z) :
  ~ In 0x1b pre ->
  Forall (fun c => csi_inner c = true) params ->
  csi_final fin = true ->
  nonescape_len (pre ++ [0x1b] ++ params ++ [fin] ++ post)
  = nonescape_len pre + nonescape_len post.
Proof.
  intros Hpre Hpar Hfin. unfold nonescape_len.
  rewrite nonescape_loop_plain by exact Hpre.
  cbn [app nonescape_loop negb Z.eqb Pos.eqb].
  rewrite nonescape_loop_inner by exact Hpar.
  cbn [app nonescape_loop negb andb].
  unfold csi_final, csi_inner in Hfin. apply negb_true_iff in Hfin.
  rewrite Hfin. apply nonescape_loop_acc.
Qed.

Lemma nonescape_len_skips_escape_witness :
  nonescape_len ([0x3e; 0x20] ++ [0x1b] ++ [0x5b; 0x31; 0x3b; 0x33; 0x31] ++ [0x6d]
                 ++ [0xc3; 0xa9; 0x3e])
  = nonescape_len [0x3e; 0x20] + nonescape_len [0xc3; 0xa9; 0x3e].
Proof.
  apply (nonescape_len_skips_escape [0x3e; 0x20] [0x5b; 0x31; 0x3b; 0x33; 0x31] 0x6d
           [0xc3; 0xa9; 0x3e]).
  - intros [H|[H|[]]]; discriminate H.
  - repeat constructor.
  - reflexivity.
Defined.

(** ** Decimal numbers: [dec] *)

Lemma dec_loop_app fuel : forall n acc,
  dec_loop fuel n acc = dec_loop fuel n [] ++ acc.
Proof.
  induction fuel as [|fuel IH]; intros n acc; cbn [dec_loop]; [reflexivity|].
  destruct (n <? 10); [reflexivity|].
  rewrite (IH (n / 10) ((48 + n mod 10) :: acc)), (IH (n / 10) [48 + n mod 10]).
  rewrite <- app_assoc. reflexivity.
Qed.

(** With [k] digits of room a number below [10 ^ k] is written out: the
    digits of [n / 10], then the last one. *)
Lemma dec_loop_step fuel n :
  (n < 10 -> dec_loop (S fuel) n [] = [48 + n mod 10])
  /\ (10 <= n -> dec_loop (S fuel) n [] = dec_loop fuel (n / 10) [] ++ [48 + n mod 10]).
Proof.
  cbn [dec_loop]. split; intros H.
  - destruct (Z.ltb_spec n 10); [reflexivity|lia].
  - destruct (Z.ltb_spec n 10); [lia|]. apply dec_loop_app.
Qed.

Lemma dec_loop_digits (k : nat) : forall fuel n,
  (k < fuel)%nat -> 0 <= n < 10 ^ Z.of_nat (S k) ->
  Forall (fun c => isdigit c = true) (dec_loop fuel n [])
  /\ (1 <= length (dec_loop fuel n []) <= S k)%nat
  /\ fold_left (fun a d => a * 10 + (d - 48)) (dec_loop fuel n []) 0 = n.
Proof.
  induction k as [|k IH]; intros fuel n Hk Hn;
    (destruct fuel as [|fuel]; [lia|]);
    destruct (dec_loop_step fuel n) as [H1 H2];
    pose proof (Z.mod_pos_bound n 10 ltac:(lia)) as Hm;
    pose proof (Z.div_mod n 10 ltac:(lia)) as Hdm.
  - change (10 ^ Z.of_nat 1) with 10 in Hn. rewrite (H1 ltac:(lia)).
    rewrite Z.mod_small by lia.
    split; [|split].
    + repeat constructor. unfold isdigit. boolZ. lia.
    + simpl. lia.
    + cbn [fold_left]. lia.
  - destruct (Z.lt_ge_cases n 10) as [Hlt|Hge].
    + rewrite (H1 Hlt). rewrite Z.mod_small by lia. split; [|split].
      * repeat constructor. unfold isdigit. boolZ. lia.
      * simpl. lia.
      * cbn [fold_left]. lia.
    + rewrite (H2 Hge).
      assert (0 <= n / 10 < 10 ^ Z.of_nat (S k)) as Hq.
      { split; [apply Z.div_pos; lia|].
        apply Z.div_lt_upper_bound; [lia|].
        rewrite (Nat2Z.inj_succ (S k)), Z.pow_succ_r in Hn by lia. lia. }
      destruct (IH fuel (n / 10) ltac:(lia) Hq) as [D1 [D2 D3]].
      split; [|split].
      * apply Forall_app. split; [exact D1|].
        repeat constructor. unfold isdigit. boolZ. lia.
      * rewrite length_app. simpl. lia.
      * rewrite fold_left_app, D3. cbn [fold_left]. lia.
Qed.

Lemma dec_digits n :
  0 <= n < 2 ^ 32 ->
  Forall (fun c => isdigit c = true) (dec n)
  /\ 1 <= zlength (dec n) <= 10
  /\ fold_left (fun a d => a * 10 + (d - 48)) (dec n) 0 = n.
Proof.
  intros Hn. unfold dec, zlength.
  destruct (dec_loop_digits 9 20 n ltac:(lia)) as [D1 [D2 D3]].
  { change (10 ^ Z.of_nat 10) with 10000000000. lia. }
  split; [exact D1|]. split; [lia|exact D3].
Qed.

(** X4. [move_to_buf] never fills its buffer: the sequence has at most 24
    bytes, and the callers give room for 40 (39 in [leave]), so that
    [snprintf] writes all of it. *)
Theorem move_to_buf_fits (s : handle) (x y : Z) :
  6 <= zlength (move_to_buf s x y) <= 24.
Proof.
  unfold move_to_buf.
  assert (forall z, 0 <= u32 z < 2 ^ 32) as Hu
    by (intros z; unfold u32; apply Z.mod_pos_bound; lia).
  destruct (dec_digits _ (Hu (initial_row s + y))) as [_ [H1 _]].
  destruct (dec_digits _ (Hu (initial_col s + x))) as [_ [H2 _]].
  rewrite !zlength_app.
  change (zlength [ESC; 91]) with 2. change (zlength [59]) with 1.
  change (zlength [72]) with 1. lia.
Qed.

(** ** The key table: [key::operator<=>], [key_map], unbound keys *)

Lemma bool_compare_eq a b : bool_compare a b = Eq <-> a = b.
Proof. destruct a, b; simpl; split; intros H; congruence. Qed.

Ltac key_cases :=
  repeat match goal with
         | |- context [?a =? ?b] => destruct (Z.eqb_spec a b)
         | |- context [Bool.eqb ?a ?b] => destruct (Bool.eqb_spec a b)
         | |- context [?a ?= ?b] => destruct (Z.compare_spec a b)
         | H : context [?a =? ?b] |- _ => destruct (Z.eqb_spec a b)
         | H : context [Bool.eqb ?a ?b] |- _ => destruct (Bool.eqb_spec a b)
         | H : context [?a ?= ?b] |- _ => destruct (Z.compare_spec a b)
         end.

Lemma key_compare_eq a b :
  key_compare a b = Eq <-> mod_ a = mod_ b /\ sym a = sym b /\ kcode a = kcode b.
Proof.
  unfold key_compare. destruct a as [sa ma ca], b as [sb mb cb].
  cbn [mod_ sym kcode].
  split.
  - intros H. key_cases; subst; try discriminate; try lia; auto.
    apply bool_compare_eq in H. congruence.
  - intros [-> [-> ->]]. rewrite Z.eqb_refl, Bool.eqb_reflx. apply Z.compare_refl.
Qed.

Lemma key_compare_opp a b : key_compare b a = CompOpp (key_compare a b).
Proof.
  unfold key_compare. destruct a as [sa ma ca], b as [sb mb cb].
  cbn [mod_ sym kcode].
  destruct sa, sb; cbn [Bool.eqb bool_compare CompOpp];
    key_cases; subst; cbn [CompOpp]; try reflexivity; lia.
Qed.

Lemma key_less_trans a b c :
  key_less a b = true -> key_less b c = true -> key_less a c = true.
Proof.
  unfold key_less, key_compare.
  destruct a as [sa ma ca], b as [sb mb cb], c as [sc mc cc].
  cbn [mod_ sym kcode]. intros H1 H2.
  destruct sa, sb, sc; cbn [Bool.eqb bool_compare] in *;
    key_cases; subst; try discriminate; try reflexivity; try lia.
Qed.

Section KeyTable.

Variable uc_is_word : Z -> bool.

(** X5. The order of the key map is a total order: two keys are equivalent
    exactly when their three fields are equal (which is what [key_eqb]
    tests), the comparison is antisymmetric and [<] is transitive; and no
    two of the sixteen bindings have equivalent keys, so that the map holds
    them all. *)
Theorem key_order_total :
  (forall a b, key_compare a b = Eq
               <-> mod_ a = mod_ b /\ sym a = sym b /\ kcode a = kcode b)
  /\ (forall a b, key_eqb a b = true <-> key_compare a b = Eq)
  /\ (forall a b, key_compare b a = CompOpp (key_compare a b))
  /\ (forall a b c, key_less a b = true -> key_less b c = true -> key_less a c = true)
  /\ ForallOrdPairs (fun p q => key_compare (fst p) (fst q) <> Eq) (key_map uc_is_word)
  /\ length (key_map uc_is_word) = 16%nat.
Proof.
  split; [exact key_compare_eq|].
  split.
  { intros a b. rewrite key_compare_eq. unfold key_eqb.
    rewrite !andb_true_iff, !Z.eqb_eq, Bool.eqb_true_iff. tauto. }
  split; [exact key_compare_opp|].
  split; [exact key_less_trans|].
  split; [|reflexivity].
  unfold key_map.
  repeat (constructor; [repeat (constructor; [vm_compute; discriminate|]);
                         constructor|]).
  constructor.
Qed.

Lemma key_map_find_sym_mod (m c : Z) :
  m <> 0 -> key_map_find (key_map uc_is_word) (mk_tkey true m c) = None.
Proof.
  intros Hm. unfold key_map.
  cbn [key_map_find]. unfold key_eqb. cbn [mod_ sym kcode Bool.eqb].
  unfold TERMKEY_KEYMOD_CTRL, TERMKEY_KEYMOD_ALT.
  destruct (Z.eqb_spec 0 m); [lia|].
  rewrite !andb_false_r. cbn [andb]. reflexivity.
Qed.

Lemma key_map_find_sym_code (c : Z) :
  ~ In c [TERMKEY_SYM_HOME; TERMKEY_SYM_END; TERMKEY_SYM_INSERT; TERMKEY_SYM_ENTER;
          TERMKEY_SYM_LEFT; TERMKEY_SYM_RIGHT; TERMKEY_SYM_UP; TERMKEY_SYM_DOWN;
          TERMKEY_SYM_BACKSPACE; TERMKEY_SYM_DELETE] ->
  key_map_find (key_map uc_is_word) (mk_tkey true 0 c) = None.
Proof.
  intros Hc. unfold key_map.
  cbn [key_map_find]. unfold key_eqb. cbn [mod_ sym kcode Bool.eqb].
  rewrite !andb_false_r. cbn [andb Z.eqb].
  cbn [In] in Hc.
  repeat match goal with
         | |- context [?a =? c] =>
           destruct (Z.eqb_spec a c); [exfalso; apply Hc; tauto|]
         end.
  reflexivity.
Qed.

Lemma key_map_find_unicode_mod (m c : Z) :
  m <> TERMKEY_KEYMOD_ALT -> m <> TERMKEY_KEYMOD_CTRL ->
  key_map_find (key_map uc_is_word) (mk_tkey false m c) = None.
Proof.
  intros Ha Hc. unfold key_map.
  cbn [key_map_find]. unfold key_eqb. cbn [mod_ sym kcode Bool.eqb].
  destruct (Z.eqb_spec TERMKEY_KEYMOD_ALT m); [congruence|].
  destruct (Z.eqb_spec TERMKEY_KEYMOD_CTRL m); [congruence|].
  rewrite ?andb_false_r. cbn [andb].
  destruct (0 =? m); reflexivity.
Qed.

(** X6. Keys without a binding are ignored: [on_key] changes nothing, writes
    nothing and does not end the edit for an event that is neither a
    character nor a key symbol, for a key symbol with a modifier (Shift,
    Alt or Ctrl) or with a code that is not in the table, and for a
    character with Alt or Ctrl whose modifiers are neither Alt alone nor
    Ctrl alone. *)
Theorem unbound_keys_are_ignored (s : handle) (k : TermKeyKey) :
  (type k <> TERMKEY_TYPE_UNICODE /\ type k <> TERMKEY_TYPE_KEYSYM)
  \/ (type k = TERMKEY_TYPE_KEYSYM /\ key_mods k <> 0)
  \/ (type k = TERMKEY_TYPE_KEYSYM /\ key_mods k = 0
      /\ ~ In (code k)
              [TERMKEY_SYM_HOME; TERMKEY_SYM_END; TERMKEY_SYM_INSERT;
               TERMKEY_SYM_ENTER; TERMKEY_SYM_LEFT; TERMKEY_SYM_RIGHT;
               TERMKEY_SYM_UP; TERMKEY_SYM_DOWN; TERMKEY_SYM_BACKSPACE;
               TERMKEY_SYM_DELETE])
  \/ (type k = TERMKEY_TYPE_UNICODE
      /\ Z.land (modifiers k) (Z.lor TERMKEY_KEYMOD_ALT TERMKEY_KEYMOD_CTRL) <> 0
      /\ key_mods k <> TERMKEY_KEYMOD_ALT /\ key_mods k <> TERMKEY_KEYMOD_CTRL) ->
  on_key uc_is_word k s = Some (false, s, []).
Proof.
  intros [[H1 H2]|[[H1 H2]|[[H1 [H2 H3]]|[H1 [H2 [H3 H4]]]]]]; unfold on_key.
  - destruct (type k); try reflexivity; congruence.
  - rewrite H1. fold (key_mods k). rewrite key_map_find_sym_mod by exact H2.
    reflexivity.
  - rewrite H1. fold (key_mods k). rewrite H2, key_map_find_sym_code by exact H3.
    reflexivity.
  - rewrite H1. apply Z.eqb_neq in H2. rewrite H2.
    fold (key_mods k). rewrite key_map_find_unicode_mod by assumption.
    reflexivity.
Qed.

End KeyTable.

Lemma unbound_keys_are_ignored_witness :
  on_key ascii_word (mk_key TERMKEY_TYPE_KEYSYM TERMKEY_SYM_LEFT TERMKEY_KEYMOD_CTRL)
    abc_session
  = Some (false, abc_session, []).
Proof.
  apply (unbound_keys_are_ignored ascii_word abc_session
           (mk_key TERMKEY_TYPE_KEYSYM TERMKEY_SYM_LEFT TERMKEY_KEYMOD_CTRL)).
  right. left. split; [reflexivity|]. vm_compute. discriminate.
Defined.

(** ** [get_current_pos]: the cursor position report *)

Lemma buf_get_data (l1 : list Z) x l2 tl :
  buf_get (map Some (l1 ++ x :: l2) ++ tl) (zlength l1) = Some x.
Proof.
  unfold buf_get. rewrite map_app, <- app_assoc.
  rewrite zget_app_r by (unfold zlength; rewrite length_map; lia).
  replace (zlength l1 - zlength (map Some l1)) with 0
    by (unfold zlength; rewrite length_map; lia).
  reflexivity.
Qed.

(** The digits [ds] are read up to the byte [t] that is none. *)
Lemma digits_loop_run ds : forall l1 t l2 tl fuel acc,
  Forall (fun c => isdigit c = true) ds -> isdigit t = false ->
  (length ds <= fuel)%nat ->
  digits_loop fuel (map Some (l1 ++ ds ++ t :: l2) ++ tl)
    (zlength (l1 ++ ds ++ t :: l2)) (zlength l1) acc
  = Some (fold_left (fun a d => u32 (a * 10 + (d - 48))) ds acc,
          zlength l1 + zlength ds).
Proof.
  induction ds as [|d ds IH]; intros l1 t l2 tl fuel acc Hds Ht Hf.
  - cbn [app fold_left]. change (zlength (@nil Z)) with 0. rewrite Z.add_0_r.
    destruct fuel; cbn [digits_loop];
      rewrite buf_get_data, Ht;
      (destruct (Z.ltb_spec (zlength l1) (zlength (l1 ++ t :: l2)));
       [reflexivity|rewrite zlength_app, zlength_cons in *;
                    pose proof (zlength_nonneg l2); lia]).
  - inversion Hds as [|? ? Hd Hds']; subst.
    destruct fuel as [|fuel]; [simpl in Hf; lia|].
    cbn [digits_loop app].
    destruct (Z.ltb_spec (zlength l1) (zlength (l1 ++ d :: ds ++ t :: l2)))
      as [_|Hge].
    2:{ rewrite zlength_app, zlength_cons in Hge.
        pose proof (zlength_nonneg (ds ++ t :: l2)). lia. }
    rewrite buf_get_data, Hd.
    pose proof (IH (l1 ++ [d]) t l2 tl fuel (u32 (acc * 10 + (d - 48))) Hds' Ht
                  ltac:(simpl in Hf; lia)) as E.
    rewrite <- !app_assoc in E. cbn [app] in E.
    rewrite (zlength_app l1 [d]) in E. change (zlength [d]) with 1 in E.
    rewrite E. cbn [fold_left]. rewrite zlength_cons. f_equal. f_equal. lia.
Qed.

Lemma fold_digits_u32 ds : forall a,
  fold_left (fun a d => u32 (a * 10 + (d - 48))) ds (u32 a)
  = u32 (fold_left (fun a d => a * 10 + (d - 48)) ds a).
Proof.
  induction ds as [|d ds IH]; intros a; cbn [fold_left].
  - reflexivity.
  - rewrite <- IH. f_equal. unfold u32.
    rewrite <- Z.add_mod_idemp_l by lia.
    rewrite Z.mul_mod_idemp_l by lia.
    rewrite Z.add_mod_idemp_l by lia. reflexivity.
Qed.

Lemma digits_of_dec n :
  0 <= n < 2 ^ 32 ->
  fold_left (fun a d => u32 (a * 10 + (d - 48))) (dec n) 0 = n.
Proof.
  intros Hn. change 0 with (u32 0) at 1. rewrite fold_digits_u32.
  destruct (dec_digits n Hn) as [_ [_ E]]. rewrite E. apply u32_small. exact Hn.
Qed.

Lemma dec_head n :
  0 <= n < 2 ^ 32 -> exists d ds, dec n = d :: ds /\ isdigit d = true.
Proof.
  intros Hn. destruct (dec_digits n Hn) as [D [L _]].
  destruct (dec n) as [|d ds]; [unfold zlength in L; simpl in L; lia|].
  inversion D; subst. exists d, ds. split; [reflexivity|assumption].
Qed.

Lemma parse_report_complete pre row col post tl :
  0 <= row < 2 ^ 32 -> 0 <= col < 2 ^ 32 ->
  parse_report (map Some (pre ++ position_report row col ++ post) ++ tl)
    (zlength (pre ++ position_report row col ++ post)) (zlength pre)
  = Some (true, col, row).
Proof.
  intros Hrow Hcol. unfold parse_report, position_report.
  destruct (dec_digits row Hrow) as [Dr [Lr _]].
  destruct (dec_digits col Hcol) as [Dc [Lc _]].
  destruct (dec_head col Hcol) as [d [ds [Ed Hd]]].
  (* the row *)
  pose proof (digits_loop_run (dec row) (pre ++ [ESC; 91]) 59
                (dec col ++ [82] ++ post) tl 256 0 Dr eq_refl
                ltac:(unfold zlength in Lr; lia)) as E1.
  rewrite digits_of_dec in E1 by exact Hrow.
  rewrite (zlength_app pre [ESC; 91]) in E1. change (zlength [ESC; 91]) with 2 in E1.
  replace (pre ++ ([ESC; 91] ++ dec row ++ [59] ++ dec col ++ [82]) ++ post)
    with ((pre ++ [ESC; 91]) ++ dec row ++ 59 :: dec col ++ [82] ++ post)
    by (rewrite <- !app_assoc; reflexivity).
  rewrite E1.
  (* the semicolon and the first digit of the column *)
  replace ((pre ++ [ESC; 91]) ++ dec row ++ 59 :: dec col ++ [82] ++ post)
    with (((pre ++ [ESC; 91]) ++ dec row) ++ 59 :: dec col ++ [82] ++ post)
    by (rewrite <- !app_assoc; reflexivity).
  replace (zlength pre + 2 + zlength (dec row))
    with (zlength ((pre ++ [ESC; 91]) ++ dec row))
    by (rewrite !zlength_app; reflexivity).
  rewrite buf_get_data. cbn [Z.eqb Pos.eqb].
  replace (((pre ++ [ESC; 91]) ++ dec row) ++ 59 :: dec col ++ [82] ++ post)
    with ((((pre ++ [ESC; 91]) ++ dec row) ++ [59]) ++ d :: ds ++ [82] ++ post)
    by (rewrite Ed, <- !app_assoc; reflexivity).
  replace (zlength ((pre ++ [ESC; 91]) ++ dec row) + 1)
    with (zlength (((pre ++ [ESC; 91]) ++ dec row) ++ [59]))
    by (rewrite (zlength_app _ [59]); reflexivity).
  rewrite buf_get_data, Hd.
  (* the column *)
  pose proof (digits_loop_run (dec col) (((pre ++ [ESC; 91]) ++ dec row) ++ [59]) 82
                post tl 256 0 Dc eq_refl ltac:(unfold zlength in Lc; lia)) as E2.
  rewrite digits_of_dec in E2 by exact Hcol.
  rewrite Ed in E2. cbn [app] in E2. cbn [app].
  rewrite E2.
  (* the final letter *)
  replace ((((pre ++ [ESC; 91]) ++ dec row) ++ [59]) ++ d :: ds ++ 82 :: post)
    with (((((pre ++ [ESC; 91]) ++ dec row) ++ [59]) ++ d :: ds) ++ 82 :: post)
    by (rewrite <- !app_assoc; reflexivity).
  replace (zlength (((pre ++ [ESC; 91]) ++ dec row) ++ [59]) + zlength (d :: ds))
    with (zlength ((((pre ++ [ESC; 91]) ++ dec row) ++ [59]) ++ d :: ds))
    by (rewrite (zlength_app _ (d :: ds)); reflexivity).
  rewrite buf_get_data. reflexivity.
Qed.

Lemma zlength_position_report row col :
  0 <= row < 2 ^ 32 -> 0 <= col < 2 ^ 32 ->
  6 <= zlength (position_report row col) <= 24.
Proof.
  intros Hrow Hcol. unfold position_report.
  destruct (dec_digits row Hrow) as [_ [Lr _]].
  destruct (dec_digits col Hcol) as [_ [Lc _]].
  rewrite !zlength_app.
  change (zlength [ESC; 91]) with 2. change (zlength [59]) with 1.
  change (zlength [82]) with 1. lia.
Qed.

Lemma scan_reports_finds row col post tl pre2 : forall pre1 fuel c r,
  0 <= row < 2 ^ 32 -> 0 <= col < 2 ^ 32 ->
  ~ In ESC pre2 -> (length pre2 < fuel)%nat ->
  scan_reports fuel
    (map Some ((pre1 ++ pre2) ++ position_report row col ++ post) ++ tl)
    (zlength ((pre1 ++ pre2) ++ position_report row col ++ post))
    (zlength pre1) c r
  = Some (true, col, row).
Proof.
  induction pre2 as [|x pre2 IH]; intros pre1 fuel c r Hrow Hcol Hesc Hf;
    (destruct fuel as [|fuel]; [simpl in Hf; lia|]);
    pose proof (zlength_position_report row col Hrow Hcol) as Hlen;
    cbn [scan_reports].
  - rewrite app_nil_r.
    destruct (Z.leb_spec (zlength pre1 + 6)
                (zlength (pre1 ++ position_report row col ++ post))) as [_|Hgt].
    2:{ rewrite !zlength_app in Hgt. pose proof (zlength_nonneg post). lia. }
    destruct (dec_head row Hrow) as [d [ds [Ed Hd]]].
    assert (pre1 ++ position_report row col ++ post
            = pre1 ++ ESC :: (91 :: dec row ++ [59] ++ dec col ++ [82]) ++ post) as E0
      by reflexivity.
    rewrite E0 at 1. rewrite buf_get_data. rewrite Z.eqb_refl.
    assert (pre1 ++ position_report row col ++ post
            = (pre1 ++ [ESC]) ++ 91 :: (dec row ++ [59] ++ dec col ++ [82]) ++ post) as E1
      by (rewrite <- app_assoc; reflexivity).
    replace (zlength pre1 + 1) with (zlength (pre1 ++ [ESC]))
      by (rewrite zlength_app; reflexivity).
    rewrite E1 at 1. rewrite buf_get_data. cbn [Z.eqb Pos.eqb].
    assert (pre1 ++ position_report row col ++ post
            = (pre1 ++ [ESC; 91]) ++ d :: (ds ++ [59] ++ dec col ++ [82]) ++ post) as E2.
    { unfold position_report. rewrite Ed, <- !app_assoc. reflexivity. }
    replace (zlength pre1 + 2) with (zlength (pre1 ++ [ESC; 91]))
      by (rewrite zlength_app; reflexivity).
    rewrite E2 at 1. rewrite buf_get_data, Hd.
    rewrite parse_report_complete by assumption. reflexivity.
  - assert (x <> ESC) as Hx by (intros ->; apply Hesc; left; reflexivity).
    assert (~ In ESC pre2) as Hesc' by (intros H; apply Hesc; right; exact H).
    destruct (Z.leb_spec (zlength pre1 + 6)
                (zlength ((pre1 ++ x :: pre2) ++ position_report row col ++ post)))
      as [_|Hgt].
    2:{ rewrite !zlength_app in Hgt.
        pose proof (zlength_nonneg post). pose proof (zlength_nonneg (x :: pre2)).
        lia. }
    assert ((pre1 ++ x :: pre2) ++ position_report row col ++ post
            = pre1 ++ x :: (pre2 ++ position_report row col ++ post)) as E0
      by (rewrite <- app_assoc; reflexivity).
    rewrite E0 at 1. rewrite buf_get_data.
    destruct (Z.eqb_spec x ESC); [contradiction|].
    pose proof (IH (pre1 ++ [x]) fuel c r Hrow Hcol Hesc' ltac:(simpl in Hf; lia)) as E.
    rewrite <- (app_assoc pre1 [x] pre2) in E. cbn [app] in E.
    rewrite (zlength_app pre1 [x]) in E. exact E.
Qed.

(** X7. The terminal's answer to the query is understood: a cursor position
    report for [row] and [col], in one [read], is found behind bytes that
    came before it (keys typed ahead, as long as there is no ESC among
    them) and before what follows it, and gives [(col, row)]. *)
Theorem get_current_pos_reads_report (pre post : list Z) (row col : Z)
        (rest : list (option (list Z))) :
  ~ In ESC pre ->
  0 <= row < 2 ^ 32 -> 0 <= col < 2 ^ 32 ->
  zlength (pre ++ position_report row col ++ post) <= 256 ->
  get_current_pos (Some (pre ++ position_report row col ++ post) :: rest)
  = Some (col, row).
Proof.
  intros Hesc Hrow Hcol Hlen.
  unfold get_current_pos. cbn [read_reports].
  destruct (Z.ltb_spec 256 (zlength (pre ++ position_report row col ++ post)));
    [lia|].
  cbv zeta.
  pose proof (scan_reports_finds row col post
                (zdrop (zlength (pre ++ position_report row col ++ post))
                       (repeat None 256)) pre [] 256 0 0 Hrow Hcol Hesc) as E.
  cbn [app] in E. change (zlength (@nil Z)) with 0 in E.
  rewrite E; [reflexivity|].
  pose proof (zlength_position_report row col Hrow Hcol).
  rewrite !zlength_app in Hlen. pose proof (zlength_nonneg post).
  unfold zlength in *. lia.
Qed.

Lemma get_current_pos_reads_report_witness :
  get_current_pos
    (Some ([0x6c; 0x73; 0x0d] ++ position_report 24 1 ++ [0x71]) :: [])
  = Some (1, 24).
Proof.
  apply (get_current_pos_reads_report [0x6c; 0x73; 0x0d] [0x71] 24 1 []).
  - intros [H|[H|[H|[]]]]; discriminate H.
  - lia.
  - lia.
  - vm_compute. discriminate.
Defined.

(** A scan that does not find a report leaves [col] and [row] at zero. *)
Lemma scan_reports_reset buf n : forall fuel i c r,
  scan_reports fuel buf n i 0 0 = Some (false, c, r) -> c = 0 /\ r = 0.
Proof.
  induction fuel as [|fuel IH]; intros i c r H; cbn [scan_reports] in H.
  - destruct (i + 6 <=? n); [discriminate|]. inversion H. auto.
  - destruct (i + 6 <=? n); [|inversion H; auto].
    destruct (buf_get buf i) as [c0|]; [|discriminate].
    destruct (c0 =? ESC); [|exact (IH _ _ _ H)].
    destruct (buf_get buf (i + 1)) as [c1|]; [|discriminate].
    destruct (c1 =? 91); [|exact (IH _ _ _ H)].
    destruct (buf_get buf (i + 2)) as [c2|]; [|discriminate].
    destruct (isdigit c2); [|exact (IH _ _ _ H)].
    destruct (parse_report buf n i) as [[[done c'] r']|] eqn:E; [|discriminate].
    destruct done; [discriminate|].
    assert (c' = 0 /\ r' = 0) as [-> ->].
    { unfold parse_report in E.
      repeat match type of E with
             | match ?x with _ => _ end = _ => destruct x; try discriminate
             | (if ?x then _ else _) = _ => destruct x; try discriminate
             | (let (_, _) := ?x in _) = _ => destruct x
             end;
        inversion E; auto. }
    exact (IH _ _ _ H).
Qed.

Lemma read_reports_failed datas : forall buf rest res,
  read_reports (map Some datas ++ None :: rest) buf 0 0 = Some res ->
  res = (0, 0) \/ read_reports (map Some datas) buf 0 0 = Some res.
Proof.
  induction datas as [|data datas IH]; intros buf rest res H.
  - cbn [map app read_reports] in H. inversion H. left. reflexivity.
  - cbn [map app read_reports] in *.
    destruct (256 <? zlength data); [discriminate|].
    cbv zeta in *.
    destruct (scan_reports 256 (map Some data ++ zdrop (zlength data) buf)
                (zlength data) 0 0 0) as [[[done c] r]|] eqn:E; [|discriminate].
    destruct done; [right; exact H|].
    destruct (scan_reports_reset _ _ _ _ _ _ E) as [-> ->].
    apply (IH _ rest). exact H.
Qed.

(** X8. When a [read] fails, [get_current_pos] gives column and row 0, unless a
    report was complete before: what an incomplete report has put into
    [col] and [row] is reset.  [prepare] then stops at its assertion that
    the column is 1. *)
Theorem get_current_pos_failed_read (datas : list (list Z))
        (rest : list (option (list Z))) (res : Z * Z) :
  get_current_pos (map Some datas ++ None :: rest) = Some res ->
  (res = (0, 0) \/ get_current_pos (map Some datas) = Some res)
  /\ (forall su s, term_state s = closed -> su_cursor su = (0, 0) ->
                   prepare su s = None).
Proof.
  intros H. split; [exact (read_reports_failed datas _ rest res H)|].
  intros su s Hcl Hcur.
  destruct (prepare su s) as [[[[] s'] out]|] eqn:E; [exfalso|reflexivity].
  revert E. generalize tt at 1. intros u E.
  assert (after (prepare su) s (fun _ _ => False)) as Ha.
  { unfold prepare. rewrite Hcur.
    repeat (after_step; fields);
      try (rewrite Hcl in *; discriminate); try discriminate. }
  exact (Ha _ _ _ E).
Qed.

Lemma get_current_pos_failed_read_witness :
  ((0, 0) = (0, 0)
   \/ get_current_pos (map Some [[ESC; 0x5b; 0x31; 0x32; 0x3b; 0x78]]) = Some (0, 0))
  /\ (forall su s, term_state s = closed -> su_cursor su = (0, 0) ->
                   prepare su s = None).
Proof.
  apply (get_current_pos_failed_read [[ESC; 0x5b; 0x31; 0x32; 0x3b; 0x78]] [] (0, 0)).
  vm_compute. reflexivity.
Defined.

(** ** [offset_after_n_chars] and [recompute_line_offset] on a well-formed
    buffer *)

(** X9. From the start of the codepoint [j] of a well-formed buffer,
    [offset_after_n_chars] steps over [n] codepoints, or over those that
    are left when they are fewer: it gives the offset where it ends and the
    number of codepoints that it has passed. *)
Theorem offset_after_n_chars_counts (s : handle) (cs : list (list Z)) (j n : Z) :
  buffer s = concat cs -> chunks_ok cs -> zlength (buffer s) < 2 ^ 32 ->
  0 <= n -> 0 <= j <= zlength cs ->
  offset_after_n_chars s n (cp_offset cs j)
  = Some (cp_offset cs (Z.min (j + n) (zlength cs)), Z.min n (zlength cs - j))
  /\ codepoint_boundary (buffer s) (cp_offset cs (Z.min (j + n) (zlength cs))) = true.
Proof.
  intros Hb Hcs Hlen Hn Hj. split.
  - rewrite cp_offset_min. apply offset_after_n_chars_cp; assumption.
  - rewrite Hb. apply cp_offset_boundary. exact Hcs.
Qed.

Lemma offset_after_n_chars_counts_witness :
  offset_after_n_chars overwrite_session 9
    (cp_offset [[0xc3; 0xa9]; [0x61]; [0x62]; [0x63]; [0x64]; [0x65]] 1)
  = Some (cp_offset [[0xc3; 0xa9]; [0x61]; [0x62]; [0x63]; [0x64]; [0x65]]
            (Z.min (1 + 9) (zlength [[0xc3; 0xa9]; [0x61]; [0x62]; [0x63]; [0x64]; [0x65]])),
          Z.min 9 (zlength [[0xc3; 0xa9]; [0x61]; [0x62]; [0x63]; [0x64]; [0x65]] - 1))
  /\ codepoint_boundary (buffer overwrite_session)
       (cp_offset [[0xc3; 0xa9]; [0x61]; [0x62]; [0x63]; [0x64]; [0x65]]
          (Z.min (1 + 9)
             (zlength [[0xc3; 0xa9]; [0x61]; [0x62]; [0x63]; [0x64]; [0x65]]))) = true.
Proof.
  apply (offset_after_n_chars_counts overwrite_session
           [[0xc3; 0xa9]; [0x61]; [0x62]; [0x63]; [0x64]; [0x65]] 1 9).
  - vm_compute. reflexivity.
  - repeat constructor.
  - vm_compute. reflexivity.
  - lia.
  - vm_compute. split; discriminate.
Defined.

Lemma recompute_loop_line_offset l s : forall fuel avail o lo,
  recompute_loop fuel (set_line_offset l s) avail o lo = recompute_loop fuel s avail o lo.
Proof.
  induction fuel as [|fuel IH]; intros avail o lo; cbn [recompute_loop]; fields.
  - reflexivity.
  - unfold offset_after_n_chars. fields.
    destruct (o <? zlength (buffer s)); [|reflexivity].
    destruct (oanc_loop (length (buffer s)) (buffer s) avail o 0) as [[next nchars]|];
      [|reflexivity].
    destruct (nchars <? avail); [reflexivity|]. apply IH.
Qed.

(** A full recomputation from a first entry 0. *)
Lemma recompute_line_offset_full s cs t :
  0 <= prompt_len s < term_cols s -> term_cols s < 2 ^ 32 ->
  buffer s = concat cs -> chunks_ok cs -> zlength (buffer s) < 2 ^ 31 - 2 ->
  line_offset s = 0 :: t ->
  recompute_line_offset 0 s
  = Some (tt, set_line_offset
                (rows_list (term_cols s - prompt_len s) (term_cols s) cs
                   (row_count (term_cols s - prompt_len s) (term_cols s) (zlength cs)))
                s, []).
Proof.
  intros Hp Hc Hb Hcs Hlen Hlo.
  pose proof (recompute_line_offset_rows
                (set_line_offset
                   (rows_list (term_cols s - prompt_len s) (term_cols s) cs 1) s)
                cs cs 1 0) as H.
  cbv zeta in H. fields.
  specialize (H Hp Hc Hb Hcs Hlen eq_refl ltac:(lia) eq_refl).
  rewrite row_start_0 in H. specialize (H (zlength_nonneg cs)).
  unfold recompute_line_offset, bind, get, assert, defined, modify, ret in *.
  cbv beta iota zeta in *. fields.
  rewrite Hlo.
  change (vresize (rows_list (term_cols s - prompt_len s) (term_cols s) cs 1) (0 + 1))
    with [0] in H.
  replace (vresize (0 :: t) (0 + 1)) with [0]
    by reflexivity.
  cbn [zget Z.ltb Z.compare Z.to_nat nth_error Z.leb andb Z.eqb] in *.
  rewrite recompute_loop_line_offset in H.
  destruct (recompute_loop (2 + length (buffer s)) s
              (u32 (term_cols s - prompt_len s)) 0 [0]) as [lo|]; [|discriminate].
  inversion H as [E]. reflexivity.
Qed.

(** X10. Recomputing is idempotent, and from any row as good as from the first:
    after the rows were computed from row 0, [recompute_line_offset] from a
    row [r] changes nothing. *)
Theorem recompute_line_offset_idempotent (s0 s : handle) (cs : list (list Z))
        (out : list Z) (r : Z) :
  0 <= prompt_len s0 < term_cols s0 ->
  buffer s0 = concat cs -> chunks_ok cs ->
  zlength (buffer s0) + term_cols s0 < 2 ^ 31 - 2 ->
  zget (line_offset s0) 0 = Some 0 ->
  recompute_line_offset 0 s0 = Some (tt, s, out) ->
  0 <= r < zlength (line_offset s) ->
  recompute_line_offset r s = Some (tt, s, []).
Proof.
  intros Hp Hb Hcs Hlen Hlo H Hr.
  pose proof (zlength_nonneg (buffer s0)) as Hbl.
  assert (exists t, line_offset s0 = 0 :: t) as [t Ht].
  { destruct (line_offset s0) as [|x t]; [discriminate|].
    inversion Hlo; subst. exists t. reflexivity. }
  rewrite (recompute_line_offset_full s0 cs t Hp ltac:(lia) Hb Hcs ltac:(lia) Ht) in H.
  inversion H; subst s out. clear H.
  fields. rewrite zlength_rows_list in Hr.
  pose proof (chunks_length cs Hcs) as Hcl.
  pose proof (zlength_nonneg cs) as Hn0.
  pose proof (row_start_in_count (term_cols s0 - prompt_len s0) (term_cols s0)
                (zlength cs) r ltac:(lia) ltac:(lia) Hn0 ltac:(lia)) as Hrs.
  rewrite (recompute_line_offset_rows _ cs cs
             (row_count (term_cols s0 - prompt_len s0) (term_cols s0) (zlength cs)) r);
    fields; try assumption; try reflexivity; try lia.
Qed.

Lemma recompute_line_offset_idempotent_witness :
  recompute_line_offset 1 (set_line_offset [0; 5] overwrite_session)
  = Some (tt, set_line_offset [0; 5] overwrite_session, []).
Proof.
  apply (recompute_line_offset_idempotent overwrite_session
           (set_line_offset [0; 5] overwrite_session)
           [[0xc3; 0xa9]; [0x61]; [0x62]; [0x63]; [0x64]; [0x65]] [] 1).
  - vm_compute. split; congruence.
  - vm_compute. reflexivity.
  - repeat constructor.
  - vm_compute. reflexivity.
  - vm_compute. reflexivity.
  - vm_compute. reflexivity.
  - vm_compute. split; congruence.
Defined.

(** ** Overwrite mode *)

Lemma after_defined {A} (o : option A) s Q :
  (forall a, o = Some a -> Q a s) -> after (defined o) s Q.
Proof.
  intros H a s' out E. destruct o as [x|]; [|discriminate].
  inversion E; subst. apply H. reflexivity.
Qed.

Lemma after_fault {A} s (Q : A -> handle -> Prop) : after fault s Q.
Proof. intros a s' out E. discriminate. Qed.

(** A program that can only end where nothing holds does not end. *)
Lemma after_False {A} (m : M A) s : after m s (fun _ _ => False) -> m s = None.
Proof.
  intros H. destruct (m s) as [[[a s'] out]|] eqn:E; [|reflexivity].
  destruct (H a s' out E).
Qed.

Lemma zlength_replace (cs : list (list Z)) k c0 c :
  zget cs k = Some c0 -> zlength c = zlength c0 ->
  zlength (concat (ztake k cs ++ [c] ++ zdrop (k + 1) cs)) = zlength (concat cs).
Proof.
  intros H E. rewrite (zget_split cs k c0 H) at 3.
  rewrite !concat_app. cbn [concat app]. rewrite ?app_nil_r, !zlength_app. lia.
Qed.

Lemma replace_chunk (cs : list (list Z)) k c0 c :
  zget cs k = Some c0 -> zlength c = zlength c0 ->
  ztake (cp_offset cs k) (concat cs) ++ c ++ zdrop (cp_offset cs k + zlength c) (concat cs)
  = concat (ztake k cs ++ [c] ++ zdrop (k + 1) cs).
Proof.
  intros H E. rewrite E, <- (cp_offset_succ cs k c0 H).
  rewrite ztake_cp_offset, zdrop_cp_offset, !concat_app.
  cbn [concat]. rewrite app_nil_r. reflexivity.
Qed.

Section Overwrite.

Variable uc_is_word : Z -> bool.

(** X11. In overwrite mode, inside the text, a key whose codepoint takes as many
    units as the codepoint under the cursor replaces it: the length of the
    buffer, [line_offset] and [nchars] stay as they are and the cursor
    moves behind the new codepoint. *)
Theorem overwrite_same_length (s : handle) (cs : list (list Z)) (k : Z)
        (c0 c : list Z) (key : TermKeyKey) :
  insert s = false ->
  buffer s = concat cs -> Forall (fun c => key_seq c = true) cs ->
  zlength (buffer s) < 2 ^ 32 ->
  offset s = cp_offset cs k -> zget cs k = Some c0 ->
  type key = TERMKEY_TYPE_UNICODE ->
  Z.land (modifiers key) (Z.lor TERMKEY_KEYMOD_ALT TERMKEY_KEYMOD_CTRL) = 0 ->
  u8_uctomb (u32 (code key)) = Some c ->
  zlength c = zlength c0 ->
  exists s' out,
    on_key uc_is_word key s = Some (false, s', out)
    /\ buffer s' = concat (ztake k cs ++ [c] ++ zdrop (k + 1) cs)
    /\ zlength (buffer s') = zlength (buffer s)
    /\ line_offset s' = line_offset s
    /\ nchars s' = nchars s
    /\ offset s' = offset s + zlength c.
Proof.
  intros Hi Hb Hks Hlen Ho Hc0 Hty Hmod Hbuf Hl.
  pose proof (key_seqs_chunks _ Hks) as Hcs.
  pose proof (zget_Some_range _ _ _ Hc0) as Hk.
  pose proof (cp_offset_lt_end cs k Hcs Hk) as Hlt.
  pose proof (cp_offset_nonneg cs k) as Hge.
  destruct (u8_mbtoucr_chunks cs k Hcs Hk) as [c0' [Hc0' Hnext]].
  rewrite Hc0 in Hc0'. inversion Hc0'; subst c0'. clear Hc0'.
  pose proof (cp_offset_succ cs k c0 Hc0) as Hsucc.
  pose proof (cp_offset_le_len cs (k + 1)) as Hle.
  assert (key_seq c0 = true) as Hkc.
  { rewrite Forall_forall in Hks. apply Hks. eapply zget_In. eassumption. }
  destruct (key_seq_char c0 Hkc) as [_ Hfffd].
  rewrite Hb in Hlen.
  cut (wp (on_key uc_is_word key) s
         (fun r s' _ =>
            r = false
            /\ buffer s' = concat (ztake k cs ++ [c] ++ zdrop (k + 1) cs)
            /\ zlength (buffer s') = zlength (buffer s)
            /\ line_offset s' = line_offset s
            /\ nchars s' = nchars s
            /\ offset s' = offset s + zlength c)).
  { intros [r [s' [out [E [-> H]]]]]. exists s', out. split; [exact E|exact H]. }
  unfold on_key. rewrite Hty, Hmod. cbn [Z.eqb].
  wp_steps. apply wp_assert; [rewrite Ho, Hb; boolZ; lia|].
  wp_steps. eapply wp_defined; [exact Hbuf|].
  wp_steps.
  wp_frame.
  { destruct ((zlength (buffer s) =? 0) && negb (zlength (empty_message s) =? 0));
      wp_steps; reflexivity. }
  wp_steps. rewrite Hi, Ho, Hb. cbn [orb].
  destruct (Z.eqb_spec (cp_offset cs k) (zlength (concat cs))) as [E|_]; [lia|].
  wp_steps. unfold overwrite. wp_steps.
  apply wp_assert; [rewrite Ho; boolZ; lia|].
  wp_steps. eapply wp_defined; [rewrite Ho, Hb; exact Hnext|].
  cbv beta iota. wp_steps.
  apply wp_assert; [boolZ; exact Hfffd|].
  wp_steps. rewrite Hl, Z.eqb_refl. cbn [negb].
  wp_steps. rewrite Ho, Hb.
  apply wp_assert; [boolZ; lia|].
  wp_steps.
  rewrite <- Hl, (replace_chunk cs k c0 c Hc0 Hl).
  pose proof (zlength_nonneg c).
  rewrite ?Ho. rewrite (u32_small (cp_offset cs k + zlength c)) by lia.
  destruct (u32 (pos_x s + 1) =? term_cols s).
  - wp_steps. apply wp_move_to. intros _. wp_steps.
    rewrite (zlength_replace cs k c0 c Hc0 Hl). auto 10.
  - wp_steps.
    wp_frame.
    { destruct (1 <? zlength c); wp_steps; [apply wp_move_to; intros _|]; reflexivity. }
    wp_steps. rewrite (zlength_replace cs k c0 c Hc0 Hl). auto 10.
Qed.

(** X12. In overwrite mode, inside the text, a key whose codepoint takes more
    units than the codepoint under the cursor makes [on_key] erase a range
    that ends before it starts, which is not defined. *)
Theorem overwrite_longer_codepoint (s : handle) (cs : list (list Z)) (k : Z)
        (c0 c : list Z) (key : TermKeyKey) :
  insert s = false ->
  buffer s = concat cs -> Forall (fun c => key_seq c = true) cs ->
  offset s = cp_offset cs k -> zget cs k = Some c0 ->
  type key = TERMKEY_TYPE_UNICODE ->
  Z.land (modifiers key) (Z.lor TERMKEY_KEYMOD_ALT TERMKEY_KEYMOD_CTRL) = 0 ->
  u8_uctomb (u32 (code key)) = Some c ->
  zlength c0 < zlength c ->
  on_key uc_is_word key s = None.
Proof.
  intros Hi Hb Hks Ho Hc0 Hty Hmod Hbuf Hl.
  pose proof (key_seqs_chunks _ Hks) as Hcs.
  pose proof (zget_Some_range _ _ _ Hc0) as Hk.
  pose proof (cp_offset_lt_end cs k Hcs Hk) as Hlt.
  destruct (u8_mbtoucr_chunks cs k Hcs Hk) as [c0' [Hc0' Hnext]].
  rewrite Hc0 in Hc0'. inversion Hc0'; subst c0'. clear Hc0'.
  apply after_False.
  unfold on_key. rewrite Hty, Hmod. cbn [Z.eqb].
  apply after_bind, after_get.
  apply after_bind, after_assert. intros _.
  apply after_bind. rewrite Hbuf. apply after_ret.
  cbv zeta.
  apply after_bind.
  match goal with |- after (if ?b then _ else _) _ _ => destruct b end;
    [apply after_write|apply after_ret].
  all: apply after_bind; rewrite Hi, Ho, Hb; cbn [orb].
  all: destruct (Z.eqb_spec (cp_offset cs k) (zlength (concat cs))) as [E|_]; [lia|].
  all: apply after_bind; unfold overwrite.
  all: apply after_bind, after_get; cbv zeta.
  all: apply after_bind, after_assert; intros _.
  all: rewrite Ho, Hb, Hnext.
  all: apply after_bind, after_ret.
  all: apply after_bind, after_assert; intros _.
  all: apply after_bind.
  all: destruct (Z.eqb_spec (zlength c0) (zlength c)) as [E|_]; [lia|]; cbn [negb].
  all: apply after_bind.
  all: destruct (Z.ltb_spec (zlength c - zlength c0) 0); [lia|].
  all: apply after_fault.
Qed.

End Overwrite.

Lemma overwrite_same_length_witness :
  exists s' out,
    on_key ascii_word (key_unicode 0x78) (demo_after 20 true true
      [key_unicode 0x61; key_unicode 0x62; key_sym TERMKEY_SYM_HOME;
       key_sym TERMKEY_SYM_INSERT])
    = Some (false, s', out)
    /\ buffer s' = concat (ztake 0 [[0x61]; [0x62]] ++ [[0x78]]
                           ++ zdrop (0 + 1) [[0x61]; [0x62]])
    /\ zlength (buffer s')
       = zlength (buffer (demo_after 20 true true
                            [key_unicode 0x61; key_unicode 0x62;
                             key_sym TERMKEY_SYM_HOME; key_sym TERMKEY_SYM_INSERT]))
    /\ line_offset s'
       = line_offset (demo_after 20 true true
                        [key_unicode 0x61; key_unicode 0x62;
                         key_sym TERMKEY_SYM_HOME; key_sym TERMKEY_SYM_INSERT])
    /\ nchars s'
       = nchars (demo_after 20 true true
                   [key_unicode 0x61; key_unicode 0x62;
                    key_sym TERMKEY_SYM_HOME; key_sym TERMKEY_SYM_INSERT])
    /\ offset s'
       = offset (demo_after 20 true true
                   [key_unicode 0x61; key_unicode 0x62;
                    key_sym TERMKEY_SYM_HOME; key_sym TERMKEY_SYM_INSERT])
         + zlength [0x78].
Proof.
  apply (overwrite_same_length ascii_word _ [[0x61]; [0x62]] 0 [0x61] [0x78]
           (key_unicode 0x78)).
  - vm_compute. reflexivity.
  - vm_compute. reflexivity.
  - repeat constructor.
  - vm_compute. reflexivity.
  - vm_compute. reflexivity.
  - reflexivity.
  - reflexivity.
  - reflexivity.
  - reflexivity.
  - reflexivity.
Defined.

Lemma overwrite_longer_codepoint_witness :
  on_key ascii_word (key_unicode 0xe9) (demo_after 20 true true
    [key_unicode 0x61; key_unicode 0x62; key_sym TERMKEY_SYM_HOME;
     key_sym TERMKEY_SYM_INSERT])
  = None.
Proof.
  apply (overwrite_longer_codepoint ascii_word _ [[0x61]; [0x62]] 0 [0x61]
           [0xc3; 0xa9] (key_unicode 0xe9)).
  - vm_compute. reflexivity.
  - vm_compute. reflexivity.
  - repeat constructor.
  - vm_compute. reflexivity.
  - reflexivity.
  - reflexivity.
  - reflexivity.
  - reflexivity.
  - vm_compute. reflexivity.
Defined.

(** ** Typed text *)

(** The way back from the units that [u8_uctomb] writes. *)
Lemma u8_uctomb_char uc c :
  typed_codepoint uc = true -> u8_uctomb uc = Some c -> chunk_char c = uc.
Proof.
  intros Ht Hc.
  destruct (u8_uctomb_typed uc Ht) as [c' [Hc' Hk]].
  rewrite Hc in Hc'. inversion Hc'; subst c'. clear Hc'.
  pose proof (chunk_char_cases c (key_seq_utf8 c Hk)) as Hcases.
  unfold typed_codepoint in Ht. boolZ.
  destruct Ht as [[[H0 H1] Hsur] Hfffd].
  revert Hc Hcases. unfold u8_uctomb.
  rewrite !Z.shiftr_div_pow2 by lia.
  change 63 with (Z.ones 6). rewrite !Z.land_ones by lia.
  change 192 with (3 * 2 ^ 6). change 128 with (2 * 2 ^ 6).
  change 224 with (7 * 2 ^ 5). change 240 with (15 * 2 ^ 4).
  pose proof (Z.mod_pos_bound uc (2 ^ 6) ltac:(lia)) as M1.
  pose proof (Z.mod_pos_bound (uc / 2 ^ 6) (2 ^ 6) ltac:(lia)) as M2.
  pose proof (Z.mod_pos_bound (uc / 2 ^ 12) (2 ^ 6) ltac:(lia)) as M3.
  pose proof (Z.div_mod uc (2 ^ 6) ltac:(lia)) as E1.
  pose proof (Z.div_mod (uc / 2 ^ 6) (2 ^ 6) ltac:(lia)) as E2.
  pose proof (Z.div_mod (uc / 2 ^ 12) (2 ^ 6) ltac:(lia)) as E3.
  assert (uc / 2 ^ 6 / 2 ^ 6 = uc / 2 ^ 12) as D12
    by (rewrite Z.div_div by lia; reflexivity).
  assert (uc / 2 ^ 12 / 2 ^ 6 = uc / 2 ^ 18) as D18
    by (rewrite Z.div_div by lia; reflexivity).
  rewrite D12 in E2. rewrite D18 in E3.
  destruct (Z.ltb_spec uc (2 * 2 ^ 6)) as [L1|L1].
  { intros Hc Hcases.
    apply (f_equal (fun o => match o with Some x => x | None => [] end)) in Hc.
    cbv beta iota in Hc. subst c. exact Hcases. }
  destruct (Z.ltb_spec uc 2048) as [L2|L2].
  { assert (0 <= uc / 2 ^ 6 < 2 ^ 5) as D1
      by (split; [apply Z.div_pos|apply Z.div_lt_upper_bound]; lia).
    rewrite !lor_add by lia.
    intros Hc Hcases.
    apply (f_equal (fun o => match o with Some x => x | None => [] end)) in Hc.
    cbv beta iota in Hc. subst c.
    rewrite Hcases, uc2_value by lia. lia. }
  destruct (Z.ltb_spec uc 65536) as [L3|L3].
  { assert ((uc <? 55296) || (57344 <=? uc) = true) as Es by (boolZ; lia).
    rewrite Es.
    assert (0 <= uc / 2 ^ 12 < 2 ^ 4) as D1
      by (split; [apply Z.div_pos|apply Z.div_lt_upper_bound]; lia).
    rewrite !lor_add by lia.
    intros Hc Hcases.
    apply (f_equal (fun o => match o with Some x => x | None => [] end)) in Hc.
    cbv beta iota in Hc. subst c.
    rewrite Hcases, uc3_value by lia. lia. }
  assert ((uc <? 1114112) = true) as L4 by (boolZ; lia). rewrite L4.
  assert (0 <= uc / 2 ^ 18 < 2 ^ 3) as D1
    by (split; [apply Z.div_pos|apply Z.div_lt_upper_bound]; lia).
  rewrite !lor_add by lia.
  intros Hc Hcases.
    apply (f_equal (fun o => match o with Some x => x | None => [] end)) in Hc.
    cbv beta iota in Hc. subst c.
  rewrite Hcases, uc4_value by lia. lia.
Qed.

Lemma typed_codepoint_u32 uc : typed_codepoint uc = true -> u32 uc = uc.
Proof.
  unfold typed_codepoint. intros H. boolZ. apply u32_small. lia.
Qed.

Lemma utf8_encode_typed uc :
  typed_codepoint uc = true ->
  u8_uctomb uc = Some (utf8_encode uc) /\ key_seq (utf8_encode uc) = true.
Proof.
  intros H. destruct (u8_uctomb_typed uc H) as [c [Hc Hk]].
  unfold utf8_encode. rewrite Hc. split; [reflexivity|exact Hk].
Qed.

Lemma utf8_encode_char uc :
  typed_codepoint uc = true -> chunk_char (utf8_encode uc) = uc.
Proof.
  intros H. apply (u8_uctomb_char uc); [exact H|].
  apply (utf8_encode_typed uc H).
Qed.

Lemma ztake_insert1 {A} (l : list A) k x :
  0 <= k <= zlength l -> ztake (k + 1) (ztake k l ++ [x] ++ zdrop k l) = ztake k l ++ [x].
Proof.
  intros H. rewrite app_assoc.
  replace (k + 1) with (zlength (ztake k l ++ [x]))
    by (rewrite zlength_app, zlength_ztake by lia; reflexivity).
  apply ztake_app_exact.
Qed.

Lemma zdrop_insert1 {A} (l : list A) k x :
  0 <= k <= zlength l -> zdrop (k + 1) (ztake k l ++ [x] ++ zdrop k l) = zdrop k l.
Proof.
  intros H. rewrite app_assoc.
  replace (k + 1) with (zlength (ztake k l ++ [x]))
    by (rewrite zlength_app, zlength_ztake by lia; reflexivity).
  apply zdrop_app_exact.
Qed.

Lemma edit_inv_weaken B B' s cs k : edit_inv B s cs k -> B <= B' -> edit_inv B' s cs k.
Proof.
  intros [Ht Hc] HB. split; [|exact Hc].
  destruct Ht. constructor; auto. lia.
Qed.

Section TypedText.

Variable uc_is_word : Z -> bool.

(** The keys of the codepoints [ucs], one after the other: their units
    are in the text before the cursor, in order. *)
Lemma type_codepoints_inv ucs : forall B s cs k,
  edit_inv B s cs k -> B + 4 * zlength ucs + 2 < 2 ^ 31 ->
  Forall (fun uc => typed_codepoint uc = true) ucs ->
  exists s',
    type_keys uc_is_word (map key_unicode ucs) s = Some s'
    /\ edit_inv (B + 4 * zlength ucs) s'
         (ztake k cs ++ map utf8_encode ucs ++ zdrop k cs) (k + zlength ucs).
Proof.
  induction ucs as [|uc ucs IH]; intros B s cs k He HB Hal.
  - exists s. split; [reflexivity|].
    cbn [map app]. rewrite ztake_zdrop.
    change (zlength (@nil Z)) with 0. rewrite Z.mul_0_r, !Z.add_0_r. exact He.
  - rewrite zlength_cons in *. pose proof (zlength_nonneg ucs).
    inversion Hal as [|? ? Huc Hal']; subst.
    destruct (utf8_encode_typed uc Huc) as [Henc Hkc].
    destruct He as [Ht Hc]. pose proof Hc as [Hk _ _ _ _ _].
    destruct (on_key_insert_exact uc_is_word B s cs k (key_unicode uc) (utf8_encode uc))
      as [done [s1 [o1 [E1 [_ He1]]]]];
      [split; assumption|lia|reflexivity|reflexivity
      |cbn [code key_unicode]; rewrite typed_codepoint_u32 by exact Huc; exact Henc
      |exact Hkc|].
    destruct (IH (B + 4) s1 _ (k + 1) He1 ltac:(lia) Hal') as [s' [E' He']].
    exists s'. cbn [map type_keys]. rewrite E1. split; [exact E'|].
    rewrite ztake_insert1, zdrop_insert1 in He' by lia.
    rewrite <- app_assoc in He'. cbn [app] in He'.
    replace (k + (1 + zlength ucs)) with (k + 1 + zlength ucs) by lia.
    replace (B + 4 * (1 + zlength ucs)) with (B + 4 + 4 * zlength ucs) by lia.
    exact He'.
Qed.

(** The same keys in the key loop of [handle_one]: none of them ends the
    edit. *)
Lemma getkey_codepoints_inv ucs : forall B s cs k,
  edit_inv B s cs k -> B + 4 * zlength ucs + 2 < 2 ^ 31 ->
  Forall (fun uc => typed_codepoint uc = true) ucs ->
  wp (getkey_loop uc_is_word (map key_unicode ucs)) s
     (fun done s' _ =>
        done = false
        /\ edit_inv (B + 4 * zlength ucs) s'
             (ztake k cs ++ map utf8_encode ucs ++ zdrop k cs) (k + zlength ucs)).
Proof.
  induction ucs as [|uc ucs IH]; intros B s cs k He HB Hal.
  - cbn [map getkey_loop]. wp_steps. split; [reflexivity|].
    cbn [map app]. rewrite ztake_zdrop.
    change (zlength (@nil Z)) with 0. rewrite Z.mul_0_r, !Z.add_0_r. exact He.
  - rewrite zlength_cons in *. pose proof (zlength_nonneg ucs).
    inversion Hal as [|? ? Huc Hal']; subst.
    destruct (utf8_encode_typed uc Huc) as [Henc Hkc].
    destruct He as [Ht Hc]. pose proof Hc as [Hk _ _ _ _ _].
    cbn [map getkey_loop]. wp_steps.
    change (is_cancel s (key_unicode uc)) with false. cbv iota.
    apply wp_bind. eapply wp_mono;
      [apply (on_key_insert_exact uc_is_word B s cs k (key_unicode uc) (utf8_encode uc));
       [split; assumption|lia|reflexivity|reflexivity
       |cbn [code key_unicode]; rewrite typed_codepoint_u32 by exact Huc; exact Henc
       |exact Hkc]|].
    cbv beta. intros done s1 o1 [-> He1].
    eapply wp_mono; [apply (IH (B + 4) s1 _ (k + 1) He1 ltac:(lia) Hal')|].
    cbv beta. intros done s' o' [-> He'].
    split; [reflexivity|].
    rewrite ztake_insert1, zdrop_insert1 in He' by lia.
    rewrite <- app_assoc in He'. cbn [app] in He'.
    replace (k + (1 + zlength ucs)) with (k + 1 + zlength ucs) by lia.
    replace (B + 4 * (1 + zlength ucs)) with (B + 4 + 4 * zlength ucs) by lia.
    exact He'.
Qed.

(** What the invariant says of the buffer and the cursor after text was
    put in at the cursor. *)
Lemma inserted_text B s s' cs k ins :
  cursor_inv s cs k -> buffer s = concat cs ->
  edit_inv B s' (ztake k cs ++ ins ++ zdrop k cs) (k + zlength ins) ->
  buffer s' = ztake (offset s) (buffer s) ++ concat ins ++ zdrop (offset s) (buffer s)
  /\ offset s' = offset s + zlength (concat ins).
Proof.
  intros [Hk Ho _ _ _ _] Hb [[_ _ _ _ Hb' _ _ _] [_ Ho' _ _ _ _]].
  rewrite Hb', Ho', Ho, Hb, ztake_cp_offset, zdrop_cp_offset by lia.
  rewrite !concat_app. split; [reflexivity|].
  unfold cp_offset.
  replace (k + zlength ins) with (zlength (ztake k cs ++ ins))
    by (rewrite zlength_app, zlength_ztake by lia; reflexivity).
  rewrite app_assoc, ztake_app_exact, concat_app, zlength_app. reflexivity.
Qed.

End TypedText.

Section TypedAtCursor.

Variable uc_is_word : Z -> bool.

(** X13. In a multi-line session in insert mode whose prompt is narrower than
    the window, after any keys other than End, Ctrl-E, Ctrl-U and Insert,
    the keys of the codepoints [ucs] (scalar values other than NUL and
    U+FFFD) are all handled, and they put the UTF-8 encoding of [ucs], in
    order, into the buffer at the cursor: what was before the cursor and
    what was after it stay as they were, the cursor is behind the new text,
    and the buffer is well-formed UTF-8. *)
Theorem typed_text_goes_to_cursor (s0 s : handle) (ks : list TermKeyKey) (ucs : list Z) :
  freshly_prepared s0 ->
  multiline s0 = true -> insert s0 = true ->
  0 <= prompt_len s0 < term_cols s0 -> 1 <= max_lines s0 ->
  0 <= requested_pos_x s0 < 2 ^ 32 ->
  term_cols s0 + 4 * (zlength ks + zlength ucs) + 2 < 2 ^ 31 ->
  Forall (fun k => allowed_key k = true) ks ->
  type_keys uc_is_word ks s0 = Some s ->
  Forall (fun uc => typed_codepoint uc = true) ucs ->
  exists s',
    type_keys uc_is_word (map key_unicode ucs) s = Some s'
    /\ buffer s'
       = ztake (offset s) (buffer s) ++ concat (map utf8_encode ucs)
         ++ zdrop (offset s) (buffer s)
    /\ offset s' = offset s + zlength (concat (map utf8_encode ucs))
    /\ utf8_valid (buffer s') = true.
Proof.
  intros Hprep Hm Hi Hp Hmax Hq HB Hal Hks Huc.
  pose proof (zlength_nonneg ks). pose proof (zlength_nonneg ucs).
  pose proof (freshly_prepared_editing s0 Hprep Hm Hi Hp Hmax Hq) as He0.
  destruct (type_keys_editing uc_is_word ks (term_cols s0) s0 He0 ltac:(lia) Hal)
    as [s1 [E1 [cs [k He]]]].
  rewrite Hks in E1. inversion E1; subst s1. clear E1.
  destruct (type_codepoints_inv uc_is_word ucs _ s cs k He ltac:(lia) Huc)
    as [s' [E' He']].
  exists s'. split; [exact E'|].
  pose proof He as [[_ _ _ _ Hb _ _ _] Hc].
  pose proof He' as [[_ _ _ Hks' Hb' _ _ _] _].
  assert (zlength (map utf8_encode ucs) = zlength ucs) as Hlen
    by (unfold zlength; rewrite length_map; reflexivity).
  rewrite <- Hlen in He'.
  destruct (inserted_text _ s s' cs k _ Hc Hb He') as [H1 H2].
  split; [exact H1|]. split; [exact H2|].
  unfold utf8_valid. rewrite Hb', utf8_decode_chunks; [reflexivity|].
  apply key_seqs_chunks. exact Hks'.
Qed.

End TypedAtCursor.

(** "ab", Left, and then "é" and an emoticon between the two letters. *)
Lemma typed_text_goes_to_cursor_witness :
  exists s',
    type_keys ascii_word (map key_unicode [0xe9; 0x1f600])
      (demo_after 20 true true
         [key_unicode 0x61; key_unicode 0x62; key_sym TERMKEY_SYM_LEFT])
    = Some s'
    /\ buffer s' = [0x61] ++ [0xc3; 0xa9; 0xf0; 0x9f; 0x98; 0x80] ++ [0x62]
    /\ offset s' = 1 + 6
    /\ utf8_valid (buffer s') = true.
Proof.
  destruct (typed_text_goes_to_cursor ascii_word (demo_session 20 true true)
              (demo_after 20 true true
                 [key_unicode 0x61; key_unicode 0x62; key_sym TERMKEY_SYM_LEFT])
              [key_unicode 0x61; key_unicode 0x62; key_sym TERMKEY_SYM_LEFT]
              [0xe9; 0x1f600]) as [s' [E [Hb [Ho Hv]]]].
  - apply demo_session_prepared. vm_compute. discriminate.
  - reflexivity.
  - reflexivity.
  - vm_compute. split; congruence.
  - vm_compute. congruence.
  - vm_compute. split; congruence.
  - vm_compute. reflexivity.
  - repeat constructor.
  - vm_compute. reflexivity.
  - repeat constructor.
  - exists s'. split; [exact E|]. split; [exact Hb|]. split; [exact Ho|exact Hv].
Defined.

(** ** A line that is typed and committed *)

Lemma nonescape_loop_nonneg sv : forall st r, 0 <= r -> 0 <= nonescape_loop sv st r.
Proof.
  induction sv as [|ch sv IH]; intros st r Hr; cbn [nonescape_loop]; [exact Hr|].
  destruct (negb st); [|apply IH; exact Hr].
  destruct (ch =? 27); [apply IH; exact Hr|].
  destruct (negb (Z.land ch 192 =? 128)); apply IH; lia.
Qed.

(** [prepare] opens a closed session, and the fields that it leaves
    alone. *)
Lemma prepare_opens su s0 :
  term_state s0 = closed -> su_key_eperm su = false -> fst (su_cursor su) = 1 ->
  wp (prepare su) s0
     (fun _ s _ =>
        term_state s = open /\ tkfd s = tkfd s0
        /\ multiline s = multiline s0 /\ insert s = insert s0
        /\ max_lines s = max_lines s0 /\ requested_pos_x s = requested_pos_x s0
        /\ prompt_len s = u32 (nonescape_len (prompt_of su s0))
        /\ term_cols s = fst (update_winsize (su_winsize su))
        /\ buffer s = []).
Proof.
  intros H He Hc.
  unfold prepare, setup_epoll, draw_frame, show_empty_message, frame_is, prompt_of.
  rewrite <- Z.eqb_eq in Hc.
  repeat (first
            [ wp_step
            | match goal with
              | |- wp (if ?c then _ else _) _ _ => destruct c eqn:?
              | |- wp (assert _) _ _ =>
                apply wp_assert;
                [first [reflexivity | rewrite H; reflexivity | rewrite He; reflexivity
                       | exact Hc]|]
              | |- wp (match ?x with (_, _) => _ end) _ _ => destruct x eqn:?
              end ];
          fields).
  all: try (rewrite H in *; discriminate).
  all: cbv beta; repeat (split; [first [reflexivity | congruence]|]).
  all: reflexivity.
Qed.

(** An empty buffer has no codepoints, and the cursor is at its start. *)
Lemma editing_empty B s : editing B s -> buffer s = [] -> edit_inv B s [] 0.
Proof.
  intros [cs [k [Ht Hc]]] Hb.
  pose proof Ht as [_ _ _ Hks Hb' _ _ _]. pose proof Hc as [Hk _ _ _ _ _].
  assert (cs = []) as ->.
  { destruct cs as [|c cs]; [reflexivity|].
    inversion Hks as [|? ? Hkc _]; subst.
    pose proof (utf8_seq_length c (key_seq_utf8 c Hkc)) as Hl.
    rewrite Hb in Hb'. cbn [concat] in Hb'.
    destruct c; [unfold zlength in Hl; simpl in Hl; lia|discriminate Hb']. }
  change (zlength (@nil (list Z))) with 0 in Hk.
  assert (k = 0) as -> by lia. split; assumption.
Qed.

Section TypedLine.

Variable uc_is_word : Z -> bool.

Lemma getkey_loop_app pre : forall post s s1 o1,
  getkey_loop uc_is_word pre s = Some (false, s1, o1) ->
  getkey_loop uc_is_word (pre ++ post) s
  = match getkey_loop uc_is_word post s1 with
    | Some (d, s2, o2) => Some (d, s2, o1 ++ o2)
    | None => None
    end.
Proof.
  induction pre as [|p pre IH]; intros post s s1 o1 H.
  - cbn [getkey_loop] in H. inversion H; subst. cbn [app].
    destruct (getkey_loop uc_is_word post s1) as [[[d s2] o2]|]; reflexivity.
  - cbn [getkey_loop app] in *. unfold bind at 1 in H. unfold bind at 1.
    unfold get in *.
    destruct (is_cancel s p); [discriminate H|].
    unfold bind in H. unfold bind.
    destruct (on_key uc_is_word p s) as [[[d s2] o2]|]; [|discriminate H].
    destruct d; [discriminate H|].
    destruct (getkey_loop uc_is_word pre s2) as [[[d3 s3] o3]|] eqn:E; [|discriminate H].
    inversion H; subst.
    rewrite (IH post _ _ _ E).
    destruct (getkey_loop uc_is_word post s1) as [[[d s4] o4]|]; [|reflexivity].
    rewrite !app_nil_l, <- !app_assoc. reflexivity.
Qed.

(** Enter ends the edit and changes nothing. *)
Lemma on_key_enter s :
  on_key uc_is_word (key_sym TERMKEY_SYM_ENTER) s = Some (true, s, []).
Proof.
  unfold on_key. cbn [type key_sym code modifiers].
  change (key_map_find (key_map uc_is_word) _) with (Some cb_enter).
  unfold bind, get, cb_enter, ret.
  destruct (zlength (buffer s) =? 0); reflexivity.
Qed.

Lemma getkey_loop_enter more s :
  getkey_loop uc_is_word (key_sym TERMKEY_SYM_ENTER :: more) s = Some (true, s, []).
Proof.
  cbn [getkey_loop]. unfold bind, get.
  change (is_cancel s (key_sym TERMKEY_SYM_ENTER)) with false. cbv beta iota.
  rewrite on_key_enter. reflexivity.
Qed.

(** The events that only deliver text. *)
Lemma wait_loop_typing groups : forall B s cs k evs (Q : handle -> Prop),
  edit_inv B s cs k -> B + 4 * zlength (concat groups) + 2 < 2 ^ 31 ->
  Forall (Forall (fun uc => typed_codepoint uc = true)) groups ->
  (forall s',
     tkfd s' = tkfd s -> term_state s' = term_state s ->
     edit_inv (B + 4 * zlength (concat groups)) s'
       (ztake k cs ++ map utf8_encode (concat groups) ++ zdrop k cs)
       (k + zlength (concat groups)) ->
     wp (wait_loop uc_is_word evs) s' (fun _ s2 _ => Q s2)) ->
  wp (wait_loop uc_is_word (map (typing_event (tkfd s)) groups ++ evs)) s
     (fun _ s2 _ => Q s2).
Proof.
  induction groups as [|g groups IH]; intros B s cs k evs Q He HB Hal Hk.
  - cbn [map app]. apply Hk; [reflexivity|reflexivity|].
    cbn [concat map app]. rewrite ztake_zdrop.
    change (zlength (@nil Z)) with 0. rewrite Z.mul_0_r, !Z.add_0_r. exact He.
  - inversion Hal as [|? ? Hg Hal']; subst.
    cbn [concat] in *. rewrite zlength_app in *.
    pose proof (zlength_nonneg g). pose proof (zlength_nonneg (concat groups)).
    destruct (getkey_codepoints_inv uc_is_word g B s cs k He ltac:(lia) Hg)
      as [done [s1 [o1 [E [-> He1]]]]].
    pose proof (getkey_loop_term_state _ _ _ _ _ _ E) as Hts.
    destruct (getkey_loop_frame _ _ _ _ _ _ E) as [Htk _].
    cbn [map app typing_event wait_loop]. apply wp_bind.
    eapply wp_eq;
      [rewrite handle_one_key by reflexivity; cbn [keys keys_end is_eof];
       rewrite E; reflexivity|].
    cbn [orb]. cbv iota beta. rewrite <- Htk.
    eapply wp_mono; [apply (IH _ s1 _ _ evs Q He1); [lia|exact Hal'|]|].
    + intros s' Htk' Hts' He'. apply Hk; [congruence|congruence|].
      pose proof He as [_ [Hkr _ _ _ _ _]].
      assert (zlength (map utf8_encode g) = zlength g) as Hlen
        by (unfold zlength; rewrite length_map; reflexivity).
      rewrite (app_assoc (ztake k cs) (map utf8_encode g) (zdrop k cs)) in He'.
      replace (k + zlength g) with (zlength (ztake k cs ++ map utf8_encode g)) in He' at 1 2
        by (rewrite zlength_app, zlength_ztake, Hlen by lia; reflexivity).
      rewrite ztake_app_exact, zdrop_app_exact in He'.
      rewrite map_app, <- !app_assoc.
      rewrite <- app_assoc in He'.
      replace (B + 4 * (zlength g + zlength (concat groups)))
        with (B + 4 * zlength g + 4 * zlength (concat groups)) by lia.
      replace (k + (zlength g + zlength (concat groups)))
        with (k + zlength g + zlength (concat groups)) by lia.
      exact He'.
    + cbv beta. intros _ s2 _ HQ. exact HQ.
Qed.

End TypedLine.

Lemma utf8_decode_encode ucs :
  Forall (fun uc => typed_codepoint uc = true) ucs ->
  utf8_decode (concat (map utf8_encode ucs))
  = Some (map (fun uc => (uc, utf8_encode uc)) ucs).
Proof.
  intros H. rewrite utf8_decode_chunks.
  - rewrite map_map. f_equal. apply map_ext_in. intros uc Hin.
    rewrite Forall_forall in H. rewrite (utf8_encode_char uc (H uc Hin)). reflexivity.
  - apply key_seqs_chunks. apply Forall_map.
    eapply Forall_impl; [|exact H]. intros uc Huc. apply (utf8_encode_typed uc Huc).
Qed.

Section ReadLine.

Variable uc_is_word : Z -> bool.

(** X14. [read] on a closed multi-line session in insert mode, when the
    terminal accepts the key descriptor and reports the cursor in column 1,
    the prompt is narrower than the window, and the events of the key
    descriptor deliver the keys of the codepoints [groups] (event by event),
    then those of [last] and Enter: all of that is handled, [read] returns
    the UTF-8 encoding of the codepoints in the order they were typed, the
    session is closed again and still holds the line, and the line decodes
    to the typed codepoints.  Keys behind Enter and later events are not
    looked at. *)
Theorem read_returns_typed_line (su : setup) (s0 : handle)
        (groups : list (list Z)) (last : list Z) (more : list TermKeyKey)
        (tail : TermKeyResult) (ws : option (Z * Z))
        (rest : list (epoll_event * input)) :
  term_state s0 = closed -> su_key_eperm su = false -> fst (su_cursor su) = 1 ->
  multiline s0 = true -> insert s0 = true -> 1 <= max_lines s0 ->
  0 <= requested_pos_x s0 < 2 ^ 32 ->
  nonescape_len (prompt_of su s0) < fst (update_winsize (su_winsize su)) ->
  fst (update_winsize (su_winsize su)) + 4 * zlength (concat groups ++ last) + 2
  < 2 ^ 31 ->
  Forall (fun uc => typed_codepoint uc = true) (concat groups ++ last) ->
  exists s' out,
    read uc_is_word su
      (map (typing_event (tkfd s0)) groups
       ++ (mk_event (tkfd s0),
           mk_input (map key_unicode last ++ key_sym TERMKEY_SYM_ENTER :: more) tail ws)
          :: rest) s0
    = Some (concat (map utf8_encode (concat groups ++ last)), s', out)
    /\ term_state s' = closed
    /\ buffer s' = concat (map utf8_encode (concat groups ++ last))
    /\ utf8_decode (buffer s')
       = Some (map (fun uc => (uc, utf8_encode uc)) (concat groups ++ last)).
Proof.
  intros Hcl Hep Hcur Hm Hi Hmax Hq Hp HB Hal.
  set (text := concat groups ++ last) in *.
  cut (wp (read uc_is_word su
             (map (typing_event (tkfd s0)) groups
              ++ (mk_event (tkfd s0),
                  mk_input (map key_unicode last ++ key_sym TERMKEY_SYM_ENTER :: more)
                    tail ws) :: rest)) s0
          (fun line s' _ =>
             line = concat (map utf8_encode text) /\ term_state s' = closed
             /\ buffer s' = concat (map utf8_encode text))).
  { intros [line [s' [out [E [-> [Hc' Hb']]]]]]. exists s', out.
    split; [exact E|]. split; [exact Hc'|]. split; [exact Hb'|].
    rewrite Hb'. apply utf8_decode_encode. exact Hal. }
  apply Forall_app in Hal. destruct Hal as [Hg Hl].
  apply Forall_concat in Hg.
  unfold text in HB. rewrite zlength_app in HB.
  pose proof (zlength_nonneg (concat groups)). pose proof (zlength_nonneg last).
  pose proof (nonescape_loop_nonneg (prompt_of su s0) false 0 ltac:(lia)) as Hp0.
  fold (nonescape_len (prompt_of su s0)) in Hp0.
  unfold read, the_loop.
  apply wp_bind. apply wp_bind.
  destruct (prepare_opens su s0 Hcl Hep Hcur)
    as [[] [s [o [E0 [Hop [Htk [Hm' [Hi' [Hmax' [Hq' [Hpl [Hco Hb]]]]]]]]]]]].
  rewrite u32_small in Hpl by lia.
  eapply wp_eq; [exact E0|].
  assert (editing (term_cols s) s) as He.
  { apply freshly_prepared_editing; try congruence; try lia.
    exists su, s0, o. split; assumption. }
  apply editing_empty in He; [|exact Hb].
  apply wp_bind. rewrite <- Htk.
  apply wp_mono with
    (Q := fun _ s2 _ => term_state s2 = open
                        /\ buffer s2 = concat (map utf8_encode text));
    [apply (wait_loop_typing uc_is_word groups _ s [] 0 _
              (fun s2 => term_state s2 = open
                         /\ buffer s2 = concat (map utf8_encode text)) He);
     [lia|exact Hg|]|].
  - intros s1 Htk1 Hts1 He1.
    cbn [ztake zdrop firstn skipn Z.to_nat app] in He1. rewrite app_nil_r in He1.
    destruct (getkey_codepoints_inv uc_is_word last _ s1 _ _ He1 ltac:(lia) Hl)
      as [done [s2 [o2 [E2 [-> He2]]]]].
    pose proof (getkey_loop_term_state _ _ _ _ _ _ E2) as Hts2.
    cbn [wait_loop]. apply wp_bind.
    eapply wp_eq;
      [rewrite handle_one_key by (cbn [data_fd]; congruence); cbn [keys keys_end];
       rewrite (getkey_loop_app uc_is_word _ _ _ _ _ E2), getkey_loop_enter;
       reflexivity|].
    cbn [orb]. cbv iota beta. wp_steps.
    split; [congruence|].
    destruct He2 as [[_ _ _ _ Hb2 _ _ _] _]. rewrite Hb2.
    assert (zlength (map utf8_encode (concat groups)) = zlength (concat groups)) as Hlen
      by (unfold zlength; rewrite length_map; reflexivity).
    rewrite ztake_all, zdrop_all by lia.
    rewrite app_nil_r, <- map_app. reflexivity.
  - cbv beta. intros _ s2 _ [Hop2 Hb2].
    apply wp_bind. destruct (leave_runs s2) as [ol El].
    eapply wp_eq; [exact El|].
    eapply wp_eq; [apply finalize_open; exact Hop2|].
    wp_steps. repeat split; assumption.
Qed.

End ReadLine.

(** A session as the constructor makes it, in a window of 20 columns: "h"
    arrives alone, "é!" together, and an emoticon with Enter and a key
    behind it. *)
Lemma read_returns_typed_line_witness :
  exists s' out,
    read ascii_word (demo_setup 20)
      (map (typing_event 0) [[0x68]; [0xe9; 0x21]]
       ++ (mk_event 0,
           mk_input (map key_unicode [0x1f600]
                     ++ key_sym TERMKEY_SYM_ENTER :: [key_unicode 0x78])
             TERMKEY_RES_NONE None) :: [])
      (new_handle 3 false 0 flags_none 0 demo_info)
    = Some ([0x68; 0xc3; 0xa9; 0x21; 0xf0; 0x9f; 0x98; 0x80], s', out)
    /\ term_state s' = closed
    /\ buffer s' = [0x68; 0xc3; 0xa9; 0x21; 0xf0; 0x9f; 0x98; 0x80]
    /\ utf8_decode (buffer s')
       = Some [(0x68, [0x68]); (0xe9, [0xc3; 0xa9]); (0x21, [0x21]);
               (0x1f600, [0xf0; 0x9f; 0x98; 0x80])].
Proof.
  destruct (read_returns_typed_line ascii_word (demo_setup 20)
              (new_handle 3 false 0 flags_none 0 demo_info)
              [[0x68]; [0xe9; 0x21]] [0x1f600] [key_unicode 0x78]
              TERMKEY_RES_NONE None [])
    as [s' [out [E [Hc [Hb Hd]]]]].
  - reflexivity.
  - reflexivity.
  - reflexivity.
  - reflexivity.
  - reflexivity.
  - vm_compute. congruence.
  - vm_compute. split; congruence.
  - vm_compute. reflexivity.
  - vm_compute. reflexivity.
  - repeat constructor.
  - exists s', out. split; [exact E|]. split; [exact Hc|]. split; [exact Hb|exact Hd].
Defined.

(** ** Editing at the cursor *)

(** The codepoint before the cursor [k] and the one at the cursor, in
    the units of the buffer. *)
Lemma chunk_before cs k :
  chunks_ok cs -> 0 < k <= zlength cs ->
  exists c,
    zget cs (k - 1) = Some c /\ utf8_seq c = true
    /\ concat cs = concat (ztake (k - 1) cs) ++ c ++ concat (zdrop k cs)
    /\ cp_offset cs k = zlength (concat (ztake (k - 1) cs) ++ c)
    /\ cp_offset cs (k - 1) = zlength (concat (ztake (k - 1) cs)).
Proof.
  intros Hcs Hk. destruct (zget_range cs (k - 1) ltac:(lia)) as [c Hc].
  exists c. split; [exact Hc|]. split; [apply (chunks_ok_zget cs (k - 1)); assumption|].
  pose proof (zget_split cs (k - 1) c Hc) as Hs.
  pose proof (ztake_snoc_zget cs (k - 1) c Hc) as Ht.
  replace (k - 1 + 1) with k in * by lia.
  split; [|split].
  - rewrite Hs at 1. rewrite concat_app. cbn [concat]. reflexivity.
  - unfold cp_offset. rewrite Ht, concat_app. cbn [concat]. rewrite app_nil_r.
    reflexivity.
  - reflexivity.
Qed.

Lemma chunk_at cs k :
  chunks_ok cs -> 0 <= k < zlength cs ->
  exists c,
    zget cs k = Some c /\ utf8_seq c = true
    /\ concat cs = concat (ztake k cs) ++ c ++ concat (zdrop (k + 1) cs)
    /\ cp_offset cs k = zlength (concat (ztake k cs))
    /\ cp_offset cs (k + 1) = zlength (concat (ztake k cs) ++ c).
Proof.
  intros Hcs Hk.
  destruct (chunk_before cs (k + 1) Hcs ltac:(lia)) as [c [Hgc [Hu [H1 [H2 H3]]]]].
  replace (k + 1 - 1) with k in * by lia.
  exists c. repeat split; assumption.
Qed.

Lemma cp_offset_removed cs i j :
  0 <= i <= zlength cs -> cp_offset (ztake i cs ++ zdrop j cs) i = cp_offset cs i.
Proof.
  intros H. apply (cp_offset_prefix _ _ i); [|lia].
  apply ztake_prefix; lia.
Qed.

Lemma offset_pos_index cs k : 0 < cp_offset cs k -> 0 < k.
Proof.
  intros H. destruct (Z.ltb_spec 0 k); [assumption|].
  rewrite cp_offset_0 in H by lia. lia.
Qed.

Lemma offset_lt_index cs k :
  0 <= k -> cp_offset cs k < zlength (concat cs) -> k < zlength cs.
Proof.
  intros H0 H. destruct (Z.ltb_spec k (zlength cs)); [assumption|].
  rewrite cp_offset_all in H by lia. lia.
Qed.

Lemma wp_after {A} (m : M A) s (Q : A -> handle -> list Z -> Prop) (P : A -> handle -> Prop) :
  wp m s Q -> after m s P -> wp m s (fun a s' o => Q a s' o /\ P a s').
Proof.
  intros [a [s' [o [E HQ]]]] HP. exists a, s', o.
  split; [exact E|]. split; [exact HQ|exact (HP a s' o E)].
Qed.

(** The edit actions end in [return false]. *)
Lemma after_ret_false {A} (m : handle -> M A) s :
  after (s1 <- get ;; m s1 ;; ret false) s (fun d _ => d = false).
Proof.
  intros d s' o E. unfold bind, get, ret in E.
  destruct (m s s) as [[[a s1] o1]|]; [|discriminate E].
  inversion E. reflexivity.
Qed.

Section KeyActions.

Variable uc_is_word : Z -> bool.

(** A symbol key of the table runs its action; the empty message, when
    it is shown afterwards, changes nothing in the session. *)
Lemma wp_on_key_sym k cb s (Q : bool -> handle -> Prop) :
  type k = TERMKEY_TYPE_KEYSYM ->
  key_map_find (key_map uc_is_word) (mk_tkey true (key_mods k) (code k)) = Some cb ->
  wp cb s (fun d s' _ => Q d s') ->
  wp (on_key uc_is_word k) s (fun d s' _ => Q d s').
Proof.
  intros Hty Hfind H. unfold key_mods in Hfind.
  unfold on_key. rewrite Hty. wp_steps. rewrite Hfind. wp_steps.
  eapply wp_mono; [exact H|].
  cbv beta. intros res s' _ HQ. wp_steps.
  wp_frame.
  { destruct (negb (zlength (buffer s) =? 0) && (zlength (buffer s') =? 0)
              && negb (zlength (empty_message s') =? 0));
      [apply wp_show_empty_message; intros _|wp_steps]; reflexivity. }
  wp_steps. exact HQ.
Qed.

(** A letter with Ctrl or Alt that is in the table runs its action. *)
Lemma on_key_mod k cb s :
  type k = TERMKEY_TYPE_UNICODE ->
  Z.land (modifiers k) (Z.lor TERMKEY_KEYMOD_ALT TERMKEY_KEYMOD_CTRL) <> 0 ->
  key_map_find (key_map uc_is_word) (mk_tkey false (key_mods k) (code k)) = Some cb ->
  on_key uc_is_word k s = cb s.
Proof.
  intros Hty Hmod Hfind. unfold key_mods in Hfind.
  unfold on_key. rewrite Hty.
  destruct (Z.eqb_spec (Z.land (modifiers k)
                          (Z.lor TERMKEY_KEYMOD_ALT TERMKEY_KEYMOD_CTRL)) 0);
    [contradiction|].
  rewrite Hfind. reflexivity.
Qed.

End KeyActions.

(** Two sessions with the same codepoints in windows of the same shape
    have the same buffer and the same rows. *)
Lemma same_text B B' s s' cs k k' :
  edit_inv B s cs k -> edit_inv B' s' cs k' ->
  term_cols s' = term_cols s -> prompt_len s' = prompt_len s ->
  buffer s' = buffer s /\ line_offset s' = line_offset s.
Proof.
  intros [[_ _ _ _ Hb _ Hr _] _] [[_ _ _ _ Hb' _ Hr' _] _] Hc Hp.
  split; [congruence|]. rewrite Hr', Hr, Hc, Hp. reflexivity.
Qed.

Section MotionActions.

Variable uc_is_word : Z -> bool.

Lemma on_key_window k s d s' o :
  on_key uc_is_word k s = Some (d, s', o) ->
  term_cols s' = term_cols s /\ prompt_len s' = prompt_len s.
Proof.
  intros H. split.
  - revert H. apply (preserves_on_key uc_is_word term_cols); intros; reflexivity.
  - revert H. apply (preserves_on_key uc_is_word prompt_len); intros; reflexivity.
Qed.

(** The actions that only move the cursor keep the codepoints. *)
Lemma motion_inv B s cs k cb :
  edit_inv B s cs k -> B < 2 ^ 31 ->
  In cb [cb_beginning_of_line; cb_backward_char; cb_forward_char;
         cb_previous_screen_line; cb_next_screen_line;
         cb_backward_word uc_is_word; cb_forward_word uc_is_word] ->
  wp cb s (fun d s' _ => d = false /\ exists k', edit_inv B s' cs k').
Proof.
  intros He HB Hin.
  pose proof He as [[_ _ _ _ Hb _ _ _] [Hk Ho _ _ _ _]].
  cbn [In] in Hin.
  repeat (destruct Hin as [<-|Hin]); [| | | | | | |contradiction].
  - eapply wp_mono;
      [apply wp_after;
       [apply (cb_beginning_of_line_inv B s cs k He)
       |unfold cb_beginning_of_line; apply after_ret_false]|].
    cbv beta. intros d s' _ [He' ->]. split; [reflexivity|]. exists 0. exact He'.
  - destruct (Z.eq_dec k 0) as [->|Hk0].
    + unfold cb_backward_char. wp_steps.
      rewrite Ho, (cp_offset_0 cs 0) by lia. cbn [Z.ltb Z.compare].
      wp_steps. split; [reflexivity|]. exists 0. exact He.
    + eapply wp_mono;
        [apply wp_after;
         [apply (cb_backward_char_inv B s cs k He HB); lia
         |unfold cb_backward_char; apply after_ret_false]|].
      cbv beta. intros d s' _ [He' ->]. split; [reflexivity|].
      exists (k - 1). exact He'.
  - destruct (Z.eq_dec k (zlength cs)) as [->|Hk0].
    + unfold cb_forward_char. wp_steps.
      rewrite Ho, Hb, (cp_offset_all cs (zlength cs)), Z.ltb_irrefl by lia.
      wp_steps. split; [reflexivity|]. exists (zlength cs). exact He.
    + eapply wp_mono;
        [apply wp_after;
         [apply (cb_forward_char_inv B s cs k He HB); lia
         |unfold cb_forward_char; apply after_ret_false]|].
      cbv beta. intros d s' _ [He' ->]. split; [reflexivity|].
      exists (k + 1). exact He'.
  - eapply wp_mono;
      [apply wp_after;
       [apply (cb_previous_screen_line_inv B s cs k He HB)
       |unfold cb_previous_screen_line; apply after_ret_false]|].
    cbv beta. intros d s' _ [He' ->]. split; [reflexivity|exact He'].
  - eapply wp_mono;
      [apply wp_after;
       [apply (cb_next_screen_line_inv B s cs k He HB)
       |unfold cb_next_screen_line; apply after_ret_false]|].
    cbv beta. intros d s' _ [He' ->]. split; [reflexivity|exact He'].
  - eapply wp_mono;
      [apply wp_after;
       [apply (cb_backward_word_inv uc_is_word B s cs k He HB)
       |unfold cb_backward_word; apply after_ret_false]|].
    cbv beta. intros d s' _ [He' ->]. split; [reflexivity|exact He'].
  - eapply wp_mono;
      [apply wp_after;
       [apply (cb_forward_word_inv uc_is_word B s cs k He HB)
       |unfold cb_forward_word; apply after_ret_false]|].
    cbv beta. intros d s' _ [He' ->]. split; [reflexivity|exact He'].
Qed.

End MotionActions.

(** Ctrl-U takes the codepoints before the cursor out, recomputes the
    rows and puts the screen cursor behind the prompt; [offset] is not
    written. *)
Lemma cb_unix_line_discard_text B s cs k :
  edit_inv B s cs k -> B < 2 ^ 31 - 2 -> 0 < k ->
  wp cb_unix_line_discard s
     (fun d s' _ =>
        d = false /\ text_inv B s' (zdrop k cs)
        /\ offset s' = offset s /\ pos_x s' = prompt_len s' /\ pos_y s' = 0
        /\ requested_pos_x s' = requested_pos_x s).
Proof.
  intros He HB Hk0. inv_facts He.
  pose proof (cp_offset_pos cs k Hcs ltac:(lia)) as Hpos.
  pose proof (cp_offset_le_len cs k) as Hle.
  set (cs' := zdrop k cs).
  assert (Forall (fun c => key_seq c = true) cs') as Hks'
    by (apply Forall_zdrop; assumption).
  pose proof (key_seqs_chunks _ Hks') as Hcs'.
  assert (zlength cs' = zlength cs - k) as Hlen' by (apply zlength_zdrop; lia).
  assert (zlength (concat cs') <= zlength (concat cs)) as Hcl'.
  { rewrite (concat_ztake_zdrop cs k), zlength_app. fold cs'.
    pose proof (zlength_nonneg (concat (ztake k cs))). lia. }
  unfold cb_unix_line_discard. wp_steps.
  rewrite Ho, Hb.
  destruct (Z.ltb_spec 0 (cp_offset cs k)) as [_|]; [|lia].
  wp_steps. apply wp_assert; [boolZ; lia|].
  unfold verase. rewrite ztake_0, zdrop_cp_offset. cbn [app]. fold cs'.
  wp_steps.
  eapply (wp_recompute_line_offset _ cs cs' _ 0); fields;
    [exact Hp|lia|reflexivity|exact Hcs'|lia|exact Hrows|lia
    |rewrite row_start_0, !ztake_0; reflexivity|rewrite row_start_0; lia|].
  wp_steps.
  pose proof (row_count_mono (term_cols s - prompt_len s) (term_cols s)
                (zlength cs') (zlength cs) Ha Hco ltac:(lia) ltac:(lia)) as Hmono.
  split; [reflexivity|].
  split; [constructor; fields; auto; lia|].
  repeat split; first [reflexivity|exact Ho|symmetry; exact Ho].
Qed.

Section AtCursor.

Variable uc_is_word : Z -> bool.

(** The session [s] is reached from the state that [prepare] sets up, in
    multi-line and insert mode, by the keys [ks]. *)
Variables (s0 s : handle) (ks : list TermKeyKey).
Hypothesis R_prep : freshly_prepared s0.
Hypothesis R_multi : multiline s0 = true.
Hypothesis R_ins : insert s0 = true.
Hypothesis R_prompt : 0 <= prompt_len s0 < term_cols s0.
Hypothesis R_max : 1 <= max_lines s0.
Hypothesis R_req : 0 <= requested_pos_x s0 < 2 ^ 32.
Hypothesis R_room : term_cols s0 + 4 * zlength ks + 12 < 2 ^ 31.
Hypothesis R_keys : Forall (fun k => allowed_key k = true) ks.
Hypothesis R_run : type_keys uc_is_word ks s0 = Some s.

Lemma reached_edit_inv :
  exists cs k, edit_inv (term_cols s0 + 4 * zlength ks) s cs k.
Proof.
  pose proof (zlength_nonneg ks).
  pose proof (freshly_prepared_editing s0 R_prep R_multi R_ins R_prompt R_max R_req) as He0.
  destruct (type_keys_editing uc_is_word ks (term_cols s0) s0 He0 ltac:(lia) R_keys)
    as [s1 [E1 He]].
  rewrite R_run in E1. inversion E1; subst s1. exact He.
Qed.

(** X15. In a multi-line session in insert mode whose prompt is narrower than
    the window, after any keys other than End, Ctrl-E, Ctrl-U and Insert:
    Backspace takes the codepoint before the cursor out of the buffer,
    with all its units, and Delete the codepoint at the cursor; nothing
    else of the buffer changes, and the cursor stays between the same
    neighbours. *)
Theorem erase_removes_one_codepoint :
  (0 < offset s ->
   exists pre c post s' out,
     on_key uc_is_word (key_sym TERMKEY_SYM_BACKSPACE) s = Some (false, s', out)
     /\ buffer s = pre ++ c ++ post /\ utf8_seq c = true
     /\ offset s = zlength (pre ++ c)
     /\ buffer s' = pre ++ post /\ offset s' = zlength pre)
  /\ (offset s < zlength (buffer s) ->
      exists pre c post s' out,
        on_key uc_is_word (key_sym TERMKEY_SYM_DELETE) s = Some (false, s', out)
        /\ buffer s = pre ++ c ++ post /\ utf8_seq c = true
        /\ offset s = zlength pre
        /\ buffer s' = pre ++ post /\ offset s' = zlength pre).
Proof.
  destruct reached_edit_inv as [cs [k He]].
  pose proof (zlength_nonneg ks).
  pose proof He as He1. inv_facts He1.
  split; intros Hoff.
  - rewrite Ho in Hoff. pose proof (offset_pos_index _ _ Hoff) as Hk0.
    destruct (chunk_before cs k Hcs ltac:(lia)) as [c [Hgc [Hu [H1 [H2 H3]]]]].
    destruct (wp_on_key_sym uc_is_word (key_sym TERMKEY_SYM_BACKSPACE) cb_backspace s
                (fun d s' => d = false
                             /\ edit_inv (term_cols s0 + 4 * zlength ks) s'
                                  (ztake (k - 1) cs ++ zdrop k cs) (k - 1))
                eq_refl eq_refl)
      as [d [s' [out [E [-> He']]]]].
    { eapply wp_mono;
        [apply wp_after;
         [apply (cb_backspace_inv _ s cs k He); lia
         |unfold cb_backspace; apply after_ret_false]|].
      cbv beta. intros d s' _ [He' ->]. split; [reflexivity|exact He']. }
    exists (concat (ztake (k - 1) cs)), c, (concat (zdrop k cs)), s', out.
    destruct He' as [[_ _ _ _ Hb' _ _ _] [_ Ho' _ _ _ _]].
    split; [exact E|]. split; [rewrite Hb; exact H1|]. split; [exact Hu|].
    split; [rewrite Ho; exact H2|].
    split; [rewrite Hb', concat_app; reflexivity|].
    rewrite Ho', cp_offset_removed by lia. exact H3.
  - rewrite Ho, Hb in Hoff. pose proof (offset_lt_index cs k ltac:(lia) Hoff) as Hk0.
    destruct (chunk_at cs k Hcs ltac:(lia)) as [c [Hgc [Hu [H1 [H2 H3]]]]].
    destruct (wp_on_key_sym uc_is_word (key_sym TERMKEY_SYM_DELETE) cb_delete s
                (fun d s' => d = false
                             /\ edit_inv (term_cols s0 + 4 * zlength ks) s'
                                  (ztake k cs ++ zdrop (k + 1) cs) k)
                eq_refl eq_refl)
      as [d [s' [out [E [-> He']]]]].
    { eapply wp_mono;
        [apply wp_after;
         [apply (cb_delete_inv _ s cs k He); lia
         |unfold cb_delete; apply after_ret_false]|].
      cbv beta. intros d s' _ [He' ->]. split; [reflexivity|exact He']. }
    exists (concat (ztake k cs)), c, (concat (zdrop (k + 1) cs)), s', out.
    destruct He' as [[_ _ _ _ Hb' _ _ _] [_ Ho' _ _ _ _]].
    split; [exact E|]. split; [rewrite Hb; exact H1|]. split; [exact Hu|].
    split; [rewrite Ho; exact H2|].
    split; [rewrite Hb', concat_app; reflexivity|].
    rewrite Ho', cp_offset_removed by lia. exact H2.
Qed.

(** X16. In a multi-line session in insert mode whose prompt is narrower than
    the window, after any keys other than End, Ctrl-E, Ctrl-U and Insert:
    Left moves the cursor back over the codepoint before it, and Right
    forward over the codepoint at it, whatever the number of their units;
    the buffer is not changed. *)
Theorem cursor_moves_by_one_codepoint :
  (0 < offset s ->
   exists pre c post s' out,
     on_key uc_is_word (key_sym TERMKEY_SYM_LEFT) s = Some (false, s', out)
     /\ buffer s = pre ++ c ++ post /\ utf8_seq c = true
     /\ offset s = zlength (pre ++ c)
     /\ buffer s' = buffer s /\ offset s' = zlength pre)
  /\ (offset s < zlength (buffer s) ->
      exists pre c post s' out,
        on_key uc_is_word (key_sym TERMKEY_SYM_RIGHT) s = Some (false, s', out)
        /\ buffer s = pre ++ c ++ post /\ utf8_seq c = true
        /\ offset s = zlength pre
        /\ buffer s' = buffer s /\ offset s' = zlength (pre ++ c)).
Proof.
  destruct reached_edit_inv as [cs [k He]].
  pose proof (zlength_nonneg ks).
  pose proof He as He1. inv_facts He1.
  split; intros Hoff.
  - rewrite Ho in Hoff. pose proof (offset_pos_index _ _ Hoff) as Hk0.
    destruct (chunk_before cs k Hcs ltac:(lia)) as [c [Hgc [Hu [H1 [H2 H3]]]]].
    destruct (wp_on_key_sym uc_is_word (key_sym TERMKEY_SYM_LEFT) cb_backward_char s
                (fun d s' => d = false
                             /\ edit_inv (term_cols s0 + 4 * zlength ks) s' cs (k - 1))
                eq_refl eq_refl)
      as [d [s' [out [E [-> He']]]]].
    { eapply wp_mono;
        [apply wp_after;
         [apply (cb_backward_char_inv _ s cs k He); lia
         |unfold cb_backward_char; apply after_ret_false]|].
      cbv beta. intros d s' _ [He' ->]. split; [reflexivity|exact He']. }
    exists (concat (ztake (k - 1) cs)), c, (concat (zdrop k cs)), s', out.
    destruct He' as [[_ _ _ _ Hb' _ _ _] [_ Ho' _ _ _ _]].
    split; [exact E|]. split; [rewrite Hb; exact H1|]. split; [exact Hu|].
    split; [rewrite Ho; exact H2|].
    split; [congruence|]. rewrite Ho'. exact H3.
  - rewrite Ho, Hb in Hoff. pose proof (offset_lt_index cs k ltac:(lia) Hoff) as Hk0.
    destruct (chunk_at cs k Hcs ltac:(lia)) as [c [Hgc [Hu [H1 [H2 H3]]]]].
    destruct (wp_on_key_sym uc_is_word (key_sym TERMKEY_SYM_RIGHT) cb_forward_char s
                (fun d s' => d = false
                             /\ edit_inv (term_cols s0 + 4 * zlength ks) s' cs (k + 1))
                eq_refl eq_refl)
      as [d [s' [out [E [-> He']]]]].
    { eapply wp_mono;
        [apply wp_after;
         [apply (cb_forward_char_inv _ s cs k He); lia
         |unfold cb_forward_char; apply after_ret_false]|].
      cbv beta. intros d s' _ [He' ->]. split; [reflexivity|exact He']. }
    exists (concat (ztake k cs)), c, (concat (zdrop (k + 1) cs)), s', out.
    destruct He' as [[_ _ _ _ Hb' _ _ _] [_ Ho' _ _ _ _]].
    split; [exact E|]. split; [rewrite Hb; exact H1|]. split; [exact Hu|].
    split; [rewrite Ho; exact H2|].
    split; [congruence|]. rewrite Ho'. exact H3.
Qed.

(** X17. In a multi-line session in insert mode whose prompt is narrower than
    the window, after any keys other than End, Ctrl-E, Ctrl-U and Insert:
    The keys that only move the cursor (Ctrl-A, Home, Left, Right, Up,
    Down, Alt-B, Alt-F) are handled, do not end the edit, leave the buffer
    and the row starts as they are, and leave the cursor on a codepoint
    boundary inside the buffer. *)
Theorem motion_keys_keep_text (k : TermKeyKey) :
  In k [key_ctrl 0x61; key_sym TERMKEY_SYM_HOME; key_sym TERMKEY_SYM_LEFT;
        key_sym TERMKEY_SYM_RIGHT; key_sym TERMKEY_SYM_UP; key_sym TERMKEY_SYM_DOWN;
        key_alt 0x62; key_alt 0x66] ->
  exists s' out,
    on_key uc_is_word k s = Some (false, s', out)
    /\ buffer s' = buffer s /\ line_offset s' = line_offset s
    /\ 0 <= offset s' <= zlength (buffer s')
    /\ codepoint_boundary (buffer s') (offset s') = true.
Proof.
  intros Hin.
  destruct reached_edit_inv as [cs [k0 He]].
  pose proof (zlength_nonneg ks).
  set (B := term_cols s0 + 4 * zlength ks) in He |- *.
  assert (exists cb,
            In cb [cb_beginning_of_line; cb_backward_char; cb_forward_char;
                   cb_previous_screen_line; cb_next_screen_line;
                   cb_backward_word uc_is_word; cb_forward_word uc_is_word]
            /\ forall Q : bool -> handle -> Prop,
                 wp cb s (fun d s' _ => Q d s') ->
                 wp (on_key uc_is_word k) s (fun d s' _ => Q d s')) as [cb [Hcb Hrun]].
  { cbn [In] in Hin.
    repeat (destruct Hin as [<-|Hin]); [| | | | | | | |contradiction].
    - exists cb_beginning_of_line. split; [cbn [In]; tauto|]. intros Q HQ.
      unfold wp. rewrite (on_key_mod uc_is_word (key_ctrl 0x61) cb_beginning_of_line s eq_refl);
        [exact HQ|cbv; discriminate|reflexivity].
    - exists cb_beginning_of_line. split; [cbn [In]; tauto|]. intros Q.
      apply wp_on_key_sym; reflexivity.
    - exists cb_backward_char. split; [cbn [In]; tauto|]. intros Q.
      apply wp_on_key_sym; reflexivity.
    - exists cb_forward_char. split; [cbn [In]; tauto|]. intros Q.
      apply wp_on_key_sym; reflexivity.
    - exists cb_previous_screen_line. split; [cbn [In]; tauto|]. intros Q.
      apply wp_on_key_sym; reflexivity.
    - exists cb_next_screen_line. split; [cbn [In]; tauto|]. intros Q.
      apply wp_on_key_sym; reflexivity.
    - exists (cb_backward_word uc_is_word). split; [cbn [In]; tauto|]. intros Q HQ.
      unfold wp. rewrite (on_key_mod uc_is_word (key_alt 0x62) (cb_backward_word uc_is_word) s eq_refl);
        [exact HQ|cbv; discriminate|reflexivity].
    - exists (cb_forward_word uc_is_word). split; [cbn [In]; tauto|]. intros Q HQ.
      unfold wp. rewrite (on_key_mod uc_is_word (key_alt 0x66) (cb_forward_word uc_is_word) s eq_refl);
        [exact HQ|cbv; discriminate|reflexivity]. }
  destruct (Hrun (fun d s' => d = false /\ exists k', edit_inv B s' cs k')
              (motion_inv uc_is_word B s cs k0 cb He ltac:(unfold B; lia) Hcb))
    as [d [s' [out [E [-> [k' He']]]]]].
  exists s', out. split; [exact E|].
  destruct (on_key_window uc_is_word _ _ _ _ _ E) as [Hc Hp].
  destruct (same_text _ _ s s' cs k0 k' He He' Hc Hp) as [Hb Hl].
  split; [exact Hb|]. split; [exact Hl|].
  pose proof He' as [[_ _ _ Hks' Hb' _ _ _] [_ Ho' _ _ _ _]].
  rewrite Hb', Ho'.
  split; [split; [apply cp_offset_nonneg|apply cp_offset_le_len]|].
  apply cp_offset_boundary. apply key_seqs_chunks. exact Hks'.
Qed.

(** X18. In a multi-line session in insert mode whose prompt is narrower than
    the window, after any keys other than End, Ctrl-E, Ctrl-U and Insert:
    A typed codepoint and then Backspace: both keys are handled, and the
    buffer, the cursor offset and the row starts are what they were. *)
Theorem typed_then_backspace_restores (uc : Z) :
  typed_codepoint uc = true ->
  exists s1 o1 s2 o2,
    on_key uc_is_word (key_unicode uc) s = Some (false, s1, o1)
    /\ buffer s1
       = ztake (offset s) (buffer s) ++ utf8_encode uc ++ zdrop (offset s) (buffer s)
    /\ on_key uc_is_word (key_sym TERMKEY_SYM_BACKSPACE) s1 = Some (false, s2, o2)
    /\ buffer s2 = buffer s /\ offset s2 = offset s
    /\ line_offset s2 = line_offset s.
Proof.
  intros Huc.
  destruct reached_edit_inv as [cs [k He]].
  pose proof (zlength_nonneg ks).
  set (B := term_cols s0 + 4 * zlength ks) in He |- *.
  pose proof He as [[_ _ _ _ Hb _ _ _] [Hk Ho _ _ _ _]].
  destruct (utf8_encode_typed uc Huc) as [Henc Hkc].
  destruct (on_key_insert_exact uc_is_word B s cs k (key_unicode uc) (utf8_encode uc))
    as [d1 [s1 [o1 [E1 [-> He1]]]]];
    [exact He|unfold B; lia|reflexivity|reflexivity
    |cbn [code key_unicode]; rewrite typed_codepoint_u32 by exact Huc; exact Henc
    |exact Hkc|].
  destruct (wp_on_key_sym uc_is_word (key_sym TERMKEY_SYM_BACKSPACE) cb_backspace s1
              (fun d s' => d = false /\ edit_inv (B + 4) s' cs k)
              eq_refl eq_refl)
    as [d2 [s2 [o2 [E2 [-> He2]]]]].
  { eapply wp_mono;
      [apply wp_after;
       [apply (cb_backspace_inv _ s1 _ (k + 1) He1); unfold B; lia
       |unfold cb_backspace; apply after_ret_false]|].
    cbv beta. intros d s' _ [He' ->]. split; [reflexivity|].
    replace (k + 1 - 1) with k in He' by lia.
    rewrite zdrop_insert1 in He' by lia.
    rewrite ztake_prefix, ztake_zdrop in He' by lia. exact He'. }
  exists s1, o1, s2, o2. split; [exact E1|].
  split.
  { destruct He1 as [[_ _ _ _ Hb1 _ _ _] _].
    rewrite Hb1, Ho, Hb, ztake_cp_offset, zdrop_cp_offset, !concat_app.
    cbn [concat]. rewrite app_nil_r. reflexivity. }
  split; [exact E2|].
  destruct (on_key_window uc_is_word _ _ _ _ _ E1) as [Hc1 Hp1].
  destruct (on_key_window uc_is_word _ _ _ _ _ E2) as [Hc2 Hp2].
  destruct (same_text _ _ s s2 cs k k He He2 ltac:(congruence) ltac:(congruence))
    as [Hb2 Hl2].
  split; [exact Hb2|]. split; [|exact Hl2].
  destruct He2 as [_ [_ Ho2 _ _ _ _]]. congruence.
Qed.

(** X19. In a multi-line session in insert mode whose prompt is narrower than
    the window, after any keys other than End, Ctrl-E, Ctrl-U and Insert:
    Ctrl-K cuts the buffer at the cursor: what was before the cursor
    stays, the cursor offset too; a second Ctrl-K changes nothing and
    writes nothing. *)
Theorem kill_line_cuts_at_cursor :
  exists s' out,
    on_key uc_is_word (key_ctrl 0x6b) s = Some (false, s', out)
    /\ buffer s' = ztake (offset s) (buffer s) /\ offset s' = offset s
    /\ on_key uc_is_word (key_ctrl 0x6b) s' = Some (false, s', []).
Proof.
  destruct reached_edit_inv as [cs [k He]].
  pose proof (zlength_nonneg ks).
  set (B := term_cols s0 + 4 * zlength ks) in He |- *.
  pose proof He as [[_ _ _ _ Hb _ _ _] [Hk Ho _ _ _ _]].
  destruct (wp_after _ _ _ (fun d _ => d = false)
              (cb_kill_line_inv B s cs k He ltac:(unfold B; lia)))
    as [d [s' [out [E [He' ->]]]]];
    [unfold cb_kill_line; apply after_ret_false|].
  exists s', out.
  rewrite (on_key_mod uc_is_word (key_ctrl 0x6b) cb_kill_line s eq_refl),
    (on_key_mod uc_is_word (key_ctrl 0x6b) cb_kill_line s' eq_refl)
    by (first [reflexivity|cbv; discriminate]).
  split; [exact E|].
  destruct He' as [[_ _ _ _ Hb' _ _ _] [_ Ho' _ _ _ _]].
  assert (offset s' = zlength (buffer s')) as Hend.
  { rewrite Ho', Hb'. unfold cp_offset. rewrite ztake_all; [reflexivity|].
    rewrite zlength_ztake; lia. }
  split; [rewrite Hb', Ho, Hb, ztake_cp_offset; reflexivity|].
  split.
  { rewrite Ho', Ho. unfold cp_offset. rewrite ztake_ztake by lia. reflexivity. }
  unfold cb_kill_line, bind, get. cbv beta iota.
  rewrite Hend, Z.ltb_irrefl. reflexivity.
Qed.

(** X20. In a multi-line session in insert mode whose prompt is narrower than
    the window, after any keys other than End, Ctrl-E, Ctrl-U and Insert:
    Ctrl-U with the cursor behind the start of the buffer: the units
    before the cursor are taken out, the rows fit the new buffer and the
    screen cursor is put behind the prompt, but the cursor offset keeps its
    value.  When less was behind the cursor than before it, the offset is
    now beyond the end of the buffer, and the next key that inserts fails
    the assertion of [on_key]. *)
Theorem line_discard_keeps_offset :
  0 < offset s ->
  exists s' out,
    on_key uc_is_word (key_ctrl 0x75) s = Some (false, s', out)
    /\ buffer s' = zdrop (offset s) (buffer s)
    /\ line_offset_ok s' = true
    /\ pos_x s' = prompt_len s' /\ pos_y s' = 0
    /\ offset s' = offset s
    /\ (zlength (buffer s) < 2 * offset s ->
        forall uc, on_key uc_is_word (key_unicode uc) s' = None).
Proof.
  intros Hoff.
  destruct reached_edit_inv as [cs [k He]].
  pose proof (zlength_nonneg ks).
  set (B := term_cols s0 + 4 * zlength ks) in He |- *.
  pose proof He as [[_ _ _ _ Hb _ _ _] [Hk Ho _ _ _ Hq]].
  rewrite Ho in Hoff. pose proof (offset_pos_index _ _ Hoff) as Hk0.
  destruct (cb_unix_line_discard_text B s cs k He ltac:(unfold B; lia) Hk0)
    as [d [s' [out [E [-> [Ht' [Ho' [Hx' [Hy' Hq']]]]]]]]].
  exists s', out.
  rewrite (on_key_mod uc_is_word (key_ctrl 0x75) cb_unix_line_discard s eq_refl)
    by (first [reflexivity|cbv; discriminate]).
  split; [exact E|].
  pose proof Ht' as [_ _ _ _ Hb' _ _ _].
  assert (buffer s' = zdrop (offset s) (buffer s)) as Hbuf
    by (rewrite Hb', Ho, Hb, zdrop_cp_offset; reflexivity).
  split; [exact Hbuf|].
  split.
  { change (line_offset_ok s') with (line_offset_ok (set_offset 0 s')).
    apply (editing_line_offset_ok B). exists (zdrop k cs), 0.
    split; [text_frame Ht'|].
    constructor; fields.
    - pose proof (zlength_nonneg (zdrop k cs)). lia.
    - rewrite cp_offset_0 by lia. reflexivity.
    - lia.
    - rewrite Hy', row_start_0. lia.
    - rewrite Hy', row_start_0, Hx'. cbn [Z.eqb]. lia.
    - rewrite Hq'. exact Hq. }
  split; [exact Hx'|]. split; [exact Hy'|]. split; [exact Ho'|].
  intros Hhalf uc.
  pose proof (cp_offset_le_len cs k) as Hle.
  assert ((0 <=? offset s') && (offset s' <=? zlength (buffer s')) = false) as Hfail.
  { rewrite Hbuf, Ho', zlength_zdrop by (rewrite Ho, Hb; lia).
    rewrite Ho in Hhalf |- *. rewrite Hb in Hhalf |- *.
    destruct (Z.leb_spec 0 (cp_offset cs k)); [|lia].
    destruct (Z.leb_spec (cp_offset cs k) (zlength (concat cs) - cp_offset cs k)); [lia|].
    reflexivity. }
  unfold on_key. cbn [type key_unicode modifiers].
  change (Z.land 0 (Z.lor TERMKEY_KEYMOD_ALT TERMKEY_KEYMOD_CTRL) =? 0) with true.
  cbv iota. unfold bind at 1, get. cbv beta iota. unfold bind at 1.
  rewrite Hfail. reflexivity.
Qed.

End AtCursor.

(** The conditions on the session of the examples. *)
Ltac demo_reached :=
  lazymatch goal with
  | |- freshly_prepared _ => apply demo_session_prepared; vm_compute; discriminate
  | |- Forall _ _ => repeat constructor
  | |- _ /\ _ => vm_compute; split; congruence
  | |- _ <= _ => vm_compute; congruence
  | |- _ => vm_compute; reflexivity
  end.

(** Between "é" and "€": Backspace takes the two units of "é", Delete the
    three units of "€". *)
Lemma erase_removes_one_codepoint_witness :
  (exists pre c post s' out,
     on_key ascii_word (key_sym TERMKEY_SYM_BACKSPACE) mixed_session
     = Some (false, s', out)
     /\ buffer mixed_session = pre ++ c ++ post /\ utf8_seq c = true
     /\ offset mixed_session = zlength (pre ++ c)
     /\ buffer s' = pre ++ post /\ offset s' = zlength pre)
  /\ (exists pre c post s' out,
        on_key ascii_word (key_sym TERMKEY_SYM_DELETE) mixed_session
        = Some (false, s', out)
        /\ buffer mixed_session = pre ++ c ++ post /\ utf8_seq c = true
        /\ offset mixed_session = zlength pre
        /\ buffer s' = pre ++ post /\ offset s' = zlength pre).
Proof.
  destruct (erase_removes_one_codepoint ascii_word (demo_session 20 true true)
              mixed_session mixed_keys) as [H1 H2]; [demo_reached..|].
  split; [apply H1|apply H2]; vm_compute; reflexivity.
Defined.

Lemma cursor_moves_by_one_codepoint_witness :
  (exists pre c post s' out,
     on_key ascii_word (key_sym TERMKEY_SYM_LEFT) mixed_session = Some (false, s', out)
     /\ buffer mixed_session = pre ++ c ++ post /\ utf8_seq c = true
     /\ offset mixed_session = zlength (pre ++ c)
     /\ buffer s' = buffer mixed_session /\ offset s' = zlength pre)
  /\ (exists pre c post s' out,
        on_key ascii_word (key_sym TERMKEY_SYM_RIGHT) mixed_session
        = Some (false, s', out)
        /\ buffer mixed_session = pre ++ c ++ post /\ utf8_seq c = true
        /\ offset mixed_session = zlength pre
        /\ buffer s' = buffer mixed_session /\ offset s' = zlength (pre ++ c)).
Proof.
  destruct (cursor_moves_by_one_codepoint ascii_word (demo_session 20 true true)
              mixed_session mixed_keys) as [H1 H2]; [demo_reached..|].
  split; [apply H1|apply H2]; vm_compute; reflexivity.
Defined.

(** Alt-B between "é" and "€". *)
Lemma motion_keys_keep_text_witness :
  exists s' out,
    on_key ascii_word (key_alt 0x62) mixed_session = Some (false, s', out)
    /\ buffer s' = buffer mixed_session
    /\ line_offset s' = line_offset mixed_session
    /\ 0 <= offset s' <= zlength (buffer s')
    /\ codepoint_boundary (buffer s') (offset s') = true.
Proof.
  apply (motion_keys_keep_text ascii_word (demo_session 20 true true)
           mixed_session mixed_keys); [demo_reached..|].
  cbn [In]. tauto.
Defined.

(** An emoticon between "é" and "€", and Backspace. *)
Lemma typed_then_backspace_restores_witness :
  exists s1 o1 s2 o2,
    on_key ascii_word (key_unicode 0x1f600) mixed_session = Some (false, s1, o1)
    /\ buffer s1
       = ztake (offset mixed_session) (buffer mixed_session) ++ utf8_encode 0x1f600
         ++ zdrop (offset mixed_session) (buffer mixed_session)
    /\ on_key ascii_word (key_sym TERMKEY_SYM_BACKSPACE) s1 = Some (false, s2, o2)
    /\ buffer s2 = buffer mixed_session /\ offset s2 = offset mixed_session
    /\ line_offset s2 = line_offset mixed_session.
Proof.
  apply (typed_then_backspace_restores ascii_word (demo_session 20 true true)
           mixed_session mixed_keys); demo_reached.
Defined.

Lemma kill_line_cuts_at_cursor_witness :
  exists s' out,
    on_key ascii_word (key_ctrl 0x6b) mixed_session = Some (false, s', out)
    /\ buffer s' = ztake (offset mixed_session) (buffer mixed_session)
    /\ offset s' = offset mixed_session
    /\ on_key ascii_word (key_ctrl 0x6b) s' = Some (false, s', []).
Proof.
  apply (kill_line_cuts_at_cursor ascii_word (demo_session 20 true true)
           mixed_session mixed_keys); demo_reached.
Defined.

(** "abc" and Ctrl-U: the buffer is empty, the offset is 3, and no key
    can insert. *)
Lemma line_discard_keeps_offset_witness :
  exists s' out,
    on_key ascii_word (key_ctrl 0x75) abc_session = Some (false, s', out)
    /\ buffer s' = zdrop (offset abc_session) (buffer abc_session)
    /\ line_offset_ok s' = true
    /\ pos_x s' = prompt_len s' /\ pos_y s' = 0
    /\ offset s' = offset abc_session
    /\ forall uc, on_key ascii_word (key_unicode uc) s' = None.
Proof.
  destruct (line_discard_keeps_offset ascii_word (demo_session 20 true true)
              abc_session [key_unicode 0x61; key_unicode 0x62; key_unicode 0x63])
    as [s' [out [E [Hb [Hl [Hx [Hy [Ho Hn]]]]]]]]; [demo_reached..|].
  exists s', out. repeat (split; [assumption|]).
  apply Hn. vm_compute. reflexivity.
Defined.

(** ** A prompt that fills a single-line window *)

(** Where [prepare] leaves the cursor. *)
Lemma prepare_column su s0 :
  term_state s0 = closed ->
  after (prepare su) s0
    (fun _ s => initial_col s = 1 /\ 0 <= prompt_len s < 2 ^ 32).
Proof.
  intros Hcl. unfold prepare.
  assert (forall x, 0 <= u32 x < 2 ^ 32) as Hu
    by (intros x; unfold u32; apply Z.mod_pos_bound; lia).
  repeat (after_step; fields);
    try (rewrite Hcl in *; discriminate);
    (split; [boolZ; assumption|apply Hu]).
Qed.

Lemma after_None {A} (m : M A) s (Q : A -> handle -> Prop) : m s = None -> after m s Q.
Proof. intros H a s' o E. rewrite H in E. discriminate E. Qed.

(** The scrolling view with the cursor at the start of the buffer. *)
Lemma insert_scrolling_at_start s lo :
  offset s = 0 -> line_offset s = 0 :: lo ->
  Z.max 1 (nine_tenths (term_cols s)) < u32 (initial_col s + pos_x s) ->
  insert_scrolling s = None.
Proof.
  intros Ho Hlo Hwide. apply after_False. unfold insert_scrolling.
  after_step. after_step.
  destruct (Z.ltb_spec (Z.max 1 (nine_tenths (term_cols s)))
              (u32 (initial_col s + pos_x s))); [|lia].
  cbv zeta. rewrite Hlo, Ho. change (zget (0 :: lo) 0) with (Some 0).
  after_step. apply after_defined. intros lo0 E. inversion E; subst lo0. clear E.
  after_step. apply after_defined. intros [no c] _.
  after_step. after_step. after_step. after_step.
  exfalso.
  assert ((if 0 <? no then 0 else no) = 0) as E0
    by (boolZ; destruct (Z.ltb_spec 0 no); lia).
  rewrite E0, ztake_0 in *.
  match goal with Hpos : (0 <? u8_mbsnlen []) = true |- _ => discriminate Hpos end.
Qed.

Section WidePrompt.

Variable uc_is_word : Z -> bool.

(** X21. In a single-line session whose prompt ends behind nine tenths of the
    window, the first key that inserts finds nothing that it could scroll
    out of the view: the assertion [nchars2 > 0] fails. *)
Theorem single_line_wide_prompt_aborts (s : handle) (k : TermKeyKey) :
  freshly_prepared s -> multiline s = false ->
  prompt_len s + 1 < 2 ^ 32 ->
  Z.max 1 (nine_tenths (term_cols s)) < prompt_len s + 1 ->
  type k = TERMKEY_TYPE_UNICODE ->
  Z.land (modifiers k) (Z.lor TERMKEY_KEYMOD_ALT TERMKEY_KEYMOD_CTRL) = 0 ->
  on_key uc_is_word k s = None.
Proof.
  intros [su [s0 [out [Hcl Hprep]]]] Hm Hp32 Hwide Hty Hmod.
  destruct (prepare_resets su s0 Hcl _ _ _ Hprep) as [Hb [Hlo [Ho [Hy Hx]]]].
  destruct (prepare_column su s0 Hcl _ _ _ Hprep) as [Hic Hpl].
  apply after_False. unfold on_key. rewrite Hty, Hmod. cbn [Z.eqb].
  after_step. after_step. after_step. after_step.
  after_step. apply after_defined. intros buf _.
  cbv zeta. apply after_bind.
  assert (after (if (zlength (buffer s) =? 0) && negb (zlength (empty_message s) =? 0)
                 then write clear_eol else ret tt) s
                (fun _ s1 => s1 = s)) as Hframe
    by (destruct ((zlength (buffer s) =? 0) && negb (zlength (empty_message s) =? 0));
        after_step; reflexivity).
  intros a s1 o1 E1. rewrite (Hframe a s1 o1 E1). clear Hframe E1.
  apply after_bind. apply after_None.
  rewrite Ho, Hb. change (zlength (@nil Z)) with 0. cbn [Z.eqb].
  rewrite orb_true_r, Hm.
  unfold bind at 1, modify at 1. cbv beta iota.
  unfold bind at 1, modify at 1. cbv beta iota.
  rewrite (insert_scrolling_at_start _ []); [reflexivity|fields; exact Ho|fields; exact Hlo|].
  fields. rewrite Hic, Hx, u32_small by lia. lia.
Qed.

End WidePrompt.

(** A window of ten columns and the prompt "password: ". *)
Lemma single_line_wide_prompt_aborts_witness :
  on_key ascii_word (key_unicode 0x61) wide_prompt_session = None.
Proof.
  apply (single_line_wide_prompt_aborts ascii_word wide_prompt_session (key_unicode 0x61)).
  - exists (demo_setup 10), wide_prompt_closed.
    unfold wide_prompt_session.
    destruct (prepare (demo_setup 10) wide_prompt_closed) as [[[[] s] out]|] eqn:E.
    + exists out. split; [reflexivity|reflexivity].
    + exfalso. revert E. vm_compute. discriminate.
  - reflexivity.
  - vm_compute. reflexivity.
  - vm_compute. reflexivity.
  - reflexivity.
  - reflexivity.
Defined.

(** ** End on a text of ASCII *)

Lemma ascii_seq c :
  utf8_seq c = true -> Forall (fun b => b < 0x80) c -> zlength c = 1.
Proof.
  intros Hu Ha. destruct c as [|b0 [|b1 t]]; [discriminate Hu|reflexivity|].
  exfalso. inversion Ha as [|? ? Hb0 _]; subst.
  destruct t as [|b2 [|b3 [|b4 t]]]; cbn [utf8_seq] in Hu; boolZ;
    try discriminate Hu; lia.
Qed.

Lemma ascii_chunks cs :
  chunks_ok cs -> Forall (fun b => b < 0x80) (concat cs) ->
  Forall (fun c => zlength c = 1) cs.
Proof.
  induction cs as [|c cs IH]; intros Hcs Ha; [constructor|].
  inversion Hcs as [|? ? Hc Hcs']; subst.
  cbn [concat] in Ha. apply Forall_app in Ha. destruct Ha as [Ha1 Ha2].
  constructor; [apply ascii_seq; assumption|apply IH; assumption].
Qed.

(** [u8_strnlen] counts units: that is the number of codepoints when
    each of them has one unit. *)
Lemma strnlen_single_units cs :
  Forall (fun c => key_seq c = true) cs -> Forall (fun c => zlength c = 1) cs ->
  u8_strnlen (concat cs) = zlength cs.
Proof.
  induction cs as [|c cs IH]; intros Hk H1; [reflexivity|].
  inversion Hk as [|? ? Hkc Hk']; subst. inversion H1 as [|? ? Hc H1']; subst.
  destruct c as [|b [|b1 t]];
    try (exfalso; unfold zlength in Hc; cbn [length] in Hc; lia).
  cbn [concat app u8_strnlen]. rewrite zlength_cons, (IH Hk' H1').
  destruct (Z.eqb_spec b 0) as [->|]; [discriminate Hkc|reflexivity].
Qed.

Lemma cb_end_of_line_single_units B s cs k :
  edit_inv B s cs k -> B < 2 ^ 31 -> Forall (fun c => zlength c = 1) cs ->
  wp cb_end_of_line s (fun d s' _ => d = false /\ edit_inv B s' cs (zlength cs)).
Proof.
  intros He HB H1. inv_facts He.
  pose proof (cp_offset_le_len cs k) as Hle.
  pose proof (cp_offset_nonneg cs k) as Hge.
  destruct (row_count_bounds (term_cols s - prompt_len s) (term_cols s) (zlength cs)
              Ha Hco ltac:(lia)) as [HR0 [HR1 HR2]].
  set (R := row_count (term_cols s - prompt_len s) (term_cols s) (zlength cs)) in *.
  pose proof (row_start_ge (term_cols s - prompt_len s) (term_cols s) (Z.of_nat R - 1)
                Ha Hco ltac:(lia)) as Hrg.
  unfold cb_end_of_line. wp_steps. rewrite Ho, Hb.
  destruct (Z.eqb_spec (cp_offset cs k) (zlength (concat cs))) as [Heq|Hne].
  - cbn [negb]. wp_steps. split; [reflexivity|].
    assert (k = zlength cs) as <-; [|exact He].
    rewrite <- (cp_offset_all cs (zlength cs)) in Heq by lia.
    apply Z.le_antisymm; [lia|].
    apply (cp_offset_le_inv cs); auto; lia.
  - cbn [negb]. wp_steps. rewrite Hz.
    rewrite !(u32_small (Z.of_nat R - 1)) by lia.
    rewrite Hrows, zget_rows_list by lia.
    eapply wp_defined; [reflexivity|]. wp_steps.
    set (j := row_start (term_cols s - prompt_len s) (term_cols s) (Z.of_nat R - 1)) in *.
    pose proof (cp_offset_le_len cs j).
    apply wp_assert; [boolZ; lia|]. wp_steps.
    rewrite zdrop_cp_offset, strnlen_single_units
      by (first [apply Forall_zdrop; assumption]).
    rewrite zlength_zdrop by lia.
    apply wp_move_to. intros _. wp_steps.
    split; [reflexivity|].
    assert (0 <= (if Z.of_nat R - 1 =? 0 then prompt_len s else 0) + (zlength cs - j)
            < 2 ^ 32) as Hx32.
    { destruct (Z.eqb_spec (Z.of_nat R - 1) 0); lia. }
    rewrite !u32_small by lia.
    split; [text_frame Ht|].
    constructor; fields; fold j; try lia.
    rewrite cp_offset_all by lia. reflexivity.
Qed.

Section AtEnd.

Variable uc_is_word : Z -> bool.

(** The session [s] is reached from the state that [prepare] sets up, in
    multi-line and insert mode, by the keys [ks]. *)
Variables (s0 s : handle) (ks : list TermKeyKey).
Hypothesis R_prep : freshly_prepared s0.
Hypothesis R_multi : multiline s0 = true.
Hypothesis R_ins : insert s0 = true.
Hypothesis R_prompt : 0 <= prompt_len s0 < term_cols s0.
Hypothesis R_max : 1 <= max_lines s0.
Hypothesis R_req : 0 <= requested_pos_x s0 < 2 ^ 32.
Hypothesis R_room : term_cols s0 + 4 * zlength ks + 12 < 2 ^ 31.
Hypothesis R_keys : Forall (fun k => allowed_key k = true) ks.
Hypothesis R_run : type_keys uc_is_word ks s0 = Some s.

(** X22. In a multi-line session in insert mode whose prompt is narrower than
    the window, after any keys other than End, Ctrl-E, Ctrl-U and Insert:
    End and Ctrl-E on a buffer of ASCII only are handled, the buffer and
    the row starts stay, the cursor offset is the length of the buffer, and
    the session is as consistent as before: whatever keys other than End,
    Ctrl-E, Ctrl-U and Insert follow, they are handled and [line_offset]
    keeps its properties. *)
Theorem end_of_line_on_ascii (k : TermKeyKey) :
  In k [key_sym TERMKEY_SYM_END; key_ctrl 0x65] ->
  Forall (fun b => b < 0x80) (buffer s) ->
  exists s' out,
    on_key uc_is_word k s = Some (false, s', out)
    /\ buffer s' = buffer s /\ line_offset s' = line_offset s
    /\ offset s' = zlength (buffer s)
    /\ forall ks',
         term_cols s0 + 4 * (zlength ks + zlength ks') + 12 < 2 ^ 31 ->
         Forall (fun k' => allowed_key k' = true) ks' ->
         exists s'', type_keys uc_is_word ks' s' = Some s''
                     /\ line_offset_ok s'' = true.
Proof.
  intros Hin Hascii.
  destruct (reached_edit_inv uc_is_word s0 s ks R_prep R_multi R_ins R_prompt R_max
              R_req R_room R_keys R_run) as [cs [k0 He]].
  pose proof (zlength_nonneg ks).
  set (B := term_cols s0 + 4 * zlength ks) in He |- *.
  pose proof He as [[_ _ _ Hks Hb _ _ _] _].
  pose proof (key_seqs_chunks _ Hks) as Hcs.
  rewrite Hb in Hascii. pose proof (ascii_chunks cs Hcs Hascii) as H1.
  pose proof (cb_end_of_line_single_units B s cs k0 He ltac:(unfold B; lia) H1) as Hwp.
  assert (wp (on_key uc_is_word k) s
             (fun d s' _ => d = false /\ edit_inv B s' cs (zlength cs)))
    as [d [s' [out [E [-> He']]]]].
  { cbn [In] in Hin. destruct Hin as [<-|[<-|[]]].
    - apply (wp_on_key_sym uc_is_word (key_sym TERMKEY_SYM_END) cb_end_of_line s
               (fun d s' => d = false /\ edit_inv B s' cs (zlength cs))
               eq_refl eq_refl Hwp).
    - unfold wp.
      rewrite (on_key_mod uc_is_word (key_ctrl 0x65) cb_end_of_line s eq_refl)
        by (first [reflexivity|cbv; discriminate]).
      exact Hwp. }
  exists s', out. split; [exact E|].
  destruct (on_key_window uc_is_word _ _ _ _ _ E) as [Hc Hp].
  destruct (same_text _ _ s s' cs k0 _ He He' Hc Hp) as [Hb' Hl'].
  split; [exact Hb'|]. split; [exact Hl'|].
  split.
  { destruct He' as [_ [_ Ho' _ _ _ _]].
    rewrite Ho', Hb, cp_offset_all by lia. reflexivity. }
  intros ks' Hroom' Hal'. pose proof (zlength_nonneg ks').
  destruct (type_keys_editing uc_is_word ks' B s' (ex_intro _ cs (ex_intro _ _ He'))
              ltac:(unfold B; lia) Hal') as [s'' [E'' He'']].
  exists s''. split; [exact E''|].
  apply (editing_line_offset_ok _ _ He'').
Qed.

End AtEnd.

(** Home and End on "abc", and then the keys of the example that
    wraps. *)
Lemma end_of_line_on_ascii_witness :
  exists s' out,
    on_key ascii_word (key_sym TERMKEY_SYM_END)
      (demo_after 20 true true
         [key_unicode 0x61; key_unicode 0x62; key_unicode 0x63;
          key_sym TERMKEY_SYM_HOME])
    = Some (false, s', out)
    /\ buffer s' = [0x61; 0x62; 0x63] /\ line_offset s' = [0]
    /\ offset s' = 3
    /\ exists s'', type_keys ascii_word wrapping_keys s' = Some s''
                   /\ line_offset_ok s'' = true.
Proof.
  destruct (end_of_line_on_ascii ascii_word (demo_session 20 true true)
              (demo_after 20 true true
                 [key_unicode 0x61; key_unicode 0x62; key_unicode 0x63;
                  key_sym TERMKEY_SYM_HOME])
              [key_unicode 0x61; key_unicode 0x62; key_unicode 0x63;
               key_sym TERMKEY_SYM_HOME]
              ltac:(demo_reached) ltac:(demo_reached) ltac:(demo_reached)
              ltac:(demo_reached) ltac:(demo_reached) ltac:(demo_reached)
              ltac:(demo_reached) ltac:(demo_reached) ltac:(demo_reached)
              (key_sym TERMKEY_SYM_END))
    as [s' [out [E [Hb [Hl [Ho Hnext]]]]]].
  - cbn [In]. tauto.
  - vm_compute. repeat constructor.
  - exists s', out. split; [exact E|]. split; [exact Hb|]. split; [exact Hl|].
    split; [exact Ho|].
    apply Hnext; [vm_compute; reflexivity|unfold wrapping_keys; repeat constructor].
Defined.

(** ** Back to the start of a word *)

Section BackwardWord.

Variable uc_is_word : Z -> bool.

(** The loop of [cb_backward_word] from the codepoint [m] ends at the
    nearest start of a word at or before [m], or at the start of the
    buffer. *)
Lemma backward_word_loop_start cs :
  chunks_ok cs ->
  forall (fuel : nat) m c1,
    zget cs m = Some c1 -> (Z.to_nat m <= fuel)%nat ->
    exists k', 0 <= k' <= m
      /\ backward_word_loop uc_is_word fuel (concat cs) (cp_offset cs m) (chunk_char c1)
         = Some (cp_offset cs k')
      /\ (k' = 0 \/ word_start uc_is_word cs k' = true)
      /\ forall j, k' < j <= m -> word_start uc_is_word cs j = false.
Proof.
  intros Hcs. induction fuel as [|fuel IH]; intros m c1 Hc1 Hf;
    pose proof (zget_Some_range _ _ _ Hc1) as Hm.
  - assert (m = 0) as -> by lia.
    cbn [backward_word_loop]. rewrite (cp_offset_0 cs 0) by lia.
    cbn. exists 0. split; [lia|]. rewrite cp_offset_0 by lia.
    split; [reflexivity|]. split; [left; reflexivity|]. intros j Hj. lia.
  - cbn [backward_word_loop].
    destruct (Z.ltb_spec 0 (cp_offset cs m)) as [Hlt|Hge].
    + assert (0 < m) as Hm0.
      { destruct (Z.eq_dec m 0) as [->|]; [rewrite cp_offset_0 in Hlt|]; lia. }
      destruct (u8_prev_chunks cs m Hcs ltac:(lia)) as [c [Hc Hprev]].
      rewrite Hprev.
      assert (word_start uc_is_word cs m
              = uc_is_word (chunk_char c1) && negb (uc_is_word (chunk_char c))) as Hws
        by (unfold word_start; rewrite Hc1, Hc; reflexivity).
      destruct (uc_is_word (chunk_char c1) && negb (uc_is_word (chunk_char c))) eqn:Ew.
      * exists m. split; [lia|]. split; [reflexivity|].
        split; [right; exact Hws|]. intros j Hj. lia.
      * destruct (IH (m - 1) c Hc ltac:(lia)) as [k' [Hk' [E [Hst Hno]]]].
        exists k'. split; [lia|]. split; [exact E|]. split; [exact Hst|].
        intros j Hj. destruct (Z.eq_dec j m) as [->|Hjm]; [exact Hws|].
        apply Hno. lia.
    + assert (m = 0) as ->.
      { destruct (Z.eq_dec m 0) as [|Hn]; [assumption|].
        pose proof (cp_offset_pos cs m Hcs ltac:(lia)). lia. }
      exists 0. split; [lia|]. split; [reflexivity|].
      split; [left; reflexivity|]. intros j Hj. lia.
Qed.

(** The session [s] is reached from the state that [prepare] sets up, in
    multi-line and insert mode, by the keys [ks]. *)
Variables (s0 s : handle) (ks : list TermKeyKey).
Hypothesis R_prep : freshly_prepared s0.
Hypothesis R_multi : multiline s0 = true.
Hypothesis R_ins : insert s0 = true.
Hypothesis R_prompt : 0 <= prompt_len s0 < term_cols s0.
Hypothesis R_max : 1 <= max_lines s0.
Hypothesis R_req : 0 <= requested_pos_x s0 < 2 ^ 32.
Hypothesis R_room : term_cols s0 + 4 * zlength ks + 12 < 2 ^ 31.
Hypothesis R_keys : Forall (fun k => allowed_key k = true) ks.
Hypothesis R_run : type_keys uc_is_word ks s0 = Some s.

(** X23. In a multi-line session in insert mode whose prompt is narrower than
    the window, after any keys other than End, Ctrl-E, Ctrl-U and Insert:
    Alt-B with the cursor behind the start of the buffer moves the cursor
    back to the nearest start of a word (a letter or digit whose
    predecessor is none) before it, or to the start of the buffer when
    there is no start of a word before the cursor; the buffer stays.  The
    codepoints of the buffer are [cs], the cursor is before the codepoint
    [k] and afterwards before the codepoint [k']. *)
Theorem backward_word_finds_word_start :
  0 < offset s ->
  exists cs k k' s' out,
    buffer s = concat cs /\ chunks_ok cs
    /\ 0 < k <= zlength cs /\ offset s = cp_offset cs k
    /\ on_key uc_is_word (key_alt 0x62) s = Some (false, s', out)
    /\ buffer s' = buffer s /\ offset s' = cp_offset cs k'
    /\ 0 <= k' < k
    /\ (k' = 0 \/ word_start uc_is_word cs k' = true)
    /\ forall j, k' < j < k -> word_start uc_is_word cs j = false.
Proof.
  intros Hoff.
  destruct (reached_edit_inv uc_is_word s0 s ks R_prep R_multi R_ins R_prompt R_max
              R_req R_room R_keys R_run) as [cs [k He]].
  pose proof (zlength_nonneg ks).
  set (B := term_cols s0 + 4 * zlength ks) in He |- *.
  pose proof He as [[_ _ _ Hks Hb _ _ _] [Hk Ho _ _ _ _]].
  pose proof (key_seqs_chunks _ Hks) as Hcs.
  rewrite Ho in Hoff. pose proof (offset_pos_index _ _ Hoff) as Hk0.
  destruct (zget_range cs (k - 1) ltac:(lia)) as [c Hc1].
  destruct (backward_word_loop_start cs Hcs (length (buffer s)) (k - 1) c Hc1)
    as [k' [Hk' [Hloop [Hst Hno]]]].
  { rewrite Hb. pose proof (chunks_length cs Hcs). unfold zlength in *. lia. }
  destruct (wp_after _ _ _ (fun d _ => d = false)
              (cb_backward_word_at uc_is_word B s cs k c k' He ltac:(unfold B; lia)
                 Hk0 Hc1 Hloop Hk'))
    as [d [s' [out [E [He' ->]]]]];
    [unfold cb_backward_word; apply after_ret_false|].
  exists cs, k, k', s', out.
  rewrite (on_key_mod uc_is_word (key_alt 0x62) (cb_backward_word uc_is_word) s eq_refl)
    by (first [reflexivity|cbv; discriminate]).
  destruct He' as [[_ _ _ _ Hb' _ _ _] [_ Ho' _ _ _ _]].
  split; [exact Hb|]. split; [exact Hcs|]. split; [lia|]. split; [exact Ho|].
  split; [exact E|]. split; [congruence|]. split; [exact Ho'|].
  split; [lia|]. split; [exact Hst|].
  intros j Hj. apply Hno. lia.
Qed.

End BackwardWord.

(** Behind "ab cd": Alt-B goes before "c". *)
Lemma backward_word_finds_word_start_witness :
  exists cs k k' s' out,
    buffer words_session = concat cs /\ chunks_ok cs
    /\ 0 < k <= zlength cs /\ offset words_session = cp_offset cs k
    /\ on_key ascii_word (key_alt 0x62) words_session = Some (false, s', out)
    /\ buffer s' = buffer words_session /\ offset s' = cp_offset cs k'
    /\ 0 <= k' < k
    /\ (k' = 0 \/ word_start ascii_word cs k' = true)
    /\ forall j, k' < j < k -> word_start ascii_word cs j = false.
Proof.
  apply (backward_word_finds_word_start ascii_word (demo_session 20 true true)
           words_session words_keys); demo_reached.
Defined.
